(** * Maze Runner: a shallow embedding of the maze-simulation engine

    The development follows the JavaScript sources of the game client:
    [MazeGenerator.js], [MazeRenderer.js], [Player.js], [Enemy.js],
    [Pellet.js], [AIController.js], [GameEngine.js] and [InputHandler.js].

    Conventions of the embedding.
    - A JavaScript number that holds a grid index or a counter is a [Z];
      a number that holds a pixel coordinate, a speed or a duration is an
      exact rational [Q] (rounding of IEEE doubles is not modelled, and
      [Math.sqrt (a) < b] is written as a comparison of squares).  Sums
      and differences of whole numbers up to 2^53, halving, and the sign
      of a difference are the same in both; a theorem whose conclusion
      would depend on the rounding of other sums is stated for whole
      numbers or as an inequality that the rounding preserves.
    - [Math.floor (a / b)] is [Qfloor (a / b)] on rationals and [Z.div] on
      integers (both round towards minus infinity).
    - An object that the code mutates in place is threaded through the
      functions as a value.  Object identity, where the code relies on it
      ([Array.prototype.indexOf]), is an explicit [id] field.
    - A thrown exception is the [Throw] outcome of the [Result] type. *)

From Stdlib Require Import ZArith QArith Qround Qminmax Lia Lqa String.
From stdpp Require Import gmap list.

(** * Part I: the program *)

(** ** Numbers and small helpers *)

Local Open Scope Q_scope.

Definition Qltb (a b : Q) : bool := negb (Qle_bool b a).
Definition Qgtb (a b : Q) : bool := Qltb b a.
Definition Qgeb (a b : Q) : bool := Qle_bool b a.
Definition Qnonzero (a : Q) : bool := negb (Qeq_bool a 0).

(** [{ x, y }] with rational components: directions and world positions. *)
Record Vec : Type := mkVec { vx : Q; vy : Q }.

Definition vzero : Vec := mkVec 0 0.

(** A grid cell [{ x, y }]; the first component is the column. *)
Definition Cell : Type := (Z * Z)%type.

(** [Math.sqrt (dx * dx + dy * dy) < c], on exact numbers. *)
Definition distLt (dx dy c : Q) : bool :=
  Qltb 0 c && Qltb (dx * dx + dy * dy) (c * c).

(** [Math.sqrt (dx * dx + dy * dy) <= c], on exact numbers. *)
Definition distLe (dx dy c : Q) : bool :=
  Qle_bool 0 c && Qle_bool (dx * dx + dy * dy) (c * c).

(** ** MazeRenderer.js: the read-only query surface over a grid *)

Module MazeRenderer.

(** [mazeWidth] and [mazeHeight] are written by [setMaze] only, from the
    grid itself; they are functions of the [maze] field here. *)
Record t : Type := mk {
  cellSize : Q;
  maze : option (list (list Z))
}.

Definition new : t := {| cellSize := 20; maze := None |}.

Definition setMaze (m : list (list Z)) (r : t) : t :=
  {| cellSize := cellSize r; maze := Some m |}.


Definition getCellSize (r : t) : Q := cellSize r.

Definition mazeHeight (r : t) : Z :=
  match maze r with
  | Some m => Z.of_nat (length m)
  | None => 0%Z
  end.

Definition mazeWidth (r : t) : Z :=
  match maze r with
  | Some (row0 :: _) => Z.of_nat (length row0)
  | _ => 0%Z
  end.

(** [getMazeDimensions]: the size of the maze in pixels. *)
Definition getMazeDimensions (r : t) : Q * Q :=
  (inject_Z (mazeWidth r) * cellSize r, inject_Z (mazeHeight r) * cellSize r).

Definition worldToGrid (r : t) (worldX worldY : Q) : Cell :=
  (Qfloor (worldX / cellSize r), Qfloor (worldY / cellSize r)).

Definition gridToWorld (r : t) (gridX gridY : Z) : Q * Q :=
  (inject_Z gridX * cellSize r + cellSize r / 2,
   inject_Z gridY * cellSize r + cellSize r / 2).

(** [this.maze[gridPos.y][gridPos.x] === 1]; a missing entry is
    [undefined] and compares unequal. *)
Definition cellIsOne (m : list (list Z)) (gx gy : Z) : bool :=
  match m !! Z.to_nat gy with
  | Some row =>
      match row !! Z.to_nat gx with
      | Some v => Z.eqb v 1
      | None => false
      end
  | None => false
  end.

Definition isWallAtPosition (r : t) (worldX worldY : Q) : bool :=
  match maze r with
  | None => false
  | Some m =>
      let '(gx, gy) := worldToGrid r worldX worldY in
      if Z.ltb gx 0 || Z.geb gx (mazeWidth r) || Z.ltb gy 0 || Z.geb gy (mazeHeight r)
      then true
      else cellIsOne m gx gy
  end.

End MazeRenderer.

(** ** MazeRenderer.js: the camera *)

Module Camera.

(** [this.camera] of the renderer; [width] and [height] are the size of
    the canvas.  The drawing calls of [renderMazeCells] are the list of
    cells passed to [renderWallCell], in order. *)
Record t : Type := mk {
  x : Q;
  y : Q;
  width : Q;
  height : Q
}.

Definition new (canvasWidth canvasHeight : Q) : t :=
  {| x := 0; y := 0; width := canvasWidth; height := canvasHeight |}.

Record VisibleArea : Type := mkArea {
  startX : Z;
  startY : Z;
  endX : Z;
  endY : Z
}.

Definition calculateVisibleArea (r : MazeRenderer.t) (camera : t) : VisibleArea :=
  {| startX := Z.max 0 (Qfloor (x camera / MazeRenderer.cellSize r));
     startY := Z.max 0 (Qfloor (y camera / MazeRenderer.cellSize r));
     endX := Z.min (MazeRenderer.mazeWidth r)
                   (Qceiling ((x camera + width camera) / MazeRenderer.cellSize r));
     endY := Z.min (MazeRenderer.mazeHeight r)
                   (Qceiling ((y camera + height camera) / MazeRenderer.cellSize r)) |}.

Definition renderMazeCells (m : list (list Z)) (visibleArea : VisibleArea) : list Cell :=
  gy ← seqZ (startY visibleArea) (endY visibleArea - startY visibleArea);
  gx ← seqZ (startX visibleArea) (endX visibleArea - startX visibleArea);
  if MazeRenderer.cellIsOne m gx gy then [(gx, gy)] else [].

Definition updateCamera (r : MazeRenderer.t) (camera : t) (targetX targetY : Q) : t :=
  let cx := targetX - width camera / 2 in
  let cy := targetY - height camera / 2 in
  if bool_decide (is_Some (MazeRenderer.maze r)) &&
     Z.ltb 0 (MazeRenderer.mazeWidth r) && Z.ltb 0 (MazeRenderer.mazeHeight r)
  then
    let mazePixelWidth := inject_Z (MazeRenderer.mazeWidth r) * MazeRenderer.cellSize r in
    let mazePixelHeight := inject_Z (MazeRenderer.mazeHeight r) * MazeRenderer.cellSize r in
    {| x := if Qgtb mazePixelWidth (width camera)
            then Qmax 0 (Qmin cx (mazePixelWidth - width camera)) else 0;
       y := if Qgtb mazePixelHeight (height camera)
            then Qmax 0 (Qmin cy (mazePixelHeight - height camera)) else 0;
       width := width camera; height := height camera |}
  else {| x := cx; y := cy; width := width camera; height := height camera |}.

Definition setCameraPosition (camera : t) (nx ny : Q) : t :=
  {| x := nx; y := ny; width := width camera; height := height camera |}.

Definition worldToScreen (camera : t) (worldX worldY : Q) : Q * Q :=
  (worldX - x camera, worldY - y camera).

Definition screenToWorld (camera : t) (screenX screenY : Q) : Q * Q :=
  (screenX + x camera, screenY + y camera).

End Camera.

(** The four-corner collision test shared verbatim by [Player] and [Enemy]
    ([canMoveToPosition] in both classes). *)
Definition cornersFree (r : MazeRenderer.t) (size x y : Q) : bool :=
  let halfSize := size / 2 in
  negb (MazeRenderer.isWallAtPosition r (x - halfSize) (y - halfSize)) &&
  negb (MazeRenderer.isWallAtPosition r (x + halfSize) (y - halfSize)) &&
  negb (MazeRenderer.isWallAtPosition r (x - halfSize) (y + halfSize)) &&
  negb (MazeRenderer.isWallAtPosition r (x + halfSize) (y + halfSize)).

(** ** Player.js *)

Module Player.

(** The animation fields ([animationTime], [mouthAngle]) and the unused
    [lives], [score] and [targetPosition] fields are left out. *)
Record t : Type := mk {
  x : Q;
  y : Q;
  speed : Q;
  direction : Vec;
  nextDirection : Vec;
  targetGridX : Z;
  targetGridY : Z;
  isAtIntersection : bool;
  isMoving : bool;
  mazeRenderer : option MazeRenderer.t
}.

Definition size : Q := 16.
Definition intersectionThreshold : Q := 5.

Definition getSize (p : t) : Q := size.
Definition getPosition (p : t) : Vec := mkVec (x p) (y p).
Definition getDirection (p : t) : Vec := direction p.

Definition canMoveToPosition (p : t) (nx ny : Q) : bool :=
  match mazeRenderer p with
  | None => true
  | Some r => cornersFree r size nx ny
  end.

Definition canMoveInDirection (p : t) (d : Vec) : bool :=
  canMoveToPosition p (x p + vx d * speed p) (y p + vy d * speed p).

Definition updateGridPosition (p : t) : t :=
  match mazeRenderer p with
  | None => p
  | Some r =>
      let '(gx, gy) := MazeRenderer.worldToGrid r (x p) (y p) in
      let '(cx, cy) := MazeRenderer.gridToWorld r gx gy in
      {| x := x p; y := y p; speed := speed p;
         direction := direction p; nextDirection := nextDirection p;
         targetGridX := gx; targetGridY := gy;
         isAtIntersection := distLe (x p - cx) (y p - cy) intersectionThreshold;
         isMoving := isMoving p; mazeRenderer := mazeRenderer p |}
  end.

Definition snapToNearestGridCenter (p : t) : t :=
  match mazeRenderer p with
  | None => p
  | Some r =>
      let cs := MazeRenderer.getCellSize r in
      let gridX := Qfloor (x p / cs) in
      let gridY := Qfloor (y p / cs) in
      {| x := inject_Z gridX * cs + cs / 2;
         y := inject_Z gridY * cs + cs / 2;
         speed := speed p;
         direction := direction p; nextDirection := nextDirection p;
         targetGridX := targetGridX p; targetGridY := targetGridY p;
         isAtIntersection := true;
         isMoving := isMoving p; mazeRenderer := mazeRenderer p |}
  end.

Definition isZeroVec (d : Vec) : bool :=
  negb (Qnonzero (vx d) || Qnonzero (vy d)).

Definition withDirections (p : t) (d nd : Vec) : t :=
  {| x := x p; y := y p; speed := speed p;
     direction := d; nextDirection := nd;
     targetGridX := targetGridX p; targetGridY := targetGridY p;
     isAtIntersection := isAtIntersection p;
     isMoving := isMoving p; mazeRenderer := mazeRenderer p |}.

Definition withPosition (p : t) (nx ny : Q) : t :=
  {| x := nx; y := ny; speed := speed p;
     direction := direction p; nextDirection := nextDirection p;
     targetGridX := targetGridX p; targetGridY := targetGridY p;
     isAtIntersection := isAtIntersection p;
     isMoving := isMoving p; mazeRenderer := mazeRenderer p |}.

Definition withMoving (p : t) (b : bool) : t :=
  {| x := x p; y := y p; speed := speed p;
     direction := direction p; nextDirection := nextDirection p;
     targetGridX := targetGridX p; targetGridY := targetGridY p;
     isAtIntersection := isAtIntersection p;
     isMoving := b; mazeRenderer := mazeRenderer p |}.

(** The queued-turn part of [handleMovement]. *)
Definition applyQueuedTurn (p : t) : t :=
  if isZeroVec (nextDirection p) then p
  else if canMoveInDirection p (nextDirection p)
       then withDirections p (nextDirection p) vzero
       else withDirections p (direction p) vzero.

(** The forward-move part of [handleMovement]. *)
Definition moveForward (p : t) : t :=
  if isZeroVec (direction p) then withMoving p false
  else
    let newX := x p + vx (direction p) * speed p in
    let newY := y p + vy (direction p) * speed p in
    if canMoveToPosition p newX newY
    then withMoving (withPosition p newX newY) true
    else withMoving (withDirections (snapToNearestGridCenter p) vzero (nextDirection p)) false.

Definition handleMovement (p : t) : t :=
  moveForward (applyQueuedTurn (updateGridPosition p)).

(** [handleEdgeWrapping], with the local flag [wrapped] threaded
    through its three stages. *)
Definition wrapHorizontal (p : t) (w cs : Q) : t * bool :=
  if Qltb (x p) (cs / 2) then
    let rightEdgeX := w - cs / 2 in
    if canMoveToPosition p rightEdgeX (y p) then (withPosition p rightEdgeX (y p), true)
    else (p, false)
  else if Qgtb (x p) (w - cs / 2) then
    let leftEdgeX := cs / 2 in
    if canMoveToPosition p leftEdgeX (y p) then (withPosition p leftEdgeX (y p), true)
    else (p, false)
  else (p, false).

Definition wrapVertical (p : t) (h cs : Q) : t * bool :=
  if Qltb (y p) (cs / 2) then
    let bottomEdgeY := h - cs / 2 in
    if canMoveToPosition p (x p) bottomEdgeY then (withPosition p (x p) bottomEdgeY, true)
    else (p, false)
  else if Qgtb (y p) (h - cs / 2) then
    let topEdgeY := cs / 2 in
    if canMoveToPosition p (x p) topEdgeY then (withPosition p (x p) topEdgeY, true)
    else (p, false)
  else (p, false).

Definition handleEdgeWrapping (p : t) : t :=
  match mazeRenderer p with
  | None => p
  | Some r =>
      let '(w, h) := MazeRenderer.getMazeDimensions r in
      let cs := MazeRenderer.getCellSize r in
      (* Horizontal wrapping (left-right edges) *)
      let '(p1, wrapped1) := wrapHorizontal p w cs in
      (* Vertical wrapping, only if no horizontal wrapping occurred *)
      let '(p2, wrapped2) :=
        if wrapped1 then (p1, true) else wrapVertical p1 h cs in
      (* Corner cases *)
      if wrapped2 then p2
      else if (Qltb (x p2) (cs / 2) || Qgtb (x p2) (w - cs / 2)) &&
              (Qltb (y p2) (cs / 2) || Qgtb (y p2) (h - cs / 2))
      then
        let '(p3, wrapped3) := wrapHorizontal p2 w cs in
        if wrapped3 then p3 else fst (wrapVertical p3 h cs)
      else p2
  end.

(** [update (deltaTime)]; [updateAnimation] touches animation fields only. *)
Definition update (p : t) (deltaTime : Q) : t :=
  handleEdgeWrapping (handleMovement p).

Inductive Input : Type := Up | Down | Left | Right.

Definition inputVec (i : Input) : Vec :=
  match i with
  | Up => mkVec 0 (-1)
  | Down => mkVec 0 1
  | Left => mkVec (-1) 0
  | Right => mkVec 1 0
  end.

(** [setDirection]: each of the four cases queues the direction and
    adopts it at once when the first step in it is free. *)
Definition setDirection (p : t) (i : Input) : t :=
  let p1 := withDirections p (direction p) (inputVec i) in
  if canMoveInDirection p1 (nextDirection p1)
  then withDirections p1 (nextDirection p1) vzero
  else p1.

Definition stop (p : t) : t :=
  withMoving (withDirections p vzero vzero) false.

Definition setPosition (p : t) (nx ny : Q) : t := withPosition p nx ny.

Definition setSpeed (p : t) (s : Q) : t :=
  {| x := x p; y := y p; speed := Qmax 0 s;
     direction := direction p; nextDirection := nextDirection p;
     targetGridX := targetGridX p; targetGridY := targetGridY p;
     isAtIntersection := isAtIntersection p;
     isMoving := isMoving p; mazeRenderer := mazeRenderer p |}.

Definition new (x0 y0 : Q) (r : option MazeRenderer.t) : t :=
  updateGridPosition
    {| x := x0; y := y0; speed := 2;
       direction := vzero; nextDirection := vzero;
       targetGridX := 0%Z; targetGridY := 0%Z;
       isAtIntersection := true; isMoving := false;
       mazeRenderer := r |}.

(** The renderer is one object that the engine, the player, the
    controller and the enemies share; when the engine gives it a new maze,
    the holders' views are brought up to date with this. *)
Definition withMazeRenderer (p : t) (r : option MazeRenderer.t) : t :=
  {| x := x p; y := y p; speed := speed p;
     direction := direction p; nextDirection := nextDirection p;
     targetGridX := targetGridX p; targetGridY := targetGridY p;
     isAtIntersection := isAtIntersection p;
     isMoving := isMoving p; mazeRenderer := r |}.

Definition getSpeed (p : t) : Q := speed p.

End Player.

(** ** Enemy.js *)

Module Enemy.

(** [id] stands for the identity of the JavaScript object.  The animation
    clock and the patrol bookkeeping are left out. *)
Record t : Type := mk {
  id : nat;
  x : Q;
  y : Q;
  speed : Q;
  direction : Vec;
  targetDirection : Vec;
  gridX : Z;
  gridY : Z;
  isAtIntersection : bool;
  type : string;
  state : string;
  path : list Cell;
  pathIndex : nat;
  lastPathUpdate : Q;
  pathUpdateInterval : Q;
  isVulnerable : bool;
  vulnerabilityTimer : Q;
  vulnerabilityDuration : Q;
  originalSpeed : option Q;
  color : string;
  originalColor : string;
  mazeRenderer : option MazeRenderer.t
}.

Definition size : Q := 16.
Definition intersectionThreshold : Q := 5.

Definition getSize (e : t) : Q := size.
Definition getPosition (e : t) : Vec := mkVec (x e) (y e).
Definition getType (e : t) : string := type e.
Definition getIsVulnerable (e : t) : bool := isVulnerable e.

Definition withPosition (e : t) (nx ny : Q) : t :=
  {| id := id e; x := nx; y := ny; speed := speed e;
     direction := direction e; targetDirection := targetDirection e;
     gridX := gridX e; gridY := gridY e; isAtIntersection := isAtIntersection e;
     type := type e; state := state e;
     path := path e; pathIndex := pathIndex e;
     lastPathUpdate := lastPathUpdate e; pathUpdateInterval := pathUpdateInterval e;
     isVulnerable := isVulnerable e; vulnerabilityTimer := vulnerabilityTimer e;
     vulnerabilityDuration := vulnerabilityDuration e; originalSpeed := originalSpeed e;
     color := color e; originalColor := originalColor e;
     mazeRenderer := mazeRenderer e |}.

Definition withDirection (e : t) (d : Vec) : t :=
  {| id := id e; x := x e; y := y e; speed := speed e;
     direction := d; targetDirection := targetDirection e;
     gridX := gridX e; gridY := gridY e; isAtIntersection := isAtIntersection e;
     type := type e; state := state e;
     path := path e; pathIndex := pathIndex e;
     lastPathUpdate := lastPathUpdate e; pathUpdateInterval := pathUpdateInterval e;
     isVulnerable := isVulnerable e; vulnerabilityTimer := vulnerabilityTimer e;
     vulnerabilityDuration := vulnerabilityDuration e; originalSpeed := originalSpeed e;
     color := color e; originalColor := originalColor e;
     mazeRenderer := mazeRenderer e |}.

Definition withSpeed (e : t) (s : Q) : t :=
  {| id := id e; x := x e; y := y e; speed := s;
     direction := direction e; targetDirection := targetDirection e;
     gridX := gridX e; gridY := gridY e; isAtIntersection := isAtIntersection e;
     type := type e; state := state e;
     path := path e; pathIndex := pathIndex e;
     lastPathUpdate := lastPathUpdate e; pathUpdateInterval := pathUpdateInterval e;
     isVulnerable := isVulnerable e; vulnerabilityTimer := vulnerabilityTimer e;
     vulnerabilityDuration := vulnerabilityDuration e; originalSpeed := originalSpeed e;
     color := color e; originalColor := originalColor e;
     mazeRenderer := mazeRenderer e |}.

Definition withColor (e : t) (c : string) : t :=
  {| id := id e; x := x e; y := y e; speed := speed e;
     direction := direction e; targetDirection := targetDirection e;
     gridX := gridX e; gridY := gridY e; isAtIntersection := isAtIntersection e;
     type := type e; state := state e;
     path := path e; pathIndex := pathIndex e;
     lastPathUpdate := lastPathUpdate e; pathUpdateInterval := pathUpdateInterval e;
     isVulnerable := isVulnerable e; vulnerabilityTimer := vulnerabilityTimer e;
     vulnerabilityDuration := vulnerabilityDuration e; originalSpeed := originalSpeed e;
     color := c; originalColor := originalColor e;
     mazeRenderer := mazeRenderer e |}.

Definition withVulnerabilityTimer (e : t) (timer : Q) : t :=
  {| id := id e; x := x e; y := y e; speed := speed e;
     direction := direction e; targetDirection := targetDirection e;
     gridX := gridX e; gridY := gridY e; isAtIntersection := isAtIntersection e;
     type := type e; state := state e;
     path := path e; pathIndex := pathIndex e;
     lastPathUpdate := lastPathUpdate e; pathUpdateInterval := pathUpdateInterval e;
     isVulnerable := isVulnerable e; vulnerabilityTimer := timer;
     vulnerabilityDuration := vulnerabilityDuration e; originalSpeed := originalSpeed e;
     color := color e; originalColor := originalColor e;
     mazeRenderer := mazeRenderer e |}.

(** *** Vulnerability *)

(** JavaScript truthiness of [this.originalSpeed]: [undefined] and [0]
    are falsy. *)
Definition truthy (o : option Q) : bool :=
  match o with
  | Some s => Qnonzero s
  | None => false
  end.

(** [setVulnerable (vulnerable, duration = this.vulnerabilityDuration)];
    [None] takes the default. *)
Definition setVulnerable (e : t) (vulnerable : bool) (duration : option Q) : t :=
  let wasVulnerable := isVulnerable e in
  if vulnerable then
    {| id := id e; x := x e; y := y e;
       speed := if negb wasVulnerable then speed e * (1 # 2) else speed e;
       direction := direction e; targetDirection := targetDirection e;
       gridX := gridX e; gridY := gridY e; isAtIntersection := isAtIntersection e;
       type := type e; state := "vulnerable";
       path := []; pathIndex := 0%nat;
       lastPathUpdate := lastPathUpdate e; pathUpdateInterval := pathUpdateInterval e;
       isVulnerable := true;
       vulnerabilityTimer := default (vulnerabilityDuration e) duration;
       vulnerabilityDuration := vulnerabilityDuration e;
       originalSpeed := if negb wasVulnerable then Some (speed e) else originalSpeed e;
       color := color e; originalColor := originalColor e;
       mazeRenderer := mazeRenderer e |}
  else
    {| id := id e; x := x e; y := y e;
       speed := if wasVulnerable && truthy (originalSpeed e)
                then default 0 (originalSpeed e) else speed e;
       direction := direction e; targetDirection := targetDirection e;
       gridX := gridX e; gridY := gridY e; isAtIntersection := isAtIntersection e;
       type := type e; state := "chase";
       path := []; pathIndex := 0%nat;
       lastPathUpdate := lastPathUpdate e; pathUpdateInterval := pathUpdateInterval e;
       isVulnerable := false;
       vulnerabilityTimer := 0;
       vulnerabilityDuration := vulnerabilityDuration e;
       originalSpeed := originalSpeed e;
       color := originalColor e; originalColor := originalColor e;
       mazeRenderer := mazeRenderer e |}.

(** [Math.floor (timer / rate) % 2 === 0] *)
Definition flashPhase (timer rate : Q) : bool :=
  Z.eqb (Z.rem (Qfloor (timer / rate)) 2) 0.

(** [this.vulnerabilityTimer -= deltaTime], on exact numbers: the test
    [<= 0] that follows has the outcome of the code for every pair of
    numbers, the timer that is kept has the code's value when both are
    whole numbers. *)
Definition updateVulnerabilityState (e : t) (deltaTime : Q) : t :=
  if isVulnerable e then
    let e1 := withVulnerabilityTimer e (vulnerabilityTimer e - deltaTime) in
    if Qle_bool (vulnerabilityTimer e1) 0 then setVulnerable e1 false None
    else if Qgtb (vulnerabilityTimer e1) 3000 then withColor e1 "#0000FF"
    else if Qgtb (vulnerabilityTimer e1) 1000
         then withColor e1 (if flashPhase (vulnerabilityTimer e1) 300
                            then "#0000FF" else "#FFFFFF")
         else withColor e1 (if flashPhase (vulnerabilityTimer e1) 100
                            then "#0000FF" else originalColor e1)
  else e.

Definition setSpeed (e : t) (s : Q) : t := withSpeed e (Qmax 0 s).

(** *** Movement *)

Definition canMoveToPosition (e : t) (nx ny : Q) : bool :=
  match mazeRenderer e with
  | None => true
  | Some r => cornersFree r size nx ny
  end.

Definition updateGridPosition (e : t) : t :=
  match mazeRenderer e with
  | None => e
  | Some r =>
      let '(gx, gy) := MazeRenderer.worldToGrid r (x e) (y e) in
      let '(cx, cy) := MazeRenderer.gridToWorld r gx gy in
      {| id := id e; x := x e; y := y e; speed := speed e;
         direction := direction e; targetDirection := targetDirection e;
         gridX := gx; gridY := gy;
         isAtIntersection := distLe (x e - cx) (y e - cy) intersectionThreshold;
         type := type e; state := state e;
         path := path e; pathIndex := pathIndex e;
         lastPathUpdate := lastPathUpdate e; pathUpdateInterval := pathUpdateInterval e;
         isVulnerable := isVulnerable e; vulnerabilityTimer := vulnerabilityTimer e;
         vulnerabilityDuration := vulnerabilityDuration e; originalSpeed := originalSpeed e;
         color := color e; originalColor := originalColor e;
         mazeRenderer := mazeRenderer e |}
  end.

(** The three alternatives of [handleWallCollision], in the order tried:
    turn left, turn right, turn around. *)
Definition alternatives (d : Vec) : list Vec :=
  [ mkVec (- vy d) (vx d); mkVec (vy d) (- vx d); mkVec (- vx d) (- vy d) ].

Definition handleWallCollision (e : t) : t :=
  match
    List.find (fun alt => canMoveToPosition e (x e + vx alt * speed e) (y e + vy alt * speed e))
              (alternatives (direction e))
  with
  | Some alt => withDirection e alt
  | None => e
  end.

Definition smoothing : Q := 1 # 10.

Definition handleMovement (e : t) : t :=
  let e1 := updateGridPosition e in
  let d := mkVec (vx (direction e1) + (vx (targetDirection e1) - vx (direction e1)) * smoothing)
                 (vy (direction e1) + (vy (targetDirection e1) - vy (direction e1)) * smoothing) in
  let e2 := withDirection e1 d in
  let newX := x e2 + vx (direction e2) * speed e2 in
  let newY := y e2 + vy (direction e2) * speed e2 in
  if canMoveToPosition e2 newX newY
  then withPosition e2 newX newY
  else handleWallCollision e2.

Definition wrapHorizontal (e : t) (w cs : Q) : t :=
  if Qltb (x e) (cs / 2) then
    let rightEdgeX := w - cs / 2 in
    if canMoveToPosition e rightEdgeX (y e) then withPosition e rightEdgeX (y e) else e
  else if Qgtb (x e) (w - cs / 2) then
    let leftEdgeX := cs / 2 in
    if canMoveToPosition e leftEdgeX (y e) then withPosition e leftEdgeX (y e) else e
  else e.

Definition wrapVertical (e : t) (h cs : Q) : t :=
  if Qltb (y e) (cs / 2) then
    let bottomEdgeY := h - cs / 2 in
    if canMoveToPosition e (x e) bottomEdgeY then withPosition e (x e) bottomEdgeY else e
  else if Qgtb (y e) (h - cs / 2) then
    let topEdgeY := cs / 2 in
    if canMoveToPosition e (x e) topEdgeY then withPosition e (x e) topEdgeY else e
  else e.

Definition handleEdgeWrapping (e : t) : t :=
  match mazeRenderer e with
  | None => e
  | Some r =>
      let '(w, h) := MazeRenderer.getMazeDimensions r in
      let cs := MazeRenderer.getCellSize r in
      wrapVertical (wrapHorizontal e w cs) h cs
  end.

(** *** A-star path planning *)

(** [gridKey] maps a cell to the string ["x,y"], an injective encoding of
    pairs of integers; the maps and the set below are keyed by the cell. *)
Definition heuristic (a b : Cell) : Z :=
  (Z.abs (a.1 - b.1) + Z.abs (a.2 - b.2))%Z.

Definition neighborDirections : list Cell :=
  [ (0, -1); (1, 0); (0, 1); (-1, 0) ]%Z.

Definition getNeighbors (r : MazeRenderer.t) (node : Cell) : list Cell :=
  List.filter
    (fun neighbor =>
       let '(wx, wy) := MazeRenderer.gridToWorld r neighbor.1 neighbor.2 in
       negb (MazeRenderer.isWallAtPosition r wx wy))
    (List.map (fun dir => (node.1 + dir.1, node.2 + dir.2)%Z) neighborDirections).

Record AStar : Type := mkAStar {
  openSet : list Cell;
  closedSet : gset Cell;
  cameFrom : gmap Cell Cell;
  gScore : gmap Cell Z;
  fScore : gmap Cell Z
}.

(** [map.get (key)] of a score; every key that the search reads has been
    written before (lemma [astar_scores_defined]), so the default is never
    used. *)
Definition getScore (m : gmap Cell Z) (k : Cell) : Z := default 0%Z (m !! k).

(** The scan for the node with the lowest [fScore]: the first of the
    lowest ones wins, since the comparison is strict. *)
Fixpoint scanLowest (fS : gmap Cell Z) (rest : list Cell) (i : nat)
    (current : Cell) (currentIndex : nat) : Cell * nat :=
  match rest with
  | [] => (current, currentIndex)
  | n :: rest' =>
      if Z.ltb (getScore fS n) (getScore fS current)
      then scanLowest fS rest' (S i) n i
      else scanLowest fS rest' (S i) current currentIndex
  end.

Definition record (goal current neighbor : Cell) (tentativeGScore : Z) (s : AStar) : AStar :=
  {| openSet := openSet s;
     closedSet := closedSet s;
     cameFrom := <[neighbor := current]> (cameFrom s);
     gScore := <[neighbor := tentativeGScore]> (gScore s);
     fScore := <[neighbor := (tentativeGScore + heuristic neighbor goal)%Z]> (fScore s) |}.

Definition pushOpen (n : Cell) (s : AStar) : AStar :=
  {| openSet := openSet s ++ [n];
     closedSet := closedSet s;
     cameFrom := cameFrom s;
     gScore := gScore s;
     fScore := fScore s |}.

(** The body of [for (const neighbor of neighbors)]. *)
Definition visitNeighbor (goal current : Cell) (s : AStar) (neighbor : Cell) : AStar :=
  if bool_decide (neighbor ∈ closedSet s) then s
  else
    let tentativeGScore := (getScore (gScore s) current + 1)%Z in
    if negb (bool_decide (neighbor ∈ openSet s))
    then record goal current neighbor tentativeGScore (pushOpen neighbor s)
    else if Z.geb tentativeGScore (getScore (gScore s) neighbor) then s
    else record goal current neighbor tentativeGScore s.

(** [reconstructPath]; [path] is the list built so far by [unshift]. *)
Fixpoint reconstructPath (fuel : nat) (cf : gmap Cell Cell) (current : Cell)
    (path : list Cell) : option (list Cell) :=
  match cf !! current with
  | None => Some path
  | Some prev =>
      match fuel with
      | O => None
      | S fuel' => reconstructPath fuel' cf prev (prev :: path)
      end
  end.

(** The [while (openSet.length > 0)] loop.  [None] is the model running
    out of [fuel]; [astar_total] shows that it does not happen with the
    fuel that [findPathAStar] supplies once the renderer holds a maze
    (without one no cell is a wall and the search has no bound). *)
Fixpoint astarLoop (fuel : nat) (r : MazeRenderer.t) (bound : nat) (goal : Cell)
    (s : AStar) : option (list Cell) :=
  match fuel with
  | O => None
  | S fuel' =>
      match openSet s with
      | [] => Some []
      | first :: rest =>
          let '(current, currentIndex) := scanLowest (fScore s) rest 1 first 0 in
          let s1 := {| openSet := delete currentIndex (openSet s);
                       closedSet := {[current]} ∪ closedSet s;
                       cameFrom := cameFrom s;
                       gScore := gScore s;
                       fScore := fScore s |} in
          if bool_decide (current = goal)
          then reconstructPath bound (cameFrom s1) current [current]
          else astarLoop fuel' r bound goal
                 (foldl (visitNeighbor goal current) s1 (getNeighbors r current))
      end
  end.

Definition astarInit (start goal : Cell) : AStar :=
  {| openSet := [start];
     closedSet := ∅;
     cameFrom := ∅;
     gScore := {[start := 0%Z]};
     fScore := {[start := heuristic start goal]} |}.

(** One iteration per cell that can enter the open set, and one more to
    see the empty open set. *)
Definition searchBound (r : MazeRenderer.t) : nat :=
  S (S (Z.to_nat (MazeRenderer.mazeWidth r * MazeRenderer.mazeHeight r))).

Definition findPathAStarOn (r : MazeRenderer.t) (start goal : Cell) : option (list Cell) :=
  astarLoop (searchBound r) r (searchBound r) goal (astarInit start goal).

Definition findPathAStar (e : t) (start goal : Cell) : option (list Cell) :=
  match mazeRenderer e with
  | None => Some []
  | Some r => findPathAStarOn r start goal
  end.

(** *** The per-tick update *)

(** [updateAI] refreshes the plan: it adds [deltaTime] to [lastPathUpdate],
    may replace [path] by the result of [findPathAStar] towards a target
    chosen with [Math.random] and [Math.sqrt], and sets [targetDirection]
    to a vector normalised with [Math.sqrt].  Those two functions are
    outside exact arithmetic, so the outcome of the step is an input
    here; it writes the four planning fields and nothing else. *)
Record Plan : Type := mkPlan {
  planPath : list Cell;
  planPathIndex : nat;
  planLastPathUpdate : Q;
  planTargetDirection : Vec
}.

Definition updateAI (e : t) (p : Plan) : t :=
  {| id := id e; x := x e; y := y e; speed := speed e;
     direction := direction e; targetDirection := planTargetDirection p;
     gridX := gridX e; gridY := gridY e; isAtIntersection := isAtIntersection e;
     type := type e; state := state e;
     path := planPath p; pathIndex := planPathIndex p;
     lastPathUpdate := planLastPathUpdate p; pathUpdateInterval := pathUpdateInterval e;
     isVulnerable := isVulnerable e; vulnerabilityTimer := vulnerabilityTimer e;
     vulnerabilityDuration := vulnerabilityDuration e; originalSpeed := originalSpeed e;
     color := color e; originalColor := originalColor e;
     mazeRenderer := mazeRenderer e |}.

Definition update (e : t) (deltaTime : Q) (p : Plan) : t :=
  handleEdgeWrapping
    (handleMovement
       (updateAI (updateVulnerabilityState e deltaTime) p)).

(** [setBehaviorByType]: speed, colour and replanning interval. *)
Definition behaviorSpeed (ty : string) : Q :=
  if String.eqb ty "chaser" then 18 # 10
  else if String.eqb ty "ambusher" then 16 # 10
  else if String.eqb ty "patrol" then 14 # 10
  else if String.eqb ty "random" then 13 # 10
  else 15 # 10.

Definition behaviorColor (ty : string) : string :=
  if String.eqb ty "chaser" then "#FF0000"
  else if String.eqb ty "ambusher" then "#FFB6C1"
  else if String.eqb ty "patrol" then "#00FFFF"
  else if String.eqb ty "random" then "#FFA500"
  else "#FF69B4".

Definition behaviorInterval (ty : string) : Q :=
  if String.eqb ty "chaser" then 300
  else if String.eqb ty "ambusher" then 600
  else if String.eqb ty "patrol" then 800
  else if String.eqb ty "random" then 1000
  else 500.

Definition new (ident : nat) (x0 y0 : Q) (r : option MazeRenderer.t) (ty : string) : t :=
  updateGridPosition
    {| id := ident; x := x0; y := y0; speed := behaviorSpeed ty;
       direction := vzero; targetDirection := vzero;
       gridX := 0%Z; gridY := 0%Z; isAtIntersection := true;
       type := ty; state := "chase";
       path := []; pathIndex := 0%nat;
       lastPathUpdate := 0; pathUpdateInterval := behaviorInterval ty;
       isVulnerable := false; vulnerabilityTimer := 0;
       vulnerabilityDuration := 10000; originalSpeed := None;
       color := behaviorColor ty; originalColor := behaviorColor ty;
       mazeRenderer := r |}.

Definition withMazeRenderer (e : t) (r : option MazeRenderer.t) : t :=
  {| id := id e; x := x e; y := y e; speed := speed e;
     direction := direction e; targetDirection := targetDirection e;
     gridX := gridX e; gridY := gridY e; isAtIntersection := isAtIntersection e;
     type := type e; state := state e;
     path := path e; pathIndex := pathIndex e;
     lastPathUpdate := lastPathUpdate e; pathUpdateInterval := pathUpdateInterval e;
     isVulnerable := isVulnerable e; vulnerabilityTimer := vulnerabilityTimer e;
     vulnerabilityDuration := vulnerabilityDuration e; originalSpeed := originalSpeed e;
     color := color e; originalColor := originalColor e;
     mazeRenderer := r |}.

End Enemy.

(** ** Pellet.js *)

Module Pellet.

(** [id] stands for the identity of the JavaScript object; the colour and
    animation fields are left out. *)
Record t : Type := mk {
  id : nat;
  x : Q;
  y : Q;
  type : string;
  collected : bool;
  size : Q;
  points : Z
}.

Definition new (ident : nat) (x0 y0 : Q) (ty : string) : t :=
  if String.eqb ty "power"
  then {| id := ident; x := x0; y := y0; type := ty; collected := false;
          size := 8; points := 50 |}
  else {| id := ident; x := x0; y := y0; type := ty; collected := false;
          size := 3; points := 10 |}.

Definition checkCollision (p : t) (ox oy radius : Q) : bool :=
  if collected p then false
  else distLt (x p - ox) (y p - oy) (size p / 2 + radius).

(** [collect] returns the points awarded and marks the pellet. *)
Definition collect (p : t) : Z * t :=
  if collected p then (0%Z, p)
  else (points p,
        {| id := id p; x := x p; y := y p; type := type p; collected := true;
           size := size p; points := points p |}).

Definition getType (p : t) : string := type p.
Definition isCollected (p : t) : bool := collected p.
Definition getPoints (p : t) : Z := points p.

End Pellet.

Module PelletManager.

(** Pellet placement ([generatePellets]) is in [PelletPlacement] below. *)
Record t : Type := mk {
  pellets : list Pellet.t;
  totalPellets : nat;
  collectedPellets : nat
}.

(** [checkCollisions]: the pellets are visited in array order; the result
    is the manager after the pass and the array of collected pellets. *)
Fixpoint checkPellets (ps : list Pellet.t) (ox oy radius : Q)
    : list Pellet.t * list Pellet.t :=
  match ps with
  | [] => ([], [])
  | p :: rest =>
      let '(rest', got) := checkPellets rest ox oy radius in
      if Pellet.checkCollision p ox oy radius then
        let '(pts, p') := Pellet.collect p in
        if Z.ltb 0 pts then (p' :: rest', p' :: got) else (p' :: rest', got)
      else (p :: rest', got)
  end.

Definition checkCollisions (m : t) (ox oy radius : Q) : t * list Pellet.t :=
  let '(ps, got) := checkPellets (pellets m) ox oy radius in
  ({| pellets := ps; totalPellets := totalPellets m;
      collectedPellets := (collectedPellets m + length got)%nat |}, got).

Definition getRemainingPelletCount (m : t) : nat :=
  length (List.filter (fun p => negb (Pellet.isCollected p)) (pellets m)).

Definition areAllPelletsCollected (m : t) : bool :=
  Nat.eqb (getRemainingPelletCount m) 0.

Definition getTotalPelletCount (m : t) : nat := totalPellets m.

End PelletManager.

(** ** AIController.js *)

Module AIController.

(** [nextId] numbers the enemy objects that [spawnEnemy] creates.  The
    player-tracking fields feed [updateAI] only and are left out.  So is
    [vulnerabilityEndTime]: [setAllEnemiesVulnerable] sets it to
    [Date.now () + duration] (or to [null]) on every call, and only
    [getRemainingVulnerabilityTime], which is not part of the embedding,
    reads it.  What is said of a controller below is said of the fields
    of this record. *)
Record t : Type := mk {
  enemies : list Enemy.t;
  mazeRenderer : option MazeRenderer.t;
  maxEnemies : Z;
  spawnDelay : Q;
  lastSpawnTime : Q;
  enemiesSpawned : Z;
  difficultyLevel : Z;
  spawnPositions : list Vec;
  isActive : bool;
  nextId : nat
}.

Definition baseEnemySpeed : Q := 15 # 10.
Definition speedIncreasePerLevel : Q := 1 # 10.

Definition new (r : option MazeRenderer.t) : t :=
  {| enemies := []; mazeRenderer := r; maxEnemies := 4; spawnDelay := 2000;
     lastSpawnTime := 0; enemiesSpawned := 0; difficultyLevel := 1;
     spawnPositions := []; isActive := true; nextId := 0 |}.

Definition withEnemies (c : t) (es : list Enemy.t) : t :=
  {| enemies := es; mazeRenderer := mazeRenderer c; maxEnemies := maxEnemies c;
     spawnDelay := spawnDelay c; lastSpawnTime := lastSpawnTime c;
     enemiesSpawned := enemiesSpawned c; difficultyLevel := difficultyLevel c;
     spawnPositions := spawnPositions c; isActive := isActive c;
     nextId := nextId c |}.

Definition withLastSpawnTime (c : t) (time : Q) : t :=
  {| enemies := enemies c; mazeRenderer := mazeRenderer c; maxEnemies := maxEnemies c;
     spawnDelay := spawnDelay c; lastSpawnTime := time;
     enemiesSpawned := enemiesSpawned c; difficultyLevel := difficultyLevel c;
     spawnPositions := spawnPositions c; isActive := isActive c;
     nextId := nextId c |}.

Definition withSpawnPositions (c : t) (ps : list Vec) : t :=
  {| enemies := enemies c; mazeRenderer := mazeRenderer c; maxEnemies := maxEnemies c;
     spawnDelay := spawnDelay c; lastSpawnTime := lastSpawnTime c;
     enemiesSpawned := enemiesSpawned c; difficultyLevel := difficultyLevel c;
     spawnPositions := ps; isActive := isActive c;
     nextId := nextId c |}.

(** [calculateSpawnPositions]: corner and mid-edge candidates that are not
    walls; if none, the four points of a ring around the centre (with the
    exact values of [Math.cos] and [Math.sin] at the quarter turns). *)
Definition calculateSpawnPositions (c : t) : t :=
  match mazeRenderer c with
  | None => c
  | Some r =>
      let '(w, h) := MazeRenderer.getMazeDimensions r in
      let cs := MazeRenderer.getCellSize r in
      let free := fun pos : Vec => negb (MazeRenderer.isWallAtPosition r (vx pos) (vy pos)) in
      let potentialSpawns :=
        [ mkVec (cs * 2) (cs * 2);
          mkVec (w - cs * 2) (cs * 2);
          mkVec (cs * 2) (h - cs * 2);
          mkVec (w - cs * 2) (h - cs * 2);
          mkVec (w / 2) (cs * 2);
          mkVec (w / 2) (h - cs * 2);
          mkVec (cs * 2) (h / 2);
          mkVec (w - cs * 2) (h / 2) ] in
      let valid := List.filter free potentialSpawns in
      match valid with
      | _ :: _ => withSpawnPositions c valid
      | [] =>
          let centerX := w / 2 in
          let centerY := h / 2 in
          let radius := Qmin w h / 4 in
          let ring :=
            [ mkVec (centerX + radius) centerY;
              mkVec centerX (centerY + radius);
              mkVec (centerX - radius) centerY;
              mkVec centerX (centerY - radius) ] in
          withSpawnPositions c (List.filter free ring)
      end
  end.

(** [selectEnemyType], given the value of [Math.random ()]. *)
Definition enemyTypes : list (string * Q) :=
  [ ("chaser"%string, 3 # 10); ("ambusher"%string, 25 # 100);
    ("patrol"%string, 25 # 100); ("random"%string, 2 # 10) ].

Fixpoint pickType (random cumulative : Q) (types : list (string * Q)) : option string :=
  match types with
  | [] => None
  | (ty, probability) :: rest =>
      let cumulative' := cumulative + probability in
      if Qle_bool random cumulative' then Some ty else pickType random cumulative' rest
  end.

Definition selectEnemyType (random : Q) : string :=
  default "chaser"%string (pickType random 0 enemyTypes).

Definition applyDifficultyScaling (c : t) (e : Enemy.t) : Enemy.t :=
  let scaledSpeed :=
    baseEnemySpeed + inject_Z (difficultyLevel c - 1) * speedIncreasePerLevel in
  let e1 := Enemy.setSpeed e scaledSpeed in
  if Z.ltb 3 (difficultyLevel c) then
    {| Enemy.id := Enemy.id e1; Enemy.x := Enemy.x e1; Enemy.y := Enemy.y e1;
       Enemy.speed := Enemy.speed e1;
       Enemy.direction := Enemy.direction e1;
       Enemy.targetDirection := Enemy.targetDirection e1;
       Enemy.gridX := Enemy.gridX e1; Enemy.gridY := Enemy.gridY e1;
       Enemy.isAtIntersection := Enemy.isAtIntersection e1;
       Enemy.type := Enemy.type e1; Enemy.state := Enemy.state e1;
       Enemy.path := Enemy.path e1; Enemy.pathIndex := Enemy.pathIndex e1;
       Enemy.lastPathUpdate := Enemy.lastPathUpdate e1;
       Enemy.pathUpdateInterval := Qmax 200 (Enemy.pathUpdateInterval e1 - 50);
       Enemy.isVulnerable := Enemy.isVulnerable e1;
       Enemy.vulnerabilityTimer := Enemy.vulnerabilityTimer e1;
       Enemy.vulnerabilityDuration := Enemy.vulnerabilityDuration e1;
       Enemy.originalSpeed := Enemy.originalSpeed e1;
       Enemy.color := Enemy.color e1; Enemy.originalColor := Enemy.originalColor e1;
       Enemy.mazeRenderer := Enemy.mazeRenderer e1 |}
  else e1.

(** [spawnEnemy], given the value of [Math.random ()] for the type draw. *)
Definition spawnEnemy (c : t) (random : Q) : t :=
  match mazeRenderer c with
  | None => c
  | Some r =>
      let c1 := match spawnPositions c with
                | [] => calculateSpawnPositions c
                | _ :: _ => c
                end in
      match spawnPositions c1 with
      | [] => c1
      | first :: _ =>
          let index := Z.to_nat (Z.rem (enemiesSpawned c1)
                                       (Z.of_nat (length (spawnPositions c1)))) in
          let spawnPos := default first (spawnPositions c1 !! index) in
          let enemyType := selectEnemyType random in
          let enemy := Enemy.new (nextId c1) (vx spawnPos) (vy spawnPos) (Some r) enemyType in
          let enemy' := applyDifficultyScaling c1 enemy in
          {| enemies := enemies c1 ++ [enemy'];
             mazeRenderer := mazeRenderer c1; maxEnemies := maxEnemies c1;
             spawnDelay := spawnDelay c1; lastSpawnTime := lastSpawnTime c1;
             enemiesSpawned := (enemiesSpawned c1 + 1)%Z;
             difficultyLevel := difficultyLevel c1;
             spawnPositions := spawnPositions c1; isActive := isActive c1;
             nextId := S (nextId c1) |}
      end
  end.

Definition updateEnemySpawning (c : t) (deltaTime random : Q) : t :=
  let c1 := withLastSpawnTime c (lastSpawnTime c + deltaTime) in
  if Z.ltb (Z.of_nat (length (enemies c1))) (maxEnemies c1) &&
     Qgeb (lastSpawnTime c1) (spawnDelay c1) &&
     Z.ltb (enemiesSpawned c1) (maxEnemies c1)
  then withLastSpawnTime (spawnEnemy c1 random) 0
  else c1.

Definition isEnemyOutOfBounds (c : t) (e : Enemy.t) : bool :=
  match mazeRenderer c with
  | None => false
  | Some r =>
      let pos := Enemy.getPosition e in
      let '(w, h) := MazeRenderer.getMazeDimensions r in
      let buffer := 100 in
      Qltb (vx pos) (- buffer) || Qgtb (vx pos) (w + buffer) ||
      Qltb (vy pos) (- buffer) || Qgtb (vy pos) (h + buffer)
  end.

(** [update]: [random] is the draw used if an enemy spawns, and [plans]
    gives the outcome of each enemy's [updateAI].  The loop runs from the
    last enemy to the first and splices out-of-bounds enemies as it goes,
    which leaves the updated enemies that are in bounds, in order. *)
Definition update (c : t) (deltaTime random : Q) (plans : Enemy.t -> Enemy.Plan) : t :=
  if negb (isActive c) then c
  else
    let c1 := updateEnemySpawning c deltaTime random in
    let updated := List.map (fun e => Enemy.update e deltaTime (plans e)) (enemies c1) in
    withEnemies c1 (List.filter (fun e => negb (isEnemyOutOfBounds c1 e)) updated).

(** [this.enemies.indexOf (enemyToRemove)]: the first entry that is the
    same object. *)
Fixpoint indexOf (ident : nat) (es : list Enemy.t) : option nat :=
  match es with
  | [] => None
  | e :: rest =>
      if Nat.eqb (Enemy.id e) ident then Some 0%nat
      else option_map S (indexOf ident rest)
  end.

Definition removeEnemy (c : t) (enemyToRemove : Enemy.t) : t * bool :=
  match indexOf (Enemy.id enemyToRemove) (enemies c) with
  | Some index => (withEnemies c (delete index (enemies c)), true)
  | None => (c, false)
  end.

Definition setAllEnemiesVulnerable (c : t) (vulnerable : bool) (duration : Q) : t :=
  withEnemies c
    (List.map (fun e => if Bool.eqb (Enemy.getIsVulnerable e) vulnerable then e
                        else Enemy.setVulnerable e vulnerable (Some duration))
              (enemies c)).

Definition checkPlayerCollisions (c : t) (playerPosition : Vec) (playerSize : Q)
    : list Enemy.t :=
  List.filter
    (fun e =>
       let enemyPos := Enemy.getPosition e in
       let dx := vx playerPosition - vx enemyPos in
       let dy := vy playerPosition - vy enemyPos in
       distLt dx dy ((playerSize + Enemy.getSize e) / 2))
    (enemies c).

Definition setDifficultyLevel (c : t) (level : Z) : t :=
  {| enemies := enemies c; mazeRenderer := mazeRenderer c;
     maxEnemies := Z.min 6 (4 + level / 3);
     spawnDelay := Qmax 1000 (2000 - inject_Z (level - 1) * 100);
     lastSpawnTime := lastSpawnTime c;
     enemiesSpawned := enemiesSpawned c;
     difficultyLevel := Z.max 1 level;
     spawnPositions := spawnPositions c; isActive := isActive c;
     nextId := nextId c |}.

Definition reset (c : t) : t :=
  {| enemies := []; mazeRenderer := mazeRenderer c; maxEnemies := maxEnemies c;
     spawnDelay := spawnDelay c; lastSpawnTime := 0;
     enemiesSpawned := 0; difficultyLevel := difficultyLevel c;
     spawnPositions := []; isActive := isActive c;
     nextId := nextId c |}.

Definition setActive (c : t) (active : bool) : t :=
  {| enemies := if active then enemies c
                else List.map (fun e => Enemy.updateAI (Enemy.withDirection e vzero)
                                          {| Enemy.planPath := Enemy.path e;
                                             Enemy.planPathIndex := Enemy.pathIndex e;
                                             Enemy.planLastPathUpdate := Enemy.lastPathUpdate e;
                                             Enemy.planTargetDirection := vzero |})
                              (enemies c);
     mazeRenderer := mazeRenderer c; maxEnemies := maxEnemies c;
     spawnDelay := spawnDelay c; lastSpawnTime := lastSpawnTime c;
     enemiesSpawned := enemiesSpawned c; difficultyLevel := difficultyLevel c;
     spawnPositions := spawnPositions c; isActive := active;
     nextId := nextId c |}.

Definition setMazeRenderer (c : t) (r : option MazeRenderer.t) : t :=
  calculateSpawnPositions
    {| enemies := List.map (fun e => Enemy.withMazeRenderer e r) (enemies c);
       mazeRenderer := r; maxEnemies := maxEnemies c;
       spawnDelay := spawnDelay c; lastSpawnTime := lastSpawnTime c;
       enemiesSpawned := enemiesSpawned c; difficultyLevel := difficultyLevel c;
       spawnPositions := []; isActive := isActive c;
       nextId := nextId c |}.

End AIController.

(** ** GameEngine.js: collision arbitration and scoring *)

Module GameEngine.

(** The part of the engine state that collision handling reads and writes.
    [respawnPlayer] and [showGameOverScreen] also arm [setTimeout]
    callbacks; these run after the tick and are not part of it. *)
Record t : Type := mk {
  score : Z;
  lives : Z;
  level : Z;
  isRunning : bool;
  isRespawning : bool;
  invulnerabilityTime : Q;
  player : Player.t;
  aiController : AIController.t
}.

Definition invulnerabilityDuration : Q := 2000.

Definition updateScore (g : t) (pts : Z) : t :=
  {| score := (score g + pts)%Z; lives := lives g; level := level g;
     isRunning := isRunning g; isRespawning := isRespawning g;
     invulnerabilityTime := invulnerabilityTime g;
     player := player g; aiController := aiController g |}.

Definition respawnPlayer (g : t) : t :=
  {| score := score g; lives := lives g; level := level g;
     isRunning := isRunning g; isRespawning := true;
     invulnerabilityTime := invulnerabilityDuration;
     player := Player.stop (player g); aiController := aiController g |}.

Definition gameOver (g : t) : t :=
  {| score := score g; lives := lives g; level := level g;
     isRunning := false; isRespawning := isRespawning g;
     invulnerabilityTime := invulnerabilityTime g;
     player := player g;
     aiController := AIController.setActive (aiController g) false |}.

Definition loseLife (g : t) : t :=
  let g1 := {| score := score g; lives := (lives g - 1)%Z; level := level g;
               isRunning := isRunning g; isRespawning := isRespawning g;
               invulnerabilityTime := invulnerabilityTime g;
               player := player g; aiController := aiController g |} in
  if Z.leb (lives g1) 0 then gameOver g1 else respawnPlayer g1.

(** [pointValues[enemyType] || 200], for a type name that names no
    inherited member of the object literal (for "constructor",
    "toString" and the like the code returns that member, which is not a
    number). *)
Definition getEnemyPoints (enemyType : string) : Z :=
  if String.eqb enemyType "chaser" then 200
  else if String.eqb enemyType "ambusher" then 400
  else if String.eqb enemyType "patrol" then 300
  else if String.eqb enemyType "random" then 100
  else 200.

Definition handleVulnerableEnemyCollision (g : t) (enemy : Enemy.t) : t :=
  let g1 := updateScore g (getEnemyPoints (Enemy.getType enemy)) in
  {| score := score g1; lives := lives g1; level := level g1;
     isRunning := isRunning g1; isRespawning := isRespawning g1;
     invulnerabilityTime := invulnerabilityTime g1;
     player := player g1;
     aiController := fst (AIController.removeEnemy (aiController g1) enemy) |}.

Definition handleEnemyHitPlayer (g : t) (enemy : Enemy.t) : t := loseLife g.

(** [for (const enemy of collidingEnemies)] with its [break]. *)
Fixpoint processCollisions (g : t) (collidingEnemies : list Enemy.t) : t :=
  match collidingEnemies with
  | [] => g
  | enemy :: rest =>
      if Enemy.getIsVulnerable enemy
      then processCollisions (handleVulnerableEnemyCollision g enemy) rest
      else handleEnemyHitPlayer g enemy
  end.

Definition handleEnemyCollisions (g : t) : t :=
  if Qgtb (invulnerabilityTime g) 0 then g
  else
    let playerPos := Player.getPosition (player g) in
    let playerSize := Player.getSize (player g) in
    processCollisions g
      (AIController.checkPlayerCollisions (aiController g) playerPos playerSize).

(** [handleInput]: the direction names that [InputHandler] sends are the
    four of [Player.Input]. *)
Definition handleInput (g : t) (direction : Player.Input) : t :=
  if negb (isRunning g) || isRespawning g then g
  else
    {| score := score g; lives := lives g; level := level g;
       isRunning := isRunning g; isRespawning := isRespawning g;
       invulnerabilityTime := invulnerabilityTime g;
       player := Player.setDirection (player g) direction;
       aiController := aiController g |}.

(** [handlePowerPelletCollection]; [powerPelletEndTime], a wall-clock time
    for the status display, is left out. *)
Definition handlePowerPelletCollection (g : t) : t :=
  let baseDuration : Q := 10000 in
  let levelReduction := Qmin 3000 (inject_Z (level g - 1) * 200) in
  let vulnerabilityDuration := Qmax 5000 (baseDuration - levelReduction) in
  updateScore
    {| score := score g; lives := lives g; level := level g;
       isRunning := isRunning g; isRespawning := isRespawning g;
       invulnerabilityTime := invulnerabilityTime g;
       player := player g;
       aiController :=
         AIController.setAllEnemiesVulnerable (aiController g) true vulnerabilityDuration |}
    50.

(** The loop of [handlePelletCollection] over the collected pellets. *)
Fixpoint creditPellets (g : t) (collectedPellets : list Pellet.t) : t :=
  match collectedPellets with
  | [] => g
  | pellet :: rest =>
      let g1 := updateScore g (Pellet.getPoints pellet) in
      let g2 := if String.eqb (Pellet.getType pellet) "power"
                then handlePowerPelletCollection g1 else g1 in
      creditPellets g2 rest
  end.

End GameEngine.

(** ** MazeGenerator.js *)

Module MazeGenerator.

Inductive Result (A : Type) : Type :=
| Ok (a : A)
| Throw (msg : string).
Arguments Ok {A} a.
Arguments Throw {A} msg.

Definition bind {A B : Type} (r : Result A) (k : A -> Result B) : Result B :=
  match r with
  | Ok a => k a
  | Throw msg => Throw msg
  end.

#[local] Instance result_bind : MBind Result := fun A B k r => bind r k.

Fixpoint foldM {A S : Type} (f : S -> A -> Result S) (l : list A) (s : S) : Result S :=
  match l with
  | [] => Ok s
  | a :: rest => s' ← f s a; foldM f rest s'
  end.

(** *** The random source

    [Math.random ()] returns a number in the half-open unit interval.  The
    source is a stream of arbitrary rationals of which the fractional part
    is taken, so every stream is a legal source. *)
Record Rng : Type := mkRng { stream : nat -> Q; position : nat }.

Definition random (g : Rng) : Q * Rng :=
  let raw := stream g (position g) in
  (raw - inject_Z (Qfloor raw), {| stream := stream g; position := S (position g) |}).

(** [Math.floor (Math.random () * n)] *)
Definition randomBelow (g : Rng) (n : Z) : Z * Rng :=
  let '(r, g') := random g in (Qfloor (r * inject_Z n), g').

(** *** The generator and its grid *)

Record t : Type := mk { width : Z; height : Z }.

(** The constructor forces odd dimensions ([%] is the remainder that takes
    the sign of the dividend). *)
Definition new (w h : Z) : t :=
  {| width := if Z.eqb (Z.rem w 2) 0 then (w + 1)%Z else w;
     height := if Z.eqb (Z.rem h 2) 0 then (h + 1)%Z else h |}.

Definition WALL : Z := 1.
Definition PATH : Z := 0.

Definition directions : list Cell := [ (0, -2); (2, 0); (0, 2); (-2, 0) ]%Z.
Definition unitDirections : list Cell := [ (0, -1); (1, 0); (0, 1); (-1, 0) ]%Z.

(** The grid [maze[y][x]] is a finite map keyed by [(x, y)]: an absent key
    reads as [undefined].  The row object [maze[y]] exists exactly for
    [0 <= y < height]: [initializeMaze] creates these rows and no method
    adds one, so touching any other row throws a [TypeError].  A write
    past the end of a row, or at a negative column, adds an entry to the
    row and leaves the other entries as they are. *)
Definition Maze : Type := gmap Cell Z.

Definition hasRow (gen : t) (y : Z) : bool := Z.leb 0 y && Z.ltb y (height gen).

Definition typeError : string := "TypeError: cannot access property of undefined".

Definition readCell (gen : t) (maze : Maze) (x y : Z) : Result (option Z) :=
  if hasRow gen y then Ok (maze !! (x, y)) else Throw typeError.

Definition writeCell (gen : t) (maze : Maze) (x y v : Z) : Result Maze :=
  if hasRow gen y then Ok (<[(x, y) := v]> maze) else Throw typeError.

(** [maze[y][x] === v] for a row that is known to exist. *)
Definition cellIs (maze : Maze) (x y v : Z) : bool :=
  bool_decide (maze !! (x, y) = Some v).

(** All cells, row by row, as the nested [for] loops enumerate them. *)
Definition allCells (gen : t) : list Cell :=
  y ← seqZ 0 (height gen); x ← seqZ 0 (width gen); [(x, y)].

Definition initializeMaze (gen : t) : Maze :=
  list_to_map (List.map (fun c => (c, WALL)) (allCells gen)).

Definition isValidPosition (gen : t) (x y : Z) : bool :=
  Z.ltb 0 x && Z.ltb x (width gen - 1) && Z.ltb 0 y && Z.ltb y (height gen - 1).

Definition isInBounds (gen : t) (x y : Z) : bool :=
  Z.leb 0 x && Z.ltb x (width gen) && Z.leb 0 y && Z.ltb y (height gen).

(** *** Shuffling *)

(** [[array[i], array[j]] = [array[j], array[i]]] *)
Definition swap {A : Type} (array : list A) (i j : nat) : list A :=
  match array !! i, array !! j with
  | Some ai, Some aj => <[j := ai]> (<[i := aj]> array)
  | _, _ => array
  end.

(** [shuffleFrom i] runs the Fisher-Yates loop for the indices [i], ...,
    [1]. *)
Fixpoint shuffleFrom {A : Type} (i : nat) (array : list A) (g : Rng) : list A * Rng :=
  match i with
  | O => (array, g)
  | S i' =>
      let '(j, g') := randomBelow g (Z.of_nat i + 1) in
      shuffleFrom i' (swap array i (Z.to_nat j)) g'
  end.

Definition shuffleArray {A : Type} (array : list A) (g : Rng) : list A * Rng :=
  shuffleFrom (length array - 1) array g.

(** *** Recursive backtracking

    [depth] is the depth of recursion that the JavaScript engine allows;
    beyond it the call throws a [RangeError]. *)
Definition rangeError : string := "RangeError: Maximum call stack size exceeded".

Fixpoint recursiveBacktrack (depth : nat) (gen : t) (maze : Maze) (x y : Z) (g : Rng)
    : Result (Maze * Rng) :=
  match depth with
  | O => Throw rangeError
  | S depth' =>
      let '(shuffledDirections, g1) := shuffleArray directions g in
      (fix each (dirs : list Cell) (maze : Maze) (g : Rng) : Result (Maze * Rng) :=
         match dirs with
         | [] => Ok (maze, g)
         | direction :: rest =>
             let newX := (x + direction.1)%Z in
             let newY := (y + direction.2)%Z in
             if isValidPosition gen newX newY && cellIs maze newX newY WALL then
               let wallX := (x + direction.1 / 2)%Z in
               let wallY := (y + direction.2 / 2)%Z in
               m1 ← writeCell gen maze newX newY PATH;
               m2 ← writeCell gen m1 wallX wallY PATH;
               '(m3, g') ← recursiveBacktrack depth' gen m2 newX newY g;
               each rest m3 g'
             else each rest maze g
         end) shuffledDirections maze g1
  end.

(** *** Validation *)

Definition getAccessiblePositions (gen : t) (maze : Maze) : list Cell :=
  List.filter (fun c => cellIs maze c.1 c.2 PATH) (allCells gen).

Definition neighborsOf (c : Cell) : list Cell :=
  List.map (fun d => (c.1 + d.1, c.2 + d.2)%Z) unitDirections.

(** The flood fill of [validateMaze].  The head of [stack] is the end of
    the JavaScript array, where [push] and [pop] work.  [None] is the model
    running out of [fuel]; [floodFill_total] shows that it does not happen
    with the fuel that [floodFill] supplies. *)
Fixpoint floodLoop (fuel : nat) (gen : t) (maze : Maze) (visited : gset Cell)
    (stack : list Cell) : option (gset Cell) :=
  match fuel with
  | O => None
  | S fuel' =>
      match stack with
      | [] => Some visited
      | current :: rest =>
          if bool_decide (current ∈ visited) then floodLoop fuel' gen maze visited rest
          else
            let visited' := {[current]} ∪ visited in
            let pushed :=
              List.filter
                (fun n => isInBounds gen n.1 n.2 && cellIs maze n.1 n.2 PATH &&
                          negb (bool_decide (n ∈ visited')))
                (neighborsOf current) in
            floodLoop fuel' gen maze visited' (rev pushed ++ rest)
      end
  end.

Definition floodFuel (gen : t) : nat :=
  S (S (4 * Z.to_nat (width gen * height gen))).

Definition floodFill (gen : t) (maze : Maze) (start : Cell) : option (gset Cell) :=
  floodLoop (floodFuel gen) gen maze ∅ [start].

Definition validateMaze (gen : t) (maze : Maze) : Result unit :=
  let pathCells := getAccessiblePositions gen maze in
  match pathCells with
  | [] => Throw "Maze generation failed: No path cells found"
  | first :: _ =>
      match floodFill gen maze first with
      | None => Throw "flood fill did not finish"
      | Some visited =>
          if negb (Nat.eqb (size visited) (length pathCells))
          then Throw "Maze generation failed: Not all areas are reachable"
          else Ok tt
      end
  end.

(** *** Pac-Man style features *)

Definition getPathNeighbors (gen : t) (maze : Maze) (x y : Z) : list Cell :=
  List.filter (fun n => isInBounds gen n.1 n.2 && cellIs maze n.1 n.2 PATH)
              (neighborsOf (x, y)).

(** The offsets [dx], [dy] of a square scan, [dx] in the outer loop. *)
Definition offsets (lo hi : Z) : list Cell :=
  dx ← seqZ lo (hi - lo + 1); dy ← seqZ lo (hi - lo + 1); [(dx, dy)].

(** [hasNearbyPaths] counts path cells and returns early at two; its
    answer is that of the full count. *)
Definition hasNearbyPaths (gen : t) (maze : Maze) (x y radius : Z) : bool :=
  let pathCount :=
    length (List.filter
              (fun o => isInBounds gen (x + o.1) (y + o.2) &&
                        cellIs maze (x + o.1) (y + o.2) PATH)
              (offsets (- radius) radius)) in
  Nat.leb 2 pathCount || Nat.leb 1 pathCount.

Definition addRandomLoops (gen : t) (maze : Maze) (g : Rng) : Result (Maze * Rng) :=
  let loopCount := Z.to_nat (width gen * height gen / 200) in
  foldM
    (fun '(maze, g) _ =>
       let '(rx, g1) := randomBelow g (width gen - 4) in
       let x := (2 + rx)%Z in
       let '(ry, g2) := randomBelow g1 (height gen - 4) in
       let y := (2 + ry)%Z in
       v ← readCell gen maze x y;
       if bool_decide (v = Some WALL) then
         if Nat.leb 2 (length (getPathNeighbors gen maze x y))
         then m1 ← writeCell gen maze x y PATH; Ok (m1, g2)
         else Ok (maze, g2)
       else Ok (maze, g2))
    (seq 0 loopCount) (maze, g).

Definition createWiderCorridors (gen : t) (maze : Maze) (g : Rng) : Result (Maze * Rng) :=
  let corridorCount := Z.to_nat (width gen * height gen / 300) in
  foldM
    (fun '(maze, g) _ =>
       let '(rx, g1) := randomBelow g (width gen - 6) in
       let x := (2 + rx)%Z in
       let '(ry, g2) := randomBelow g1 (height gen - 6) in
       let y := (2 + ry)%Z in
       if hasNearbyPaths gen maze x y 2 then
         m1 ← foldM
                 (fun maze '(dx, dy) =>
                    if Z.ltb (x + dx) (width gen - 1) && Z.ltb (y + dy) (height gen - 1)
                    then writeCell gen maze (x + dx) (y + dy) PATH
                    else Ok maze)
                 (dx ← seqZ 0 3; dy ← seqZ 0 2; [(dx, dy)]) maze;
         Ok (m1, g2)
       else Ok (maze, g2))
    (seq 0 corridorCount) (maze, g).

Definition createOpenAreas (gen : t) (maze : Maze) (g : Rng) : Result (Maze * Rng) :=
  let areaCount := Z.to_nat (width gen * height gen / 400) in
  foldM
    (fun '(maze, g) _ =>
       let '(rx, g1) := randomBelow g (width gen - 8) in
       let centerX := (3 + rx)%Z in
       let '(ry, g2) := randomBelow g1 (height gen - 8) in
       let centerY := (3 + ry)%Z in
       let '(rs, g3) := randomBelow g2 2 in
       let size := (3 + rs)%Z in
       if hasNearbyPaths gen maze centerX centerY 3 then
         m1 ← foldM
                 (fun maze '(dx, dy) =>
                    let newX := (centerX + dx)%Z in
                    let newY := (centerY + dy)%Z in
                    if isValidPosition gen newX newY
                    then writeCell gen maze newX newY PATH
                    else Ok maze)
                 (offsets (- (size / 2)) (size / 2)) maze;
         Ok (m1, g3)
       else Ok (maze, g3))
    (seq 0 areaCount) (maze, g).

Definition createEdgeTunnels (gen : t) (maze : Maze) : Result Maze :=
  let midY := (height gen / 2)%Z in
  if Z.ltb 1 midY && Z.ltb midY (height gen - 2) then
    m1 ← writeCell gen maze 1 midY PATH;
    m2 ← writeCell gen m1 2 midY PATH;
    m3 ← writeCell gen m2 (width gen - 2) midY PATH;
    writeCell gen m3 (width gen - 3) midY PATH
  else Ok maze.

Definition addPacManFeatures (gen : t) (maze : Maze) (g : Rng) : Result (Maze * Rng) :=
  '(m1, g1) ← addRandomLoops gen maze g;
  '(m2, g2) ← createWiderCorridors gen m1 g1;
  '(m3, g3) ← createOpenAreas gen m2 g2;
  m4 ← createEdgeTunnels gen m3;
  Ok (m4, g3).

(** *** The starting area *)

(** [tryConnectToExistingPaths]: the first nearby path cell whose midpoint
    is in bounds gets the midpoint cleared; then the scan stops. *)
Definition tryConnectToExistingPaths (gen : t) (maze : Maze) (x y : Z) : Result Maze :=
  let searchRadius := 3%Z in
  let hit :=
    List.find
      (fun o =>
         negb (Z.eqb o.1 0 && Z.eqb o.2 0) &&
         (isInBounds gen (x + o.1) (y + o.2) && cellIs maze (x + o.1) (y + o.2) PATH) &&
         isInBounds gen (x + o.1 / 2) (y + o.2 / 2))
      (offsets (- searchRadius) searchRadius) in
  match hit with
  | Some o => writeCell gen maze (x + o.1 / 2) (y + o.2 / 2) PATH
  | None => Ok maze
  end.

(** [createCorridor]; [i] counts from [1] to [len]. *)
Fixpoint corridorFrom (steps : nat) (gen : t) (maze : Maze) (startX startY : Z)
    (direction : Cell) (i len : Z) : Result Maze :=
  match steps with
  | O => Ok maze
  | S steps' =>
      let newX := (startX + direction.1 * i)%Z in
      let newY := (startY + direction.2 * i)%Z in
      if isValidPosition gen newX newY then
        m1 ← writeCell gen maze newX newY PATH;
        m2 ← (if Z.eqb i len then tryConnectToExistingPaths gen m1 newX newY else Ok m1);
        corridorFrom steps' gen m2 startX startY direction (i + 1) len
      else Ok maze
  end.

Definition createCorridor (gen : t) (maze : Maze) (startX startY : Z)
    (direction : Cell) (len : nat) : Result Maze :=
  corridorFrom len gen maze startX startY direction 1 (Z.of_nat len).

(** [createStartingPaths]; the state of the loop is the maze and the count
    [pathsCreated]. *)
Definition createStartingPaths (gen : t) (maze : Maze) (startX startY : Z) (g : Rng)
    : Result (Maze * Rng) :=
  let targetPaths := 2%nat in
  let '(shuffledDirections, g1) := shuffleArray unitDirections g in
  '(m, _) ← foldM
      (fun '(maze, pathsCreated) direction =>
         if Nat.leb targetPaths pathsCreated then Ok (maze, pathsCreated)
         else
           let pathX := (startX + direction.1)%Z in
           let pathY := (startY + direction.2)%Z in
           if isInBounds gen pathX pathY && cellIs maze pathX pathY WALL then
             m1 ← createCorridor gen maze startX startY direction 3;
             Ok (m1, S pathsCreated)
           else Ok (maze, pathsCreated))
      shuffledDirections (maze, 0%nat);
  Ok (m, g1).

Definition createStartingArea (gen : t) (maze : Maze) (startX startY : Z) : Result Maze :=
  m1 ← foldM
      (fun maze '(dx, dy) =>
         let newX := (startX + dx)%Z in
         let newY := (startY + dy)%Z in
         if Z.ltb 1 newX && Z.ltb newX (width gen - 2) &&
            Z.ltb 1 newY && Z.ltb newY (height gen - 2)
         then writeCell gen maze newX newY PATH
         else Ok maze)
      (offsets (-1) 1) maze;
  foldM
    (fun maze dir =>
       let pathX := (startX + dir.1)%Z in
       let pathY := (startY + dir.2)%Z in
       if Z.ltb 1 pathX && Z.ltb pathX (width gen - 2) &&
          Z.ltb 1 pathY && Z.ltb pathY (height gen - 2)
       then
         m2 ← writeCell gen maze pathX pathY PATH;
         m3 ← writeCell gen m2 (startX + dir.1 / 2) (startY + dir.2 / 2) PATH;
         createCorridor gen m3 pathX pathY dir 2
       else Ok maze)
    [ (-2, 0); (2, 0); (0, -2); (0, 2) ]%Z m1.

Definition ensureStartingChoices (gen : t) (maze : Maze) (g : Rng) : Result (Maze * Rng) :=
  match getAccessiblePositions gen maze with
  | [] => Ok (maze, g)
  | startPos :: _ =>
      let startX := startPos.1 in
      let startY := startPos.2 in
      let currentNeighbors := getPathNeighbors gen maze startX startY in
      '(m1, g1) ← (if Nat.ltb (length currentNeighbors) 2
                    then createStartingPaths gen maze startX startY g
                    else Ok (maze, g));
      m2 ← createStartingArea gen m1 startX startY;
      Ok (m2, g1)
  end.

(** *** [generate] *)

(** The grid as it stands just before [validateMaze] runs. *)
Definition carve (gen : t) (depth : nat) (g : Rng) : Result (Maze * Rng) :=
  let maze := initializeMaze gen in
  let startX := 1%Z in
  let startY := 1%Z in
  m0 ← writeCell gen maze startX startY PATH;
  '(m1, g1) ← recursiveBacktrack depth gen m0 startX startY g;
  '(m2, g2) ← addPacManFeatures gen m1 g1;
  ensureStartingChoices gen m2 g2.

Definition generate (gen : t) (depth : nat) (g : Rng) : Result Maze :=
  '(maze, _) ← carve gen depth g;
  _ ← validateMaze gen maze;
  Ok maze.

End MazeGenerator.

(** ** GameEngine.js: pellets and the start position *)

Module GameLevel.

(** The engine state together with the pellet manager. *)
Record t : Type := mk {
  engine : GameEngine.t;
  pelletManager : PelletManager.t
}.

(** [handlePelletCollection]: the state after the pellets are credited,
    and whether the function goes on to call [handleLevelComplete] (see
    [Game.handlePelletCollection]). *)
Definition handlePelletCollection (s : t) : t * bool :=
  let playerPos := Player.getPosition (GameEngine.player (engine s)) in
  let playerRadius := Player.getSize (GameEngine.player (engine s)) / 2 in
  let '(pm, collectedPellets) :=
    PelletManager.checkCollisions (pelletManager s) (vx playerPos) (vy playerPos) playerRadius in
  ({| engine := GameEngine.creditPellets (engine s) collectedPellets;
      pelletManager := pm |},
   PelletManager.areAllPelletsCollected pm &&
   Nat.ltb 0 (PelletManager.getTotalPelletCount pm)).

(** The generator's grid as the array of rows that [setMaze] receives. *)
Definition mazeRows (gen : MazeGenerator.t) (maze : MazeGenerator.Maze) : list (list Z) :=
  List.map (fun gy => List.map (fun gx => default MazeGenerator.WALL (maze !! (gx, gy)))
                               (seqZ 0 (MazeGenerator.width gen)))
           (seqZ 0 (MazeGenerator.height gen)).

(** [resetPlayerPosition], with the generator, the grid and the renderer
    of the engine as arguments. *)
Definition resetPlayerPosition (gen : MazeGenerator.t) (maze : MazeGenerator.Maze)
    (r : MazeRenderer.t) (player : Player.t) : Player.t :=
  match MazeGenerator.getAccessiblePositions gen maze with
  | startPos :: _ =>
      let '(worldX, worldY) := MazeRenderer.gridToWorld r startPos.1 startPos.2 in
      Player.setPosition player worldX worldY
  | [] => player
  end.

End GameLevel.

(** ** Pellet.js: placing the pellets *)

Module PelletPlacement.

(** The manager together with what [generatePellets] reads: the generator,
    the renderer and the two placement settings.  [nextId] numbers the
    pellet objects.  The draws of [Math.random] come from the same source
    as the generator's. *)
Record t : Type := mk {
  manager : PelletManager.t;
  mazeGenerator : MazeGenerator.t;
  mazeRenderer : MazeRenderer.t;
  normalPelletDensity : Q;
  powerPelletCount : nat;
  nextId : nat
}.

Definition new (gen : MazeGenerator.t) (r : MazeRenderer.t) : t :=
  {| manager := {| PelletManager.pellets := []; PelletManager.totalPellets := 0;
                   PelletManager.collectedPellets := 0 |};
     mazeGenerator := gen; mazeRenderer := r;
     normalPelletDensity := 7 # 10; powerPelletCount := 4; nextId := 0 |}.

Definition withPellets (s : t) (ps : list Pellet.t) : t :=
  {| manager := {| PelletManager.pellets := ps;
                   PelletManager.totalPellets := PelletManager.totalPellets (manager s);
                   PelletManager.collectedPellets := PelletManager.collectedPellets (manager s) |};
     mazeGenerator := mazeGenerator s; mazeRenderer := mazeRenderer s;
     normalPelletDensity := normalPelletDensity s; powerPelletCount := powerPelletCount s;
     nextId := nextId s |}.

(** [this.pellets.push (new Pellet (worldPos.x, worldPos.y, type))] for
    the grid position [pos]. *)
Definition pushPellet (s : t) (pos : Cell) (ty : string) : t :=
  let '(worldX, worldY) := MazeRenderer.gridToWorld (mazeRenderer s) pos.1 pos.2 in
  {| manager := {| PelletManager.pellets :=
                     PelletManager.pellets (manager s) ++ [Pellet.new (nextId s) worldX worldY ty];
                   PelletManager.totalPellets := PelletManager.totalPellets (manager s);
                   PelletManager.collectedPellets := PelletManager.collectedPellets (manager s) |};
     mazeGenerator := mazeGenerator s; mazeRenderer := mazeRenderer s;
     normalPelletDensity := normalPelletDensity s; powerPelletCount := powerPelletCount s;
     nextId := S (nextId s) |}.

Definition placeNormalPellets (s : t) (accessiblePositions : list Cell) (g : MazeGenerator.Rng)
    : t * MazeGenerator.Rng :=
  let normalPelletCount :=
    Qfloor (inject_Z (Z.of_nat (length accessiblePositions)) * normalPelletDensity s) in
  let '(shuffledPositions, g') := MazeGenerator.shuffleArray accessiblePositions g in
  let n := Z.to_nat (Z.min normalPelletCount (Z.of_nat (length shuffledPositions))) in
  (foldl (fun s pos => pushPellet s pos "normal") s (take n shuffledPositions), g').

(** [this.mazeGenerator.getMaze] is read, and [MazeGenerator] has no such
    method: the function returns the empty array. *)
Definition findCornerPositions (s : t) (accessiblePositions : list Cell) : list Cell := [].

Definition selectRandomPositions (positions : list Cell) (count : nat) (g : MazeGenerator.Rng)
    : list Cell * MazeGenerator.Rng :=
  let '(shuffled, g') := MazeGenerator.shuffleArray positions g in
  (take count shuffled, g').

(** A pellet is kept when [Math.sqrt (dx * dx + dy * dy) > 10]. *)
Definition removePelletAtPosition (s : t) (worldX worldY : Q) : t :=
  withPellets s
    (List.filter (fun pellet =>
                    let dx := Pellet.x pellet - worldX in
                    let dy := Pellet.y pellet - worldY in
                    Qgtb (dx * dx + dy * dy) (10 * 10))
                 (PelletManager.pellets (manager s))).

Definition placePowerPellets (s : t) (accessiblePositions : list Cell) (g : MazeGenerator.Rng)
    : t * MazeGenerator.Rng :=
  if Nat.ltb (length accessiblePositions) (powerPelletCount s) then (s, g)
  else
    let cornerPositions := findCornerPositions s accessiblePositions in
    let '(powerPelletPositions, g') :=
      if Nat.leb (powerPelletCount s) (length cornerPositions)
      then (take (powerPelletCount s) cornerPositions, g)
      else selectRandomPositions accessiblePositions (powerPelletCount s) g in
    (foldl (fun s pos =>
              let '(worldX, worldY) :=
                MazeRenderer.gridToWorld (mazeRenderer s) pos.1 pos.2 in
              pushPellet (removePelletAtPosition s worldX worldY) pos "power")
           s powerPelletPositions, g').

Definition generatePellets (s : t) (maze : MazeGenerator.Maze) (g : MazeGenerator.Rng)
    : t * MazeGenerator.Rng :=
  let s0 :=
    {| manager := {| PelletManager.pellets := [];
                     PelletManager.totalPellets := PelletManager.totalPellets (manager s);
                     PelletManager.collectedPellets := 0 |};
       mazeGenerator := mazeGenerator s; mazeRenderer := mazeRenderer s;
       normalPelletDensity := normalPelletDensity s; powerPelletCount := powerPelletCount s;
       nextId := nextId s |} in
  let accessiblePositions := MazeGenerator.getAccessiblePositions (mazeGenerator s) maze in
  match accessiblePositions with
  | [] => (s0, g)
  | _ :: _ =>
      let '(s1, g1) := placeNormalPellets s0 accessiblePositions g in
      let '(s2, g2) := placePowerPellets s1 accessiblePositions g1 in
      ({| manager := {| PelletManager.pellets := PelletManager.pellets (manager s2);
                        PelletManager.totalPellets := length (PelletManager.pellets (manager s2));
                        PelletManager.collectedPellets :=
                          PelletManager.collectedPellets (manager s2) |};
          mazeGenerator := mazeGenerator s2; mazeRenderer := mazeRenderer s2;
          normalPelletDensity := normalPelletDensity s2; powerPelletCount := powerPelletCount s2;
          nextId := nextId s2 |}, g2)
  end.

End PelletPlacement.

(** ** InputHandler.js *)

Module InputHandler.

(** [keys] maps a key code to the last state seen for it; a code that was
    never seen reads as [undefined], which is falsy.  A call of
    [gameEngine.handleInput] is the second component of the result. *)
Record t : Type := mk {
  keys : gmap string bool;
  lastDirection : option Player.Input
}.

Definition new : t := {| keys := ∅; lastDirection := None |}.

Definition isGameKey (keyCode : string) : bool :=
  bool_decide (keyCode ∈ [ "ArrowUp"; "ArrowDown"; "ArrowLeft"; "ArrowRight";
                           "KeyW"; "KeyA"; "KeyS"; "KeyD" ]%string).

Definition pressed (h : t) (code : string) : bool := default false (keys h !! code).

Definition sameDirection (a b : Player.Input) : bool :=
  match a, b with
  | Player.Up, Player.Up | Player.Down, Player.Down
  | Player.Left, Player.Left | Player.Right, Player.Right => true
  | _, _ => false
  end.

Definition isLast (h : t) (d : Player.Input) : bool :=
  match lastDirection h with
  | Some l => sameDirection d l
  | None => false
  end.

Definition updatePlayerDirection (h : t) : t * option Player.Input :=
  let up := pressed h "ArrowUp" || pressed h "KeyW" in
  let down := pressed h "ArrowDown" || pressed h "KeyS" in
  let left := pressed h "ArrowLeft" || pressed h "KeyA" in
  let right := pressed h "ArrowRight" || pressed h "KeyD" in
  let newDirection :=
    if up && negb down then Some Player.Up
    else if down && negb up then Some Player.Down
    else if left && negb right then Some Player.Left
    else if right && negb left then Some Player.Right
    else None in
  let '(h1, sent) :=
    match newDirection with
    | Some d =>
        if negb (isLast h d)
        then ({| keys := keys h; lastDirection := Some d |}, Some d)
        else (h, None)
    | None => (h, None)
    end in
  if negb up && negb down && negb left && negb right
  then ({| keys := keys h1; lastDirection := None |}, sent)
  else (h1, sent).

Definition handleKeyDown (h : t) (code : string) : t * option Player.Input :=
  updatePlayerDirection {| keys := <[code := true]> (keys h); lastDirection := lastDirection h |}.

Definition handleKeyUp (h : t) (code : string) : t * option Player.Input :=
  updatePlayerDirection {| keys := <[code := false]> (keys h); lastDirection := lastDirection h |}.

End InputHandler.

(** ** GameEngine.js: levels and the game loop *)

Module Game.

(** The whole engine: the state of [GameEngine.t], the pellet manager
    (which holds the generator and the renderer that the engine holds
    too), the grid of the level and the camera of the renderer. *)
Record t : Type := mk {
  engine : GameEngine.t;
  pelletManager : PelletPlacement.t;
  maze : MazeGenerator.Maze;
  camera : Camera.t
}.

Definition mazeGenerator (s : t) : MazeGenerator.t :=
  PelletPlacement.mazeGenerator (pelletManager s).

Definition mazeRenderer (s : t) : MazeRenderer.t :=
  PelletPlacement.mazeRenderer (pelletManager s).

(** What the engine draws from outside while it builds or runs a level:
    the stack that is left for [recursiveBacktrack], the values of
    [Math.random] for the generator, for the pellets and for the spawn,
    and the outcome of each enemy's [updateAI]. *)
Record Draws : Type := mkDraws {
  stackDepth : nat;
  mazeRandom : MazeGenerator.Rng;
  pelletRandom : MazeGenerator.Rng;
  spawnRandom : Q;
  plans : Enemy.t -> Enemy.Plan
}.

Definition withEngine (s : t) (g : GameEngine.t) : t :=
  {| engine := g; pelletManager := pelletManager s; maze := maze s; camera := camera s |}.

Definition withPlayer (g : GameEngine.t) (p : Player.t) : GameEngine.t :=
  {| GameEngine.score := GameEngine.score g; GameEngine.lives := GameEngine.lives g;
     GameEngine.level := GameEngine.level g;
     GameEngine.isRunning := GameEngine.isRunning g;
     GameEngine.isRespawning := GameEngine.isRespawning g;
     GameEngine.invulnerabilityTime := GameEngine.invulnerabilityTime g;
     GameEngine.player := p; GameEngine.aiController := GameEngine.aiController g |}.

Definition withController (g : GameEngine.t) (c : AIController.t) : GameEngine.t :=
  {| GameEngine.score := GameEngine.score g; GameEngine.lives := GameEngine.lives g;
     GameEngine.level := GameEngine.level g;
     GameEngine.isRunning := GameEngine.isRunning g;
     GameEngine.isRespawning := GameEngine.isRespawning g;
     GameEngine.invulnerabilityTime := GameEngine.invulnerabilityTime g;
     GameEngine.player := GameEngine.player g; GameEngine.aiController := c |}.

Definition resetPlayerPosition (s : t) : t :=
  withEngine s
    (withPlayer (engine s)
       (GameLevel.resetPlayerPosition (mazeGenerator s) (maze s) (mazeRenderer s)
          (GameEngine.player (engine s)))).

(** [generateNewMaze].  [setMaze] changes the renderer that the pellet
    manager, the player and the controller hold. *)
Definition generateNewMaze (s : t) (d : Draws) : MazeGenerator.Result t :=
  match MazeGenerator.generate (mazeGenerator s) (stackDepth d) (mazeRandom d) with
  | MazeGenerator.Throw msg => MazeGenerator.Throw msg
  | MazeGenerator.Ok newMaze =>
      let r := MazeRenderer.setMaze (GameLevel.mazeRows (mazeGenerator s) newMaze)
                                    (mazeRenderer s) in
      let pm :=
        {| PelletPlacement.manager := PelletPlacement.manager (pelletManager s);
           PelletPlacement.mazeGenerator := mazeGenerator s;
           PelletPlacement.mazeRenderer := r;
           PelletPlacement.normalPelletDensity :=
             PelletPlacement.normalPelletDensity (pelletManager s);
           PelletPlacement.powerPelletCount :=
             PelletPlacement.powerPelletCount (pelletManager s);
           PelletPlacement.nextId := PelletPlacement.nextId (pelletManager s) |} in
      let s1 :=
        {| engine :=
             withPlayer (engine s)
               (Player.withMazeRenderer (GameEngine.player (engine s)) (Some r));
           pelletManager := fst (PelletPlacement.generatePellets pm newMaze (pelletRandom d));
           maze := newMaze; camera := camera s |} in
      let s2 := resetPlayerPosition s1 in
      let level := GameEngine.level (engine s2) in
      MazeGenerator.Ok
        (withEngine s2
           (withController (engine s2)
              (AIController.setDifficultyLevel
                 (AIController.reset
                    (AIController.setMazeRenderer (GameEngine.aiController (engine s2))
                                                  (Some r)))
                 level)))
  end.

(** The steps of 0.1 (speed) and 0.02 (density) are exact fractions
    here; the code adds and subtracts their nearest doubles, so that its
    values can differ from these in the last digit. *)
Definition increaseDifficulty (s : t) : t :=
  let maxSpeed : Q := 4 in
  let speedIncrease : Q := 1 # 10 in
  let player := GameEngine.player (engine s) in
  let currentSpeed := Player.getSpeed player in
  let g1 := withPlayer (engine s) (Player.setSpeed player (Qmin maxSpeed (currentSpeed + speedIncrease))) in
  let maxMazeWidth := 61%Z in
  let maxMazeHeight := 41%Z in
  let currentWidth := MazeGenerator.width (mazeGenerator s) in
  let currentHeight := MazeGenerator.height (mazeGenerator s) in
  let level := GameEngine.level (engine s) in
  let pm1 :=
    if Z.eqb (Z.rem level 3) 0 then
      let newWidth := Z.min maxMazeWidth (currentWidth + 4) in
      let newHeight := Z.min maxMazeHeight (currentHeight + 2) in
      if negb (Z.eqb newWidth currentWidth) || negb (Z.eqb newHeight currentHeight)
      then PelletPlacement.new (MazeGenerator.new newWidth newHeight) (mazeRenderer s)
      else pelletManager s
    else pelletManager s in
  let minDensity : Q := 4 # 10 in
  let densityDecrease : Q := 2 # 100 in
  let newDensity := Qmax minDensity (PelletPlacement.normalPelletDensity pm1 - densityDecrease) in
  let maxPowerPellets := 6%nat in
  let pm2 :=
    {| PelletPlacement.manager := PelletPlacement.manager pm1;
       PelletPlacement.mazeGenerator := PelletPlacement.mazeGenerator pm1;
       PelletPlacement.mazeRenderer := PelletPlacement.mazeRenderer pm1;
       PelletPlacement.normalPelletDensity := newDensity;
       PelletPlacement.powerPelletCount :=
         if Z.eqb (Z.rem level 5) 0
         then Nat.min maxPowerPellets (PelletPlacement.powerPelletCount pm1 + 1)
         else PelletPlacement.powerPelletCount pm1;
       PelletPlacement.nextId := PelletPlacement.nextId pm1 |} in
  {| engine := withController g1 (AIController.setDifficultyLevel (GameEngine.aiController g1) level);
     pelletManager := pm2; maze := maze s; camera := camera s |}.

Definition handleLevelComplete (s : t) (d : Draws) : MazeGenerator.Result t :=
  let s1 :=
    if Nat.ltb 0 (PelletManager.getTotalPelletCount (PelletPlacement.manager (pelletManager s)))
    then
      let levelBonus := (GameEngine.level (engine s) * 100)%Z in
      let g1 := GameEngine.updateScore (engine s) levelBonus in
      let g2 :=
        {| GameEngine.score := GameEngine.score g1; GameEngine.lives := GameEngine.lives g1;
           GameEngine.level := (GameEngine.level g1 + 1)%Z;
           GameEngine.isRunning := GameEngine.isRunning g1;
           GameEngine.isRespawning := GameEngine.isRespawning g1;
           GameEngine.invulnerabilityTime := GameEngine.invulnerabilityTime g1;
           GameEngine.player := GameEngine.player g1;
           GameEngine.aiController := GameEngine.aiController g1 |} in
      increaseDifficulty (withEngine s g2)
    else s in
  generateNewMaze s1 d.

Definition withManager (pm : PelletPlacement.t) (m : PelletManager.t) : PelletPlacement.t :=
  {| PelletPlacement.manager := m;
     PelletPlacement.mazeGenerator := PelletPlacement.mazeGenerator pm;
     PelletPlacement.mazeRenderer := PelletPlacement.mazeRenderer pm;
     PelletPlacement.normalPelletDensity := PelletPlacement.normalPelletDensity pm;
     PelletPlacement.powerPelletCount := PelletPlacement.powerPelletCount pm;
     PelletPlacement.nextId := PelletPlacement.nextId pm |}.

(** [handlePelletCollection], with the call of [handleLevelComplete]. *)
Definition handlePelletCollection (s : t) (d : Draws) : MazeGenerator.Result t :=
  let '(collected, complete) :=
    GameLevel.handlePelletCollection
      {| GameLevel.engine := engine s;
         GameLevel.pelletManager := PelletPlacement.manager (pelletManager s) |} in
  let s1 :=
    {| engine := GameLevel.engine collected;
       pelletManager := withManager (pelletManager s) (GameLevel.pelletManager collected);
       maze := maze s; camera := camera s |} in
  if complete then handleLevelComplete s1 d else MazeGenerator.Ok s1.

(** [update (deltaTime)]; [pelletManager.update] and [updateUI] touch
    animation fields and the page only. *)
Definition update (s : t) (deltaTime : Q) (d : Draws) : MazeGenerator.Result t :=
  if negb (GameEngine.isRunning (engine s)) || GameEngine.isRespawning (engine s)
  then MazeGenerator.Ok s
  else
    let g := engine s in
    let g1 :=
      {| GameEngine.score := GameEngine.score g; GameEngine.lives := GameEngine.lives g;
         GameEngine.level := GameEngine.level g;
         GameEngine.isRunning := GameEngine.isRunning g;
         GameEngine.isRespawning := GameEngine.isRespawning g;
         GameEngine.invulnerabilityTime :=
           if Qgtb (GameEngine.invulnerabilityTime g) 0
           then GameEngine.invulnerabilityTime g - deltaTime
           else GameEngine.invulnerabilityTime g;
         GameEngine.player := Player.update (GameEngine.player g) deltaTime;
         GameEngine.aiController := GameEngine.aiController g |} in
    match handlePelletCollection (withEngine s g1) d with
    | MazeGenerator.Throw msg => MazeGenerator.Throw msg
    | MazeGenerator.Ok s2 =>
        let g2 := engine s2 in
        let g3 := withController g2
                    (AIController.update (GameEngine.aiController g2) deltaTime
                       (spawnRandom d) (plans d)) in
        let g4 := GameEngine.handleEnemyCollisions g3 in
        MazeGenerator.Ok
          {| engine := g4; pelletManager := pelletManager s2; maze := maze s2;
             camera := Camera.updateCamera (mazeRenderer s2) (camera s2)
                         (Player.x (GameEngine.player g4)) (Player.y (GameEngine.player g4)) |}
    end.

Definition handleInput (s : t) (direction : Player.Input) : t :=
  withEngine s (GameEngine.handleInput (engine s) direction).

Definition withRunning (g : GameEngine.t) (running : bool) : GameEngine.t :=
  {| GameEngine.score := GameEngine.score g; GameEngine.lives := GameEngine.lives g;
     GameEngine.level := GameEngine.level g;
     GameEngine.isRunning := running;
     GameEngine.isRespawning := GameEngine.isRespawning g;
     GameEngine.invulnerabilityTime := GameEngine.invulnerabilityTime g;
     GameEngine.player := GameEngine.player g;
     GameEngine.aiController := GameEngine.aiController g |}.

(** [start] and [stop]; the animation frames that [start] requests are the
    [update] calls. *)
Definition start (s : t) : t := withEngine s (withRunning (engine s) true).
Definition stop (s : t) : t := withEngine s (withRunning (engine s) false).

(** The callback that [respawnPlayer] hands to [setTimeout]. *)
Definition respawnTimer (s : t) : t :=
  let s1 := resetPlayerPosition s in
  let g := engine s1 in
  withEngine s1
    {| GameEngine.score := GameEngine.score g; GameEngine.lives := GameEngine.lives g;
       GameEngine.level := GameEngine.level g;
       GameEngine.isRunning := GameEngine.isRunning g;
       GameEngine.isRespawning := false;
       GameEngine.invulnerabilityTime := GameEngine.invulnerabilityTime g;
       GameEngine.player := GameEngine.player g;
       GameEngine.aiController := GameEngine.aiController g |}.

Definition resetGame (s : t) (d : Draws) : MazeGenerator.Result t :=
  let g := engine s in
  let gen := MazeGenerator.new 41 31 in
  let g1 :=
    {| GameEngine.score := 0; GameEngine.lives := 3; GameEngine.level := 1;
       GameEngine.isRunning := GameEngine.isRunning g;
       GameEngine.isRespawning := false;
       GameEngine.invulnerabilityTime := 0;
       GameEngine.player := Player.stop (Player.setSpeed (GameEngine.player g) 2);
       GameEngine.aiController :=
         AIController.setDifficultyLevel
           (AIController.setActive (AIController.reset (GameEngine.aiController g)) true) 1 |} in
  generateNewMaze
    {| engine := g1; pelletManager := PelletPlacement.new gen (mazeRenderer s);
       maze := maze s; camera := camera s |} d.

(** The callback that [showGameOverScreen] hands to [setTimeout]. *)
Definition restartTimer (s : t) (d : Draws) : MazeGenerator.Result t :=
  if Z.leb (GameEngine.lives (engine s)) 0
  then match resetGame s d with
       | MazeGenerator.Ok s1 => MazeGenerator.Ok (start s1)
       | MazeGenerator.Throw msg => MazeGenerator.Throw msg
       end
  else MazeGenerator.Ok s.

(** The constructor, for a canvas of the given size. *)
Definition new (canvasWidth canvasHeight : Q) (d : Draws) : MazeGenerator.Result t :=
  let gen := MazeGenerator.new 41 31 in
  let r := MazeRenderer.new in
  generateNewMaze
    {| engine :=
         {| GameEngine.score := 0; GameEngine.lives := 3; GameEngine.level := 1;
            GameEngine.isRunning := false; GameEngine.isRespawning := false;
            GameEngine.invulnerabilityTime := 0;
            GameEngine.player := Player.new 50 50 (Some r);
            GameEngine.aiController := AIController.new (Some r) |};
       pelletManager := PelletPlacement.new gen r;
       maze := ∅;
       camera := Camera.new canvasWidth canvasHeight |} d.

End Game.

(** * Part II: vocabulary of the properties *)

(** ** Vocabulary for the vulnerability property *)

(** What can happen to an enemy between entering the vulnerable state and
    leaving it: another [setVulnerable (true, d)], or a tick of the
    vulnerability timer. *)
Inductive VulnerabilityEvent : Type :=
| MakeVulnerable (duration : option Q)
| TimerTick (deltaTime : Q).

Definition applyVulnerabilityEvent (e : Enemy.t) (ev : VulnerabilityEvent) : Enemy.t :=
  match ev with
  | MakeVulnerable d => Enemy.setVulnerable e true d
  | TimerTick dt => Enemy.updateVulnerabilityState e dt
  end.

(** The speed discipline relative to the pre-vulnerability speed [s]. *)
Definition speedInvariant (s : Q) (e : Enemy.t) : Prop :=
  if Enemy.isVulnerable e
  then Enemy.speed e == s / 2 /\
       exists o, Enemy.originalSpeed e = Some o /\ o == s
  else Enemy.speed e == s.

Definition sampleChaser : Enemy.t := Enemy.new 0 30 30 None "chaser".

(** ** Vocabulary for the pellet property *)

(** One call of [checkCollisions]: the position and radius of the player. *)
Definition PelletTick : Type := (Q * Q * Q)%type.

(** The manager after a sequence of [checkCollisions] calls, and the
    arrays that the calls returned, in order. *)
Fixpoint runPelletTicks (m : PelletManager.t) (ticks : list PelletTick)
    : PelletManager.t * list (list Pellet.t) :=
  match ticks with
  | [] => (m, [])
  | (ox, oy, radius) :: rest =>
      let '(m1, got) := PelletManager.checkCollisions m ox oy radius in
      let '(m2, gots) := runPelletTicks m1 rest in
      (m2, got :: gots)
  end.

(** The points that the pellet object [ident] contributes when the engine
    credits [getPoints ()] of every pellet of a returned array. *)
Definition creditedTo (ident : nat) (got : list Pellet.t) : Z :=
  foldr (fun q acc => if Nat.eqb (Pellet.id q) ident then (Pellet.getPoints q + acc)%Z else acc)
        0%Z got.

(** What one pass of [checkCollisions] does to a single pellet. *)
Definition stepPellet (ox oy radius : Q) (p : Pellet.t) : Pellet.t :=
  if Pellet.checkCollision p ox oy radius then snd (Pellet.collect p) else p.

Definition samplePellets : PelletManager.t :=
  {| PelletManager.pellets :=
       [ Pellet.new 0 30 30 "normal"; Pellet.new 1 50 30 "power"; Pellet.new 2 70 30 "normal" ];
     PelletManager.totalPellets := 3;
     PelletManager.collectedPellets := 0 |}.

(** The object [i] has been collected. *)
Definition collectedIn (i : nat) (ps : list Pellet.t) : Prop :=
  forall q, q ∈ ps -> Pellet.id q = i -> Pellet.collected q = true.

(** ** Vocabulary for the movement properties *)

(** A hand-built grid: one free cell enclosed by walls. *)
Definition boxMaze : list (list Z) :=
  [ [1; 1; 1]; [1; 0; 1]; [1; 1; 1] ]%Z.

(** A hand-built grid without walls. *)
Definition openMaze : list (list Z) :=
  [ [0; 0; 0]; [0; 0; 0]; [0; 0; 0] ]%Z.

(** A corridor along the middle row that reaches both side edges. *)
Definition tunnelMaze : list (list Z) :=
  [ [1; 1; 1; 1; 1]; [0; 0; 0; 0; 0]; [1; 1; 1; 1; 1] ]%Z.

Definition boxRenderer : MazeRenderer.t := MazeRenderer.setMaze boxMaze MazeRenderer.new.
Definition openRenderer : MazeRenderer.t := MazeRenderer.setMaze openMaze MazeRenderer.new.
Definition tunnelRenderer : MazeRenderer.t := MazeRenderer.setMaze tunnelMaze MazeRenderer.new.

(** The position at which the player tries its forward move: after the
    grid bookkeeping and the queued turn. *)
Definition playerBeforeMove (p : Player.t) : Player.t :=
  Player.applyQueuedTurn (Player.updateGridPosition p).

(** The player's forward move is tried and the collision test rejects it. *)
Definition playerMoveRejected (p : Player.t) : Prop :=
  let p1 := playerBeforeMove p in
  Player.isZeroVec (Player.direction p1) = false /\
  Player.canMoveToPosition p1
    (Player.x p1 + vx (Player.direction p1) * Player.speed p1)
    (Player.y p1 + vy (Player.direction p1) * Player.speed p1) = false.

(** The enemy's state when it tries its forward move: after the grid
    bookkeeping and the smoothing of the direction. *)
Definition enemyBeforeMove (e : Enemy.t) : Enemy.t :=
  let e1 := Enemy.updateGridPosition e in
  Enemy.withDirection e1
    (mkVec (vx (Enemy.direction e1) +
            (vx (Enemy.targetDirection e1) - vx (Enemy.direction e1)) * Enemy.smoothing)
           (vy (Enemy.direction e1) +
            (vy (Enemy.targetDirection e1) - vy (Enemy.direction e1)) * Enemy.smoothing)).

(** The collision test rejects the enemy's forward move. *)
Definition enemyMoveRejected (e : Enemy.t) : Prop :=
  let e1 := enemyBeforeMove e in
  Enemy.canMoveToPosition e1
    (Enemy.x e1 + vx (Enemy.direction e1) * Enemy.speed e1)
    (Enemy.y e1 + vy (Enemy.direction e1) * Enemy.speed e1) = false.

(** The centre of the grid cell that holds a world position. *)
Definition cellCenter (r : MazeRenderer.t) (wx wy : Q) : Q * Q :=
  let '(gx, gy) := MazeRenderer.worldToGrid r wx wy in
  MazeRenderer.gridToWorld r gx gy.

(** The wall-hit resolution that the specification describes, for an
    enemy: snapped to the centre of its cell, direction zeroed. *)
Definition enemySnapsWhenRejected (e : Enemy.t) : Prop :=
  forall r, Enemy.mazeRenderer e = Some r ->
  enemyMoveRejected e ->
  let e' := Enemy.handleMovement e in
  Enemy.x e' == fst (cellCenter r (Enemy.x e) (Enemy.y e)) /\
  Enemy.y e' == snd (cellCenter r (Enemy.x e) (Enemy.y e)) /\
  vx (Enemy.direction e') == 0 /\ vy (Enemy.direction e') == 0.

(** An enemy one pixel right of the centre of the free cell of
    [boxMaze], heading right. *)
Definition boxedEnemy : Enemy.t :=
  Enemy.withDirection
    (Enemy.updateAI (Enemy.new 0 31 30 (Some boxRenderer) "ghost")
       {| Enemy.planPath := []; Enemy.planPathIndex := 0;
          Enemy.planLastPathUpdate := 0; Enemy.planTargetDirection := mkVec 1 0 |})
    (mkVec 1 0).

(** A player one pixel right of the centre of the free cell of
    [boxMaze], heading right. *)
Definition boxedPlayer : Player.t :=
  Player.withDirections (Player.new 31 30 (Some boxRenderer)) (mkVec 1 0) vzero.

(** An enemy in the top-left corner cell of [openMaze], within half a
    cell of both the left and the top edge. *)
Definition cornerEnemy : Enemy.t := Enemy.new 0 9 9 (Some openRenderer) "ghost".

Definition cornerPlayer : Player.t := Player.new 9 9 (Some openRenderer).

(** The steps that move an agent. *)
Inductive PlayerStep : Type :=
| PlayerInput (i : Player.Input)
| PlayerUpdate (deltaTime : Q).

Definition playerStep (p : Player.t) (s : PlayerStep) : Player.t :=
  match s with
  | PlayerInput i => Player.setDirection p i
  | PlayerUpdate dt => Player.update p dt
  end.

Inductive EnemyStep : Type :=
| EnemyUpdate (deltaTime : Q) (plan : Enemy.Plan).

Definition enemyStep (e : Enemy.t) (s : EnemyStep) : Enemy.t :=
  match s with
  | EnemyUpdate dt plan => Enemy.update e dt plan
  end.





(** No corner of the agent's bounding box lies in a wall cell or outside
    the grid. *)
Definition playerClear (p : Player.t) : Prop :=
  Player.canMoveToPosition p (Player.x p) (Player.y p) = true.



(** A player in the left mouth of the corridor of [tunnelMaze]. *)
Definition tunnelPlayer : Player.t := Player.new 9 30 (Some tunnelRenderer).
Definition tunnelEnemy : Enemy.t := Enemy.new 0 9 30 (Some tunnelRenderer) "ghost".


Definition samplePlan : Enemy.Plan :=
  {| Enemy.planPath := []; Enemy.planPathIndex := 0;
     Enemy.planLastPathUpdate := 0; Enemy.planTargetDirection := mkVec 1 0 |}.


(** ** Vocabulary for the roster and collision properties *)

(** The calls that act on a controller within one level. *)
Inductive ControllerOp : Type :=
| OpUpdate (deltaTime random : Q) (plans : Enemy.t -> Enemy.Plan)
| OpRemoveEnemy (enemy : Enemy.t)
| OpSetAllVulnerable (vulnerable : bool) (duration : Q)
| OpSetActive (active : bool).

Definition controllerStep (c : AIController.t) (op : ControllerOp) : AIController.t :=
  match op with
  | OpUpdate dt random plans => AIController.update c dt random plans
  | OpRemoveEnemy enemy => fst (AIController.removeEnemy c enemy)
  | OpSetAllVulnerable v d => AIController.setAllEnemiesVulnerable c v d
  | OpSetActive a => AIController.setActive c a
  end.

Definition rosterSize (c : AIController.t) : Z :=
  Z.of_nat (length (AIController.enemies c)).

Definition sampleController : AIController.t := AIController.new (Some openRenderer).

Definition sampleOps : list ControllerOp :=
  [ OpUpdate 2000 (1 # 10) (fun _ => samplePlan);
    OpUpdate 2000 (1 # 2) (fun _ => samplePlan);
    OpRemoveEnemy (Enemy.new 0 0 0 None "chaser");
    OpUpdate 2000 (9 # 10) (fun _ => samplePlan);
    OpUpdate 2000 (9 # 10) (fun _ => samplePlan);
    OpUpdate 2000 (9 # 10) (fun _ => samplePlan);
    OpUpdate 2000 (9 # 10) (fun _ => samplePlan) ].

(** The enemies that overlap the player, in roster order. *)
Definition collidingEnemies (g : GameEngine.t) : list Enemy.t :=
  AIController.checkPlayerCollisions (GameEngine.aiController g)
    (Player.getPosition (GameEngine.player g)) (Player.getSize (GameEngine.player g)).

(** The overlapping enemies that are processed as eaten: the vulnerable
    ones ahead of the first that is not vulnerable. *)
Fixpoint eatenPrefix (colliding : list Enemy.t) : list Enemy.t :=
  match colliding with
  | [] => []
  | e :: rest => if Enemy.getIsVulnerable e then e :: eatenPrefix rest else []
  end.

(** Some overlapping enemy is not vulnerable. *)
Definition hitOccurs (colliding : list Enemy.t) : bool :=
  List.existsb (fun e => negb (Enemy.getIsVulnerable e)) colliding.

Definition pointsOf (eaten : list Enemy.t) : Z :=
  foldr (fun e acc => (GameEngine.getEnemyPoints (Enemy.getType e) + acc)%Z) 0%Z eaten.

Definition rosterIds (g : GameEngine.t) : list nat :=
  List.map Enemy.id (AIController.enemies (GameEngine.aiController g)).

(** The sentence of the collision property about an enemy that is not
    vulnerable: its overlap costs the player exactly one life. *)
Definition overlapCostsLife (g : GameEngine.t) : Prop :=
  forall e, e ∈ collidingEnemies g -> Enemy.getIsVulnerable e = false ->
  GameEngine.lives (GameEngine.handleEnemyCollisions g) = (GameEngine.lives g - 1)%Z.

Definition engineWith (invulnerabilityTime : Q) (enemies : list Enemy.t) : GameEngine.t :=
  {| GameEngine.score := 0; GameEngine.lives := 3; GameEngine.level := 1;
     GameEngine.isRunning := true; GameEngine.isRespawning := false;
     GameEngine.invulnerabilityTime := invulnerabilityTime;
     GameEngine.player := Player.new 30 30 (Some openRenderer);
     GameEngine.aiController :=
       AIController.withEnemies (AIController.new (Some openRenderer)) enemies |}.

Definition nearChaser : Enemy.t := Enemy.new 0 35 30 (Some openRenderer) "chaser".
Definition nearAmbusher : Enemy.t :=
  Enemy.setVulnerable (Enemy.new 1 30 25 (Some openRenderer) "ambusher") true None.
Definition farPatrol : Enemy.t := Enemy.new 2 50 50 (Some openRenderer) "patrol".

(** The player has just respawned and an enemy stands on it. *)
Definition invulnerableEngine : GameEngine.t := engineWith 1000 [nearChaser].

Definition busyEngine : GameEngine.t := engineWith 0 [nearAmbusher; farPatrol; nearChaser].

(** ** Vocabulary for the maze properties *)

(** A path cell of the grid: a cell within the bounds that holds [PATH]. *)
Definition isPathCell (gen : MazeGenerator.t) (maze : MazeGenerator.Maze) (c : Cell) : bool :=
  MazeGenerator.isInBounds gen c.1 c.2 &&
  MazeGenerator.cellIs maze c.1 c.2 MazeGenerator.PATH.

(** The set of all path cells. *)
Definition pathCellSet (gen : MazeGenerator.t) (maze : MazeGenerator.Maze) : gset Cell :=
  list_to_set (MazeGenerator.getAccessiblePositions gen maze).

(** One step between 4-adjacent path cells. *)
Definition pathStep (gen : MazeGenerator.t) (maze : MazeGenerator.Maze) (a b : Cell) : Prop :=
  b ∈ MazeGenerator.neighborsOf a /\
  isPathCell gen maze a = true /\ isPathCell gen maze b = true.

(** A cell of the outer border: row 0, the last row, column 0 or the last
    column. *)
Definition isBorderCell (gen : MazeGenerator.t) (c : Cell) : bool :=
  MazeGenerator.isInBounds gen c.1 c.2 &&
  (Z.eqb c.1 0 || Z.eqb c.1 (MazeGenerator.width gen - 1) ||
   Z.eqb c.2 0 || Z.eqb c.2 (MazeGenerator.height gen - 1)).

(** The constant random source, and one that moves. *)
Definition zeroRng : MazeGenerator.Rng := MazeGenerator.mkRng (fun _ => 0) 0.
Definition steppingRng : MazeGenerator.Rng :=
  MazeGenerator.mkRng (fun n => Z.of_nat (n * 7 + 3) # 10) 0.

(** A hand-built grid with two path cells that do not touch. *)
Definition splitMaze : MazeGenerator.Maze :=
  <[(3, 1)%Z := MazeGenerator.PATH]>
    (<[(1, 1)%Z := MazeGenerator.PATH]> (MazeGenerator.initializeMaze (MazeGenerator.new 5 3))).

(** The state of the flood fill from [s]: everything seen so far is
    connected to [s], and every path neighbour of a visited cell is
    visited or waits on the stack. *)
Definition floodInv (gen : MazeGenerator.t) (maze : MazeGenerator.Maze)
    (s : Cell) (visited : gset Cell) (stack : list Cell) : Prop :=
  (forall v, v ∈ visited -> rtc (pathStep gen maze) s v /\ isPathCell gen maze v = true) /\
  (forall c, c ∈ stack -> rtc (pathStep gen maze) s c /\ isPathCell gen maze c = true) /\
  (forall v n, v ∈ visited -> n ∈ MazeGenerator.neighborsOf v ->
     isPathCell gen maze n = true -> n ∈ visited \/ n ∈ stack) /\
  (s ∈ visited \/ s ∈ stack).

(** Every cell of the outer border holds a wall. *)
Definition borderIntact (gen : MazeGenerator.t) (maze : MazeGenerator.Maze) : Prop :=
  forall c, isBorderCell gen c = true -> maze !! c = Some MazeGenerator.WALL.

(** ** Vocabulary for the path-planning property *)

(** [w] lists the cells of a walk after its first cell [a]: each cell is
    one of the four neighbours of the cell before it, and is not a wall. *)
Fixpoint isWalk (r : MazeRenderer.t) (a : Cell) (w : list Cell) : Prop :=
  match w with
  | [] => True
  | b :: w' => b ∈ Enemy.getNeighbors r a /\ isWalk r b w'
  end.

(** A walk of exactly [k] steps from [a] to [b]. *)
Inductive walkN (r : MazeRenderer.t) (a : Cell) : nat -> Cell -> Prop :=
| walkN_here : walkN r a 0 a
| walkN_step (k : nat) (b c : Cell) :
    walkN r a k b -> c ∈ Enemy.getNeighbors r b -> walkN r a (S k) c.

(** The cells inside the grid, and with them the only cell outside that a
    search can touch, its start. *)
Definition gridCells (r : MazeRenderer.t) : list Cell :=
  y ← seqZ 0 (MazeRenderer.mazeHeight r); x ← seqZ 0 (MazeRenderer.mazeWidth r); [(x, y)].

Definition searchUniverse (r : MazeRenderer.t) (start : Cell) : gset Cell :=
  {[start]} ∪ list_to_set (gridCells r).

(** A grid with a wall that forces a detour between (0, 0) and (2, 0). *)
Definition detourMaze : list (list Z) :=
  [ [0; 1; 0]; [0; 1; 0]; [0; 0; 0] ]%Z.

Definition detourRenderer : MazeRenderer.t := MazeRenderer.setMaze detourMaze MazeRenderer.new.

(** What holds of the search state at the head of the [while] loop
    ([pending = []]) and inside the [for] loop over the neighbours of the
    node [cur] that was just closed ([pending] lists the neighbours not
    yet visited). *)
Record astarInv (r : MazeRenderer.t) (start goal : Cell) (s : Enemy.AStar)
    (cur : Cell) (pending : list Cell) : Prop := mkAstarInv {
  inv_nodup : NoDup (Enemy.openSet s);
  inv_disjoint : forall n, n ∈ Enemy.openSet s -> n ∉ Enemy.closedSet s;
  inv_scored : forall n, n ∈ Enemy.openSet s \/ n ∈ Enemy.closedSet s ->
    is_Some (Enemy.gScore s !! n);
  inv_fscore : forall n gn, Enemy.gScore s !! n = Some gn ->
    Enemy.fScore s !! n = Some (gn + Enemy.heuristic n goal)%Z;
  inv_start_score : Enemy.gScore s !! start = Some 0%Z;
  inv_start_root : Enemy.cameFrom s !! start = None;
  inv_start_seen : start ∈ Enemy.closedSet s \/
    (Enemy.openSet s = [start] /\ Enemy.closedSet s = ∅);
  inv_parent : forall n gn, Enemy.gScore s !! n = Some gn -> n <> start ->
    exists p gp, Enemy.cameFrom s !! n = Some p /\ p ∈ Enemy.closedSet s /\
      Enemy.gScore s !! p = Some gp /\ gn = (gp + 1)%Z /\ n ∈ Enemy.getNeighbors r p;
  inv_range : forall n gn, Enemy.gScore s !! n = Some gn ->
    (0 <= gn <= Z.of_nat (size (Enemy.closedSet s)))%Z /\
    (n ∈ Enemy.closedSet s -> (gn < Z.of_nat (size (Enemy.closedSet s)))%Z);
  inv_optimal : forall c gc k, c ∈ Enemy.closedSet s ->
    Enemy.gScore s !! c = Some gc -> walkN r start k c -> (gc <= Z.of_nat k)%Z;
  inv_closure : forall c n gc, c ∈ Enemy.closedSet s ->
    Enemy.gScore s !! c = Some gc -> n ∈ Enemy.getNeighbors r c ->
    (c = cur -> n ∉ pending) ->
    exists gn, Enemy.gScore s !! n = Some gn /\ (gn <= gc + 1)%Z /\
      (n ∈ Enemy.openSet s \/ n ∈ Enemy.closedSet s);
  inv_universe : forall n, n ∈ Enemy.openSet s \/ n ∈ Enemy.closedSet s ->
    n ∈ searchUniverse r start;
  inv_goal_open : goal ∉ Enemy.closedSet s
}.

Definition detourEnemy : Enemy.t := Enemy.new 7 10 10 (Some detourRenderer) "chaser".

(** The way around the wall of [detourMaze], without its first cell. *)
Definition detourWalk : list Cell :=
  [ (0, 1); (0, 2); (1, 2); (2, 2); (2, 1); (2, 0) ]%Z.

(** A grid whose right column cannot be reached from the left one. *)
Definition splitRenderer : MazeRenderer.t :=
  MazeRenderer.setMaze [ [0; 1; 0]; [0; 1; 0]; [0; 1; 0] ]%Z MazeRenderer.new.

(** ** Vocabulary for the further properties *)

(** A generator of one of the sizes of the unit tests, and the grid that
    it returns under [steppingRng]. *)
Definition sampleGenerator : MazeGenerator.t := MazeGenerator.new 7 5.

Definition sampleGenerated : MazeGenerator.Maze :=
  match MazeGenerator.generate sampleGenerator 100 steppingRng with
  | MazeGenerator.Ok maze => maze
  | MazeGenerator.Throw _ => ∅
  end.

Definition splitEnemy : Enemy.t := Enemy.new 8 10 10 (Some splitRenderer) "patrol".

(** A whole number of at most 2^53 in size.  On these numbers the sums
    and differences of IEEE doubles are exact, so that the rational
    arithmetic of the embedding is the arithmetic of the code. *)
Definition wholeNumber (q : Q) : Prop :=
  exists n : Z, (Z.abs n <= 2 ^ 53)%Z /\ q == inject_Z n.

(** The time that a sequence of enemy updates covers. *)
Definition stepDelta (s : EnemyStep) : Q :=
  match s with EnemyUpdate dt _ => dt end.

Definition elapsed (steps : list EnemyStep) : Q :=
  foldr (fun s acc => stepDelta s + acc) 0 steps.

(** All the calls that act on a controller, across levels. *)
Inductive DirectorOp : Type :=
| DirControl (op : ControllerOp)
| DirReset
| DirSetDifficultyLevel (level : Z).

Definition directorStep (c : AIController.t) (op : DirectorOp) : AIController.t :=
  match op with
  | DirControl op => controllerStep c op
  | DirReset => AIController.reset c
  | DirSetDifficultyLevel level => AIController.setDifficultyLevel c level
  end.

Definition rosterOf (c : AIController.t) : list nat :=
  List.map Enemy.id (AIController.enemies c).

Definition sampleRoster : AIController.t :=
  AIController.withEnemies (AIController.new (Some openRenderer))
    [nearAmbusher; farPatrol; nearChaser].

(** The spawn points of a controller are not in walls. *)
Definition spawnPointsFree (c : AIController.t) : Prop :=
  forall r pos, AIController.mazeRenderer c = Some r ->
                pos ∈ AIController.spawnPositions c ->
                MazeRenderer.isWallAtPosition r (vx pos) (vy pos) = false.

Definition pelletCount (gots : list (list Pellet.t)) : nat := length (concat gots).

Definition sampleTicks : list PelletTick := [ (30, 30, 8); (40, 30, 8); (52, 30, 8) ].

(** The fields that the vulnerability code owns. *)
Definition sameVulnerability (a b : Enemy.t) : Prop :=
  Enemy.isVulnerable a = Enemy.isVulnerable b /\
  Enemy.state a = Enemy.state b /\
  Enemy.vulnerabilityTimer a = Enemy.vulnerabilityTimer b /\
  Enemy.color a = Enemy.color b /\
  Enemy.originalColor a = Enemy.originalColor b.

(** The grid [maze] comes from [base] by writing [PATH] into cells that
    are strictly inside the border, and by nothing else. *)
Definition carvedFrom (gen : MazeGenerator.t) (base maze : MazeGenerator.Maze) : Prop :=
  forall c, maze !! c = base !! c \/
            (MazeGenerator.isValidPosition gen c.1 c.2 = true /\
             maze !! c = Some MazeGenerator.PATH).

Definition keepsPaths (base maze : MazeGenerator.Maze) : Prop :=
  forall c, base !! c = Some MazeGenerator.PATH -> maze !! c = Some MazeGenerator.PATH.

Definition carving (gen : MazeGenerator.t) (base maze : MazeGenerator.Maze) : Prop :=
  borderIntact gen maze /\ carvedFrom gen base maze /\ keepsPaths base maze.

(** The grid with its first path cell, from which [generate] carves. *)
Definition seedMaze (gen : MazeGenerator.t) : MazeGenerator.Maze :=
  <[(1, 1)%Z := MazeGenerator.PATH]> (MazeGenerator.initializeMaze gen).

(** The renderer and the player of a level that shows [sampleGenerated]. *)
Definition sampleLevelRenderer : MazeRenderer.t :=
  MazeRenderer.setMaze (GameLevel.mazeRows sampleGenerator sampleGenerated) MazeRenderer.new.

Definition sampleLevelPlayer : Player.t := Player.new 50 50 (Some sampleLevelRenderer).

(** Keyboard events, the handler after each event of a sequence, and what
    each event sent to the engine. *)
Inductive KeyEvent : Type :=
| KeyDown (code : string)
| KeyUp (code : string).

Definition keyStep (h : InputHandler.t) (ev : KeyEvent)
    : InputHandler.t * option Player.Input :=
  match ev with
  | KeyDown code => InputHandler.handleKeyDown h code
  | KeyUp code => InputHandler.handleKeyUp h code
  end.

Fixpoint keyTrace (h : InputHandler.t) (evs : list KeyEvent)
    : list (InputHandler.t * option Player.Input) :=
  match evs with
  | [] => []
  | ev :: rest => keyStep h ev :: keyTrace (fst (keyStep h ev)) rest
  end.

Definition afterKeys (h : InputHandler.t) (evs : list KeyEvent) : InputHandler.t :=
  foldl (fun h ev => fst (keyStep h ev)) h evs.

(** The handler as [updatePlayerDirection] finds it after a key event. *)
Definition keyed (h : InputHandler.t) (ev : KeyEvent) : InputHandler.t :=
  match ev with
  | KeyDown code =>
      {| InputHandler.keys := <[code := true]> (InputHandler.keys h);
         InputHandler.lastDirection := InputHandler.lastDirection h |}
  | KeyUp code =>
      {| InputHandler.keys := <[code := false]> (InputHandler.keys h);
         InputHandler.lastDirection := InputHandler.lastDirection h |}
  end.

(** One of the two keys of a direction is down. *)
Definition held (h : InputHandler.t) (d : Player.Input) : bool :=
  match d with
  | Player.Up => InputHandler.pressed h "ArrowUp" || InputHandler.pressed h "KeyW"
  | Player.Down => InputHandler.pressed h "ArrowDown" || InputHandler.pressed h "KeyS"
  | Player.Left => InputHandler.pressed h "ArrowLeft" || InputHandler.pressed h "KeyA"
  | Player.Right => InputHandler.pressed h "ArrowRight" || InputHandler.pressed h "KeyD"
  end.

Definition anyHeld (h : InputHandler.t) : bool :=
  held h Player.Up || held h Player.Down || held h Player.Left || held h Player.Right.

Definition opposite (d : Player.Input) : Player.Input :=
  match d with
  | Player.Up => Player.Down
  | Player.Down => Player.Up
  | Player.Left => Player.Right
  | Player.Right => Player.Left
  end.

(** Nothing is sent and some direction key stays down. *)
Definition quiet (r : InputHandler.t * option Player.Input) : Prop :=
  snd r = None /\ anyHeld (fst r) = true.

(** The zero vector or one of the four unit vectors of the inputs. *)
Definition axisUnit (v : Vec) : Prop :=
  v = vzero \/ exists i, v = Player.inputVec i.

(** The cell [(gx, gy)] has a point in the open rectangle of the camera. *)
Definition cellInView (r : MazeRenderer.t) (camera : Camera.t) (gx gy : Z) : Prop :=
  Camera.x camera < inject_Z (gx + 1) * MazeRenderer.cellSize r /\
  inject_Z gx * MazeRenderer.cellSize r < Camera.x camera + Camera.width camera /\
  Camera.y camera < inject_Z (gy + 1) * MazeRenderer.cellSize r /\
  inject_Z gy * MazeRenderer.cellSize r < Camera.y camera + Camera.height camera.

Definition sampleCamera : Camera.t := Camera.new 45 30.

(** The vulnerability time that a power pellet gives at a level. *)
Definition powerDuration (level : Z) : Q :=
  10000 - Qmin 3000 (inject_Z (level - 1) * 200).

(** What the engine credits for a collected pellet: its points, and 50
    more for a power pellet. *)
Definition pelletCredit (q : Pellet.t) : Z :=
  (Pellet.getPoints q + if String.eqb (Pellet.getType q) "power" then 50 else 0)%Z.

Definition totalCredit (collected : list Pellet.t) : Z :=
  foldr (fun q acc => (pelletCredit q + acc)%Z) 0%Z collected.

Definition hasPower (collected : list Pellet.t) : bool :=
  List.existsb (fun q => String.eqb (Pellet.getType q) "power") collected.

Definition sampleLevel : GameLevel.t :=
  {| GameLevel.engine := engineWith 0 [nearChaser; farPatrol];
     GameLevel.pelletManager :=
       {| PelletManager.pellets :=
            [ Pellet.new 0 30 30 "normal"; Pellet.new 1 32 30 "power";
              Pellet.new 2 70 30 "normal" ];
          PelletManager.totalPellets := 3;
          PelletManager.collectedPellets := 0 |} |}.

(** The roster holds no enemy object twice, and every object in it was
    numbered by [nextId] before. *)
Definition distinctRoster (c : AIController.t) : Prop :=
  NoDup (rosterOf c) /\ Forall (fun i => (i < AIController.nextId c)%nat) (rosterOf c).

(** The cell in which a pellet lies, and the pellets of a placement. *)
Definition pelletCell (r : MazeRenderer.t) (p : Pellet.t) : Cell :=
  MazeRenderer.worldToGrid r (Pellet.x p) (Pellet.y p).

Definition onCentre (r : MazeRenderer.t) (p : Pellet.t) : Prop :=
  (Pellet.x p, Pellet.y p)
  = MazeRenderer.gridToWorld r (pelletCell r p).1 (pelletCell r p).2.

Definition isPower (p : Pellet.t) : bool := String.eqb (Pellet.getType p) "power".

Definition placedPellets (s : PelletPlacement.t) : list Pellet.t :=
  PelletManager.pellets (PelletPlacement.manager s).

(** What holds of the pellets while they are placed on the cells
    [cells]: each is a fresh, uncollected object with positive points on
    the centre of one of the cells, and no cell holds two. *)
Definition wellPlaced (r : MazeRenderer.t) (cells : list Cell) (s : PelletPlacement.t) : Prop :=
  PelletPlacement.mazeRenderer s = r /\
  Forall (fun p => Pellet.collected p = false /\
                   (Pellet.id p < PelletPlacement.nextId s)%nat /\
                   Pellet.points p = (if isPower p then 50 else 10)%Z /\
                   pelletCell r p ∈ cells /\ onCentre r p)
         (placedPellets s) /\
  NoDup (List.map Pellet.id (placedPellets s)) /\
  NoDup (List.map (pelletCell r) (placedPellets s)).

Definition samplePlacement : PelletPlacement.t :=
  PelletPlacement.new sampleGenerator sampleLevelRenderer.

(** What reaches the engine during a game: an animation frame with its
    elapsed time and the draws made in it, a direction from the input
    handler, the callbacks of the two timers, and the [start] and [stop]
    calls. *)
Inductive GameEvent : Type :=
| Frame (deltaTime : Q) (d : Game.Draws)
| Input (direction : Player.Input)
| RespawnTimer
| RestartTimer (d : Game.Draws)
| Start
| Stop.

Definition gameStep (s : Game.t) (ev : GameEvent) : MazeGenerator.Result Game.t :=
  match ev with
  | Frame deltaTime d => Game.update s deltaTime d
  | Input direction => MazeGenerator.Ok (Game.handleInput s direction)
  | RespawnTimer => MazeGenerator.Ok (Game.respawnTimer s)
  | RestartTimer d => Game.restartTimer s d
  | Start => MazeGenerator.Ok (Game.start s)
  | Stop => MazeGenerator.Ok (Game.stop s)
  end.

Fixpoint runGame (s : Game.t) (evs : list GameEvent) : MazeGenerator.Result Game.t :=
  match evs with
  | [] => MazeGenerator.Ok s
  | ev :: rest =>
      match gameStep s ev with
      | MazeGenerator.Ok s1 => runGame s1 rest
      | MazeGenerator.Throw msg => MazeGenerator.Throw msg
      end
  end.

Definition gamePellets (s : Game.t) : list Pellet.t :=
  PelletManager.pellets (PelletPlacement.manager (Game.pelletManager s)).

(** The level is set up: the renderer has cells of 20 pixels and shows
    the grid of the level, whose first path cell is (1, 1); the generator
    is of one of the sizes of [increaseDifficulty]; and the player holds
    the renderer. *)
Definition levelReady (s : Game.t) : Prop :=
  let gen := Game.mazeGenerator s in
  let r := Game.mazeRenderer s in
  MazeRenderer.cellSize r = 20 /\
  MazeRenderer.maze r = Some (GameLevel.mazeRows gen (Game.maze s)) /\
  (41 <= MazeGenerator.width gen <= 61)%Z /\
  (31 <= MazeGenerator.height gen <= 41)%Z /\
  Game.maze s !! (1, 1)%Z = Some MazeGenerator.PATH /\
  head (MazeGenerator.getAccessiblePositions gen (Game.maze s)) = Some (1, 1)%Z /\
  Player.mazeRenderer (GameEngine.player (Game.engine s)) = Some r.

(** Every pellet stands on the centre of a path cell of the level, no
    cell holds two, and the counters of the manager agree with the
    list. *)
Definition pelletsInPlace (s : Game.t) : Prop :=
  let gen := Game.mazeGenerator s in
  let r := Game.mazeRenderer s in
  let m := PelletPlacement.manager (Game.pelletManager s) in
  Forall (fun p => isPathCell gen (Game.maze s) (pelletCell r p) = true /\ onCentre r p /\
                   (0 < Pellet.points p)%Z)
         (gamePellets s) /\
  NoDup (List.map (pelletCell r) (gamePellets s)) /\
  PelletManager.getTotalPelletCount m = length (gamePellets s) /\
  (PelletManager.collectedPellets m + PelletManager.getRemainingPelletCount m
   = PelletManager.getTotalPelletCount m)%nat.

(** The settings that the levels change stay in their ranges. *)
Definition withinLimits (s : Game.t) : Prop :=
  let g := Game.engine s in
  let pm := Game.pelletManager s in
  (1 <= GameEngine.level g)%Z /\
  (GameEngine.lives g <= 3)%Z /\
  2 <= Player.speed (GameEngine.player g) <= 4 /\
  (4 # 10) <= PelletPlacement.normalPelletDensity pm <= (7 # 10) /\
  (4 <= PelletPlacement.powerPelletCount pm <= 6)%nat.

Definition isOk {A : Type} (r : MazeGenerator.Result A) : bool :=
  match r with
  | MazeGenerator.Ok _ => true
  | MazeGenerator.Throw _ => false
  end.

(** Draws for a sample game, and the game after some events. *)
Definition sampleDraws : Game.Draws :=
  {| Game.stackDepth := 2000; Game.mazeRandom := steppingRng;
     Game.pelletRandom := steppingRng; Game.spawnRandom := 1 # 2;
     Game.plans := fun _ => samplePlan |}.

Definition sampleGame : Game.t :=
  match Game.new 800 600 sampleDraws return Game.t with
  | MazeGenerator.Ok s => s
  | MazeGenerator.Throw _ =>
      {| Game.engine := engineWith 0 [];
         Game.pelletManager := PelletPlacement.new sampleGenerator MazeRenderer.new;
         Game.maze := ∅; Game.camera := sampleCamera |}
  end.

Definition sampleEvents : list GameEvent :=
  [ Start; Input Player.Right; Frame 16 sampleDraws; RespawnTimer; Input Player.Down;
    Frame 16 sampleDraws; Frame 16 sampleDraws; Stop; Frame 16 sampleDraws ].

Definition sampleGameAfter : Game.t :=
  match runGame sampleGame sampleEvents return Game.t with
  | MazeGenerator.Ok s => s
  | MazeGenerator.Throw _ => sampleGame
  end.

(** Two placements with the same generator, renderer and settings. *)
Definition sameSettings (a b : PelletPlacement.t) : Prop :=
  PelletPlacement.mazeGenerator a = PelletPlacement.mazeGenerator b /\
  PelletPlacement.mazeRenderer a = PelletPlacement.mazeRenderer b /\
  PelletPlacement.normalPelletDensity a = PelletPlacement.normalPelletDensity b /\
  PelletPlacement.powerPelletCount a = PelletPlacement.powerPelletCount b.

(** The player of [g'] stands where the player of [g] stands, with the
    same renderer and speed; the level is the same and no life is won. *)
Definition samePlayerPlace (g g' : GameEngine.t) : Prop :=
  Player.x (GameEngine.player g') = Player.x (GameEngine.player g) /\
  Player.y (GameEngine.player g') = Player.y (GameEngine.player g) /\
  Player.mazeRenderer (GameEngine.player g') = Player.mazeRenderer (GameEngine.player g) /\
  Player.speed (GameEngine.player g') = Player.speed (GameEngine.player g) /\
  GameEngine.level g' = GameEngine.level g /\
  (GameEngine.lives g' <= GameEngine.lives g)%Z.

(** What [generateNewMaze] needs of the state in which it is called. *)
Definition levelPending (s : Game.t) : Prop :=
  let gen := Game.mazeGenerator s in
  MazeRenderer.cellSize (Game.mazeRenderer s) = 20 /\
  (41 <= MazeGenerator.width gen <= 61)%Z /\
  (31 <= MazeGenerator.height gen <= 41)%Z /\
  withinLimits s.

(** What holds of the engine between two events of a game. *)
Definition gameInv (s : Game.t) : Prop :=
  levelReady s /\ playerClear (GameEngine.player (Game.engine s)) /\
  pelletsInPlace s /\ withinLimits s.

(** A small game at the end of its second level, and the game that
    follows; and the small game when it is lost, before and after its
    restart timer. *)
Definition smallDraws : Game.Draws :=
  {| Game.stackDepth := 200; Game.mazeRandom := steppingRng;
     Game.pelletRandom := steppingRng; Game.spawnRandom := 1 # 2;
     Game.plans := fun _ => samplePlan |}.

Definition smallGame : Game.t :=
  {| Game.engine :=
       {| GameEngine.score := 40; GameEngine.lives := 3; GameEngine.level := 2;
          GameEngine.isRunning := true; GameEngine.isRespawning := false;
          GameEngine.invulnerabilityTime := 0;
          GameEngine.player := sampleLevelPlayer;
          GameEngine.aiController := AIController.new (Some sampleLevelRenderer) |};
     Game.pelletManager :=
       {| PelletPlacement.manager :=
            {| PelletManager.pellets := [ snd (Pellet.collect (Pellet.new 0 30 30 "normal")) ];
               PelletManager.totalPellets := 1;
               PelletManager.collectedPellets := 1 |};
          PelletPlacement.mazeGenerator := sampleGenerator;
          PelletPlacement.mazeRenderer := sampleLevelRenderer;
          PelletPlacement.normalPelletDensity := 68 # 100;
          PelletPlacement.powerPelletCount := 4;
          PelletPlacement.nextId := 1 |};
     Game.maze := sampleGenerated;
     Game.camera := sampleCamera |}.

Definition sampleNextLevel : Game.t :=
  match Game.handleLevelComplete smallGame smallDraws return Game.t with
  | MazeGenerator.Ok s => s
  | MazeGenerator.Throw _ => smallGame
  end.

Definition sampleGameOver : Game.t :=
  Game.withEngine smallGame
    (GameEngine.gameOver
       {| GameEngine.score := 70;
          GameEngine.lives := 0;
          GameEngine.level := 2;
          GameEngine.isRunning := true;
          GameEngine.isRespawning := false;
          GameEngine.invulnerabilityTime := 0;
          GameEngine.player := GameEngine.player (Game.engine smallGame);
          GameEngine.aiController := GameEngine.aiController (Game.engine smallGame) |}).

Definition sampleRestarted : Game.t :=
  match Game.restartTimer sampleGameOver sampleDraws return Game.t with
  | MazeGenerator.Ok s => s
  | MazeGenerator.Throw _ => smallGame
  end.

(** The sample game started, and after its first frame. *)
Definition sampleFirstFrame : Game.t :=
  match Game.update (Game.start sampleGame) 16 sampleDraws return Game.t with
  | MazeGenerator.Ok s => s
  | MazeGenerator.Throw _ => sampleGame
  end.

(** * Part III: properties *)

(** ** Facts about rational comparisons and floors *)

Lemma Qltb_true (a b : Q) : Qltb a b = true <-> a < b.
Proof.
  unfold Qltb. rewrite negb_true_iff. split.
  - intros H. apply Qnot_le_lt. intros Hle. apply Qle_bool_iff in Hle. congruence.
  - intros H. destruct (Qle_bool b a) eqn:E; [|reflexivity].
    apply Qle_bool_iff in E. exfalso. apply (Qlt_not_le _ _ H E).
Qed.

Lemma Qltb_false (a b : Q) : Qltb a b = false <-> b <= a.
Proof.
  unfold Qltb. rewrite negb_false_iff. apply Qle_bool_iff.
Qed.

Lemma Qfloor_unique (q : Q) (i : Z) :
  inject_Z i <= q -> q < inject_Z (i + 1) -> Qfloor q = i.
Proof.
  intros Hlo Hhi.
  pose proof (Qfloor_le q) as H1. pose proof (Qlt_floor q) as H2.
  assert (Ha : inject_Z i < inject_Z (Qfloor q + 1)) by (eapply Qle_lt_trans; eauto).
  assert (Hb : inject_Z (Qfloor q) < inject_Z (i + 1)) by (eapply Qle_lt_trans; eauto).
  rewrite <- Zlt_Qlt in Ha, Hb. lia.
Qed.

Lemma Qdiv_bounds (a c : Q) (i : Z) :
  0 < c -> inject_Z i * c <= a -> a < inject_Z (i + 1) * c -> Qfloor (a / c) = i.
Proof.
  intros Hc Hlo Hhi. apply Qfloor_unique.
  - apply Qle_shift_div_l; assumption.
  - apply Qlt_shift_div_r; assumption.
Qed.

Lemma Qfloor_div_bounds (a c : Q) :
  0 < c ->
  inject_Z (Qfloor (a / c)) * c <= a /\ a < inject_Z (Qfloor (a / c) + 1) * c.
Proof.
  intros Hc.
  pose proof (Qfloor_le (a / c)) as H1. pose proof (Qlt_floor (a / c)) as H2.
  assert (Hne : ~ c == 0) by (intros E; rewrite E in Hc; discriminate).
  split.
  - apply (Qmult_le_r _ _ c Hc) in H1.
    assert (E : a / c * c == a) by (field; exact Hne). rewrite E in H1. exact H1.
  - apply (Qmult_lt_r _ _ c Hc) in H2.
    assert (E : a / c * c == a) by (field; exact Hne). rewrite E in H2. exact H2.
Qed.

(** [lra] does not read division; halving is multiplication by [1 # 2]. *)
Ltac lraQ := unfold Qdiv in *; change (/ 2) with (1 # 2) in *; lra.

(** ** Vulnerability symmetry (Enemy.js) *)

Lemma Qnonzero_false (q : Q) : Qnonzero q = false -> q == 0.
Proof.
  unfold Qnonzero. intros H. apply negb_false_iff in H.
  by apply Qeq_bool_iff.
Qed.

Lemma setVulnerable_true_inv (s : Q) (e : Enemy.t) (d : option Q) :
  speedInvariant s e -> speedInvariant s (Enemy.setVulnerable e true d).
Proof.
  unfold speedInvariant, Enemy.setVulnerable. simpl.
  destruct (Enemy.isVulnerable e); simpl.
  - auto.
  - intros Hs. split.
    + rewrite Hs. field.
    + exists (Enemy.speed e). auto.
Qed.

Lemma setVulnerable_false_speed (s : Q) (e : Enemy.t) (d : option Q) :
  speedInvariant s e -> Enemy.speed (Enemy.setVulnerable e false d) == s.
Proof.
  unfold speedInvariant, Enemy.setVulnerable. simpl.
  destruct (Enemy.isVulnerable e); simpl; [|auto].
  intros [Hs (o & Ho & Hos)]. rewrite Ho. simpl.
  destruct (Qnonzero o) eqn:Hnz; simpl; [exact Hos|].
  apply Qnonzero_false in Hnz.
  rewrite Hs, <- Hos, Hnz. reflexivity.
Qed.

Lemma setVulnerable_false_inv (s : Q) (e : Enemy.t) (d : option Q) :
  speedInvariant s e -> speedInvariant s (Enemy.setVulnerable e false d).
Proof.
  intros H. pose proof (setVulnerable_false_speed s e d H) as Hs.
  unfold speedInvariant. exact Hs.
Qed.

Lemma withVulnerabilityTimer_inv (s : Q) (e : Enemy.t) (timer : Q) :
  speedInvariant s e -> speedInvariant s (Enemy.withVulnerabilityTimer e timer).
Proof. auto. Qed.

Lemma withColor_inv (s : Q) (e : Enemy.t) (c : string) :
  speedInvariant s e -> speedInvariant s (Enemy.withColor e c).
Proof. auto. Qed.

Lemma updateVulnerabilityState_inv (s : Q) (e : Enemy.t) (dt : Q) :
  speedInvariant s e -> speedInvariant s (Enemy.updateVulnerabilityState e dt).
Proof.
  intros H. unfold Enemy.updateVulnerabilityState.
  destruct (Enemy.isVulnerable e) eqn:Hv; [|exact H].
  repeat match goal with
         | |- context [if ?b then _ else _] => destruct b
         end;
    auto using setVulnerable_false_inv, withColor_inv, withVulnerabilityTimer_inv.
Qed.

Lemma applyVulnerabilityEvent_inv (s : Q) (e : Enemy.t) (ev : VulnerabilityEvent) :
  speedInvariant s e -> speedInvariant s (applyVulnerabilityEvent e ev).
Proof.
  intros H. destruct ev as [d|dt]; simpl.
  - by apply setVulnerable_true_inv.
  - by apply updateVulnerabilityState_inv.
Qed.

Lemma events_inv (s : Q) (evs : list VulnerabilityEvent) (e : Enemy.t) :
  speedInvariant s e -> speedInvariant s (foldl applyVulnerabilityEvent e evs).
Proof.
  revert e. induction evs as [|ev evs IH]; intros e H; simpl; [exact H|].
  apply IH, applyVulnerabilityEvent_inv, H.
Qed.

Lemma setVulnerable_true_enters (e : Enemy.t) (d : option Q) :
  Enemy.isVulnerable e = false ->
  let e1 := Enemy.setVulnerable e true d in
  Enemy.isVulnerable e1 = true /\
  Enemy.speed e1 == Enemy.speed e / 2 /\
  Enemy.originalSpeed e1 = Some (Enemy.speed e) /\
  Enemy.vulnerabilityTimer e1 = default (Enemy.vulnerabilityDuration e) d /\
  Enemy.state e1 = "vulnerable"%string.
Proof.
  intros Hv. unfold Enemy.setVulnerable. rewrite Hv. simpl.
  split; [reflexivity|]. split; [field|]. by repeat split.
Qed.

Lemma timer_expiry (s : Q) (e : Enemy.t) (dt : Q) :
  speedInvariant s e ->
  Enemy.isVulnerable e = true ->
  let e2 := Enemy.updateVulnerabilityState e dt in
  (Enemy.vulnerabilityTimer e <= dt ->
   Enemy.isVulnerable e2 = false /\ Enemy.speed e2 == s /\
   Enemy.state e2 = "chase"%string /\ Enemy.vulnerabilityTimer e2 = 0) /\
  (dt < Enemy.vulnerabilityTimer e ->
   Enemy.isVulnerable e2 = true /\ Enemy.speed e2 == s / 2).
Proof.
  intros Hinv Hv. cbv zeta.
  pose proof (updateVulnerabilityState_inv s e dt Hinv) as Hinv2.
  unfold Enemy.updateVulnerabilityState in *. rewrite Hv in *.
  cbn [Enemy.vulnerabilityTimer Enemy.withVulnerabilityTimer] in *.
  destruct (Qle_bool (Enemy.vulnerabilityTimer e - dt) 0) eqn:Hexp.
  - apply Qle_bool_iff in Hexp. split; [|intros Hlt; lra].
    intros _. unfold speedInvariant in Hinv2.
    split; [reflexivity|]. split; [exact Hinv2|]. by split.
  - assert (Hlive : 0 < Enemy.vulnerabilityTimer e - dt).
    { apply Qnot_le_lt. intros Hle. apply Qle_bool_iff in Hle. congruence. }
    split; [intros Hle; lra|]. intros _.
    assert (Hc : forall c : string,
              let e3 := Enemy.withColor
                          (Enemy.withVulnerabilityTimer e (Enemy.vulnerabilityTimer e - dt)) c in
              Enemy.isVulnerable e3 = true /\ Enemy.speed e3 == s / 2).
    { intros c. cbv zeta. split; [exact Hv|].
      unfold speedInvariant in Hinv. rewrite Hv in Hinv. apply Hinv. }
    repeat match goal with
           | |- context [if ?b then _ else _] => destruct b
           end; apply Hc.
Qed.

(** C8.  An enemy that is not vulnerable and moves at speed [s] is made
    vulnerable by [setVulnerable (true, d)]: it is then vulnerable, in
    state "vulnerable" with [d] (or its default duration) on its timer,
    its speed is exactly [s / 2] and [s] is stored as its original
    speed.  Any sequence of further [setVulnerable (true, d)] calls and
    timer ticks follows.  At every such point the speed is exactly
    [s / 2] while the enemy is vulnerable and exactly [s] once the timer
    has expired; a repeated [setVulnerable (true, d)] leaves it
    vulnerable at exactly [s / 2]; a timer tick of at least the time
    left on the timer ends the vulnerability and restores exactly [s],
    and a shorter one leaves the enemy vulnerable at [s / 2]; and an
    explicit [setVulnerable (false)] leaves the enemy not vulnerable at
    exactly [s]. *)
Theorem vulnerability_restores_speed
    (e : Enemy.t) (d : option Q) (evs : list VulnerabilityEvent) :
  Enemy.isVulnerable e = false ->
  let e1 := Enemy.setVulnerable e true d in
  let e' := foldl applyVulnerabilityEvent e1 evs in
  (Enemy.isVulnerable e1 = true /\
   Enemy.speed e1 == Enemy.speed e / 2 /\
   Enemy.originalSpeed e1 = Some (Enemy.speed e) /\
   Enemy.vulnerabilityTimer e1 = default (Enemy.vulnerabilityDuration e) d /\
   Enemy.state e1 = "vulnerable"%string) /\
  (Enemy.isVulnerable e' = true -> Enemy.speed e' == Enemy.speed e / 2) /\
  (Enemy.isVulnerable e' = false -> Enemy.speed e' == Enemy.speed e) /\
  (forall d2 : option Q,
      Enemy.isVulnerable (Enemy.setVulnerable e' true d2) = true /\
      Enemy.speed (Enemy.setVulnerable e' true d2) == Enemy.speed e / 2) /\
  (forall dt : Q,
      Enemy.isVulnerable e' = true ->
      let e2 := Enemy.updateVulnerabilityState e' dt in
      (Enemy.vulnerabilityTimer e' <= dt ->
       Enemy.isVulnerable e2 = false /\ Enemy.speed e2 == Enemy.speed e /\
       Enemy.state e2 = "chase"%string /\ Enemy.vulnerabilityTimer e2 = 0) /\
      (dt < Enemy.vulnerabilityTimer e' ->
       Enemy.isVulnerable e2 = true /\ Enemy.speed e2 == Enemy.speed e / 2)) /\
  Enemy.speed (Enemy.setVulnerable e' false None) == Enemy.speed e /\
  Enemy.isVulnerable (Enemy.setVulnerable e' false None) = false.
Proof.
  intros Hv e1 e'.
  assert (Hinv : speedInvariant (Enemy.speed e) e').
  { apply events_inv, setVulnerable_true_inv.
    unfold speedInvariant. rewrite Hv. reflexivity. }
  split; [exact (setVulnerable_true_enters e d Hv)|].
  split; [intros Hv'; unfold speedInvariant in Hinv; rewrite Hv' in Hinv; apply Hinv|].
  split; [intros Hv'; unfold speedInvariant in Hinv; rewrite Hv' in Hinv; apply Hinv|].
  split.
  { intros d2. pose proof (setVulnerable_true_inv _ e' d2 Hinv) as H2.
    unfold speedInvariant in H2.
    assert (Hv2 : Enemy.isVulnerable (Enemy.setVulnerable e' true d2) = true) by reflexivity.
    rewrite Hv2 in H2. split; [exact Hv2|apply H2]. }
  split; [intros dt Hv'; exact (timer_expiry _ e' dt Hinv Hv')|].
  split; [by apply setVulnerable_false_speed|reflexivity].
Qed.

Lemma vulnerability_restores_speed_witness :
  Enemy.isVulnerable sampleChaser = false /\
  let e1 := Enemy.setVulnerable sampleChaser true (Some 1000) in
  let e' := foldl applyVulnerabilityEvent e1
              [TimerTick 500; MakeVulnerable (Some 1000); TimerTick 600] in
  (Enemy.isVulnerable e1 = true /\
   Enemy.speed e1 == Enemy.speed sampleChaser / 2 /\
   Enemy.originalSpeed e1 = Some (Enemy.speed sampleChaser) /\
   Enemy.vulnerabilityTimer e1 = default (Enemy.vulnerabilityDuration sampleChaser) (Some 1000) /\
   Enemy.state e1 = "vulnerable"%string) /\
  (Enemy.isVulnerable e' = true -> Enemy.speed e' == Enemy.speed sampleChaser / 2) /\
  (Enemy.isVulnerable e' = false -> Enemy.speed e' == Enemy.speed sampleChaser) /\
  (forall d2 : option Q,
      Enemy.isVulnerable (Enemy.setVulnerable e' true d2) = true /\
      Enemy.speed (Enemy.setVulnerable e' true d2) == Enemy.speed sampleChaser / 2) /\
  (forall dt : Q,
      Enemy.isVulnerable e' = true ->
      let e2 := Enemy.updateVulnerabilityState e' dt in
      (Enemy.vulnerabilityTimer e' <= dt ->
       Enemy.isVulnerable e2 = false /\ Enemy.speed e2 == Enemy.speed sampleChaser /\
       Enemy.state e2 = "chase"%string /\ Enemy.vulnerabilityTimer e2 = 0) /\
      (dt < Enemy.vulnerabilityTimer e' ->
       Enemy.isVulnerable e2 = true /\ Enemy.speed e2 == Enemy.speed sampleChaser / 2)) /\
  Enemy.speed (Enemy.setVulnerable e' false None) == Enemy.speed sampleChaser /\
  Enemy.isVulnerable (Enemy.setVulnerable e' false None) = false.
Proof.
  split; [reflexivity|].
  apply (vulnerability_restores_speed sampleChaser (Some 1000)
           [TimerTick 500; MakeVulnerable (Some 1000); TimerTick 600]).
  reflexivity.
Defined.

Example vulnerable_speed_sample :
  Enemy.speed (Enemy.setVulnerable sampleChaser true None) = (18 # 10) * (1 # 2) /\
  Enemy.speed (Enemy.updateVulnerabilityState
                 (Enemy.setVulnerable sampleChaser true (Some 1000)) 1000) = 18 # 10.
Proof. split; reflexivity. Qed.

(** ** Pellets are scored once (Pellet.js) *)

(** At distance zero the circles overlap as soon as the sum of the radii
    is positive. *)
Lemma distLt_same_point (x y c : Q) : 0 < c -> distLt (x - x) (y - y) c = true.
Proof.
  intros Hc. unfold distLt. apply andb_true_iff. split; apply Qltb_true; [exact Hc|].
  assert (H : (x - x) * (x - x) + (y - y) * (y - y) == 0) by ring.
  rewrite H. apply Qmult_lt_0_compat; exact Hc.
Qed.

Lemma new_pellet_size_positive (i : nat) (px py : Q) (ty : string) :
  0 < Pellet.size (Pellet.new i px py ty) / 2.
Proof. unfold Pellet.new. destruct (String.eqb ty "power"); reflexivity. Qed.

Lemma new_pellet_points (i : nat) (px py : Q) (ty : string) :
  Pellet.points (Pellet.new i px py ty) = if String.eqb ty "power" then 50%Z else 10%Z.
Proof. unfold Pellet.new. destruct (String.eqb ty "power"); reflexivity. Qed.

Lemma new_pellet_fields (i : nat) (px py : Q) (ty : string) :
  Pellet.id (Pellet.new i px py ty) = i /\
  Pellet.x (Pellet.new i px py ty) = px /\
  Pellet.y (Pellet.new i px py ty) = py /\
  Pellet.collected (Pellet.new i px py ty) = false.
Proof. unfold Pellet.new. destruct (String.eqb ty "power"); auto. Qed.

Lemma new_pellet_collides (i : nat) (px py : Q) (ty : string) (radius : Q) :
  0 <= radius ->
  Pellet.checkCollision (Pellet.new i px py ty) px py radius = true.
Proof.
  intros Hr. unfold Pellet.checkCollision.
  destruct (new_pellet_fields i px py ty) as (_ & Hx & Hy & Hc).
  rewrite Hc, Hx, Hy. apply distLt_same_point.
  pose proof (new_pellet_size_positive i px py ty). lra.
Qed.

Lemma collected_never_collides (p : Pellet.t) (ox oy radius : Q) :
  Pellet.collected p = true -> Pellet.checkCollision p ox oy radius = false.
Proof. unfold Pellet.checkCollision. by intros ->. Qed.

Lemma collected_collect_zero (p : Pellet.t) :
  Pellet.collected p = true -> Pellet.collect p = (0%Z, p).
Proof. unfold Pellet.collect. by intros ->. Qed.

Lemma stepPellet_id (ox oy radius : Q) (p : Pellet.t) :
  Pellet.id (stepPellet ox oy radius p) = Pellet.id p.
Proof.
  unfold stepPellet, Pellet.collect.
  destruct (Pellet.checkCollision p ox oy radius), (Pellet.collected p); reflexivity.
Qed.

Lemma stepPellet_points (ox oy radius : Q) (p : Pellet.t) :
  Pellet.points (stepPellet ox oy radius p) = Pellet.points p.
Proof.
  unfold stepPellet, Pellet.collect.
  destruct (Pellet.checkCollision p ox oy radius), (Pellet.collected p); reflexivity.
Qed.

Lemma stepPellet_collected (ox oy radius : Q) (p : Pellet.t) :
  Pellet.collected (stepPellet ox oy radius p) =
  Pellet.collected p || Pellet.checkCollision p ox oy radius.
Proof.
  unfold stepPellet, Pellet.collect, Pellet.checkCollision.
  destruct (Pellet.collected p) eqn:Hc; simpl; [by rewrite Hc|].
  destruct (distLt _ _ _); simpl; [reflexivity | exact Hc].
Qed.

(** The two results of a pass, pellet by pellet. *)
Lemma checkPellets_spec (ps : list Pellet.t) (ox oy radius : Q) :
  PelletManager.checkPellets ps ox oy radius =
  (List.map (stepPellet ox oy radius) ps,
   List.map (stepPellet ox oy radius)
     (List.filter (fun p => Pellet.checkCollision p ox oy radius && Z.ltb 0 (Pellet.points p)) ps)).
Proof.
  induction ps as [|p ps IH]; [reflexivity|].
  assert (Hs : stepPellet ox oy radius p =
               if Pellet.checkCollision p ox oy radius then snd (Pellet.collect p) else p)
    by reflexivity.
  assert (Hcollect : Pellet.checkCollision p ox oy radius = true ->
                     Pellet.collect p = (Pellet.points p, stepPellet ox oy radius p)).
  { intros H. rewrite Hs, H. unfold Pellet.checkCollision in H. unfold Pellet.collect.
    destruct (Pellet.collected p); [discriminate | reflexivity]. }
  cbn [PelletManager.checkPellets List.map List.filter]. rewrite IH. clear IH.
  destruct (Pellet.checkCollision p ox oy radius) eqn:Hcol.
  - rewrite (Hcollect eq_refl). cbn [andb].
    destruct (Z.ltb 0 (Pellet.points p)); reflexivity.
  - rewrite Hs. reflexivity.
Qed.

Lemma creditedTo_absent (i : nat) (got : list Pellet.t) :
  (forall q, q ∈ got -> Pellet.id q <> i) -> creditedTo i got = 0%Z.
Proof.
  induction got as [|q got IH]; intros H; [reflexivity|].
  simpl. destruct (Nat.eqb_spec (Pellet.id q) i) as [E|_].
  - exfalso. apply (H q); [left | exact E].
  - apply IH. intros q' Hq'. apply H. by right.
Qed.

Lemma creditedTo_app (i : nat) (l1 l2 : list Pellet.t) :
  creditedTo i (l1 ++ l2) = (creditedTo i l1 + creditedTo i l2)%Z.
Proof.
  induction l1 as [|q l1 IH]; simpl; [reflexivity|].
  destruct (Nat.eqb (Pellet.id q) i); lia.
Qed.

(** Every pellet of a returned array was uncollected before the pass. *)
Lemma returned_was_uncollected (ps : list Pellet.t) (ox oy radius : Q) (q : Pellet.t) :
  q ∈ snd (PelletManager.checkPellets ps ox oy radius) ->
  exists p, p ∈ ps /\ Pellet.collected p = false /\ Pellet.id q = Pellet.id p.
Proof.
  rewrite checkPellets_spec. simpl. rewrite list_elem_of_In, in_map_iff.
  intros (p & <- & Hin). apply filter_In in Hin as [Hin Hc].
  exists p. split; [by apply list_elem_of_In|]. split; [|apply stepPellet_id].
  apply andb_true_iff in Hc as [Hc _]. unfold Pellet.checkCollision in Hc.
  destruct (Pellet.collected p); [discriminate | reflexivity].
Qed.

Lemma collectedIn_step (i : nat) (ps : list Pellet.t) (ox oy radius : Q) :
  collectedIn i ps ->
  collectedIn i (fst (PelletManager.checkPellets ps ox oy radius)).
Proof.
  intros H q. rewrite checkPellets_spec. simpl.
  rewrite list_elem_of_In, in_map_iff. intros (p & <- & Hin) Hid.
  rewrite stepPellet_id in Hid. rewrite stepPellet_collected.
  rewrite (H p); [reflexivity | by apply list_elem_of_In | exact Hid].
Qed.

Lemma collectedIn_no_credit (i : nat) (ps : list Pellet.t) (ox oy radius : Q) :
  collectedIn i ps ->
  creditedTo i (snd (PelletManager.checkPellets ps ox oy radius)) = 0%Z.
Proof.
  intros H. apply creditedTo_absent. intros q Hq Hid.
  apply returned_was_uncollected in Hq as (p & Hp & Hc & Hpq).
  rewrite (H p Hp) in Hc; [discriminate | congruence].
Qed.

Lemma later_ticks_credit_nothing (i : nat) (ticks : list PelletTick) (m : PelletManager.t) :
  collectedIn i (PelletManager.pellets m) ->
  creditedTo i (concat (snd (runPelletTicks m ticks))) = 0%Z /\
  collectedIn i (PelletManager.pellets (fst (runPelletTicks m ticks))).
Proof.
  revert m. induction ticks as [|[[ox oy] radius] ticks IH]; intros m H; [by split|].
  simpl. unfold PelletManager.checkCollisions.
  destruct (PelletManager.checkPellets (PelletManager.pellets m) ox oy radius)
    as [ps got] eqn:E.
  match goal with
  | |- context [runPelletTicks ?m1 ticks] =>
      specialize (IH m1); destruct (runPelletTicks m1 ticks) as [m2 gots] eqn:E2
  end.
  simpl in *.
  assert (Hps : collectedIn i ps).
  { pose proof (collectedIn_step i _ ox oy radius H) as H'. by rewrite E in H'. }
  destruct (IH Hps) as [IH1 IH2]. split; [|exact IH2].
  rewrite creditedTo_app, IH1.
  pose proof (collectedIn_no_credit i _ ox oy radius H) as H'. rewrite E in H'.
  simpl in H'. lia.
Qed.

(** The first pass over the pellet credits its points when no other
    pellet shares its identity. *)
Lemma first_tick_credit (ps : list Pellet.t) (p : Pellet.t) (ox oy radius : Q) :
  NoDup (List.map Pellet.id ps) ->
  p ∈ ps ->
  Pellet.checkCollision p ox oy radius = true ->
  (0 < Pellet.points p)%Z ->
  creditedTo (Pellet.id p) (snd (PelletManager.checkPellets ps ox oy radius)) = Pellet.points p.
Proof.
  rewrite checkPellets_spec. simpl.
  induction ps as [|q ps IH]; intros Hnd Hin Hcol Hpts.
  - by apply elem_of_nil in Hin.
  - apply NoDup_cons in Hnd as [Hq Hnd]. simpl.
    apply elem_of_cons in Hin as [<-|Hin].
    + rewrite Hcol. apply Z.ltb_lt in Hpts. rewrite Hpts. simpl.
      rewrite stepPellet_id, Nat.eqb_refl. unfold Pellet.getPoints.
      rewrite stepPellet_points.
      rewrite creditedTo_absent; [lia|].
      intros q. rewrite list_elem_of_In, in_map_iff. intros (q' & <- & Hq').
      apply filter_In in Hq' as [Hq' _]. rewrite stepPellet_id. intros E.
      apply Hq. rewrite <- E. apply list_elem_of_In, in_map, Hq'.
    + assert (Hne : Pellet.id q <> Pellet.id p).
      { intros E. apply Hq. rewrite E. apply list_elem_of_In, in_map.
        by apply list_elem_of_In. }
      destruct (Pellet.checkCollision q ox oy radius && Z.ltb 0 (Pellet.points q)); simpl.
      * rewrite stepPellet_id. destruct (Nat.eqb_spec (Pellet.id q) (Pellet.id p)); [done|].
        by apply IH.
      * by apply IH.
Qed.

Lemma first_tick_collects (ps : list Pellet.t) (p : Pellet.t) (ox oy radius : Q) :
  NoDup (List.map Pellet.id ps) ->
  p ∈ ps ->
  Pellet.checkCollision p ox oy radius = true ->
  collectedIn (Pellet.id p) (fst (PelletManager.checkPellets ps ox oy radius)).
Proof.
  intros Hnd Hin Hcol q. rewrite checkPellets_spec. simpl.
  rewrite list_elem_of_In, in_map_iff. intros (p' & <- & Hin') Hid.
  rewrite stepPellet_id in Hid. rewrite stepPellet_collected.
  assert (p' = p) as ->.
  { apply list_elem_of_In in Hin'.
    apply list_elem_of_lookup in Hin as [a Ha], Hin' as [b Hb].
    assert (a = b) as ->; [|congruence].
    eapply NoDup_lookup; [exact Hnd| |]; rewrite list_lookup_fmap.
    - by rewrite Ha.
    - rewrite Hb. simpl. by rewrite Hid. }
  rewrite Hcol. apply orb_true_r.
Qed.

(** C9.  A pellet created by the constructor sits in the manager and the
    player stands at its exact coordinates with a radius that is not
    negative.  That [checkCollisions] call credits the pellet's declared
    points (50 for a power pellet, 10 otherwise); no later call, wherever
    the player is, credits it again; and from then on every [collect] of
    the pellet returns 0 and every collision test on it is negative. *)
Theorem pellet_scored_exactly_once
    (m : PelletManager.t) (i : nat) (px py : Q) (ty : string)
    (radius : Q) (ticks : list PelletTick) :
  NoDup (List.map Pellet.id (PelletManager.pellets m)) ->
  Pellet.new i px py ty ∈ PelletManager.pellets m ->
  0 <= radius ->
  let first := PelletManager.checkCollisions m px py radius in
  let later := runPelletTicks (fst first) ticks in
  creditedTo i (snd first) = (if String.eqb ty "power" then 50 else 10)%Z /\
  creditedTo i (concat (snd later)) = 0%Z /\
  (exists q, q ∈ PelletManager.pellets (fst later) /\ Pellet.id q = i) /\
  (forall q, q ∈ PelletManager.pellets (fst later) -> Pellet.id q = i ->
     Pellet.isCollected q = true /\
     fst (Pellet.collect q) = 0%Z /\
     forall ox oy r, Pellet.checkCollision q ox oy r = false).
Proof.
  intros Hnd Hin Hr first later.
  set (p := Pellet.new i px py ty) in *.
  destruct (new_pellet_fields i px py ty) as (Hid & _ & _ & _). fold p in Hid.
  assert (Hcol : Pellet.checkCollision p px py radius = true)
    by by apply new_pellet_collides.
  assert (Hpts : (0 < Pellet.points p)%Z).
  { unfold p. rewrite new_pellet_points. destruct (String.eqb ty "power"); lia. }
  assert (Hfirst : fst first =
            {| PelletManager.pellets :=
                 fst (PelletManager.checkPellets (PelletManager.pellets m) px py radius);
               PelletManager.totalPellets := PelletManager.totalPellets m;
               PelletManager.collectedPellets :=
                 (PelletManager.collectedPellets m +
                  length (snd (PelletManager.checkPellets (PelletManager.pellets m) px py radius)))%nat |}
          /\ snd first = snd (PelletManager.checkPellets (PelletManager.pellets m) px py radius)).
  { unfold first, PelletManager.checkCollisions.
    by destruct (PelletManager.checkPellets (PelletManager.pellets m) px py radius). }
  destruct Hfirst as [Hf1 Hf2].
  assert (Hdone : collectedIn i (PelletManager.pellets (fst first))).
  { rewrite Hf1. simpl. rewrite <- Hid. by apply first_tick_collects. }
  destruct (later_ticks_credit_nothing i ticks (fst first) Hdone) as [Hzero Hlater].
  fold later in Hzero, Hlater.
  split; [|split; [exact Hzero|split]].
  - rewrite Hf2, <- Hid, first_tick_credit by done.
    unfold p. apply new_pellet_points.
  - assert (Hids : forall ticks m,
               List.map Pellet.id (PelletManager.pellets (fst (runPelletTicks m ticks))) =
               List.map Pellet.id (PelletManager.pellets m)).
    { clear. induction ticks as [|[[ox oy] r] ticks IH]; intros m; [reflexivity|].
      simpl. unfold PelletManager.checkCollisions.
      rewrite checkPellets_spec.
      match goal with
      | |- context [runPelletTicks ?m1 ticks] =>
          specialize (IH m1); destruct (runPelletTicks m1 ticks) as [m2 gots]
      end.
      simpl in *. rewrite IH, List.map_map.
      apply List.map_ext. intros a. apply stepPellet_id. }
    assert (Hi : i ∈ List.map Pellet.id (PelletManager.pellets (fst later))).
    { unfold later. rewrite Hids, Hf1. simpl. rewrite checkPellets_spec. simpl.
      rewrite List.map_map. apply list_elem_of_In, in_map_iff.
      exists p. split; [by rewrite stepPellet_id | by apply list_elem_of_In]. }
    apply list_elem_of_In, in_map_iff in Hi as (q & Hq & Hqin).
    exists q. split; [by apply list_elem_of_In | exact Hq].
  - intros q Hq Hqid. pose proof (Hlater q Hq Hqid) as Hc.
    split; [exact Hc|]. split.
    + by rewrite collected_collect_zero.
    + intros. by apply collected_never_collides.
Qed.

Lemma pellet_scored_exactly_once_witness :
  NoDup (List.map Pellet.id (PelletManager.pellets samplePellets)) /\
  Pellet.new 1 50 30 "power" ∈ PelletManager.pellets samplePellets /\
  0 <= 8 /\
  let first := PelletManager.checkCollisions samplePellets 50 30 8 in
  let later := runPelletTicks (fst first) [(50, 30, 8); (30, 30, 8); (50, 30, 8)] in
  creditedTo 1 (snd first) = (if String.eqb "power" "power" then 50 else 10)%Z /\
  creditedTo 1 (concat (snd later)) = 0%Z /\
  (exists q, q ∈ PelletManager.pellets (fst later) /\ Pellet.id q = 1%nat) /\
  (forall q, q ∈ PelletManager.pellets (fst later) -> Pellet.id q = 1%nat ->
     Pellet.isCollected q = true /\
     fst (Pellet.collect q) = 0%Z /\
     forall ox oy r, Pellet.checkCollision q ox oy r = false).
Proof.
  assert (Hnd : NoDup (List.map Pellet.id (PelletManager.pellets samplePellets))).
  { simpl. apply (bool_decide_unpack _). vm_compute. exact I. }
  assert (Hin : Pellet.new 1 50 30 "power" ∈ PelletManager.pellets samplePellets).
  { simpl. apply list_elem_of_further, list_elem_of_here. }
  assert (Hr : 0 <= 8) by (unfold Qle; simpl; lia).
  split; [exact Hnd|]. split; [exact Hin|]. split; [exact Hr|].
  exact (pellet_scored_exactly_once samplePellets 1 50 30 "power" 8
           [(50, 30, 8); (30, 30, 8); (50, 30, 8)] Hnd Hin Hr).
Defined.

Example pellet_ticks_sample :
  List.map (List.map Pellet.id)
    (snd (runPelletTicks samplePellets [(50, 30, 8); (50, 30, 8); (32, 30, 8)]))
  = [[1%nat]; []; [0%nat]].
Proof. reflexivity. Qed.

(** ** Movement and collision (Player.js, Enemy.js, MazeRenderer.js) *)

Lemma isWall_same_cell (r : MazeRenderer.t) (a b a' b' : Q) :
  MazeRenderer.worldToGrid r a b = MazeRenderer.worldToGrid r a' b' ->
  MazeRenderer.isWallAtPosition r a b = MazeRenderer.isWallAtPosition r a' b'.
Proof.
  intros H. unfold MazeRenderer.isWallAtPosition.
  destruct (MazeRenderer.maze r); [|reflexivity]. by rewrite H.
Qed.

(** A position outside the grid counts as a wall. *)
Lemma outside_is_wall (r : MazeRenderer.t) (m : list (list Z)) (wx wy : Q) :
  MazeRenderer.maze r = Some m ->
  let '(gx, gy) := MazeRenderer.worldToGrid r wx wy in
  (gx < 0 \/ MazeRenderer.mazeWidth r <= gx \/ gy < 0 \/ MazeRenderer.mazeHeight r <= gy)%Z ->
  MazeRenderer.isWallAtPosition r wx wy = true.
Proof.
  intros Hm. destruct (MazeRenderer.worldToGrid r wx wy) as [gx gy] eqn:E.
  intros H. unfold MazeRenderer.isWallAtPosition. rewrite Hm, E.
  destruct (Z.ltb_spec gx 0); [reflexivity|].
  destruct (Z.geb_spec gx (MazeRenderer.mazeWidth r)); [reflexivity|].
  destruct (Z.ltb_spec gy 0); [reflexivity|].
  destruct (Z.geb_spec gy (MazeRenderer.mazeHeight r)); [reflexivity|].
  lia.
Qed.

Lemma inject_Z_succ (i : Z) : inject_Z (i + 1) == inject_Z i + 1.
Proof. rewrite inject_Z_plus. reflexivity. Qed.

(** Both sides of a box of side 16 centred in a cell wider than 16 lie in
    that cell. *)
Lemma center_corner_cell (c : Q) (i : Z) :
  0 < c -> 16 < c ->
  Qfloor ((inject_Z i * c + c / 2 - 16 / 2) / c) = i /\
  Qfloor ((inject_Z i * c + c / 2 + 16 / 2) / c) = i.
Proof.
  intros Hc H16.
  split; apply Qdiv_bounds; try exact Hc; rewrite ?inject_Z_succ; lraQ.
Qed.

(** One of the two sides of a box of side 16 lies in the cell of its
    centre. *)
Lemma some_corner_in_center_cell (a c : Q) :
  0 < c -> 16 < c ->
  Qfloor ((a - 16 / 2) / c) = Qfloor (a / c) \/
  Qfloor ((a + 16 / 2) / c) = Qfloor (a / c).
Proof.
  intros Hc H16.
  destruct (Qfloor_div_bounds a c Hc) as [Hlo Hhi].
  rewrite inject_Z_succ in Hhi.
  destruct (Qlt_le_dec (a - 16 / 2) (inject_Z (Qfloor (a / c)) * c)) as [Hl|Hr].
  - right. apply Qdiv_bounds; try exact Hc; rewrite ?inject_Z_succ; lraQ.
  - left. apply Qdiv_bounds; try exact Hc; rewrite ?inject_Z_succ; lraQ.
Qed.

Lemma cornersFree_spec (r : MazeRenderer.t) (size x y : Q) :
  cornersFree r size x y = true <->
  MazeRenderer.isWallAtPosition r (x - size / 2) (y - size / 2) = false /\
  MazeRenderer.isWallAtPosition r (x + size / 2) (y - size / 2) = false /\
  MazeRenderer.isWallAtPosition r (x - size / 2) (y + size / 2) = false /\
  MazeRenderer.isWallAtPosition r (x + size / 2) (y + size / 2) = false.
Proof.
  unfold cornersFree. rewrite !andb_true_iff, !negb_true_iff. tauto.
Qed.

(** Snapping a clear agent of size 16 to the centre of its cell keeps it
    clear, provided the cells are wider than the agent. *)
Lemma snap_stays_clear (r : MazeRenderer.t) (x y : Q) :
  0 < MazeRenderer.cellSize r -> 16 < MazeRenderer.cellSize r ->
  cornersFree r 16 x y = true ->
  cornersFree r 16
    (inject_Z (Qfloor (x / MazeRenderer.cellSize r)) * MazeRenderer.cellSize r
     + MazeRenderer.cellSize r / 2)
    (inject_Z (Qfloor (y / MazeRenderer.cellSize r)) * MazeRenderer.cellSize r
     + MazeRenderer.cellSize r / 2) = true.
Proof.
  intros Hc H16 Hfree.
  set (c := MazeRenderer.cellSize r) in *.
  set (i := Qfloor (x / c)). set (j := Qfloor (y / c)).
  apply cornersFree_spec in Hfree as (H1 & H2 & H3 & H4).
  assert (Hcell : exists a b, MazeRenderer.isWallAtPosition r a b = false /\
                              MazeRenderer.worldToGrid r a b = (i, j)).
  { unfold MazeRenderer.worldToGrid. fold c.
    destruct (some_corner_in_center_cell x c Hc H16) as [Hx|Hx],
             (some_corner_in_center_cell y c Hc H16) as [Hy|Hy].
    - exists (x - 16 / 2), (y - 16 / 2). by rewrite Hx, Hy.
    - exists (x - 16 / 2), (y + 16 / 2). by rewrite Hx, Hy.
    - exists (x + 16 / 2), (y - 16 / 2). by rewrite Hx, Hy.
    - exists (x + 16 / 2), (y + 16 / 2). by rewrite Hx, Hy. }
  destruct Hcell as (a & b & Hfree & Hab).
  destruct (center_corner_cell c i Hc H16) as [Hi1 Hi2].
  destruct (center_corner_cell c j Hc H16) as [Hj1 Hj2].
  apply cornersFree_spec.
  repeat split; rewrite <- Hfree; apply isWall_same_cell; rewrite Hab;
    unfold MazeRenderer.worldToGrid; fold c;
    rewrite ?Hi1, ?Hi2, ?Hj1, ?Hj2; reflexivity.
Qed.

(** *** The player keeps clear of walls *)

Lemma player_withPosition_clear (p : Player.t) (nx ny : Q) :
  Player.canMoveToPosition p nx ny = true -> playerClear (Player.withPosition p nx ny).
Proof. intros H. exact H. Qed.

Lemma player_snap_clear (p : Player.t) (r : MazeRenderer.t) :
  Player.mazeRenderer p = Some r ->
  0 < MazeRenderer.cellSize r -> Player.size < MazeRenderer.cellSize r ->
  playerClear p -> playerClear (Player.snapToNearestGridCenter p).
Proof.
  intros Hr Hc H16 Hclear.
  unfold playerClear, Player.canMoveToPosition, Player.snapToNearestGridCenter in *.
  rewrite Hr in *. cbn [Player.x Player.y Player.mazeRenderer].
  by apply snap_stays_clear.
Qed.

Lemma player_updateGridPosition_pos (p : Player.t) :
  let p' := Player.updateGridPosition p in
  Player.x p' = Player.x p /\ Player.y p' = Player.y p /\
  Player.mazeRenderer p' = Player.mazeRenderer p /\
  Player.direction p' = Player.direction p /\
  Player.nextDirection p' = Player.nextDirection p /\
  Player.speed p' = Player.speed p.
Proof.
  unfold Player.updateGridPosition.
  destruct (Player.mazeRenderer p) eqn:Hr; [|done].
  destruct (MazeRenderer.worldToGrid _ _ _), (MazeRenderer.gridToWorld _ _ _).
  done.
Qed.

Lemma player_applyQueuedTurn_pos (p : Player.t) :
  let p' := Player.applyQueuedTurn p in
  Player.x p' = Player.x p /\ Player.y p' = Player.y p /\
  Player.mazeRenderer p' = Player.mazeRenderer p /\
  Player.speed p' = Player.speed p.
Proof.
  unfold Player.applyQueuedTurn.
  destruct (Player.isZeroVec _); [done|].
  destruct (Player.canMoveInDirection _ _); done.
Qed.

Lemma playerClear_ext (p p' : Player.t) :
  Player.x p' = Player.x p -> Player.y p' = Player.y p ->
  Player.mazeRenderer p' = Player.mazeRenderer p ->
  playerClear p -> playerClear p'.
Proof.
  unfold playerClear, Player.canMoveToPosition. by intros -> -> ->.
Qed.

Lemma player_moveForward_clear (p : Player.t) (r : MazeRenderer.t) :
  Player.mazeRenderer p = Some r ->
  0 < MazeRenderer.cellSize r -> Player.size < MazeRenderer.cellSize r ->
  playerClear p ->
  playerClear (Player.moveForward p) /\
  Player.mazeRenderer (Player.moveForward p) = Some r.
Proof.
  intros Hr Hc H16 Hclear. unfold Player.moveForward.
  destruct (Player.isZeroVec (Player.direction p)); [by split|].
  destruct (Player.canMoveToPosition p _ _) eqn:Hmove.
  - split; [exact Hmove | exact Hr].
  - pose proof (player_snap_clear p r Hr Hc H16 Hclear) as Hs.
    split; [exact Hs|].
    unfold Player.snapToNearestGridCenter. rewrite Hr. reflexivity.
Qed.

Lemma player_wrapHorizontal_clear (p : Player.t) (w cs : Q) :
  playerClear p ->
  playerClear (fst (Player.wrapHorizontal p w cs)) /\
  Player.mazeRenderer (fst (Player.wrapHorizontal p w cs)) = Player.mazeRenderer p.
Proof.
  intros Hclear. unfold Player.wrapHorizontal.
  repeat match goal with
         | |- context [if ?b then _ else _] => destruct b eqn:?
         end; simpl; by split.
Qed.

Lemma player_wrapVertical_clear (p : Player.t) (h cs : Q) :
  playerClear p ->
  playerClear (fst (Player.wrapVertical p h cs)) /\
  Player.mazeRenderer (fst (Player.wrapVertical p h cs)) = Player.mazeRenderer p.
Proof.
  intros Hclear. unfold Player.wrapVertical.
  repeat match goal with
         | |- context [if ?b then _ else _] => destruct b eqn:?
         end; simpl; by split.
Qed.

Lemma player_handleEdgeWrapping_clear (p : Player.t) :
  playerClear p ->
  playerClear (Player.handleEdgeWrapping p) /\
  Player.mazeRenderer (Player.handleEdgeWrapping p) = Player.mazeRenderer p.
Proof.
  intros Hclear. unfold Player.handleEdgeWrapping.
  destruct (Player.mazeRenderer p) as [r|] eqn:Hr; [|by split].
  destruct (MazeRenderer.getMazeDimensions r) as [w h].
  set (cs := MazeRenderer.getCellSize r).
  pose proof (player_wrapHorizontal_clear p w cs Hclear) as [H1 R1].
  destruct (Player.wrapHorizontal p w cs) as [p1 wrapped1]. simpl in H1, R1.
  assert (H2 : playerClear (fst (if wrapped1 then (p1, true) else Player.wrapVertical p1 h cs))
               /\ Player.mazeRenderer
                    (fst (if wrapped1 then (p1, true) else Player.wrapVertical p1 h cs))
                  = Player.mazeRenderer p).
  { destruct wrapped1; [by split|].
    destruct (player_wrapVertical_clear p1 h cs H1). split; congruence. }
  destruct (if wrapped1 then (p1, true) else Player.wrapVertical p1 h cs) as [p2 wrapped2].
  simpl in H2. destruct H2 as [H2 R2].
  destruct wrapped2; [split; congruence|].
  destruct (_ && _); [|split; congruence].
  pose proof (player_wrapHorizontal_clear p2 w cs H2) as [H3 R3].
  destruct (Player.wrapHorizontal p2 w cs) as [p3 wrapped3]. simpl in H3, R3.
  destruct wrapped3; [split; congruence|].
  destruct (player_wrapVertical_clear p3 h cs H3). split; congruence.
Qed.

Lemma player_update_clear (p : Player.t) (r : MazeRenderer.t) (dt : Q) :
  Player.mazeRenderer p = Some r ->
  0 < MazeRenderer.cellSize r -> Player.size < MazeRenderer.cellSize r ->
  playerClear p ->
  playerClear (Player.update p dt) /\ Player.mazeRenderer (Player.update p dt) = Some r.
Proof.
  intros Hr Hc H16 Hclear. unfold Player.update, Player.handleMovement.
  destruct (player_updateGridPosition_pos p) as (X1 & Y1 & R1 & _).
  destruct (player_applyQueuedTurn_pos (Player.updateGridPosition p)) as (X2 & Y2 & R2 & _).
  set (p2 := Player.applyQueuedTurn (Player.updateGridPosition p)) in *.
  assert (Hclear2 : playerClear p2).
  { apply (playerClear_ext p); congruence. }
  assert (Hr2 : Player.mazeRenderer p2 = Some r) by congruence.
  destruct (player_moveForward_clear p2 r Hr2 Hc H16 Hclear2) as [H3 R3].
  destruct (player_handleEdgeWrapping_clear _ H3) as [H4 R4].
  split; congruence.
Qed.

Lemma player_setDirection_clear (p : Player.t) (i : Player.Input) :
  playerClear p ->
  playerClear (Player.setDirection p i) /\
  Player.mazeRenderer (Player.setDirection p i) = Player.mazeRenderer p.
Proof.
  intros H. unfold Player.setDirection.
  destruct (Player.canMoveInDirection _ _); by split.
Qed.


(** *** An enemy keeps clear of walls *)


Lemma enemy_updateGridPosition_pos (e : Enemy.t) :
  let e' := Enemy.updateGridPosition e in
  Enemy.x e' = Enemy.x e /\ Enemy.y e' = Enemy.y e /\
  Enemy.mazeRenderer e' = Enemy.mazeRenderer e /\
  Enemy.direction e' = Enemy.direction e /\
  Enemy.targetDirection e' = Enemy.targetDirection e /\
  Enemy.speed e' = Enemy.speed e.
Proof.
  unfold Enemy.updateGridPosition.
  destruct (Enemy.mazeRenderer e) eqn:Hr; [|done].
  destruct (MazeRenderer.worldToGrid _ _ _), (MazeRenderer.gridToWorld _ _ _).
  done.
Qed.













Example boxed_player_snaps :
  let p' := Player.update boxedPlayer 16 in
  Qred (Player.x p') = 30 /\ Qred (Player.y p') = 30 /\
  Player.direction p' = vzero /\ Player.isMoving p' = false.
Proof. vm_compute. repeat split. Qed.

Example boxed_enemy_turns :
  let e' := Enemy.handleMovement boxedEnemy in
  Qred (Enemy.x e') = 31 /\ Qred (Enemy.y e') = 30 /\
  Qred (vx (Enemy.direction e')) = 0 /\ Qred (vy (Enemy.direction e')) = 1.
Proof. vm_compute. repeat split. Qed.

(** *** Wall-hit resolution *)

(** C5, as stated, fails for enemies: the enemy of [boxedEnemy] has its
    forward move rejected, stays one pixel off the centre of its cell and
    turns instead of stopping. *)
Lemma enemy_rejected_move_not_snapped : ~ enemySnapsWhenRejected boxedEnemy.
Proof.
  intros H.
  assert (Hrej : enemyMoveRejected boxedEnemy) by (vm_compute; reflexivity).
  destruct (H boxRenderer eq_refl Hrej) as (Hx & _).
  vm_compute in Hx. discriminate.
Qed.

(** C5, amended.  When the player's forward move is rejected, the player
    is put on the exact centre of its current grid cell, its direction is
    set to (0, 0) and it is marked as not moving.  When an enemy's forward
    move is rejected, the enemy stays where it is and its direction
    becomes the first of: left turn, right turn, reversal, whose one-step
    move passes the collision test; it keeps its direction when none
    does. *)
Theorem wall_hit_resolution :
  (forall (p : Player.t) (r : MazeRenderer.t),
      Player.mazeRenderer p = Some r ->
      playerMoveRejected p ->
      let p' := Player.handleMovement p in
      Player.x p' = fst (cellCenter r (Player.x p) (Player.y p)) /\
      Player.y p' = snd (cellCenter r (Player.x p) (Player.y p)) /\
      Player.direction p' = vzero /\
      Player.isMoving p' = false) /\
  (forall (e : Enemy.t),
      enemyMoveRejected e ->
      let e1 := enemyBeforeMove e in
      let e' := Enemy.handleMovement e in
      Enemy.x e' = Enemy.x e /\ Enemy.y e' = Enemy.y e /\
      Enemy.direction e' =
        default (Enemy.direction e1)
          (List.find
             (fun alt => Enemy.canMoveToPosition e1
                           (Enemy.x e1 + vx alt * Enemy.speed e1)
                           (Enemy.y e1 + vy alt * Enemy.speed e1))
             (Enemy.alternatives (Enemy.direction e1)))).
Proof.
  split.
  - intros p r Hr [Hdir Hrej] p'.
    unfold p', Player.handleMovement. unfold playerBeforeMove in *.
    destruct (player_updateGridPosition_pos p) as (X1 & Y1 & R1 & _).
    destruct (player_applyQueuedTurn_pos (Player.updateGridPosition p)) as (X2 & Y2 & R2 & _).
    set (p2 := Player.applyQueuedTurn (Player.updateGridPosition p)) in *.
    unfold Player.moveForward. rewrite Hdir, Hrej.
    unfold Player.snapToNearestGridCenter.
    assert (Hr2 : Player.mazeRenderer p2 = Some r) by congruence.
    rewrite Hr2. cbn -[Qfloor Qdiv Qmult Qplus inject_Z].
    unfold cellCenter, MazeRenderer.worldToGrid, MazeRenderer.gridToWorld,
      MazeRenderer.getCellSize.
    cbn -[Qfloor Qdiv Qmult Qplus inject_Z].
    rewrite X2, Y2, X1, Y1. done.
  - intros e Hrej e1 e'.
    unfold e', Enemy.handleMovement. unfold enemyMoveRejected in Hrej.
    fold (enemyBeforeMove e). fold e1. fold e1 in Hrej.
    rewrite Hrej.
    destruct (enemy_updateGridPosition_pos e) as (X1 & Y1 & _).
    assert (Xe : Enemy.x e1 = Enemy.x e) by exact X1.
    assert (Ye : Enemy.y e1 = Enemy.y e) by exact Y1.
    unfold Enemy.handleWallCollision.
    destruct (List.find _ _); simpl; by rewrite <- ?Xe, <- ?Ye.
Qed.

Lemma wall_hit_resolution_witness :
  (Player.mazeRenderer boxedPlayer = Some boxRenderer /\
   playerMoveRejected boxedPlayer /\
   let p' := Player.handleMovement boxedPlayer in
   Player.x p' = fst (cellCenter boxRenderer (Player.x boxedPlayer) (Player.y boxedPlayer)) /\
   Player.y p' = snd (cellCenter boxRenderer (Player.x boxedPlayer) (Player.y boxedPlayer)) /\
   Player.direction p' = vzero /\
   Player.isMoving p' = false) /\
  (enemyMoveRejected boxedEnemy /\
   let e1 := enemyBeforeMove boxedEnemy in
   let e' := Enemy.handleMovement boxedEnemy in
   Enemy.x e' = Enemy.x boxedEnemy /\ Enemy.y e' = Enemy.y boxedEnemy /\
   Enemy.direction e' =
     default (Enemy.direction e1)
       (List.find
          (fun alt => Enemy.canMoveToPosition e1
                        (Enemy.x e1 + vx alt * Enemy.speed e1)
                        (Enemy.y e1 + vy alt * Enemy.speed e1))
          (Enemy.alternatives (Enemy.direction e1)))).
Proof.
  destruct wall_hit_resolution as [HP HE].
  split.
  - assert (H1 : Player.mazeRenderer boxedPlayer = Some boxRenderer) by reflexivity.
    assert (H2 : playerMoveRejected boxedPlayer) by (vm_compute; split; reflexivity).
    split; [exact H1|]. split; [exact H2|].
    exact (HP boxedPlayer boxRenderer H1 H2).
  - assert (H1 : enemyMoveRejected boxedEnemy) by (vm_compute; reflexivity).
    split; [exact H1|].
    exact (HE boxedEnemy H1).
Defined.

(** *** Edge wraparound *)


Lemma player_wrapHorizontal_cases (p : Player.t) (w cs : Q) :
  let '(p', wrapped) := Player.wrapHorizontal p w cs in
  Player.mazeRenderer p' = Player.mazeRenderer p /\
  Player.y p' = Player.y p /\
  ((wrapped = false /\ p' = p) \/
   (wrapped = true /\ Player.canMoveToPosition p (Player.x p') (Player.y p') = true)).
Proof.
  unfold Player.wrapHorizontal.
  repeat match goal with
         | |- context [if ?b then _ else _] => destruct b eqn:?
         end; simpl; auto.
Qed.

Lemma player_wrapVertical_cases (p : Player.t) (h cs : Q) :
  let '(p', wrapped) := Player.wrapVertical p h cs in
  Player.mazeRenderer p' = Player.mazeRenderer p /\
  Player.x p' = Player.x p /\
  ((wrapped = false /\ p' = p) \/
   (wrapped = true /\ Player.canMoveToPosition p (Player.x p') (Player.y p') = true)).
Proof.
  unfold Player.wrapVertical.
  repeat match goal with
         | |- context [if ?b then _ else _] => destruct b eqn:?
         end; simpl; auto.
Qed.

Lemma player_wrap_only_if_free (p : Player.t) :
  let p' := Player.handleEdgeWrapping p in
  p' = p \/ Player.canMoveToPosition p (Player.x p') (Player.y p') = true.
Proof.
  unfold Player.handleEdgeWrapping.
  destruct (Player.mazeRenderer p) as [r|] eqn:Hr; [|by left].
  destruct (MazeRenderer.getMazeDimensions r) as [w h].
  set (cs := MazeRenderer.getCellSize r).
  pose proof (player_wrapHorizontal_cases p w cs) as H1.
  destruct (Player.wrapHorizontal p w cs) as [p1 wrapped1].
  destruct H1 as (R1 & Y1 & [[-> ->]|[-> C1]]).
  - pose proof (player_wrapVertical_cases p h cs) as H2.
    destruct (Player.wrapVertical p h cs) as [p2 wrapped2].
    destruct H2 as (R2 & X2 & [[-> ->]|[-> C2]]); [|by right].
    destruct (_ && _); [|by left].
    pose proof (player_wrapHorizontal_cases p w cs) as H3.
    destruct (Player.wrapHorizontal p w cs) as [p3 wrapped3].
    destruct H3 as (R3 & Y3 & [[-> ->]|[-> C3]]); [|by right].
    pose proof (player_wrapVertical_cases p h cs) as H4.
    destruct (Player.wrapVertical p h cs) as [p4 wrapped4].
    destruct H4 as (R4 & X4 & [[-> ->]|[-> C4]]); [by left | by right].
  - by right.
Qed.

Lemma player_left_wrap (p : Player.t) (r : MazeRenderer.t) :
  Player.mazeRenderer p = Some r ->
  let '(w, h) := MazeRenderer.getMazeDimensions r in
  let cs := MazeRenderer.getCellSize r in
  Player.x p < cs / 2 ->
  Player.canMoveToPosition p (w - cs / 2) (Player.y p) = true ->
  Player.handleEdgeWrapping p = Player.withPosition p (w - cs / 2) (Player.y p).
Proof.
  intros Hr. unfold Player.handleEdgeWrapping. rewrite Hr.
  destruct (MazeRenderer.getMazeDimensions r) as [w h].
  intros Hx Hfree. unfold Player.wrapHorizontal.
  apply Qltb_true in Hx. by rewrite Hx, Hfree.
Qed.

Lemma player_right_wrap (p : Player.t) (r : MazeRenderer.t) :
  Player.mazeRenderer p = Some r ->
  let '(w, h) := MazeRenderer.getMazeDimensions r in
  let cs := MazeRenderer.getCellSize r in
  cs / 2 <= Player.x p -> w - cs / 2 < Player.x p ->
  Player.canMoveToPosition p (cs / 2) (Player.y p) = true ->
  Player.handleEdgeWrapping p = Player.withPosition p (cs / 2) (Player.y p).
Proof.
  intros Hr. unfold Player.handleEdgeWrapping. rewrite Hr.
  destruct (MazeRenderer.getMazeDimensions r) as [w h].
  intros Hx1 Hx2 Hfree. unfold Player.wrapHorizontal, Qgtb.
  apply Qltb_false in Hx1. apply Qltb_true in Hx2. by rewrite Hx1, Hx2, Hfree.
Qed.

Lemma enemy_wrapHorizontal_cases (e : Enemy.t) (w cs : Q) :
  let e' := Enemy.wrapHorizontal e w cs in
  Enemy.mazeRenderer e' = Enemy.mazeRenderer e /\
  Enemy.y e' = Enemy.y e /\
  (e' = e \/ Enemy.canMoveToPosition e (Enemy.x e') (Enemy.y e') = true).
Proof.
  unfold Enemy.wrapHorizontal.
  repeat match goal with
         | |- context [if ?b then _ else _] => destruct b eqn:?
         end; simpl; auto.
Qed.

Lemma enemy_wrapVertical_cases (e : Enemy.t) (h cs : Q) :
  let e' := Enemy.wrapVertical e h cs in
  Enemy.mazeRenderer e' = Enemy.mazeRenderer e /\
  Enemy.x e' = Enemy.x e /\
  (e' = e \/ Enemy.canMoveToPosition e (Enemy.x e') (Enemy.y e') = true).
Proof.
  unfold Enemy.wrapVertical.
  repeat match goal with
         | |- context [if ?b then _ else _] => destruct b eqn:?
         end; simpl; auto.
Qed.

Lemma enemy_wrap_only_if_free (e : Enemy.t) :
  let e' := Enemy.handleEdgeWrapping e in
  e' = e \/ Enemy.canMoveToPosition e (Enemy.x e') (Enemy.y e') = true.
Proof.
  unfold Enemy.handleEdgeWrapping.
  destruct (Enemy.mazeRenderer e) as [r|] eqn:Hr; [|by left].
  destruct (MazeRenderer.getMazeDimensions r) as [w h].
  set (cs := MazeRenderer.getCellSize r).
  destruct (enemy_wrapHorizontal_cases e w cs) as (R1 & Y1 & H1).
  destruct (enemy_wrapVertical_cases (Enemy.wrapHorizontal e w cs) h cs) as (R2 & X2 & H2).
  set (e1 := Enemy.wrapHorizontal e w cs) in *.
  set (e2 := Enemy.wrapVertical e1 h cs) in *.
  destruct H2 as [H2|H2].
  - rewrite H2. destruct H1 as [H1|H1]; [by left | by right].
  - right. unfold Enemy.canMoveToPosition in *. by rewrite <- R1.
Qed.

Lemma enemy_wrapVertical_inside (e : Enemy.t) (h cs : Q) :
  cs / 2 <= Enemy.y e -> Enemy.y e <= h - cs / 2 -> Enemy.wrapVertical e h cs = e.
Proof.
  intros H1 H2. unfold Enemy.wrapVertical, Qgtb.
  apply Qltb_false in H1. apply Qltb_false in H2. by rewrite H1, H2.
Qed.

(** What [handleEdgeWrapping] does apart from the enemy's second wrap.
    An agent is teleported only to a position that passes the
    four-corner collision test.  The horizontal wrap is evaluated before
    the vertical one: when the agent is within half a cell of the left
    edge and the mirrored position is free, [x] becomes
    [mazeWidth - cellSize / 2].  For the player that ends the call, so
    [y] is unchanged, also at a corner.  For an enemy the vertical wrap
    is then evaluated at the new [x] in the same call, so [y] is
    unchanged unless the enemy is also within half a cell of the top or
    bottom edge. *)
Theorem edge_wrap_correct :
  (forall (p : Player.t) (r : MazeRenderer.t),
      Player.mazeRenderer p = Some r ->
      let p' := Player.handleEdgeWrapping p in
      let w := fst (MazeRenderer.getMazeDimensions r) in
      let cs := MazeRenderer.getCellSize r in
      (p' = p \/ Player.canMoveToPosition p (Player.x p') (Player.y p') = true) /\
      (Player.x p < cs / 2 ->
       Player.canMoveToPosition p (w - cs / 2) (Player.y p) = true ->
       Player.x p' = w - cs / 2 /\ Player.y p' = Player.y p)) /\
  (forall (e : Enemy.t) (r : MazeRenderer.t),
      Enemy.mazeRenderer e = Some r ->
      let e' := Enemy.handleEdgeWrapping e in
      let w := fst (MazeRenderer.getMazeDimensions r) in
      let h := snd (MazeRenderer.getMazeDimensions r) in
      let cs := MazeRenderer.getCellSize r in
      (e' = e \/ Enemy.canMoveToPosition e (Enemy.x e') (Enemy.y e') = true) /\
      (Enemy.x e < cs / 2 ->
       Enemy.canMoveToPosition e (w - cs / 2) (Enemy.y e) = true ->
       Enemy.x e' = w - cs / 2 /\
       e' = Enemy.wrapVertical (Enemy.withPosition e (w - cs / 2) (Enemy.y e)) h cs /\
       (cs / 2 <= Enemy.y e -> Enemy.y e <= h - cs / 2 -> Enemy.y e' = Enemy.y e))).
Proof.
  split.
  - intros p r Hr p' w cs. split; [apply player_wrap_only_if_free|].
    intros Hx Hfree. pose proof (player_left_wrap p r Hr) as H.
    unfold w, cs in *. destruct (MazeRenderer.getMazeDimensions r) as [w0 h0].
    simpl in *. unfold p'. by rewrite (H Hx Hfree).
  - intros e r Hr e' w h cs. split; [apply enemy_wrap_only_if_free|].
    intros Hx Hfree.
    assert (He' : e' = Enemy.wrapVertical
                         (Enemy.withPosition e (w - cs / 2) (Enemy.y e)) h cs).
    { unfold e', Enemy.handleEdgeWrapping. rewrite Hr. unfold w, h, cs in *.
      destruct (MazeRenderer.getMazeDimensions r) as [w0 h0]. simpl in *.
      unfold Enemy.wrapHorizontal. apply Qltb_true in Hx. by rewrite Hx, Hfree. }
    split; [|split; [exact He'|]].
    + rewrite He'.
      by destruct (enemy_wrapVertical_cases
                     (Enemy.withPosition e (w - cs / 2) (Enemy.y e)) h cs) as (_ & -> & _).
    + intros H1 H2. rewrite He', enemy_wrapVertical_inside; done.
Qed.

Lemma edge_wrap_correct_witness :
  (Player.mazeRenderer tunnelPlayer = Some tunnelRenderer /\
   Player.x tunnelPlayer < MazeRenderer.getCellSize tunnelRenderer / 2 /\
   Player.canMoveToPosition tunnelPlayer
     (fst (MazeRenderer.getMazeDimensions tunnelRenderer)
      - MazeRenderer.getCellSize tunnelRenderer / 2)
     (Player.y tunnelPlayer) = true /\
   Player.x (Player.handleEdgeWrapping tunnelPlayer)
     = fst (MazeRenderer.getMazeDimensions tunnelRenderer)
       - MazeRenderer.getCellSize tunnelRenderer / 2 /\
   Player.y (Player.handleEdgeWrapping tunnelPlayer) = Player.y tunnelPlayer) /\
  (Enemy.mazeRenderer tunnelEnemy = Some tunnelRenderer /\
   Enemy.x tunnelEnemy < MazeRenderer.getCellSize tunnelRenderer / 2 /\
   Enemy.canMoveToPosition tunnelEnemy
     (fst (MazeRenderer.getMazeDimensions tunnelRenderer)
      - MazeRenderer.getCellSize tunnelRenderer / 2)
     (Enemy.y tunnelEnemy) = true /\
   MazeRenderer.getCellSize tunnelRenderer / 2 <= Enemy.y tunnelEnemy /\
   Enemy.y tunnelEnemy <= snd (MazeRenderer.getMazeDimensions tunnelRenderer)
                          - MazeRenderer.getCellSize tunnelRenderer / 2 /\
   Enemy.x (Enemy.handleEdgeWrapping tunnelEnemy)
     = fst (MazeRenderer.getMazeDimensions tunnelRenderer)
       - MazeRenderer.getCellSize tunnelRenderer / 2 /\
   Enemy.y (Enemy.handleEdgeWrapping tunnelEnemy) = Enemy.y tunnelEnemy).
Proof.
  destruct edge_wrap_correct as [HP HE].
  split.
  - assert (H1 : Player.mazeRenderer tunnelPlayer = Some tunnelRenderer) by reflexivity.
    assert (H2 : Player.x tunnelPlayer < MazeRenderer.getCellSize tunnelRenderer / 2)
      by reflexivity.
    assert (H3 : Player.canMoveToPosition tunnelPlayer
                   (fst (MazeRenderer.getMazeDimensions tunnelRenderer)
                    - MazeRenderer.getCellSize tunnelRenderer / 2)
                   (Player.y tunnelPlayer) = true)
      by (vm_compute; reflexivity).
    split; [exact H1|]. split; [exact H2|]. split; [exact H3|].
    exact (proj2 (HP tunnelPlayer tunnelRenderer H1) H2 H3).
  - assert (H1 : Enemy.mazeRenderer tunnelEnemy = Some tunnelRenderer) by reflexivity.
    assert (H2 : Enemy.x tunnelEnemy < MazeRenderer.getCellSize tunnelRenderer / 2)
      by reflexivity.
    assert (H3 : Enemy.canMoveToPosition tunnelEnemy
                   (fst (MazeRenderer.getMazeDimensions tunnelRenderer)
                    - MazeRenderer.getCellSize tunnelRenderer / 2)
                   (Enemy.y tunnelEnemy) = true)
      by (vm_compute; reflexivity).
    assert (H4 : MazeRenderer.getCellSize tunnelRenderer / 2 <= Enemy.y tunnelEnemy)
      by (vm_compute; discriminate).
    assert (H5 : Enemy.y tunnelEnemy
                 <= snd (MazeRenderer.getMazeDimensions tunnelRenderer)
                    - MazeRenderer.getCellSize tunnelRenderer / 2)
      by (vm_compute; discriminate).
    split; [exact H1|]. split; [exact H2|]. split; [exact H3|].
    split; [exact H4|]. split; [exact H5|].
    destruct (proj2 (HE tunnelEnemy tunnelRenderer H1) H2 H3) as (Hx & _ & Hy).
    split; [exact Hx | exact (Hy H4 H5)].
Defined.

Example tunnel_player_wraps :
  let p' := Player.handleEdgeWrapping tunnelPlayer in
  Qred (Player.x p') = 90 /\ Player.y p' = 30.
Proof. vm_compute. split; reflexivity. Qed.

Example corner_enemy_wraps_twice :
  let e' := Enemy.handleEdgeWrapping cornerEnemy in
  Qred (Enemy.x e') = 50 /\ Qred (Enemy.y e') = 50.
Proof. vm_compute. split; reflexivity. Qed.

Example corner_player_wraps_once :
  let p' := Player.handleEdgeWrapping cornerPlayer in
  Qred (Player.x p') = 50 /\ Qred (Player.y p') = 9.
Proof. vm_compute. split; reflexivity. Qed.

(** ** The enemy roster (AIController.js) *)

Lemma spawnEnemy_effect (c : AIController.t) (random : Q) :
  let c' := AIController.spawnEnemy c random in
  AIController.maxEnemies c' = AIController.maxEnemies c /\
  ((AIController.enemies c' = AIController.enemies c /\
    AIController.enemiesSpawned c' = AIController.enemiesSpawned c /\
    AIController.nextId c' = AIController.nextId c) \/
   (length (AIController.enemies c') = S (length (AIController.enemies c)) /\
    AIController.enemiesSpawned c' = (AIController.enemiesSpawned c + 1)%Z /\
    AIController.nextId c' = S (AIController.nextId c))).
Proof.
  unfold AIController.spawnEnemy.
  destruct (AIController.mazeRenderer c) as [r|]; [|by split; [|left]].
  set (c1 := match AIController.spawnPositions c with
             | [] => AIController.calculateSpawnPositions c
             | _ :: _ => c
             end).
  assert (H1 : AIController.maxEnemies c1 = AIController.maxEnemies c /\
               AIController.enemies c1 = AIController.enemies c /\
               AIController.enemiesSpawned c1 = AIController.enemiesSpawned c /\
               AIController.nextId c1 = AIController.nextId c).
  { unfold c1. destruct (AIController.spawnPositions c); [|done].
    unfold AIController.calculateSpawnPositions.
    destruct (AIController.mazeRenderer c); [|done].
    destruct (MazeRenderer.getMazeDimensions _).
    by destruct (List.filter _ _). }
  destruct H1 as (M1 & E1 & S1 & N1).
  destruct (AIController.spawnPositions c1); [by split; [|left]|].
  simpl. split; [exact M1|]. right.
  rewrite length_app, E1, S1, N1. simpl. split; [lia | done].
Qed.

Lemma updateEnemySpawning_effect (c : AIController.t) (dt random : Q) :
  (rosterSize c <= AIController.maxEnemies c)%Z ->
  (AIController.enemiesSpawned c <= AIController.maxEnemies c)%Z ->
  let c' := AIController.updateEnemySpawning c dt random in
  let grown := (AIController.enemiesSpawned c' - AIController.enemiesSpawned c)%Z in
  AIController.maxEnemies c' = AIController.maxEnemies c /\
  (0 <= grown <= 1)%Z /\
  (AIController.enemiesSpawned c' <= AIController.maxEnemies c)%Z /\
  (rosterSize c' <= AIController.maxEnemies c)%Z /\
  rosterSize c' = (rosterSize c + grown)%Z /\
  Z.of_nat (AIController.nextId c') = (Z.of_nat (AIController.nextId c) + grown)%Z.
Proof.
  intros Hlen Hsp. unfold AIController.updateEnemySpawning, rosterSize in *.
  set (c1 := AIController.withLastSpawnTime c (AIController.lastSpawnTime c + dt)).
  destruct (_ && _) eqn:Hcond; [|simpl; repeat split; lia].
  apply andb_true_iff in Hcond as [Hcond H3]. apply andb_true_iff in Hcond as [H1 _].
  apply Z.ltb_lt in H1, H3. simpl in H1, H3.
  pose proof (spawnEnemy_effect c1 random) as Heff.
  simpl. destruct Heff as (M & [(E & S' & N)|(E & S' & N)]); simpl in *.
  - rewrite E, S', N. repeat split; try done; lia.
  - rewrite E, S', N. repeat split; try done; lia.
Qed.

Lemma update_effect (c : AIController.t) (dt random : Q) (plans : Enemy.t -> Enemy.Plan) :
  (rosterSize c <= AIController.maxEnemies c)%Z ->
  (AIController.enemiesSpawned c <= AIController.maxEnemies c)%Z ->
  let c' := AIController.update c dt random plans in
  let grown := (AIController.enemiesSpawned c' - AIController.enemiesSpawned c)%Z in
  AIController.maxEnemies c' = AIController.maxEnemies c /\
  (0 <= grown)%Z /\
  (AIController.enemiesSpawned c' <= AIController.maxEnemies c)%Z /\
  (rosterSize c' <= AIController.maxEnemies c)%Z /\
  (rosterSize c' <= rosterSize c + grown)%Z /\
  Z.of_nat (AIController.nextId c') = (Z.of_nat (AIController.nextId c) + grown)%Z.
Proof.
  intros Hlen Hsp. unfold AIController.update.
  destruct (AIController.isActive c); simpl; [|repeat split; lia].
  destruct (updateEnemySpawning_effect c dt random Hlen Hsp)
    as (M & G & S' & L & L' & N).
  set (c1 := AIController.updateEnemySpawning c dt random) in *.
  assert (Hf : (rosterSize
                  (AIController.withEnemies c1
                     (List.filter (fun e => negb (AIController.isEnemyOutOfBounds c1 e))
                        (List.map (fun e => Enemy.update e dt (plans e))
                                  (AIController.enemies c1))))
                <= rosterSize c1)%Z).
  { unfold rosterSize. simpl.
    pose proof (List.filter_length_le
                  (fun e => negb (AIController.isEnemyOutOfBounds c1 e))
                  (List.map (fun e => Enemy.update e dt (plans e)) (AIController.enemies c1))) as Hle.
    rewrite length_map in Hle. lia. }
  repeat split; try done; try lia.
Qed.

Lemma delete_length_le {A : Type} (l : list A) (k : nat) :
  (length (delete k l) <= length l)%nat.
Proof.
  revert k. induction l as [|a l IH]; intros [|k]; simpl; try lia.
  specialize (IH k). lia.
Qed.

Lemma removeEnemy_effect (c : AIController.t) (enemy : Enemy.t) :
  let c' := fst (AIController.removeEnemy c enemy) in
  AIController.maxEnemies c' = AIController.maxEnemies c /\
  AIController.enemiesSpawned c' = AIController.enemiesSpawned c /\
  AIController.nextId c' = AIController.nextId c /\
  (rosterSize c' <= rosterSize c)%Z.
Proof.
  unfold AIController.removeEnemy, rosterSize.
  destruct (AIController.indexOf _ _) as [k|]; simpl; [|repeat split; lia].
  repeat split. pose proof (delete_length_le (AIController.enemies c) k). lia.
Qed.

Lemma controllerStep_effect (c : AIController.t) (op : ControllerOp) :
  (rosterSize c <= AIController.maxEnemies c)%Z ->
  (AIController.enemiesSpawned c <= AIController.maxEnemies c)%Z ->
  let c' := controllerStep c op in
  let grown := (AIController.enemiesSpawned c' - AIController.enemiesSpawned c)%Z in
  AIController.maxEnemies c' = AIController.maxEnemies c /\
  (0 <= grown)%Z /\
  (AIController.enemiesSpawned c' <= AIController.maxEnemies c)%Z /\
  (rosterSize c' <= AIController.maxEnemies c)%Z /\
  (rosterSize c' <= rosterSize c + grown)%Z /\
  Z.of_nat (AIController.nextId c') = (Z.of_nat (AIController.nextId c) + grown)%Z.
Proof.
  intros Hlen Hsp. destruct op as [dt random plans|enemy|v d|a]; simpl.
  - by apply update_effect.
  - destruct (removeEnemy_effect c enemy) as (M & S' & N & L).
    rewrite M, S', N. repeat split; lia.
  - unfold rosterSize in *. simpl. rewrite length_map. repeat split; lia.
  - unfold rosterSize in *. simpl.
    destruct a; rewrite ?length_map; repeat split; lia.
Qed.

(** C10.  Within a level (no reset, no change of difficulty) and from a
    state whose roster and spawn counter do not exceed [maxEnemies], any
    sequence of updates, removals, vulnerability broadcasts and
    activations keeps the roster at or below [maxEnemies]; the counter
    [enemiesSpawned] never decreases and never exceeds [maxEnemies]; the
    number of enemy objects created equals the increase of the counter,
    so at most [maxEnemies] are created from a reset controller; and the
    roster grows by no more than the counter does, so an enemy that was
    removed is not replaced beyond the cap. *)
Theorem roster_never_exceeds_cap (c : AIController.t) (ops : list ControllerOp) :
  (rosterSize c <= AIController.maxEnemies c)%Z ->
  (AIController.enemiesSpawned c <= AIController.maxEnemies c)%Z ->
  let c' := foldl controllerStep c ops in
  let grown := (AIController.enemiesSpawned c' - AIController.enemiesSpawned c)%Z in
  AIController.maxEnemies c' = AIController.maxEnemies c /\
  (rosterSize c' <= AIController.maxEnemies c)%Z /\
  (0 <= grown)%Z /\
  (AIController.enemiesSpawned c' <= AIController.maxEnemies c)%Z /\
  Z.of_nat (AIController.nextId c') = (Z.of_nat (AIController.nextId c) + grown)%Z /\
  (rosterSize c' <= rosterSize c + grown)%Z.
Proof.
  revert c. induction ops as [|op ops IH]; intros c Hlen Hsp; simpl.
  - repeat split; lia.
  - destruct (controllerStep_effect c op Hlen Hsp) as (M & G & S' & L & L' & N).
    set (c1 := controllerStep c op) in *.
    assert (Hlen1 : (rosterSize c1 <= AIController.maxEnemies c1)%Z) by lia.
    assert (Hsp1 : (AIController.enemiesSpawned c1 <= AIController.maxEnemies c1)%Z) by lia.
    destruct (IH c1 Hlen1 Hsp1) as (M2 & L2 & G2 & S2 & N2 & L2').
    repeat split; lia.
Qed.

Lemma roster_never_exceeds_cap_witness :
  (rosterSize sampleController <= AIController.maxEnemies sampleController)%Z /\
  (AIController.enemiesSpawned sampleController
   <= AIController.maxEnemies sampleController)%Z /\
  let c' := foldl controllerStep sampleController sampleOps in
  let grown := (AIController.enemiesSpawned c'
                - AIController.enemiesSpawned sampleController)%Z in
  AIController.maxEnemies c' = AIController.maxEnemies sampleController /\
  (rosterSize c' <= AIController.maxEnemies sampleController)%Z /\
  (0 <= grown)%Z /\
  (AIController.enemiesSpawned c' <= AIController.maxEnemies sampleController)%Z /\
  Z.of_nat (AIController.nextId c')
  = (Z.of_nat (AIController.nextId sampleController) + grown)%Z /\
  (rosterSize c' <= rosterSize sampleController + grown)%Z.
Proof.
  assert (H1 : (rosterSize sampleController
                <= AIController.maxEnemies sampleController)%Z) by (vm_compute; discriminate).
  assert (H2 : (AIController.enemiesSpawned sampleController
                <= AIController.maxEnemies sampleController)%Z) by (vm_compute; discriminate).
  split; [exact H1|]. split; [exact H2|].
  exact (roster_never_exceeds_cap sampleController sampleOps H1 H2).
Defined.

Example roster_sample :
  let c' := foldl controllerStep sampleController sampleOps in
  List.map Enemy.id (AIController.enemies c') = [1%nat; 2%nat; 3%nat] /\
  AIController.enemiesSpawned c' = 4%Z.
Proof. vm_compute. split; reflexivity. Qed.

(** A reset starts the next level inside the cap: the roster is empty and
    the counter is back at zero. *)
Lemma reset_within_cap (c : AIController.t) :
  (0 <= AIController.maxEnemies c)%Z ->
  let c' := AIController.reset c in
  AIController.maxEnemies c' = AIController.maxEnemies c /\
  (rosterSize c' <= AIController.maxEnemies c')%Z /\
  (AIController.enemiesSpawned c' <= AIController.maxEnemies c')%Z.
Proof. intros H. unfold rosterSize. simpl. repeat split; lia. Qed.

(** [setDifficultyLevel] keeps the roster and the counter and sets a cap
    between 4 and 6 for the levels of the game. *)
Lemma setDifficultyLevel_cap (c : AIController.t) (level : Z) :
  (0 <= level)%Z ->
  let c' := AIController.setDifficultyLevel c level in
  AIController.enemies c' = AIController.enemies c /\
  AIController.enemiesSpawned c' = AIController.enemiesSpawned c /\
  (4 <= AIController.maxEnemies c' <= 6)%Z.
Proof.
  intros H. simpl. split; [reflexivity|]. split; [reflexivity|].
  pose proof (Z.div_pos level 3 H ltac:(lia)). lia.
Qed.

(** ** Collision arbitration (GameEngine.js) *)

Lemma indexOf_None (i : nat) (l : list Enemy.t) :
  AIController.indexOf i l = None -> i ∉ List.map Enemy.id l.
Proof.
  induction l as [|e l IH]; simpl; [intros _; apply not_elem_of_nil|].
  destruct (Nat.eqb_spec (Enemy.id e) i) as [E|E]; [discriminate|].
  destruct (AIController.indexOf i l); [discriminate|].
  intros _. apply not_elem_of_cons. split; [congruence | by apply IH].
Qed.

Lemma filter_absent (i : nat) (ids : list nat) :
  i ∉ ids -> List.filter (fun j => negb (Nat.eqb j i)) ids = ids.
Proof.
  induction ids as [|j ids IH]; intros H; [reflexivity|].
  apply not_elem_of_cons in H as [Hne H]. simpl.
  destruct (Nat.eqb_spec j i); [congruence|]. simpl. by rewrite IH.
Qed.

(** Removing an object from a roster without repeated objects removes
    exactly its identity. *)
Lemma removeEnemy_ids (c : AIController.t) (enemy : Enemy.t) :
  NoDup (List.map Enemy.id (AIController.enemies c)) ->
  List.map Enemy.id (AIController.enemies (fst (AIController.removeEnemy c enemy)))
  = List.filter (fun j => negb (Nat.eqb j (Enemy.id enemy)))
                (List.map Enemy.id (AIController.enemies c)).
Proof.
  unfold AIController.removeEnemy.
  destruct (AIController.indexOf _ _) as [k|] eqn:Hk; simpl.
  - revert k Hk. generalize (AIController.enemies c) as l.
    induction l as [|e l IH]; intros k Hk Hnd; [discriminate|].
    simpl in *. apply NoDup_cons in Hnd as [Hne Hnd].
    destruct (Nat.eqb_spec (Enemy.id e) (Enemy.id enemy)) as [E|E].
    + injection Hk as <-. simpl. rewrite filter_absent; [reflexivity|].
      by rewrite <- E.
    + destruct (AIController.indexOf _ l) as [k'|]; [|discriminate].
      injection Hk as <-. simpl. by rewrite (IH k').
  - intros _. symmetry. by apply filter_absent, indexOf_None.
Qed.

Lemma filter_NoDup (f : nat -> bool) (ids : list nat) :
  NoDup ids -> NoDup (List.filter f ids).
Proof.
  induction 1 as [|j ids Hj Hnd IH]; simpl; [constructor|].
  destruct (f j); [|exact IH]. constructor; [|exact IH].
  intros Hin. apply Hj. apply list_elem_of_In in Hin. apply filter_In in Hin as [Hin _].
  by apply list_elem_of_In.
Qed.

Lemma filter_all_true (f : nat -> bool) (ids : list nat) :
  (forall j, f j = true) -> List.filter f ids = ids.
Proof.
  intros H. induction ids as [|j ids IH]; [reflexivity|].
  simpl. by rewrite H, IH.
Qed.

Lemma not_in_nil_ids (j : nat) :
  negb (bool_decide (j ∈ List.map Enemy.id [])) = true.
Proof. apply negb_true_iff, bool_decide_eq_false_2, not_elem_of_nil. Qed.

Lemma loseLife_effect (g : GameEngine.t) :
  let g' := GameEngine.loseLife g in
  GameEngine.lives g' = (GameEngine.lives g - 1)%Z /\
  GameEngine.score g' = GameEngine.score g /\
  rosterIds g' = rosterIds g.
Proof.
  unfold GameEngine.loseLife, rosterIds. simpl.
  destruct (Z.leb _ _); simpl; [|done].
  repeat split. rewrite List.map_map. reflexivity.
Qed.

Lemma processCollisions_effect (colliding : list Enemy.t) (g : GameEngine.t) :
  NoDup (rosterIds g) ->
  let g' := GameEngine.processCollisions g colliding in
  rosterIds g' =
    List.filter (fun j => negb (bool_decide (j ∈ List.map Enemy.id (eatenPrefix colliding))))
                (rosterIds g) /\
  GameEngine.score g' = (GameEngine.score g + pointsOf (eatenPrefix colliding))%Z /\
  GameEngine.lives g' =
    (if hitOccurs colliding then GameEngine.lives g - 1 else GameEngine.lives g)%Z.
Proof.
  revert g. induction colliding as [|e rest IH]; intros g Hnd; simpl.
  - repeat split; [|lia].
    symmetry. apply filter_all_true, not_in_nil_ids.
  - unfold Enemy.getIsVulnerable. destruct (Enemy.isVulnerable e) eqn:Hv; simpl.
    + set (g1 := GameEngine.handleVulnerableEnemyCollision g e).
      assert (Hids : rosterIds g1
                     = List.filter (fun j => negb (Nat.eqb j (Enemy.id e))) (rosterIds g)).
      { unfold g1, rosterIds, GameEngine.handleVulnerableEnemyCollision. simpl.
        by apply removeEnemy_ids. }
      assert (Hnd1 : NoDup (rosterIds g1)) by (rewrite Hids; by apply filter_NoDup).
      destruct (IH g1 Hnd1) as (I1 & S1 & L1).
      repeat split.
      * rewrite I1, Hids. clear.
        induction (rosterIds g) as [|j ids IHids]; [reflexivity|].
        simpl. destruct (Nat.eqb_spec j (Enemy.id e)) as [->|Hne]; simpl.
        -- rewrite bool_decide_eq_true_2 by left. simpl. exact IHids.
        -- destruct (bool_decide (j ∈ List.map Enemy.id (eatenPrefix rest))) eqn:Hb.
           ++ apply bool_decide_eq_true_1 in Hb.
              rewrite bool_decide_eq_true_2 by (by right). simpl. exact IHids.
           ++ apply bool_decide_eq_false_1 in Hb.
              rewrite bool_decide_eq_false_2.
              ** simpl. by f_equal.
              ** intros Hin. apply elem_of_cons in Hin as [?|?]; [congruence | done].
      * rewrite S1. unfold g1, GameEngine.handleVulnerableEnemyCollision. simpl.
        unfold Enemy.getType. lia.
      * rewrite L1. reflexivity.
    + unfold GameEngine.handleEnemyHitPlayer.
      destruct (loseLife_effect g) as (L & S' & I).
      repeat split; [|lia|exact L].
      rewrite I. symmetry. apply filter_all_true, not_in_nil_ids.
Qed.

(** C4, as stated, fails while the player is invulnerable after a hit: an
    enemy that is not vulnerable overlaps the player of
    [invulnerableEngine] and no life is lost. *)
Lemma overlap_ignored_while_invulnerable : ~ overlapCostsLife invulnerableEngine.
Proof.
  intros H.
  assert (Hin : nearChaser ∈ collidingEnemies invulnerableEngine).
  { vm_compute. left. }
  specialize (H nearChaser Hin eq_refl). vm_compute in H. discriminate.
Qed.

(** C4, amended.  While [invulnerabilityTime] is positive the collision
    handling changes nothing.  Otherwise, with the overlapping enemies
    (distance of centres below the sum of the radii) taken in roster
    order: the vulnerable ones ahead of the first that is not vulnerable
    are removed from the roster and the point value of each one's type is
    credited; if some overlapping enemy is not vulnerable the life count
    drops by exactly 1 and processing stops with it, otherwise the life
    count is unchanged.  So at most one life is lost per tick. *)
Theorem collision_arbitration (g : GameEngine.t) :
  NoDup (rosterIds g) ->
  let colliding := collidingEnemies g in
  let eaten := eatenPrefix colliding in
  let g' := GameEngine.handleEnemyCollisions g in
  (0 < GameEngine.invulnerabilityTime g -> g' = g) /\
  (GameEngine.invulnerabilityTime g <= 0 ->
   rosterIds g' =
     List.filter (fun j => negb (bool_decide (j ∈ List.map Enemy.id eaten))) (rosterIds g) /\
   GameEngine.score g' = (GameEngine.score g + pointsOf eaten)%Z /\
   GameEngine.lives g' =
     (if hitOccurs colliding then GameEngine.lives g - 1 else GameEngine.lives g)%Z /\
   overlapCostsLife g) /\
  (GameEngine.lives g - 1 <= GameEngine.lives g' <= GameEngine.lives g)%Z.
Proof.
  intros Hnd colliding eaten g'.
  assert (Hinv : 0 < GameEngine.invulnerabilityTime g -> g' = g).
  { intros H. unfold g', GameEngine.handleEnemyCollisions, Qgtb.
    apply Qltb_true in H. by rewrite H. }
  assert (Hnot : GameEngine.invulnerabilityTime g <= 0 ->
                 g' = GameEngine.processCollisions g colliding).
  { intros H. unfold g', GameEngine.handleEnemyCollisions, Qgtb.
    apply Qltb_false in H. by rewrite H. }
  pose proof (processCollisions_effect colliding g Hnd) as (I & S' & L).
  split; [exact Hinv|]. split.
  - intros H. rewrite (Hnot H). repeat split; try done.
    intros e He Hv. fold g'. rewrite (Hnot H), L.
    assert (Hh : hitOccurs colliding = true).
    { apply List.existsb_exists. exists e. split; [by apply list_elem_of_In|].
      by rewrite Hv. }
    by rewrite Hh.
  - destruct (Qlt_le_dec 0 (GameEngine.invulnerabilityTime g)) as [H|H].
    + rewrite (Hinv H). lia.
    + rewrite (Hnot H), L. destruct (hitOccurs colliding); lia.
Qed.

Lemma collision_arbitration_witness :
  NoDup (rosterIds busyEngine) /\
  GameEngine.invulnerabilityTime busyEngine <= 0 /\
  let colliding := collidingEnemies busyEngine in
  let eaten := eatenPrefix colliding in
  let g' := GameEngine.handleEnemyCollisions busyEngine in
  rosterIds g' =
    List.filter (fun j => negb (bool_decide (j ∈ List.map Enemy.id eaten)))
                (rosterIds busyEngine) /\
  GameEngine.score g' = (GameEngine.score busyEngine + pointsOf eaten)%Z /\
  GameEngine.lives g' =
    (if hitOccurs colliding then GameEngine.lives busyEngine - 1
     else GameEngine.lives busyEngine)%Z /\
  overlapCostsLife busyEngine.
Proof.
  assert (H1 : NoDup (rosterIds busyEngine)).
  { apply (bool_decide_unpack _). vm_compute. exact I. }
  assert (H2 : GameEngine.invulnerabilityTime busyEngine <= 0) by (vm_compute; discriminate).
  split; [exact H1|]. split; [exact H2|].
  exact (proj1 (proj2 (collision_arbitration busyEngine H1)) H2).
Defined.

Example busy_engine_tick :
  let g' := GameEngine.handleEnemyCollisions busyEngine in
  rosterIds g' = [2%nat; 0%nat] /\ GameEngine.score g' = 400%Z /\ GameEngine.lives g' = 2%Z.
Proof. vm_compute. repeat split. Qed.

Example invulnerable_engine_tick :
  GameEngine.handleEnemyCollisions invulnerableEngine = invulnerableEngine.
Proof. reflexivity. Qed.

(** ** Maze validation (MazeGenerator.js) *)

Section FloodFill.

Variable gen : MazeGenerator.t.
Variable maze : MazeGenerator.Maze.

Lemma elem_of_allCells (c : Cell) :
  c ∈ MazeGenerator.allCells gen <-> MazeGenerator.isInBounds gen c.1 c.2 = true.
Proof.
  unfold MazeGenerator.allCells, MazeGenerator.isInBounds.
  rewrite list_elem_of_bind. setoid_rewrite list_elem_of_bind.
  setoid_rewrite elem_of_seqZ. setoid_rewrite list_elem_of_singleton.
  rewrite !andb_true_iff, !Z.leb_le, !Z.ltb_lt. destruct c as [x y]. simpl. split.
  - intros (y' & (x' & E & Hx) & Hy). injection E as -> ->. lia.
  - intros (((Hx1 & Hx2) & Hy1) & Hy2). exists y. split; [|lia]. exists x. split; [done | lia].
Qed.

Lemma NoDup_allCells : NoDup (MazeGenerator.allCells gen).
Proof.
  unfold MazeGenerator.allCells. apply NoDup_bind; [| |apply NoDup_seqZ].
  - intros y1 y2 c _ _. rewrite !list_elem_of_bind.
    setoid_rewrite list_elem_of_singleton.
    intros (x1 & -> & _) (x2 & E & _). by injection E.
  - intros y _. apply NoDup_bind; [| |apply NoDup_seqZ].
    + intros x1 x2 c _ _. rewrite !list_elem_of_singleton. intros -> E. by injection E.
    + intros x _. apply NoDup_singleton.
Qed.

Lemma length_bind_const {A B : Type} (f : A -> list B) (n : nat) (l : list A) :
  (forall a, length (f a) = n) -> length (l ≫= f) = (length l * n)%nat.
Proof.
  intros H. induction l as [|a l IH]; [reflexivity|].
  rewrite bind_cons, length_app, IH, H. simpl. lia.
Qed.

Lemma length_allCells :
  length (MazeGenerator.allCells gen)
  = (Z.to_nat (MazeGenerator.height gen) * Z.to_nat (MazeGenerator.width gen))%nat.
Proof.
  unfold MazeGenerator.allCells.
  rewrite (length_bind_const _ (Z.to_nat (MazeGenerator.width gen))).
  - by rewrite length_seqZ.
  - intros y. rewrite (length_bind_const _ 1%nat); [|done].
    rewrite length_seqZ. lia.
Qed.

Lemma cells_bound :
  (length (MazeGenerator.allCells gen)
   <= Z.to_nat (MazeGenerator.width gen * MazeGenerator.height gen))%nat.
Proof.
  rewrite length_allCells.
  destruct (Z.le_gt_cases 0 (MazeGenerator.width gen)) as [Hw|Hw],
           (Z.le_gt_cases 0 (MazeGenerator.height gen)) as [Hh|Hh].
  - rewrite Z2Nat.inj_mul by lia. lia.
  - replace (Z.to_nat (MazeGenerator.height gen)) with 0%nat by lia. lia.
  - replace (Z.to_nat (MazeGenerator.width gen)) with 0%nat by lia. lia.
  - replace (Z.to_nat (MazeGenerator.height gen)) with 0%nat by lia. lia.
Qed.

Lemma elem_of_pathCellSet (c : Cell) :
  c ∈ pathCellSet gen maze <-> isPathCell gen maze c = true.
Proof.
  unfold pathCellSet, MazeGenerator.getAccessiblePositions, isPathCell.
  rewrite elem_of_list_to_set, andb_true_iff. split.
  - intros H. apply list_elem_of_In, filter_In in H as [Hin Hf].
    split; [|done]. by apply elem_of_allCells, list_elem_of_In.
  - intros [Hb Hp]. apply list_elem_of_In, filter_In.
    split; [|done]. by apply list_elem_of_In, elem_of_allCells.
Qed.

Lemma NoDup_accessible : NoDup (MazeGenerator.getAccessiblePositions gen maze).
Proof.
  unfold MazeGenerator.getAccessiblePositions.
  apply NoDup_ListNoDup, List.NoDup_filter, NoDup_ListNoDup, NoDup_allCells.
Qed.

Lemma size_pathCellSet :
  size (pathCellSet gen maze) = length (MazeGenerator.getAccessiblePositions gen maze).
Proof. apply size_list_to_set, NoDup_accessible. Qed.

Lemma size_pathCellSet_bound :
  (size (pathCellSet gen maze) <= length (MazeGenerator.allCells gen))%nat.
Proof.
  rewrite size_pathCellSet. apply List.filter_length_le.
Qed.

Lemma elem_of_pushed (visited : gset Cell) (current n : Cell) :
  n ∈ List.filter
        (fun n => MazeGenerator.isInBounds gen n.1 n.2 &&
                  MazeGenerator.cellIs maze n.1 n.2 MazeGenerator.PATH &&
                  negb (bool_decide (n ∈ visited)))
        (MazeGenerator.neighborsOf current)
  <-> n ∈ MazeGenerator.neighborsOf current /\ isPathCell gen maze n = true /\ n ∉ visited.
Proof.
  unfold isPathCell. split.
  - intros H. apply list_elem_of_In, filter_In in H as [Hin Hf].
    apply andb_true_iff in Hf as [Hp Hv].
    apply negb_true_iff, bool_decide_eq_false in Hv.
    split; [by apply list_elem_of_In | done].
  - intros (Hin & Hp & Hv). apply list_elem_of_In, filter_In.
    split; [by apply list_elem_of_In|].
    rewrite Hp. by apply negb_true_iff, bool_decide_eq_false.
Qed.

Lemma elem_of_rev {A : Type} (l : list A) (x : A) : x ∈ rev l <-> x ∈ l.
Proof. rewrite !list_elem_of_In. symmetry. apply in_rev. Qed.

Lemma length_neighborsOf (c : Cell) : length (MazeGenerator.neighborsOf c) = 4%nat.
Proof. reflexivity. Qed.

Lemma floodLoop_correct (s : Cell) (fuel : nat) :
  forall (visited : gset Cell) (stack : list Cell),
    floodInv gen maze s visited stack ->
    (length stack + 4 * size (pathCellSet gen maze ∖ visited) < fuel)%nat ->
    exists v, MazeGenerator.floodLoop fuel gen maze visited stack = Some v /\
              forall c, c ∈ v <-> rtc (pathStep gen maze) s c.
Proof.
  induction fuel as [|fuel IH]; intros visited stack Hinv Hfuel; [lia|].
  destruct Hinv as (Hvis & Hstack & Hclosed & Hstart).
  destruct stack as [|current rest]; cbn [MazeGenerator.floodLoop].
  - exists visited. split; [reflexivity|]. intros c. split; [apply Hvis|].
    revert c. apply (rtc_ind_r (fun c => c ∈ visited) s).
    + destruct Hstart as [?|Hin]; [done | by apply elem_of_nil in Hin].
    + intros a b _ (Hn & _ & Hp) IHb.
      destruct (Hclosed a b IHb Hn Hp) as [?|Hin]; [done | by apply elem_of_nil in Hin].
  - destruct (bool_decide (current ∈ visited)) eqn:Hcur.
    + apply bool_decide_eq_true_1 in Hcur.
      apply IH; [|simpl in Hfuel; lia].
      split; [exact Hvis|]. split; [|split].
      * intros c Hc. apply Hstack. by right.
      * intros v n Hv Hn Hp. destruct (Hclosed v n Hv Hn Hp) as [?|Hin]; [by left|].
        apply elem_of_cons in Hin as [->|?]; [by left | by right].
      * destruct Hstart as [?|Hin]; [by left|].
        apply elem_of_cons in Hin as [->|?]; [by left | by right].
    + apply bool_decide_eq_false_1 in Hcur.
      destruct (Hstack current (ltac:(left))) as [Hreach Hpath].
      set (visited' := {[current]} ∪ visited).
      set (pushed := List.filter _ _).
      assert (Hpushed : forall n, n ∈ pushed <->
                n ∈ MazeGenerator.neighborsOf current /\ isPathCell gen maze n = true
                /\ n ∉ visited') by (intros n; apply elem_of_pushed).
      apply IH.
      * split; [|split; [|split]].
        -- intros v Hv. apply elem_of_union in Hv as [Hv|Hv]; [|by apply Hvis].
           apply elem_of_singleton in Hv as ->. done.
        -- intros c Hc. apply elem_of_app in Hc as [Hc|Hc]; [|apply Hstack; by right].
           apply elem_of_rev, Hpushed in Hc as (Hn & Hp & _).
           split; [|exact Hp]. eapply rtc_r; [exact Hreach|]. done.
        -- intros v n Hv Hn Hp.
           destruct (decide (n ∈ visited')) as [?|Hnv]; [by left|]. right.
           apply elem_of_union in Hv as [Hv|Hv].
           ++ apply elem_of_singleton in Hv as ->.
              apply elem_of_app. left. apply elem_of_rev, Hpushed. done.
           ++ destruct (Hclosed v n Hv Hn Hp) as [Hin|Hin].
              ** exfalso. apply Hnv, elem_of_union. by right.
              ** apply elem_of_cons in Hin as [->|?].
                 --- exfalso. apply Hnv, elem_of_union. left. by apply elem_of_singleton.
                 --- apply elem_of_app. by right.
        -- destruct Hstart as [?|Hin]; [left; apply elem_of_union; by right|].
           apply elem_of_cons in Hin as [->|?].
           ++ left. apply elem_of_union. left. by apply elem_of_singleton.
           ++ right. apply elem_of_app. by right.
      * assert (Hlen : (length pushed <= 4)%nat).
        { unfold pushed. etrans; [apply List.filter_length_le|].
          by rewrite length_neighborsOf. }
        assert (Hsize : size (pathCellSet gen maze ∖ visited)
                        = S (size (pathCellSet gen maze ∖ visited'))).
        { assert (E : pathCellSet gen maze ∖ visited
                      = {[current]} ∪ (pathCellSet gen maze ∖ visited')).
          { apply set_eq. intros c. unfold visited'.
            rewrite elem_of_union, !elem_of_difference, elem_of_union, elem_of_singleton.
            split.
            - intros [Hc Hnv]. destruct (decide (c = current)); [by left|].
              right. split; [done|]. intros [?|?]; done.
            - intros [->|[Hc Hnv]].
              + split; [by apply elem_of_pathCellSet | done].
              + split; [done|]. intros ?. apply Hnv. by right. }
          rewrite E, size_union, size_singleton; [lia|].
          apply disjoint_singleton_l. unfold visited'.
          rewrite elem_of_difference, elem_of_union, elem_of_singleton. intros [_ H].
          apply H. by left. }
        rewrite length_app, length_rev.
        assert (Harith : forall p a b r f : nat,
                   (p <= 4 -> a = S b -> S r + 4 * a < S f -> p + r + 4 * b < f)%nat)
          by (intros; lia).
        exact (Harith _ _ _ _ _ Hlen Hsize Hfuel).
Qed.

(** The flood fill finishes with the fuel it is given, and visits exactly
    the path cells connected to its start. *)
Lemma floodFill_total (s : Cell) :
  isPathCell gen maze s = true ->
  exists v, MazeGenerator.floodFill gen maze s = Some v /\
            forall c, c ∈ v <-> rtc (pathStep gen maze) s c.
Proof.
  intros Hs. unfold MazeGenerator.floodFill. apply floodLoop_correct.
  - split; [|split; [|split]].
    + intros v Hv. by apply elem_of_empty in Hv.
    + intros c Hc. apply list_elem_of_singleton in Hc as ->. by split.
    + intros v n Hv. by apply elem_of_empty in Hv.
    + right. by apply list_elem_of_singleton.
  - unfold MazeGenerator.floodFuel. simpl.
    assert (H : (size (pathCellSet gen maze ∖ ∅) <= size (pathCellSet gen maze))%nat).
    { apply subseteq_size. intros c Hc. by apply elem_of_difference in Hc as [? _]. }
    pose proof size_pathCellSet_bound. pose proof cells_bound. lia.
Qed.

Lemma pathStep_sym (a b : Cell) : pathStep gen maze a b -> pathStep gen maze b a.
Proof.
  intros (Hn & Ha & Hb). split; [|done].
  unfold MazeGenerator.neighborsOf, MazeGenerator.unitDirections in *.
  destruct a as [ax ay], b as [bx by']. simpl in *.
  repeat (apply elem_of_cons in Hn as [Hn|Hn];
          [injection Hn as -> ->; set_unfold; intuition (f_equal; lia)|]).
  by apply elem_of_nil in Hn.
Qed.

Lemma connected_sym (a b : Cell) :
  rtc (pathStep gen maze) a b -> rtc (pathStep gen maze) b a.
Proof.
  induction 1 as [|a b c Hab _ IH]; [done|].
  eapply rtc_r; [exact IH|]. by apply pathStep_sym.
Qed.

Lemma connected_is_path (a b : Cell) :
  isPathCell gen maze a = true -> rtc (pathStep gen maze) a b -> isPathCell gen maze b = true.
Proof.
  intros Ha H. induction H as [|a b c (_ & _ & Hb) _ IH]; [done|]. by apply IH.
Qed.

(** What a successful validation establishes. *)
Lemma validateMaze_ok :
  MazeGenerator.validateMaze gen maze = MazeGenerator.Ok tt ->
  forall c, isPathCell gen maze c = true ->
    MazeGenerator.floodFill gen maze c = Some (pathCellSet gen maze) /\
    forall c', isPathCell gen maze c' = true -> rtc (pathStep gen maze) c c'.
Proof.
  unfold MazeGenerator.validateMaze.
  destruct (MazeGenerator.getAccessiblePositions gen maze) as [|first rest] eqn:Hcells;
    [discriminate|].
  assert (Hfirst : isPathCell gen maze first = true).
  { apply elem_of_pathCellSet. unfold pathCellSet. rewrite Hcells.
    apply elem_of_list_to_set. left. }
  destruct (floodFill_total first Hfirst) as (v & Hv & Hreach).
  rewrite Hv. destruct (Nat.eqb_spec (size v) (length (first :: rest))) as [Hsize|];
    [|discriminate].
  intros _.
  assert (Hsub : v ⊆ pathCellSet gen maze).
  { intros c Hc. apply elem_of_pathCellSet, (connected_is_path first); [done|].
    by apply Hreach. }
  assert (Heq : v = pathCellSet gen maze).
  { apply leibniz_equiv, set_subseteq_size_equiv; [exact Hsub|].
    rewrite size_pathCellSet, Hcells. lia. }
  assert (Hall : forall c, isPathCell gen maze c = true -> rtc (pathStep gen maze) first c).
  { intros c Hc. apply Hreach. rewrite Heq. by apply elem_of_pathCellSet. }
  intros c Hc.
  assert (Hconn : forall c', isPathCell gen maze c' = true -> rtc (pathStep gen maze) c c').
  { intros c' Hc'. etrans; [apply connected_sym, Hall, Hc | by apply Hall]. }
  split; [|exact Hconn].
  destruct (floodFill_total c Hc) as (vc & Hvc & Hreachc).
  rewrite Hvc. f_equal. apply set_eq. intros c'.
  rewrite Hreachc, elem_of_pathCellSet. split.
  - by apply connected_is_path.
  - apply Hconn.
Qed.

(** The errors of [validateMaze] are the two of the source, each for its
    own reason: there is no path cell, or some path cell cannot be reached
    from the first one. *)
Lemma validateMaze_throws (msg : string) :
  MazeGenerator.validateMaze gen maze = MazeGenerator.Throw msg ->
  (MazeGenerator.getAccessiblePositions gen maze = [] /\
   msg = "Maze generation failed: No path cells found"%string) \/
  (msg = "Maze generation failed: Not all areas are reachable"%string /\
   exists a b, isPathCell gen maze a = true /\ isPathCell gen maze b = true /\
               ~ rtc (pathStep gen maze) a b).
Proof.
  unfold MazeGenerator.validateMaze.
  destruct (MazeGenerator.getAccessiblePositions gen maze) as [|first rest] eqn:Hcells.
  { intros [= <-]. by left. }
  assert (Hfirst : isPathCell gen maze first = true).
  { apply elem_of_pathCellSet. unfold pathCellSet. rewrite Hcells.
    apply elem_of_list_to_set. left. }
  destruct (floodFill_total first Hfirst) as (v & Hv & Hreach).
  rewrite Hv. destruct (Nat.eqb_spec (size v) (length (first :: rest))) as [|Hsize];
    [discriminate|].
  intros [= <-]. right. split; [reflexivity|].
  assert (Hsub : v ⊆ pathCellSet gen maze).
  { intros c Hc. apply elem_of_pathCellSet, (connected_is_path first); [done|].
    by apply Hreach. }
  pose proof (size_difference _ _ Hsub) as Hdiff.
  pose proof (subseteq_size _ _ Hsub) as Hle.
  rewrite size_pathCellSet, Hcells in Hdiff, Hle.
  destruct (size_pos_elem_of (pathCellSet gen maze ∖ v)) as [b Hb]; [lia|].
  apply elem_of_difference in Hb as [Hb Hnv].
  exists first, b. split; [exact Hfirst|]. split; [by apply elem_of_pathCellSet|].
  intros Hrtc. by apply Hnv, Hreach.
Qed.

End FloodFill.

(** C1.  [generate] either throws, or returns the grid exactly as the
    carving steps left it (validation repairs nothing) and that grid is
    connected: a flood fill started from any path cell visits exactly the
    set of all path cells, and any two path cells are joined by a chain
    of 4-adjacent path cells.  When it throws, the error comes from a
    carving step or it is the error of [validateMaze] on the carved
    grid. *)
Theorem generate_connected_or_throws
    (gen : MazeGenerator.t) (depth : nat) (g : MazeGenerator.Rng) :
  (exists msg,
      MazeGenerator.generate gen depth g = MazeGenerator.Throw msg /\
      (MazeGenerator.carve gen depth g = MazeGenerator.Throw msg \/
       exists maze g',
         MazeGenerator.carve gen depth g = MazeGenerator.Ok (maze, g') /\
         MazeGenerator.validateMaze gen maze = MazeGenerator.Throw msg)) \/
  (exists maze g',
      MazeGenerator.generate gen depth g = MazeGenerator.Ok maze /\
      MazeGenerator.carve gen depth g = MazeGenerator.Ok (maze, g') /\
      MazeGenerator.validateMaze gen maze = MazeGenerator.Ok tt /\
      forall c, isPathCell gen maze c = true ->
        MazeGenerator.floodFill gen maze c = Some (pathCellSet gen maze) /\
        forall c', isPathCell gen maze c' = true -> rtc (pathStep gen maze) c c').
Proof.
  unfold MazeGenerator.generate.
  destruct (MazeGenerator.carve gen depth g) as [[maze g']|msg] eqn:Hcarve.
  - cbn. destruct (MazeGenerator.validateMaze gen maze) as [[]|msg] eqn:Hval.
    + right. exists maze, g'. split; [reflexivity|]. split; [reflexivity|].
      split; [exact Hval|]. by apply validateMaze_ok.
    + left. exists msg. split; [reflexivity|]. right. by exists maze, g'.
  - left. exists msg. split; [reflexivity|]. by left.
Qed.

Example generate_small_returns :
  match MazeGenerator.generate (MazeGenerator.new 5 5) 100 zeroRng with
  | MazeGenerator.Ok maze =>
      isPathCell (MazeGenerator.new 5 5) maze (1, 1)%Z = true /\
      isPathCell (MazeGenerator.new 5 5) maze (3, 3)%Z = true
  | MazeGenerator.Throw _ => False
  end.
Proof. vm_compute. split; reflexivity. Qed.

Example generate_flat_throws :
  MazeGenerator.generate (MazeGenerator.new 7 1) 100 zeroRng
  = MazeGenerator.Throw MazeGenerator.typeError.
Proof. vm_compute. reflexivity. Qed.

Example generate_shallow_stack_throws :
  MazeGenerator.generate (MazeGenerator.new 5 5) 2 zeroRng
  = MazeGenerator.Throw MazeGenerator.rangeError.
Proof. vm_compute. reflexivity. Qed.

Example validate_rejects_split_maze :
  MazeGenerator.validateMaze (MazeGenerator.new 5 3) splitMaze
  = MazeGenerator.Throw "Maze generation failed: Not all areas are reachable".
Proof. vm_compute. reflexivity. Qed.

(** *** The outer border *)

(** C6 fails on a maze of width 3 and height 5: [createEdgeTunnels] clears
    columns [1], [2], [width - 2] and [width - 3] of the middle row, and
    for width 3 the second and the fourth are the two border columns.  The
    grid passes validation and is returned. *)
Theorem narrow_maze_border_carved :
  match MazeGenerator.generate (MazeGenerator.new 3 5) 100 zeroRng with
  | MazeGenerator.Ok maze =>
      isBorderCell (MazeGenerator.new 3 5) (0, 2)%Z = true /\
      maze !! (0, 2)%Z = Some MazeGenerator.PATH /\
      isBorderCell (MazeGenerator.new 3 5) (2, 2)%Z = true /\
      maze !! (2, 2)%Z = Some MazeGenerator.PATH
  | MazeGenerator.Throw _ => False
  end.
Proof. vm_compute. repeat split. Qed.

(** The same cells are cleared under another random source: the draws
    only order the directions that the carving tries. *)
Example stepping_source_carves_border :
  match MazeGenerator.generate (MazeGenerator.new 3 5) 100 steppingRng with
  | MazeGenerator.Ok maze =>
      maze !! (0, 2)%Z = Some MazeGenerator.PATH /\
      maze !! (2, 2)%Z = Some MazeGenerator.PATH
  | MazeGenerator.Throw _ => False
  end.
Proof. vm_compute. split; reflexivity. Qed.

(** On a grid of 7 by 5 cells, a size that the unit tests use, the border
    stays intact. *)
Example generate_seven_by_five_border :
  match MazeGenerator.generate (MazeGenerator.new 7 5) 100 steppingRng with
  | MazeGenerator.Ok maze =>
      forallb (fun c => negb (isBorderCell (MazeGenerator.new 7 5) c) ||
                        MazeGenerator.cellIs maze c.1 c.2 MazeGenerator.WALL)
              (MazeGenerator.allCells (MazeGenerator.new 7 5)) = true
  | MazeGenerator.Throw _ => False
  end.
Proof. vm_compute. reflexivity. Qed.

(** ** The border of grids of ordinary size (MazeGenerator.js)

    From width 5 and height 5 on, every write of the generator lands
    strictly inside the border. *)

(** *** Loops, random draws and shuffles *)

Lemma foldM_inv {A S : Type} (P : S -> Prop)
    (f : S -> A -> MazeGenerator.Result S) (l : list A) :
  (forall s a s', P s -> a ∈ l -> f s a = MazeGenerator.Ok s' -> P s') ->
  forall s s', P s -> MazeGenerator.foldM f l s = MazeGenerator.Ok s' -> P s'.
Proof.
  induction l as [|a l IH]; intros Hstep s s' Hs Hrun; simpl in Hrun.
  - by injection Hrun as <-.
  - unfold mbind, MazeGenerator.result_bind, MazeGenerator.bind in Hrun.
    destruct (f s a) as [s1|msg] eqn:Hf; [|discriminate].
    apply (IH (fun s a s' Ps Ha => Hstep s a s' Ps (list_elem_of_further _ _ _ Ha)) s1 s');
      [|exact Hrun].
    apply (Hstep s a s1 Hs); [left|exact Hf].
Qed.

Lemma random_range (g : MazeGenerator.Rng) :
  0 <= fst (MazeGenerator.random g) /\ fst (MazeGenerator.random g) < 1.
Proof.
  unfold MazeGenerator.random. simpl.
  set (raw := MazeGenerator.stream g (MazeGenerator.position g)).
  pose proof (Qfloor_le raw) as H1. pose proof (Qlt_floor raw) as H2.
  rewrite inject_Z_plus in H2. change (inject_Z 1) with 1 in H2. split; lra.
Qed.

(** [Math.floor (Math.random () * n)] lies between [0] and [n - 1] for a
    positive [n], and between [n] and [0] otherwise. *)
Lemma randomBelow_range (g : MazeGenerator.Rng) (n : Z) :
  ((0 < n -> 0 <= fst (MazeGenerator.randomBelow g n) < n) /\
   (n <= 0 -> n <= fst (MazeGenerator.randomBelow g n) <= 0))%Z.
Proof.
  unfold MazeGenerator.randomBelow.
  pose proof (random_range g) as [Hlo Hhi].
  destruct (MazeGenerator.random g) as [q g']. cbn [fst] in *.
  pose proof (Qfloor_le (q * inject_Z n)) as Hfl.
  split; intros Hn.
  - assert (HN : 0 < inject_Z n) by (rewrite Zlt_Qlt in Hn; exact Hn).
    split.
    + rewrite <- (Qfloor_Z 0). apply Qfloor_resp_le. change (inject_Z 0) with 0. nra.
    + rewrite Zlt_Qlt. eapply Qle_lt_trans; [exact Hfl|]. nra.
  - assert (HN : inject_Z n <= 0) by (rewrite Zle_Qle in Hn; exact Hn).
    split.
    + rewrite <- (Qfloor_Z n) at 1. apply Qfloor_resp_le. nra.
    + rewrite Zle_Qle. eapply Qle_trans; [exact Hfl|]. change (inject_Z 0) with 0. nra.
Qed.

Lemma elem_of_list_insert_inv {A : Type} (l : list A) (i : nat) (x y : A) :
  x ∈ <[i := y]> l -> x = y \/ x ∈ l.
Proof.
  revert i. induction l as [|a l IH]; intros [|i] H; simpl in H;
    try (by right).
  - apply elem_of_cons in H as [->|H]; [by left|]. right. by right.
  - apply elem_of_cons in H as [->|H]; [right; by left|].
    destruct (IH i H) as [->|Hx]; [by left|]. right. by right.
Qed.

Lemma swap_elem_of {A : Type} (l : list A) (i j : nat) (x : A) :
  x ∈ MazeGenerator.swap l i j -> x ∈ l.
Proof.
  unfold MazeGenerator.swap.
  destruct (l !! i) as [ai|] eqn:Hi; [|done].
  destruct (l !! j) as [aj|] eqn:Hj; [|done].
  intros H. apply elem_of_list_insert_inv in H as [->|H].
  { by eapply list_elem_of_lookup_2. }
  apply elem_of_list_insert_inv in H as [->|H]; [|done].
  by eapply list_elem_of_lookup_2.
Qed.

Lemma shuffleArray_elem_of {A : Type} (l : list A) (g : MazeGenerator.Rng) (x : A) :
  x ∈ fst (MazeGenerator.shuffleArray l g) -> x ∈ l.
Proof.
  unfold MazeGenerator.shuffleArray. generalize (length l - 1)%nat. intros n.
  revert l g. induction n as [|n IH]; intros l g; [done|].
  cbn [MazeGenerator.shuffleFrom].
  destruct (MazeGenerator.randomBelow g (Z.of_nat (S n) + 1)) as [j g'].
  intros H. apply IH in H. by apply swap_elem_of in H.
Qed.

Section Border.

Variable gen : MazeGenerator.t.
Hypothesis Hwidth : (5 <= MazeGenerator.width gen)%Z.
Hypothesis Hheight : (5 <= MazeGenerator.height gen)%Z.

Lemma valid_iff (x y : Z) :
  MazeGenerator.isValidPosition gen x y = true <->
  (0 < x < MazeGenerator.width gen - 1 /\ 0 < y < MazeGenerator.height gen - 1)%Z.
Proof.
  unfold MazeGenerator.isValidPosition.
  rewrite !andb_true_iff, !Z.ltb_lt. lia.
Qed.

Lemma in_bounds_iff (x y : Z) :
  MazeGenerator.isInBounds gen x y = true <->
  (0 <= x < MazeGenerator.width gen /\ 0 <= y < MazeGenerator.height gen)%Z.
Proof.
  unfold MazeGenerator.isInBounds.
  rewrite !andb_true_iff, !Z.ltb_lt, !Z.leb_le. lia.
Qed.

Lemma border_iff (x y : Z) :
  isBorderCell gen (x, y) = true <->
  (0 <= x < MazeGenerator.width gen /\ 0 <= y < MazeGenerator.height gen)%Z /\
  (x = 0 \/ x = MazeGenerator.width gen - 1 \/ y = 0 \/ y = MazeGenerator.height gen - 1)%Z.
Proof.
  unfold isBorderCell. simpl.
  rewrite andb_true_iff, in_bounds_iff, !orb_true_iff, !Z.eqb_eq. tauto.
Qed.

Lemma valid_not_border (x y : Z) :
  MazeGenerator.isValidPosition gen x y = true -> isBorderCell gen (x, y) = false.
Proof.
  intros H. apply valid_iff in H. apply not_true_is_false. intros Hb.
  apply border_iff in Hb. lia.
Qed.

Lemma in_bounds_not_border (x y : Z) :
  MazeGenerator.isInBounds gen x y = true -> isBorderCell gen (x, y) = false ->
  MazeGenerator.isValidPosition gen x y = true.
Proof.
  intros Hb Hn. apply in_bounds_iff in Hb. apply valid_iff.
  apply not_true_iff_false in Hn. rewrite border_iff in Hn. lia.
Qed.

(** A write strictly inside the border succeeds and leaves the border as
    it is. *)
Lemma writeCell_inside (maze : MazeGenerator.Maze) (x y v : Z) :
  MazeGenerator.isValidPosition gen x y = true ->
  MazeGenerator.writeCell gen maze x y v = MazeGenerator.Ok (<[(x, y) := v]> maze).
Proof.
  intros H. apply valid_iff in H. unfold MazeGenerator.writeCell, MazeGenerator.hasRow.
  destruct (Z.leb_spec 0 y); [|lia]. destruct (Z.ltb_spec y (MazeGenerator.height gen)); [|lia].
  reflexivity.
Qed.

Lemma insert_inside (maze : MazeGenerator.Maze) (x y v : Z) :
  MazeGenerator.isValidPosition gen x y = true ->
  borderIntact gen maze -> borderIntact gen (<[(x, y) := v]> maze).
Proof.
  intros Hv Hb c Hc. unfold MazeGenerator.Maze in *.
  rewrite lookup_insert_ne; [by apply Hb|].
  intros <-. apply valid_not_border in Hv. congruence.
Qed.

Lemma initializeMaze_lookup (l : list Cell) (c : Cell) :
  c ∈ l ->
  (list_to_map (List.map (fun c => (c, MazeGenerator.WALL)) l) : MazeGenerator.Maze) !! c
  = Some MazeGenerator.WALL.
Proof.
  unfold MazeGenerator.Maze.
  induction l as [|a l IH]; intros Hc; [by apply elem_of_nil in Hc|].
  cbn [List.map]. rewrite list_to_map_cons. destruct (decide (a = c)) as [->|Hne].
  - apply lookup_insert_eq.
  - rewrite lookup_insert_ne by done. apply IH.
    apply elem_of_cons in Hc as [->|Hc]; done.
Qed.

Lemma initializeMaze_border : borderIntact gen (MazeGenerator.initializeMaze gen).
Proof.
  intros [x y] Hc. apply initializeMaze_lookup, elem_of_allCells. simpl.
  apply border_iff in Hc. apply in_bounds_iff. lia.
Qed.

(** *** Recursive backtracking *)

Lemma direction_cases (d : Cell) :
  d ∈ MazeGenerator.directions ->
  (d = (0, -2) \/ d = (2, 0) \/ d = (0, 2) \/ d = (-2, 0))%Z.
Proof.
  unfold MazeGenerator.directions. rewrite !elem_of_cons, elem_of_nil. tauto.
Qed.

Lemma recursiveBacktrack_border (depth : nat) :
  forall (maze : MazeGenerator.Maze) (x y : Z) (g : MazeGenerator.Rng)
         (m' : MazeGenerator.Maze) (g' : MazeGenerator.Rng),
    MazeGenerator.isValidPosition gen x y = true ->
    borderIntact gen maze ->
    MazeGenerator.recursiveBacktrack depth gen maze x y g = MazeGenerator.Ok (m', g') ->
    borderIntact gen m'.
Proof.
  induction depth as [|depth IH]; intros maze x y g m' g' Hxy Hb Hrun; [discriminate|].
  cbn [MazeGenerator.recursiveBacktrack] in Hrun.
  destruct (MazeGenerator.shuffleArray MazeGenerator.directions g) as [dirs g1] eqn:Hsh.
  assert (Hdirs : forall d, d ∈ dirs -> d ∈ MazeGenerator.directions).
  { intros d Hd. apply (shuffleArray_elem_of _ g). by rewrite Hsh. }
  clear Hsh. revert maze g1 Hb Hrun.
  induction dirs as [|d dirs IHd]; intros maze g1 Hb Hrun.
  - by injection Hrun as <- <-.
  - lazy beta iota fix in Hrun.
    assert (Hrest : forall d0, d0 ∈ dirs -> d0 ∈ MazeGenerator.directions).
    { intros d0 Hd0. apply Hdirs. by right. }
    destruct (MazeGenerator.isValidPosition gen (x + d.1) (y + d.2) &&
              MazeGenerator.cellIs maze (x + d.1) (y + d.2) MazeGenerator.WALL) eqn:Hc;
      [|by apply (IHd Hrest maze g1)].
    apply andb_true_iff in Hc as [Hv _].
    assert (Hw : MazeGenerator.isValidPosition gen (x + d.1 / 2) (y + d.2 / 2) = true).
    { apply valid_iff. apply valid_iff in Hxy, Hv.
      destruct (direction_cases d) as [ -> | [ -> | [ -> | -> ] ] ];
        [apply Hdirs; by left|..]; cbn [fst snd] in *;
        change (0 / 2)%Z with 0%Z; change (2 / 2)%Z with 1%Z;
        change (-2 / 2)%Z with (-1)%Z; lia. }
    rewrite (writeCell_inside _ _ _ _ Hv) in Hrun.
    unfold mbind at 1, MazeGenerator.result_bind at 1, MazeGenerator.bind at 1 in Hrun.
    rewrite (writeCell_inside _ _ _ _ Hw) in Hrun.
    unfold mbind at 1, MazeGenerator.result_bind at 1, MazeGenerator.bind at 1 in Hrun.
    unfold mbind at 1, MazeGenerator.result_bind at 1, MazeGenerator.bind at 1 in Hrun.
    destruct (MazeGenerator.recursiveBacktrack depth gen _ (x + d.1) (y + d.2) g1)
      as [[m3 g3]|msg] eqn:Hrec; [|discriminate].
    apply (IHd Hrest m3 g3); [|exact Hrun].
    apply (IH _ _ _ _ _ _ Hv) in Hrec; [exact Hrec|].
    by apply insert_inside, insert_inside.
Qed.

(** *** The Pac-Man features *)

Lemma writeCell_border (maze m' : MazeGenerator.Maze) (x y v : Z) :
  MazeGenerator.isValidPosition gen x y = true ->
  borderIntact gen maze ->
  MazeGenerator.writeCell gen maze x y v = MazeGenerator.Ok m' ->
  borderIntact gen m'.
Proof.
  intros Hv Hb Hw. rewrite (writeCell_inside _ _ _ _ Hv) in Hw.
  injection Hw as <-. by apply insert_inside.
Qed.

Lemma addRandomLoops_border (maze m' : MazeGenerator.Maze) (g g' : MazeGenerator.Rng) :
  borderIntact gen maze ->
  MazeGenerator.addRandomLoops gen maze g = MazeGenerator.Ok (m', g') ->
  borderIntact gen m'.
Proof.
  intros Hb Hrun. unfold MazeGenerator.addRandomLoops in Hrun.
  apply (foldM_inv (fun s => borderIntact gen s.1)) in Hrun; [exact Hrun| |exact Hb].
  clear maze m' g g' Hb Hrun. intros [maze g] _ [m' g'] Hb _ Hf. cbv beta iota in Hf. cbn [fst] in *.
  pose proof (randomBelow_range g (MazeGenerator.width gen - 4)) as [Hx _].
  destruct (MazeGenerator.randomBelow g (MazeGenerator.width gen - 4)) as [rx g1].
  pose proof (randomBelow_range g1 (MazeGenerator.height gen - 4)) as [Hy _].
  destruct (MazeGenerator.randomBelow g1 (MazeGenerator.height gen - 4)) as [ry g2].
  cbn [fst] in *.
  unfold mbind, MazeGenerator.result_bind, MazeGenerator.bind in Hf.
  destruct (MazeGenerator.readCell gen maze (2 + rx) (2 + ry)) as [v|]; [|discriminate].
  destruct (bool_decide (v = Some MazeGenerator.WALL));
    [|by injection Hf as <- <-].
  destruct (2 <=? length (MazeGenerator.getPathNeighbors gen maze (2 + rx) (2 + ry)))%nat;
    [|by injection Hf as <- <-].
  destruct (MazeGenerator.writeCell gen maze (2 + rx) (2 + ry) MazeGenerator.PATH)
    as [m1|] eqn:Hw; [|discriminate].
  injection Hf as <- <-.
  apply (writeCell_border maze m1 (2 + rx) (2 + ry) MazeGenerator.PATH);
    [apply valid_iff; lia | exact Hb | exact Hw].
Qed.

Lemma createWiderCorridors_border (maze m' : MazeGenerator.Maze) (g g' : MazeGenerator.Rng) :
  borderIntact gen maze ->
  MazeGenerator.createWiderCorridors gen maze g = MazeGenerator.Ok (m', g') ->
  borderIntact gen m'.
Proof.
  intros Hb Hrun. unfold MazeGenerator.createWiderCorridors in Hrun.
  apply (foldM_inv (fun s => borderIntact gen s.1)) in Hrun; [exact Hrun| |exact Hb].
  clear maze m' g g' Hb Hrun. intros [maze g] _ [m' g'] Hb _ Hf.
  cbv beta iota zeta in Hf. cbn [fst] in *.
  pose proof (randomBelow_range g (MazeGenerator.width gen - 6)) as [Hx Hx'].
  destruct (MazeGenerator.randomBelow g (MazeGenerator.width gen - 6)) as [rx g1].
  pose proof (randomBelow_range g1 (MazeGenerator.height gen - 6)) as [Hy Hy'].
  destruct (MazeGenerator.randomBelow g1 (MazeGenerator.height gen - 6)) as [ry g2].
  cbn [fst] in *.
  destruct (MazeGenerator.hasNearbyPaths gen maze (2 + rx) (2 + ry) 2);
    [|by injection Hf as <- <-].
  unfold mbind at 1, MazeGenerator.result_bind at 1, MazeGenerator.bind at 1 in Hf.
  match type of Hf with
  | match ?run with _ => _ end = _ => destruct run as [m1|] eqn:Hin; [|discriminate]
  end.
  injection Hf as <- <-.
  apply (foldM_inv (borderIntact gen)) in Hin; [exact Hin| |exact Hb].
  intros mz [dx dy] mz' Hmz Hd Hw.
  apply list_elem_of_bind in Hd as (dx' & Hd & Hdx).
  apply list_elem_of_bind in Hd as (dy' & Hd & Hdy).
  apply list_elem_of_singleton in Hd. injection Hd as <- <-.
  apply elem_of_seqZ in Hdx, Hdy.
  destruct (Z.ltb_spec (2 + rx + dx) (MazeGenerator.width gen - 1));
    [|by injection Hw as <-].
  destruct (Z.ltb_spec (2 + ry + dy) (MazeGenerator.height gen - 1));
    [|by injection Hw as <-].
  cbn [andb] in Hw.
  apply (writeCell_border mz mz' (2 + rx + dx) (2 + ry + dy) MazeGenerator.PATH);
    [apply valid_iff; lia | exact Hmz | exact Hw].
Qed.

Lemma createOpenAreas_border (maze m' : MazeGenerator.Maze) (g g' : MazeGenerator.Rng) :
  borderIntact gen maze ->
  MazeGenerator.createOpenAreas gen maze g = MazeGenerator.Ok (m', g') ->
  borderIntact gen m'.
Proof.
  intros Hb Hrun. unfold MazeGenerator.createOpenAreas in Hrun.
  apply (foldM_inv (fun s => borderIntact gen s.1)) in Hrun; [exact Hrun| |exact Hb].
  clear maze m' g g' Hb Hrun. intros [maze g] _ [m' g'] Hb _ Hf.
  cbv beta iota zeta in Hf. cbn [fst] in *.
  destruct (MazeGenerator.randomBelow g (MazeGenerator.width gen - 8)) as [rx g1].
  destruct (MazeGenerator.randomBelow g1 (MazeGenerator.height gen - 8)) as [ry g2].
  destruct (MazeGenerator.randomBelow g2 2) as [rs g3].
  destruct (MazeGenerator.hasNearbyPaths gen maze (3 + rx) (3 + ry) 3);
    [|by injection Hf as <- <-].
  unfold mbind at 1, MazeGenerator.result_bind at 1, MazeGenerator.bind at 1 in Hf.
  match type of Hf with
  | match ?run with _ => _ end = _ => destruct run as [m1|] eqn:Hin; [|discriminate]
  end.
  injection Hf as <- <-.
  apply (foldM_inv (borderIntact gen)) in Hin; [exact Hin| |exact Hb].
  intros mz [dx dy] mz' Hmz _ Hw. cbv beta iota zeta in Hw.
  destruct (MazeGenerator.isValidPosition gen (3 + rx + dx) (3 + ry + dy)) eqn:Hv;
    [|by injection Hw as <-].
  by apply (writeCell_border mz mz' (3 + rx + dx) (3 + ry + dy) MazeGenerator.PATH).
Qed.

Lemma createEdgeTunnels_border (maze m' : MazeGenerator.Maze) :
  borderIntact gen maze ->
  MazeGenerator.createEdgeTunnels gen maze = MazeGenerator.Ok m' ->
  borderIntact gen m'.
Proof.
  intros Hb Hrun. unfold MazeGenerator.createEdgeTunnels in Hrun.
  cbv zeta in Hrun.
  destruct (Z.ltb_spec 1 (MazeGenerator.height gen / 2)) as [Hlo|];
    [|by injection Hrun as <-].
  destruct (Z.ltb_spec (MazeGenerator.height gen / 2) (MazeGenerator.height gen - 2)) as [Hhi|];
    [|by injection Hrun as <-].
  cbn [andb] in Hrun.
  assert (Hcol : forall x, (1 <= x <= MazeGenerator.width gen - 2)%Z ->
            MazeGenerator.isValidPosition gen x (MazeGenerator.height gen / 2) = true).
  { intros x Hx. apply valid_iff. lia. }
  rewrite !writeCell_inside in Hrun by (apply Hcol; lia).
  unfold mbind, MazeGenerator.result_bind, MazeGenerator.bind in Hrun.
  rewrite !writeCell_inside in Hrun by (apply Hcol; lia).
  injection Hrun as <-.
  repeat apply insert_inside; try (apply Hcol; lia). exact Hb.
Qed.

Lemma addPacManFeatures_border (maze m' : MazeGenerator.Maze) (g g' : MazeGenerator.Rng) :
  borderIntact gen maze ->
  MazeGenerator.addPacManFeatures gen maze g = MazeGenerator.Ok (m', g') ->
  borderIntact gen m'.
Proof.
  intros Hb Hrun. unfold MazeGenerator.addPacManFeatures in Hrun.
  unfold mbind, MazeGenerator.result_bind, MazeGenerator.bind in Hrun.
  destruct (MazeGenerator.addRandomLoops gen maze g) as [[m1 g1]|] eqn:H1; [|discriminate].
  destruct (MazeGenerator.createWiderCorridors gen m1 g1) as [[m2 g2]|] eqn:H2; [|discriminate].
  destruct (MazeGenerator.createOpenAreas gen m2 g2) as [[m3 g3]|] eqn:H3; [|discriminate].
  destruct (MazeGenerator.createEdgeTunnels gen m3) as [m4|] eqn:H4; [|discriminate].
  injection Hrun as <- <-.
  apply addRandomLoops_border in H1; [|exact Hb].
  apply createWiderCorridors_border in H2; [|exact H1].
  apply createOpenAreas_border in H3; [|exact H2].
  by apply createEdgeTunnels_border in H4.
Qed.

(** *** The starting area *)

(** A path cell of a grid with an intact border lies strictly inside. *)
Lemma path_cell_inside (maze : MazeGenerator.Maze) (x y : Z) :
  borderIntact gen maze ->
  MazeGenerator.isInBounds gen x y = true ->
  MazeGenerator.cellIs maze x y MazeGenerator.PATH = true ->
  MazeGenerator.isValidPosition gen x y = true.
Proof.
  intros Hb Hin Hp. apply in_bounds_not_border; [exact Hin|].
  destruct (isBorderCell gen (x, y)) eqn:Hbc; [|reflexivity].
  apply Hb in Hbc. unfold MazeGenerator.cellIs in Hp.
  apply bool_decide_eq_true in Hp.
  pose proof (eq_trans (eq_sym Hbc) Hp) as E. discriminate E.
Qed.

Lemma tryConnectToExistingPaths_border (maze m' : MazeGenerator.Maze) (x y : Z) :
  MazeGenerator.isValidPosition gen x y = true ->
  borderIntact gen maze ->
  MazeGenerator.tryConnectToExistingPaths gen maze x y = MazeGenerator.Ok m' ->
  borderIntact gen m'.
Proof.
  intros Hxy Hb Hrun. unfold MazeGenerator.tryConnectToExistingPaths in Hrun.
  cbv zeta in Hrun.
  match type of Hrun with
  | match ?found with _ => _ end = _ => destruct found as [o|] eqn:Hfind
  end; [|by injection Hrun as <-].
  apply List.find_some in Hfind as [_ Ho].
  apply andb_true_iff in Ho as [Ho _]. apply andb_true_iff in Ho as [_ Ho].
  apply andb_true_iff in Ho as [Hin Hp].
  pose proof (path_cell_inside maze _ _ Hb Hin Hp) as Hc.
  apply (writeCell_border maze m' (x + o.1 / 2) (y + o.2 / 2) MazeGenerator.PATH);
    [|exact Hb|exact Hrun].
  apply valid_iff. apply valid_iff in Hxy, Hc.
  pose proof (Z.div_mod o.1 2 ltac:(lia)). pose proof (Z.mod_pos_bound o.1 2 ltac:(lia)).
  pose proof (Z.div_mod o.2 2 ltac:(lia)). pose proof (Z.mod_pos_bound o.2 2 ltac:(lia)).
  lia.
Qed.

Lemma corridorFrom_border (steps : nat) (startX startY : Z) (direction : Cell) (len : Z) :
  forall (maze m' : MazeGenerator.Maze) (i : Z),
    borderIntact gen maze ->
    MazeGenerator.corridorFrom steps gen maze startX startY direction i len
    = MazeGenerator.Ok m' ->
    borderIntact gen m'.
Proof.
  induction steps as [|steps IH]; intros maze m' i Hb Hrun.
  - by injection Hrun as <-.
  - cbn [MazeGenerator.corridorFrom] in Hrun. cbv zeta in Hrun.
    destruct (MazeGenerator.isValidPosition gen (startX + direction.1 * i)
                (startY + direction.2 * i)) eqn:Hv; [|by injection Hrun as <-].
    rewrite (writeCell_inside _ _ _ _ Hv) in Hrun.
    unfold mbind at 1, MazeGenerator.result_bind at 1, MazeGenerator.bind at 1 in Hrun.
    unfold mbind at 1, MazeGenerator.result_bind at 1, MazeGenerator.bind at 1 in Hrun.
    match type of Hrun with
    | match ?step with _ => _ end = _ => destruct step as [m2|] eqn:Hstep; [|discriminate]
    end.
    apply (IH m2 m' (i + 1)%Z); [|exact Hrun].
    assert (Hb1 : borderIntact gen
                    (<[(startX + direction.1 * i, startY + direction.2 * i)%Z
                       := MazeGenerator.PATH]> maze)) by (by apply insert_inside).
    destruct (i =? len)%Z.
    + by apply (tryConnectToExistingPaths_border _ _ _ _ Hv Hb1).
    + by injection Hstep as <-.
Qed.

Lemma createCorridor_border (maze m' : MazeGenerator.Maze) (startX startY : Z)
    (direction : Cell) (len : nat) :
  borderIntact gen maze ->
  MazeGenerator.createCorridor gen maze startX startY direction len = MazeGenerator.Ok m' ->
  borderIntact gen m'.
Proof. apply corridorFrom_border. Qed.

Lemma createStartingPaths_border (maze m' : MazeGenerator.Maze) (startX startY : Z)
    (g g' : MazeGenerator.Rng) :
  borderIntact gen maze ->
  MazeGenerator.createStartingPaths gen maze startX startY g = MazeGenerator.Ok (m', g') ->
  borderIntact gen m'.
Proof.
  intros Hb Hrun. unfold MazeGenerator.createStartingPaths in Hrun. cbv zeta in Hrun.
  destruct (MazeGenerator.shuffleArray MazeGenerator.unitDirections g) as [dirs g1].
  unfold mbind at 1, MazeGenerator.result_bind at 1, MazeGenerator.bind at 1 in Hrun.
  match type of Hrun with
  | match ?run with _ => _ end = _ => destruct run as [[m n]|] eqn:Hin; [|discriminate]
  end.
  injection Hrun as <- <-.
  apply (foldM_inv (fun s => borderIntact gen s.1)) in Hin; [exact Hin| |exact Hb].
  intros [mz k] d [mz' k'] Hmz _ Hstep. cbv beta iota zeta in Hstep. cbn [fst] in *.
  destruct (2 <=? k)%nat; [by injection Hstep as <- <-|].
  destruct (MazeGenerator.isInBounds gen (startX + d.1) (startY + d.2) &&
            MazeGenerator.cellIs mz (startX + d.1) (startY + d.2) MazeGenerator.WALL);
    [|by injection Hstep as <- <-].
  unfold mbind, MazeGenerator.result_bind, MazeGenerator.bind in Hstep.
  destruct (MazeGenerator.createCorridor gen mz startX startY d 3) as [m1|] eqn:Hc;
    [|discriminate].
  injection Hstep as <- <-. by apply createCorridor_border in Hc.
Qed.

Lemma createStartingArea_border (maze m' : MazeGenerator.Maze) (startX startY : Z) :
  MazeGenerator.isValidPosition gen startX startY = true ->
  borderIntact gen maze ->
  MazeGenerator.createStartingArea gen maze startX startY = MazeGenerator.Ok m' ->
  borderIntact gen m'.
Proof.
  intros Hs Hb Hrun. unfold MazeGenerator.createStartingArea in Hrun.
  unfold mbind at 1, MazeGenerator.result_bind at 1, MazeGenerator.bind at 1 in Hrun.
  match type of Hrun with
  | match ?run with _ => _ end = _ => destruct run as [m1|] eqn:Hin; [|discriminate]
  end.
  apply (foldM_inv (borderIntact gen)) in Hin; [| |exact Hb].
  - apply (foldM_inv (borderIntact gen)) in Hrun; [exact Hrun| |exact Hin].
    intros mz d mz' Hmz Hd Hstep. cbv beta iota zeta in Hstep.
    destruct (Z.ltb_spec 1 (startX + d.1)); [|by injection Hstep as <-].
    destruct (Z.ltb_spec (startX + d.1) (MazeGenerator.width gen - 2));
      [|by injection Hstep as <-].
    destruct (Z.ltb_spec 1 (startY + d.2)); [|by injection Hstep as <-].
    destruct (Z.ltb_spec (startY + d.2) (MazeGenerator.height gen - 2));
      [|by injection Hstep as <-].
    cbn [andb] in Hstep.
    assert (Hp : MazeGenerator.isValidPosition gen (startX + d.1) (startY + d.2) = true)
      by (apply valid_iff; lia).
    assert (Hm : MazeGenerator.isValidPosition gen (startX + d.1 / 2) (startY + d.2 / 2)
                 = true).
    { apply valid_iff. apply valid_iff in Hs.
      rewrite !elem_of_cons, elem_of_nil in Hd.
      destruct Hd as [ -> | [ -> | [ -> | [ -> | [] ] ] ] ]; cbn [fst snd] in *;
        change (0 / 2)%Z with 0%Z; change (2 / 2)%Z with 1%Z;
        change (-2 / 2)%Z with (-1)%Z; lia. }
    rewrite (writeCell_inside _ _ _ _ Hp) in Hstep.
    unfold mbind at 1, MazeGenerator.result_bind at 1, MazeGenerator.bind at 1 in Hstep.
    rewrite (writeCell_inside _ _ _ _ Hm) in Hstep.
    unfold mbind at 1, MazeGenerator.result_bind at 1, MazeGenerator.bind at 1 in Hstep.
    apply createCorridor_border in Hstep; [exact Hstep|].
    by apply insert_inside, insert_inside.
  - intros mz [dx dy] mz' Hmz _ Hstep. cbv beta iota zeta in Hstep.
    destruct (Z.ltb_spec 1 (startX + dx)); [|by injection Hstep as <-].
    destruct (Z.ltb_spec (startX + dx) (MazeGenerator.width gen - 2));
      [|by injection Hstep as <-].
    destruct (Z.ltb_spec 1 (startY + dy)); [|by injection Hstep as <-].
    destruct (Z.ltb_spec (startY + dy) (MazeGenerator.height gen - 2));
      [|by injection Hstep as <-].
    cbn [andb] in Hstep.
    apply (writeCell_border mz mz' (startX + dx) (startY + dy) MazeGenerator.PATH);
      [apply valid_iff; lia | exact Hmz | exact Hstep].
Qed.

Lemma ensureStartingChoices_border (maze m' : MazeGenerator.Maze) (g g' : MazeGenerator.Rng) :
  borderIntact gen maze ->
  MazeGenerator.ensureStartingChoices gen maze g = MazeGenerator.Ok (m', g') ->
  borderIntact gen m'.
Proof.
  intros Hb Hrun. unfold MazeGenerator.ensureStartingChoices in Hrun.
  destruct (MazeGenerator.getAccessiblePositions gen maze) as [|startPos rest] eqn:Hcells;
    [by injection Hrun as <- <-|].
  cbv zeta in Hrun.
  assert (Hstart : isPathCell gen maze startPos = true).
  { apply elem_of_pathCellSet. unfold pathCellSet. rewrite Hcells.
    apply elem_of_list_to_set. left. }
  unfold isPathCell in Hstart. apply andb_true_iff in Hstart as [Hin Hp].
  unfold mbind at 1, MazeGenerator.result_bind at 1, MazeGenerator.bind at 1 in Hrun.
  match type of Hrun with
  | match ?run with _ => _ end = _ => destruct run as [[m1 g1]|] eqn:Hpaths; [|discriminate]
  end.
  unfold mbind, MazeGenerator.result_bind, MazeGenerator.bind in Hrun.
  destruct (MazeGenerator.createStartingArea gen m1 startPos.1 startPos.2) as [m2|] eqn:Harea;
    [|discriminate].
  injection Hrun as <- <-.
  apply createStartingArea_border in Harea; [exact Harea| |].
  - by apply (path_cell_inside maze).
  - destruct (length (MazeGenerator.getPathNeighbors gen maze startPos.1 startPos.2) <? 2)%nat.
    + by apply createStartingPaths_border in Hpaths.
    + by injection Hpaths as <- <-.
Qed.

(** *** The whole generator *)

Lemma carve_border (depth : nat) (g g' : MazeGenerator.Rng) (maze : MazeGenerator.Maze) :
  MazeGenerator.carve gen depth g = MazeGenerator.Ok (maze, g') ->
  borderIntact gen maze.
Proof.
  unfold MazeGenerator.carve. cbv zeta.
  assert (Hone : MazeGenerator.isValidPosition gen 1 1 = true) by (apply valid_iff; lia).
  rewrite (writeCell_inside _ _ _ _ Hone).
  unfold mbind, MazeGenerator.result_bind, MazeGenerator.bind.
  destruct (MazeGenerator.recursiveBacktrack depth gen _ 1 1 g) as [[m1 g1]|] eqn:H1;
    [|discriminate].
  destruct (MazeGenerator.addPacManFeatures gen m1 g1) as [[m2 g2]|] eqn:H2; [|discriminate].
  intros H3.
  apply recursiveBacktrack_border in H1;
    [|exact Hone|apply insert_inside; [exact Hone|apply initializeMaze_border]].
  apply addPacManFeatures_border in H2; [|exact H1].
  by apply ensureStartingChoices_border in H3.
Qed.

(** From width 5 and height 5 on, every grid that [generate] returns has
    a wall in every cell of row 0, of the last row, of column 0 and of the
    last column. *)
Lemma generate_border_from_five (depth : nat) (g : MazeGenerator.Rng)
    (maze : MazeGenerator.Maze) :
  MazeGenerator.generate gen depth g = MazeGenerator.Ok maze ->
  borderIntact gen maze.
Proof.
  unfold MazeGenerator.generate.
  unfold mbind, MazeGenerator.result_bind, MazeGenerator.bind.
  destruct (MazeGenerator.carve gen depth g) as [[m g']|] eqn:Hcarve; [|discriminate].
  destruct (MazeGenerator.validateMaze gen m) as [[]|]; [|discriminate].
  intros [= <-]. by apply carve_border in Hcarve.
Qed.

End Border.

Example generate_border_sample (maze : MazeGenerator.Maze) :
  MazeGenerator.generate (MazeGenerator.new 41 31) 5000 steppingRng = MazeGenerator.Ok maze ->
  borderIntact (MazeGenerator.new 41 31) maze.
Proof. apply generate_border_from_five; vm_compute; discriminate. Qed.

(** ** Path planning (Enemy.js) *)

Section AStar.

Variable r : MazeRenderer.t.
Variable grid : list (list Z).
Hypothesis Hmaze : MazeRenderer.maze r = Some grid.
Hypothesis Hcell : 0 < MazeRenderer.cellSize r.

(** The centre of a cell lies in that cell. *)
Lemma grid_world_grid (gx gy : Z) :
  let '(wx, wy) := MazeRenderer.gridToWorld r gx gy in
  MazeRenderer.worldToGrid r wx wy = (gx, gy).
Proof.
  unfold MazeRenderer.gridToWorld, MazeRenderer.worldToGrid.
  f_equal; apply Qdiv_bounds; try exact Hcell; rewrite ?inject_Z_succ; lraQ.
Qed.

Lemma elem_of_gridCells (c : Cell) :
  c ∈ gridCells r <->
  (0 <= c.1 < MazeRenderer.mazeWidth r /\ 0 <= c.2 < MazeRenderer.mazeHeight r)%Z.
Proof.
  unfold gridCells.
  rewrite list_elem_of_bind. setoid_rewrite list_elem_of_bind.
  setoid_rewrite elem_of_seqZ. setoid_rewrite list_elem_of_singleton.
  destruct c as [x y]. simpl. split.
  - intros (y' & (x' & E & Hx) & Hy). injection E as -> ->. lia.
  - intros [Hx Hy]. exists y. split; [|lia]. exists x. split; [done | lia].
Qed.

Lemma length_gridCells :
  (length (gridCells r)
   <= Z.to_nat (MazeRenderer.mazeWidth r * MazeRenderer.mazeHeight r))%nat.
Proof.
  unfold gridCells.
  rewrite (length_bind_const _ (Z.to_nat (MazeRenderer.mazeWidth r))).
  - rewrite length_seqZ.
    assert (0 <= MazeRenderer.mazeWidth r)%Z.
    { unfold MazeRenderer.mazeWidth. destruct (MazeRenderer.maze r) as [[|]|]; lia. }
    assert (0 <= MazeRenderer.mazeHeight r)%Z.
    { unfold MazeRenderer.mazeHeight. destruct (MazeRenderer.maze r); lia. }
    rewrite Z2Nat.inj_mul by lia. lia.
  - intros y. rewrite (length_bind_const _ 1%nat); [|done].
    rewrite length_seqZ. lia.
Qed.

Lemma elem_of_getNeighbors (c n : Cell) :
  n ∈ Enemy.getNeighbors r c <->
  (n = (c.1, c.2 - 1) \/ n = (c.1 + 1, c.2) \/ n = (c.1, c.2 + 1) \/ n = (c.1 - 1, c.2))%Z /\
  (let '(wx, wy) := MazeRenderer.gridToWorld r n.1 n.2 in
   MazeRenderer.isWallAtPosition r wx wy) = false.
Proof.
  unfold Enemy.getNeighbors. split.
  - intros H. apply list_elem_of_In, filter_In in H as [Hin Hfree].
    split.
    + simpl in Hin. rewrite !Z.add_0_r in Hin.
      destruct Hin as [ <- | [ <- | [ <- | [ <- | Hin ] ] ] ]; auto. destruct Hin.
    + destruct (MazeRenderer.gridToWorld r n.1 n.2). by apply negb_true_iff.
  - intros [Hadj Hfree]. apply list_elem_of_In, filter_In. split.
    + simpl. rewrite !Z.add_0_r.
      destruct Hadj as [ -> | [ -> | [ -> | -> ] ] ]; auto.
    + destruct (MazeRenderer.gridToWorld r n.1 n.2). by apply negb_true_iff.
Qed.

(** A neighbour that the search accepts lies inside the grid. *)
Lemma neighbor_in_grid (c n : Cell) :
  n ∈ Enemy.getNeighbors r c -> n ∈ gridCells r.
Proof.
  intros H. apply elem_of_getNeighbors in H as [_ Hfree].
  pose proof (grid_world_grid n.1 n.2) as Hround.
  destruct (MazeRenderer.gridToWorld r n.1 n.2) as [wx wy].
  unfold MazeRenderer.isWallAtPosition in Hfree. rewrite Hmaze, Hround in Hfree.
  apply elem_of_gridCells.
  destruct (Z.ltb_spec n.1 0); [discriminate|].
  destruct (Z.geb_spec n.1 (MazeRenderer.mazeWidth r)); [discriminate|].
  destruct (Z.ltb_spec n.2 0); [discriminate|].
  destruct (Z.geb_spec n.2 (MazeRenderer.mazeHeight r)); [discriminate|].
  lia.
Qed.

(** The Manhattan distance to the goal changes by at most one per step. *)
Lemma heuristic_step (goal c n : Cell) :
  n ∈ Enemy.getNeighbors r c ->
  (Enemy.heuristic c goal <= Enemy.heuristic n goal + 1)%Z.
Proof.
  intros H. apply elem_of_getNeighbors in H as [Hadj _].
  unfold Enemy.heuristic. destruct Hadj as [ -> | [ -> | [ -> | -> ] ] ]; simpl; lia.
Qed.

Lemma heuristic_walk (goal a b : Cell) (k : nat) :
  walkN r a k b -> (Enemy.heuristic a goal <= Enemy.heuristic b goal + Z.of_nat k)%Z.
Proof.
  induction 1 as [|k b c _ IH Hn]; [lia|].
  pose proof (heuristic_step goal b c Hn). lia.
Qed.

Lemma heuristic_self (a : Cell) : Enemy.heuristic a a = 0%Z.
Proof. unfold Enemy.heuristic. lia. Qed.

Lemma walkN_app (a b c : Cell) (j k : nat) :
  walkN r a j b -> walkN r b k c -> walkN r a (j + k) c.
Proof.
  intros Hab Hbc. induction Hbc as [|k c d _ IH Hn].
  - by rewrite Nat.add_0_r.
  - rewrite Nat.add_succ_r. by eapply walkN_step.
Qed.

Lemma isWalk_walkN (a : Cell) (w : list Cell) (b : Cell) :
  isWalk r a w -> last (a :: w) = Some b -> walkN r a (length w) b.
Proof.
  revert a. induction w as [|c w IH]; intros a Hw Hlast.
  - injection Hlast as <-. constructor.
  - destruct Hw as [Hn Hw]. rewrite last_cons_cons in Hlast.
    change (length (c :: w)) with (1 + length w)%nat.
    eapply walkN_app; [|by apply IH].
    eapply walkN_step; [constructor | exact Hn].
Qed.

Lemma isWalk_snoc (a : Cell) (w : list Cell) (b c : Cell) :
  isWalk r a w -> last (a :: w) = Some b -> c ∈ Enemy.getNeighbors r b ->
  isWalk r a (w ++ [c]).
Proof.
  revert a. induction w as [|d w IH]; intros a Hw Hlast Hn.
  - injection Hlast as <-. by split.
  - destruct Hw as [Hd Hw]. rewrite last_cons_cons in Hlast.
    split; [exact Hd|]. by apply IH.
Qed.

(** *** Lists with one element deleted *)

Lemma delete_nodup_spec {A : Type} (l : list A) (i : nat) (c : A) :
  NoDup l -> l !! i = Some c ->
  NoDup (delete i l) /\ forall n, n ∈ delete i l <-> n ∈ l /\ n <> c.
Proof.
  intros Hnd Hi.
  pose proof (take_drop_middle l i c Hi) as Hsplit.
  rewrite delete_take_drop. rewrite <- Hsplit in Hnd.
  apply NoDup_app in Hnd as (Hnd1 & Hdisj & Hnd2).
  apply NoDup_cons in Hnd2 as [Hc Hnd2].
  split.
  - apply NoDup_app. split; [exact Hnd1|]. split; [|exact Hnd2].
    intros x Hx Hx'. apply (Hdisj x Hx). by right.
  - intros n.
    assert (Hl : n ∈ l <-> n ∈ take i l \/ n = c \/ n ∈ drop (S i) l).
    { rewrite <- Hsplit at 1. rewrite elem_of_app, elem_of_cons. tauto. }
    rewrite Hl, elem_of_app. split.
    + intros [Hn|Hn]; (split; [tauto|]); intros ->.
      * apply (Hdisj c Hn). by left.
      * done.
    + intros [[Hn|[->|Hn]] Hne]; tauto.
Qed.

(** *** The scan for the lowest score *)

Lemma scanLowest_spec (fS : gmap Cell Z) (rest : list Cell) :
  forall (pre : list Cell) (cur : Cell) (curIdx : nat),
    (pre ++ rest) !! curIdx = Some cur ->
    (forall n, n ∈ pre -> (Enemy.getScore fS cur <= Enemy.getScore fS n)%Z) ->
    let '(c, idx) := Enemy.scanLowest fS rest (length pre) cur curIdx in
    (pre ++ rest) !! idx = Some c /\
    forall n, n ∈ pre ++ rest -> (Enemy.getScore fS c <= Enemy.getScore fS n)%Z.
Proof.
  induction rest as [|n rest IH]; intros pre cur curIdx Hcur Hmin; simpl.
  - split; [exact Hcur|]. intros n. rewrite app_nil_r. apply Hmin.
  - assert (Happ : pre ++ n :: rest = (pre ++ [n]) ++ rest) by (by rewrite <- app_assoc).
    assert (Hlen : S (length pre) = length (pre ++ [n])) by (rewrite length_app; simpl; lia).
    destruct (Z.ltb_spec (Enemy.getScore fS n) (Enemy.getScore fS cur)) as [Hlt|Hge].
    + rewrite Hlen, Happ. apply IH.
      * rewrite <- app_assoc. simpl. by apply list_lookup_middle.
      * intros m Hm. apply elem_of_app in Hm as [Hm|Hm].
        -- specialize (Hmin m Hm). lia.
        -- apply list_elem_of_singleton in Hm as ->. lia.
    + rewrite Hlen, Happ. apply IH.
      * by rewrite <- Happ.
      * intros m Hm. apply elem_of_app in Hm as [Hm|Hm].
        -- by apply Hmin.
        -- apply list_elem_of_singleton in Hm as ->. lia.
Qed.

(** *** The invariant of the search *)

Variables start goal : Cell.

Lemma astarInit_inv : astarInv r start goal (Enemy.astarInit start goal) start [].
Proof.
  split; simpl.
  - apply NoDup_singleton.
  - intros n _. set_solver.
  - intros n [Hn|Hn]; [|set_solver].
    apply list_elem_of_singleton in Hn as ->. rewrite lookup_singleton_eq. by eexists.
  - intros n gn Hn. apply lookup_singleton_Some in Hn as [<- <-].
    by rewrite lookup_singleton_eq.
  - apply lookup_singleton_eq.
  - apply lookup_empty.
  - by right.
  - intros n gn Hn Hne. apply lookup_singleton_Some in Hn as [<- _]. done.
  - intros n gn Hn. apply lookup_singleton_Some in Hn as [<- <-].
    split; [split; [lia|apply Nat2Z.is_nonneg] | set_solver].
  - intros c gc k Hc. set_solver.
  - intros c n gc Hc. set_solver.
  - intros n [Hn|Hn]; [|set_solver].
    apply list_elem_of_singleton in Hn as ->. unfold searchUniverse. set_solver.
  - set_solver.
Qed.

(** The [cameFrom] chain of a scored node is a walk of [gScore] steps. *)
Lemma scored_walk (s : Enemy.AStar) (cur : Cell) (pending : list Cell) :
  astarInv r start goal s cur pending ->
  forall (k : nat) (n : Cell),
    Enemy.gScore s !! n = Some (Z.of_nat k) -> walkN r start k n.
Proof.
  intros Inv. induction k as [|k IH]; intros n Hn.
  - destruct (decide (n = start)) as [->|Hne]; [constructor|].
    destruct (inv_parent _ _ _ _ _ _ Inv n _ Hn Hne) as (p & gp & _ & _ & Hp & Hg & _).
    destruct (inv_range _ _ _ _ _ _ Inv p gp Hp) as [? _]. lia.
  - destruct (decide (n = start)) as [->|Hne].
    { rewrite (inv_start_score _ _ _ _ _ _ Inv) in Hn. injection Hn. lia. }
    destruct (inv_parent _ _ _ _ _ _ Inv n _ Hn Hne) as (p & gp & _ & _ & Hp & Hg & Hnb).
    apply walkN_step with p; [|exact Hnb].
    apply IH. rewrite Hp. f_equal. lia.
Qed.

(** Every walk from the start either ends in a closed node or crosses the
    open set, at a node whose score is at most the number of steps that
    lead to it. *)
Lemma frontier (s : Enemy.AStar) (cur : Cell) :
  astarInv r start goal s cur [] ->
  forall (k : nat) (t : Cell), walkN r start k t ->
    (t ∈ Enemy.closedSet s /\
       exists gt, Enemy.gScore s !! t = Some gt /\ (gt <= Z.of_nat k)%Z) \/
    (exists n gn j, n ∈ Enemy.openSet s /\ Enemy.gScore s !! n = Some gn /\
       (gn <= Z.of_nat j)%Z /\ (j <= k)%nat /\ walkN r n (k - j) t).
Proof.
  intros Inv. induction 1 as [|k b c _ IH Hn].
  - destruct (inv_start_seen _ _ _ _ _ _ Inv) as [Hs|[Ho _]].
    + left. split; [exact Hs|]. exists 0%Z. split; [|lia].
      apply (inv_start_score _ _ _ _ _ _ Inv).
    + right. exists start, 0%Z, 0%nat. rewrite Ho.
      split; [by left|]. split; [apply (inv_start_score _ _ _ _ _ _ Inv)|].
      split; [lia|]. split; [lia|]. constructor.
  - destruct IH as [(Hb & gb & Hgb & Hle)|(n & gn & j & Hno & Hgn & Hle & Hjk & Hw)].
    + destruct (inv_closure _ _ _ _ _ _ Inv b c gb Hb Hgb Hn) as (gc & Hgc & Hgc' & Hin).
      { intros _. apply not_elem_of_nil. }
      destruct Hin as [Hin|Hin].
      * right. exists c, gc, (S k). split; [exact Hin|]. split; [exact Hgc|].
        split; [lia|]. split; [lia|]. rewrite Nat.sub_diag. constructor.
      * left. split; [exact Hin|]. exists gc. split; [exact Hgc|]. lia.
    + right. exists n, gn, j. split; [exact Hno|]. split; [exact Hgn|].
      split; [exact Hle|]. split; [lia|].
      replace (S k - j)%nat with (S (k - j)) by lia.
      by apply walkN_step with b.
Qed.

(** The open node with the lowest [fScore] has the length of a shortest
    walk as its [gScore]. *)
Lemma selected_optimal (s : Enemy.AStar) (cur0 current : Cell) (gc : Z) :
  astarInv r start goal s cur0 [] ->
  current ∈ Enemy.openSet s ->
  Enemy.gScore s !! current = Some gc ->
  (forall n, n ∈ Enemy.openSet s ->
     (Enemy.getScore (Enemy.fScore s) current <= Enemy.getScore (Enemy.fScore s) n)%Z) ->
  forall k, walkN r start k current -> (gc <= Z.of_nat k)%Z.
Proof.
  intros Inv Hopen Hgc Hmin k Hwalk.
  destruct (frontier s cur0 Inv k current Hwalk)
    as [(Hc & _)|(n & gn & j & Hno & Hgn & Hle & Hjk & Hw)].
  { by destruct (inv_disjoint _ _ _ _ _ _ Inv current Hopen). }
  specialize (Hmin n Hno). unfold Enemy.getScore in Hmin.
  rewrite (inv_fscore _ _ _ _ _ _ Inv current gc Hgc) in Hmin.
  rewrite (inv_fscore _ _ _ _ _ _ Inv n gn Hgn) in Hmin. simpl in Hmin.
  pose proof (heuristic_walk goal n current (k - j) Hw). lia.
Qed.

(** Moving the selected node from the open set to the closed set. *)
Lemma close_inv (s : Enemy.AStar) (cur0 current : Cell) (idx : nat) :
  astarInv r start goal s cur0 [] ->
  Enemy.openSet s !! idx = Some current ->
  (forall n, n ∈ Enemy.openSet s ->
     (Enemy.getScore (Enemy.fScore s) current <= Enemy.getScore (Enemy.fScore s) n)%Z) ->
  current <> goal ->
  astarInv r start goal
    {| Enemy.openSet := delete idx (Enemy.openSet s);
       Enemy.closedSet := {[current]} ∪ Enemy.closedSet s;
       Enemy.cameFrom := Enemy.cameFrom s;
       Enemy.gScore := Enemy.gScore s;
       Enemy.fScore := Enemy.fScore s |}
    current (Enemy.getNeighbors r current).
Proof.
  intros Inv Hidx Hmin Hgoal.
  assert (Hopen : current ∈ Enemy.openSet s) by (by eapply list_elem_of_lookup_2).
  assert (Hfresh : current ∉ Enemy.closedSet s) by (by apply (inv_disjoint _ _ _ _ _ _ Inv)).
  destruct (delete_nodup_spec _ idx current (inv_nodup _ _ _ _ _ _ Inv) Hidx) as [Hnd Hdel].
  assert (Hsize : size ({[current]} ∪ Enemy.closedSet s) = S (size (Enemy.closedSet s))).
  { rewrite size_union by (by apply disjoint_singleton_l). by rewrite size_singleton. }
  split; simpl.
  - exact Hnd.
  - intros n Hn. apply Hdel in Hn as [Hn Hne].
    pose proof (inv_disjoint _ _ _ _ _ _ Inv n Hn).
    by rewrite not_elem_of_union, not_elem_of_singleton.
  - intros n Hn. apply (inv_scored _ _ _ _ _ _ Inv).
    destruct Hn as [Hn|Hn]; [apply Hdel in Hn; tauto|].
    apply elem_of_union in Hn as [Hn|Hn]; [|tauto].
    apply elem_of_singleton in Hn as ->. tauto.
  - apply (inv_fscore _ _ _ _ _ _ Inv).
  - apply (inv_start_score _ _ _ _ _ _ Inv).
  - apply (inv_start_root _ _ _ _ _ _ Inv).
  - left. destruct (inv_start_seen _ _ _ _ _ _ Inv) as [Hs|[Ho _]]; [by apply elem_of_union_r|].
    rewrite Ho in Hopen. apply list_elem_of_singleton in Hopen as ->.
    by apply elem_of_union_l, elem_of_singleton.
  - intros n gn Hn Hne.
    destruct (inv_parent _ _ _ _ _ _ Inv n gn Hn Hne) as (p & gp & H1 & H2 & H3).
    exists p, gp. split; [exact H1|]. split; [by apply elem_of_union_r|exact H3].
  - intros n gn Hn. rewrite Hsize.
    destruct (inv_range _ _ _ _ _ _ Inv n gn Hn) as [Hr Hc].
    split; [lia|]. intros _. lia.
  - intros c gc k Hc Hgc Hwalk. apply elem_of_union in Hc as [Hc|Hc].
    + apply elem_of_singleton in Hc as ->.
      by apply (selected_optimal s cur0 current gc Inv Hopen Hgc Hmin).
    + by apply (inv_optimal _ _ _ _ _ _ Inv c gc k).
  - intros c n gc Hc Hgc Hn Hpending. apply elem_of_union in Hc as [Hc|Hc].
    { apply elem_of_singleton in Hc as ->. by destruct Hpending. }
    destruct (inv_closure _ _ _ _ _ _ Inv c n gc Hc Hgc Hn) as (gn & Hgn & Hle & Hin).
    { intros _. apply not_elem_of_nil. }
    exists gn. split; [exact Hgn|]. split; [exact Hle|].
    destruct Hin as [Hin|Hin]; [|right; by apply elem_of_union_r].
    destruct (decide (n = current)) as [->|Hne];
      [right; by apply elem_of_union_l, elem_of_singleton|].
    left. apply Hdel. by split.
  - intros n Hn. apply (inv_universe _ _ _ _ _ _ Inv).
    destruct Hn as [Hn|Hn]; [apply Hdel in Hn; tauto|].
    apply elem_of_union in Hn as [Hn|Hn]; [|tauto].
    apply elem_of_singleton in Hn as ->. tauto.
  - pose proof (inv_goal_open _ _ _ _ _ _ Inv).
    rewrite not_elem_of_union, not_elem_of_singleton. by split.
Qed.

(** A neighbour that the loop body leaves alone. *)
Lemma skip_inv (s : Enemy.AStar) (cur n : Cell) (pending : list Cell) (gc : Z) :
  astarInv r start goal s cur (n :: pending) ->
  Enemy.gScore s !! cur = Some gc ->
  (exists gn, Enemy.gScore s !! n = Some gn /\ (gn <= gc + 1)%Z /\
     (n ∈ Enemy.openSet s \/ n ∈ Enemy.closedSet s)) ->
  astarInv r start goal s cur pending.
Proof.
  intros Inv Hgc Hn. destruct Inv. split; try assumption.
  intros c m gc' Hc Hgc' Hm Hpending.
  destruct (decide (c = cur /\ m = n)) as [[-> ->]|Hne].
  - rewrite Hgc in Hgc'. injection Hgc' as <-. exact Hn.
  - apply (inv_closure0 c m gc' Hc Hgc' Hm). intros ->.
    rewrite not_elem_of_cons. split; [|by apply Hpending].
    intros ->. by apply Hne.
Qed.

(** A neighbour that the loop body records: it receives the score of the
    current node plus one, and joins the open set if it was not there. *)
Lemma record_inv (s : Enemy.AStar) (open' : list Cell) (cur n : Cell)
    (pending : list Cell) (gc : Z) :
  astarInv r start goal s cur (n :: pending) ->
  cur ∈ Enemy.closedSet s ->
  start ∈ Enemy.closedSet s ->
  Enemy.gScore s !! cur = Some gc ->
  n ∈ Enemy.getNeighbors r cur ->
  n ∉ Enemy.closedSet s ->
  NoDup open' ->
  (forall m, m ∈ open' <-> m ∈ Enemy.openSet s \/ m = n) ->
  (forall gn, Enemy.gScore s !! n = Some gn -> n ∈ Enemy.openSet s -> (gc + 1 <= gn)%Z) ->
  astarInv r start goal
    {| Enemy.openSet := open';
       Enemy.closedSet := Enemy.closedSet s;
       Enemy.cameFrom := <[n := cur]> (Enemy.cameFrom s);
       Enemy.gScore := <[n := (gc + 1)%Z]> (Enemy.gScore s);
       Enemy.fScore := <[n := (gc + 1 + Enemy.heuristic n goal)%Z]> (Enemy.fScore s) |}
    cur pending.
Proof.
  intros Inv Hcur Hstart Hgc Hnb Hfresh Hnd Hopen Himprove.
  assert (Hns : start <> n) by (intros ->; done).
  assert (Hnc : cur <> n) by (intros ->; done).
  split; simpl.
  - exact Hnd.
  - intros m Hm. apply Hopen in Hm as [Hm| ->]; [|exact Hfresh].
    by apply (inv_disjoint _ _ _ _ _ _ Inv).
  - intros m Hm. destruct (decide (m = n)) as [->|Hne].
    { rewrite lookup_insert_eq. by eexists. }
    rewrite lookup_insert_ne by done. apply (inv_scored _ _ _ _ _ _ Inv).
    destruct Hm as [Hm|Hm]; [|tauto]. apply Hopen in Hm. tauto.
  - intros m gm Hm. destruct (decide (m = n)) as [->|Hne].
    { rewrite lookup_insert_eq in Hm. injection Hm as <-. by rewrite lookup_insert_eq. }
    rewrite lookup_insert_ne in Hm by done. rewrite lookup_insert_ne by done.
    by apply (inv_fscore _ _ _ _ _ _ Inv).
  - rewrite lookup_insert_ne by done. apply (inv_start_score _ _ _ _ _ _ Inv).
  - rewrite lookup_insert_ne by done. apply (inv_start_root _ _ _ _ _ _ Inv).
  - by left.
  - intros m gm Hm Hms. destruct (decide (m = n)) as [->|Hne].
    + rewrite lookup_insert_eq in Hm. injection Hm as <-.
      exists cur, gc. rewrite lookup_insert_eq, lookup_insert_ne by done. done.
    + rewrite lookup_insert_ne in Hm by done.
      destruct (inv_parent _ _ _ _ _ _ Inv m gm Hm Hms) as (p & gp & H1 & H2 & H3 & H4).
      exists p, gp. rewrite !lookup_insert_ne; [done| |done].
      intros <-. done.
  - intros m gm Hm. destruct (decide (m = n)) as [->|Hne].
    + rewrite lookup_insert_eq in Hm. injection Hm as <-.
      destruct (inv_range _ _ _ _ _ _ Inv cur gc Hgc) as [Hr Hc].
      specialize (Hc Hcur). split; [lia|done].
    + rewrite lookup_insert_ne in Hm by done. by apply (inv_range _ _ _ _ _ _ Inv).
  - intros c gc' k Hc Hgc'. rewrite lookup_insert_ne in Hgc' by (intros <-; done).
    by apply (inv_optimal _ _ _ _ _ _ Inv).
  - intros c m gc' Hc Hgc' Hm Hpending.
    rewrite lookup_insert_ne in Hgc' by (intros <-; done).
    destruct (decide (m = n)) as [->|Hne].
    + exists (gc + 1)%Z. rewrite lookup_insert_eq. split; [done|].
      split; [|left; apply Hopen; by right].
      destruct (decide (c = cur)) as [->|Hcc].
      { rewrite Hgc in Hgc'. injection Hgc' as <-. lia. }
      destruct (inv_closure _ _ _ _ _ _ Inv c n gc' Hc Hgc' Hm) as (gn & Hgn & Hle & Hin);
        [done|].
      destruct Hin as [Hin|Hin]; [|done].
      specialize (Himprove gn Hgn Hin). lia.
    + destruct (inv_closure _ _ _ _ _ _ Inv c m gc' Hc Hgc' Hm) as (gm & Hgm & Hle & Hin).
      { intros Hcc. rewrite not_elem_of_cons. split; [done|by apply Hpending]. }
      exists gm. rewrite lookup_insert_ne by done. split; [done|]. split; [done|].
      destruct Hin as [Hin|Hin]; [|by right]. left. apply Hopen. by left.
  - intros m Hm. destruct (decide (m = n)) as [->|Hne].
    + unfold searchUniverse. apply elem_of_union_r, elem_of_list_to_set.
      by apply neighbor_in_grid with cur.
    + apply (inv_universe _ _ _ _ _ _ Inv).
      destruct Hm as [Hm|Hm]; [|tauto]. apply Hopen in Hm. tauto.
  - apply (inv_goal_open _ _ _ _ _ _ Inv).
Qed.

(** *** The loop over the neighbours *)

Lemma visitNeighbor_inv (s : Enemy.AStar) (cur n : Cell) (pending : list Cell) (gc : Z) :
  astarInv r start goal s cur (n :: pending) ->
  cur ∈ Enemy.closedSet s ->
  start ∈ Enemy.closedSet s ->
  Enemy.gScore s !! cur = Some gc ->
  n ∈ Enemy.getNeighbors r cur ->
  astarInv r start goal (Enemy.visitNeighbor goal cur s n) cur pending /\
  Enemy.closedSet (Enemy.visitNeighbor goal cur s n) = Enemy.closedSet s /\
  Enemy.gScore (Enemy.visitNeighbor goal cur s n) !! cur = Some gc.
Proof.
  intros Inv Hcur Hstart Hgc Hnb. unfold Enemy.visitNeighbor.
  assert (Hcurscore : Enemy.getScore (Enemy.gScore s) cur = gc).
  { unfold Enemy.getScore. by rewrite Hgc. }
  rewrite Hcurscore.
  case_bool_decide as Hclosed.
  { split; [|done]. apply skip_inv with n gc; [done..|].
    destruct (inv_scored _ _ _ _ _ _ Inv n (or_intror Hclosed)) as [gn Hgn].
    exists gn. split; [exact Hgn|]. split; [|by right].
    destruct (inv_range _ _ _ _ _ _ Inv cur gc Hgc) as [Hr _].
    assert (Hw : walkN r start (S (Z.to_nat gc)) n).
    { apply walkN_step with cur; [|exact Hnb].
      apply (scored_walk s cur (n :: pending) Inv). rewrite Hgc. f_equal. lia. }
    pose proof (inv_optimal _ _ _ _ _ _ Inv n gn _ Hclosed Hgn Hw). lia. }
  assert (Hnc : cur <> n) by (intros ->; done).
  case_bool_decide as Hopen; simpl.
  - destruct (inv_scored _ _ _ _ _ _ Inv n (or_introl Hopen)) as [gn Hgn].
    assert (Hnscore : Enemy.getScore (Enemy.gScore s) n = gn).
    { unfold Enemy.getScore. by rewrite Hgn. }
    rewrite Hnscore. destruct (Z.geb_spec (gc + 1) gn) as [Hge|Hlt].
    + split; [|done]. apply skip_inv with n gc; [done..|].
      exists gn. split; [exact Hgn|]. split; [lia|by left].
    + unfold Enemy.record; simpl. rewrite lookup_insert_ne by done.
      split; [|done]. apply record_inv; try done.
      * apply (inv_nodup _ _ _ _ _ _ Inv).
      * intros m. split; [tauto|]. by intros [Hm| ->].
      * intros gn' Hgn' _. rewrite Hgn in Hgn'. injection Hgn' as <-. lia.
  - unfold Enemy.record, Enemy.pushOpen; simpl. rewrite lookup_insert_ne by done.
    split; [|done]. apply record_inv; try done.
    + apply NoDup_app. split; [apply (inv_nodup _ _ _ _ _ _ Inv)|].
      split; [|apply NoDup_singleton].
      intros m Hm Hm'. apply list_elem_of_singleton in Hm' as ->. done.
    + intros m. by rewrite elem_of_app, list_elem_of_singleton.
Qed.

Lemma visitNeighbors_inv (cur : Cell) (gc : Z) :
  forall (pending : list Cell) (s : Enemy.AStar),
    astarInv r start goal s cur pending ->
    cur ∈ Enemy.closedSet s ->
    start ∈ Enemy.closedSet s ->
    Enemy.gScore s !! cur = Some gc ->
    (forall n, n ∈ pending -> n ∈ Enemy.getNeighbors r cur) ->
    astarInv r start goal (foldl (Enemy.visitNeighbor goal cur) s pending) cur [] /\
    Enemy.closedSet (foldl (Enemy.visitNeighbor goal cur) s pending) = Enemy.closedSet s.
Proof.
  induction pending as [|n pending IH]; intros s Inv Hcur Hstart Hgc Hnb; simpl.
  - by split.
  - destruct (visitNeighbor_inv s cur n pending gc Inv Hcur Hstart Hgc) as (Inv' & Hc & Hg).
    { apply Hnb. by left. }
    destruct (IH (Enemy.visitNeighbor goal cur s n)) as [Inv'' Hc'']; try done.
    + by rewrite Hc.
    + by rewrite Hc.
    + intros m Hm. apply Hnb. by right.
    + split; [exact Inv''|]. by rewrite Hc'', Hc.
Qed.

(** *** Rebuilding the path *)

Lemma reconstructPath_spec (s : Enemy.AStar) (cur : Cell) (pending : list Cell) :
  astarInv r start goal s cur pending ->
  forall (k fuel : nat) (n : Cell) (tail : list Cell),
    Enemy.gScore s !! n = Some (Z.of_nat k) -> (k <= fuel)%nat ->
    exists w, Enemy.reconstructPath fuel (Enemy.cameFrom s) n (n :: tail)
              = Some (start :: w ++ tail) /\
      isWalk r start w /\ last (start :: w) = Some n /\ length w = k.
Proof.
  intros Inv. induction k as [|k IH]; intros fuel n tail Hn Hfuel.
  - assert (n = start) as ->.
    { destruct (decide (n = start)) as [->|Hne]; [done|].
      destruct (inv_parent _ _ _ _ _ _ Inv n _ Hn Hne) as (p & gp & _ & _ & Hp & Hg & _).
      destruct (inv_range _ _ _ _ _ _ Inv p gp Hp) as [? _]. lia. }
    exists []. destruct fuel; simpl; rewrite (inv_start_root _ _ _ _ _ _ Inv); done.
  - assert (Hne : n <> start).
    { intros ->. rewrite (inv_start_score _ _ _ _ _ _ Inv) in Hn. injection Hn. lia. }
    destruct (inv_parent _ _ _ _ _ _ Inv n _ Hn Hne) as (p & gp & Hcf & _ & Hp & Hg & Hnb).
    destruct fuel as [|fuel]; [lia|]. simpl. rewrite Hcf.
    destruct (IH fuel p (n :: tail)) as (w & Hrec & Hwalk & Hlast & Hlen).
    { rewrite Hp. f_equal. lia. }
    { lia. }
    exists (w ++ [n]). split; [by rewrite <- app_assoc|].
    split; [by apply isWalk_snoc with p|].
    split; [|rewrite length_app; simpl; lia].
    change (start :: w ++ [n]) with ((start :: w) ++ [n]). apply last_snoc.
Qed.

(** *** The search loop *)

Lemma closed_in_universe (s : Enemy.AStar) (cur : Cell) (pending : list Cell) :
  astarInv r start goal s cur pending ->
  Enemy.closedSet s ⊆ searchUniverse r start.
Proof.
  intros Inv n Hn. apply (inv_universe _ _ _ _ _ _ Inv). by right.
Qed.

Lemma size_insert_bound (x : Cell) (X : gset Cell) :
  (size ({[x]} ∪ X) <= S (size X))%nat.
Proof.
  rewrite size_union_alt, size_singleton.
  assert (H : X ∖ {[x]} ⊆ X) by apply subseteq_difference_l, reflexivity.
  apply subseteq_size in H. lia.
Qed.

Lemma size_list_to_set_bound (l : list Cell) :
  (size (list_to_set l : gset Cell) <= length l)%nat.
Proof.
  induction l as [|x l IH]; simpl.
  - done.
  - pose proof (size_insert_bound x (list_to_set l)). lia.
Qed.

Lemma size_searchUniverse :
  (size (searchUniverse r start) < Enemy.searchBound r)%nat.
Proof.
  unfold searchUniverse, Enemy.searchBound.
  pose proof (size_insert_bound start (list_to_set (gridCells r))).
  pose proof (size_list_to_set_bound (gridCells r)).
  pose proof length_gridCells. lia.
Qed.

(** The loop returns: the empty array when no walk leads to the goal, and
    otherwise a walk from the start to the goal that no walk undercuts. *)
Lemma astarLoop_spec (bound : nat) :
  (size (searchUniverse r start) <= bound)%nat ->
  forall (fuel : nat) (s : Enemy.AStar) (cur : Cell),
    astarInv r start goal s cur [] ->
    (size (searchUniverse r start ∖ Enemy.closedSet s) < fuel)%nat ->
    exists p, Enemy.astarLoop fuel r bound goal s = Some p /\
      ((p = [] /\ forall k, ~ walkN r start k goal) \/
       (exists w, p = start :: w /\ isWalk r start w /\ last (start :: w) = Some goal /\
          forall k, walkN r start k goal -> (length w <= k)%nat)).
Proof.
  intros Hbound. induction fuel as [|fuel IH]; intros s cur Inv Hfuel; [lia|].
  simpl. destruct (Enemy.openSet s) as [|first rest] eqn:Ho.
  - exists []. split; [done|]. left. split; [done|]. intros k Hw.
    destruct (frontier s cur Inv k goal Hw) as [(Hc & _)|(n & gn & j & Hno & _)].
    + by apply (inv_goal_open _ _ _ _ _ _ Inv).
    + rewrite Ho in Hno. by apply not_elem_of_nil in Hno.
  - pose proof (scanLowest_spec (Enemy.fScore s) rest [first] first 0%nat eq_refl) as Hscan.
    simpl in Hscan.
    destruct (Enemy.scanLowest (Enemy.fScore s) rest 1 first 0) as [current idx].
    destruct Hscan as [Hidx Hmin].
    { intros n Hn. apply list_elem_of_singleton in Hn as ->. lia. }
    rewrite <- Ho in Hidx, Hmin |- *.
    assert (Hopen : current ∈ Enemy.openSet s) by (by eapply list_elem_of_lookup_2).
    destruct (inv_scored _ _ _ _ _ _ Inv current (or_introl Hopen)) as [gc Hgc].
    destruct (inv_range _ _ _ _ _ _ Inv current gc Hgc) as [Hr _].
    pose proof (subseteq_size _ _ (closed_in_universe s cur [] Inv)) as Hcu.
    case_bool_decide as Hgoal.
    + subst current. simpl.
      destruct (reconstructPath_spec s cur [] Inv (Z.to_nat gc) bound goal [])
        as (w & Hrec & Hwalk & Hlast & Hlen).
      { rewrite Hgc. f_equal. lia. }
      { lia. }
      rewrite app_nil_r in Hrec. exists (start :: w). split; [exact Hrec|].
      right. exists w. split; [done|]. split; [done|]. split; [done|].
      intros k Hw.
      pose proof (selected_optimal s cur goal gc Inv Hopen Hgc Hmin k Hw). lia.
    + pose proof (close_inv s cur current idx Inv Hidx Hmin Hgoal) as Inv1.
      set (s1 := {| Enemy.openSet := delete idx (Enemy.openSet s);
                    Enemy.closedSet := {[current]} ∪ Enemy.closedSet s;
                    Enemy.cameFrom := Enemy.cameFrom s;
                    Enemy.gScore := Enemy.gScore s;
                    Enemy.fScore := Enemy.fScore s |}) in *.
      assert (Hcur1 : current ∈ Enemy.closedSet s1)
        by (by apply elem_of_union_l, elem_of_singleton).
      assert (Hstart1 : start ∈ Enemy.closedSet s1).
      { destruct (inv_start_seen _ _ _ _ _ _ Inv1) as [H|[_ H]]; [done|].
        rewrite H in Hcur1. by apply not_elem_of_empty in Hcur1. }
      destruct (visitNeighbors_inv current gc (Enemy.getNeighbors r current) s1)
        as [Inv2 Hc2]; try done.
      apply (IH _ current Inv2).
      rewrite Hc2. simpl.
      assert (Hsub : searchUniverse r start ∖ ({[current]} ∪ Enemy.closedSet s)
                     ⊂ searchUniverse r start ∖ Enemy.closedSet s).
      { assert (Hu : current ∈ searchUniverse r start)
          by (apply (inv_universe _ _ _ _ _ _ Inv); by left).
        assert (Hf : current ∉ Enemy.closedSet s)
          by (by apply (inv_disjoint _ _ _ _ _ _ Inv)).
        split.
        - intros x. rewrite !elem_of_difference, not_elem_of_union. tauto.
        - intros Hall. specialize (Hall current).
          rewrite !elem_of_difference, not_elem_of_union, not_elem_of_singleton in Hall.
          tauto. }
      apply subset_size in Hsub. lia.
Qed.

(** Every score that the search reads was written before. *)
Lemma astar_scores_defined (s : Enemy.AStar) (cur : Cell) (pending : list Cell) (n : Cell) :
  astarInv r start goal s cur pending ->
  n ∈ Enemy.openSet s \/ n ∈ Enemy.closedSet s ->
  is_Some (Enemy.gScore s !! n) /\ is_Some (Enemy.fScore s !! n).
Proof.
  intros Inv Hn. destruct (inv_scored _ _ _ _ _ _ Inv n Hn) as [gn Hgn].
  split; [by exists gn|]. rewrite (inv_fscore _ _ _ _ _ _ Inv n gn Hgn). by eexists.
Qed.

Lemma findPathAStarOn_spec :
  exists p, Enemy.findPathAStarOn r start goal = Some p /\
    ((p = [] /\ forall k, ~ walkN r start k goal) \/
     (exists w, p = start :: w /\ isWalk r start w /\ last (start :: w) = Some goal /\
        forall k, walkN r start k goal -> (length w <= k)%nat)).
Proof.
  pose proof size_searchUniverse as Hsize.
  apply (astarLoop_spec (Enemy.searchBound r)) with start.
  - lia.
  - apply astarInit_inv.
  - simpl.
    assert (H : searchUniverse r start ∖ ∅ ⊆ searchUniverse r start)
      by apply subseteq_difference_l, reflexivity.
    apply subseteq_size in H. lia.
Qed.

(** The search always returns. *)
Lemma astar_total : exists p, Enemy.findPathAStarOn r start goal = Some p.
Proof. destruct findPathAStarOn_spec as (p & Hp & _). by exists p. Qed.

(** Without a walk from the start to the goal the result is the empty
    array. *)
Lemma astar_unreachable :
  (forall k, ~ walkN r start k goal) -> Enemy.findPathAStarOn r start goal = Some [].
Proof.
  intros Hno. destruct findPathAStarOn_spec as (p & Hp & [[-> _]|(w & -> & Hw & Hl & _)]).
  - exact Hp.
  - destruct (Hno (length w)). by apply isWalk_walkN.
Qed.

End AStar.

(** C3.  When some walk through non-wall cells leads from [start] to
    [goal], [findPathAStar] returns the cells of such a walk, from [start]
    to [goal], and no walk between the two cells has fewer steps.  The
    number of steps is at least the Manhattan distance of the two cells,
    and it is that distance when a walk of that many steps exists, that
    is, when no wall forces a detour. *)
Theorem astar_returns_shortest_path (e : Enemy.t) (r : MazeRenderer.t)
    (grid : list (list Z)) (start goal : Cell) (w : list Cell) :
  Enemy.mazeRenderer e = Some r ->
  MazeRenderer.maze r = Some grid ->
  0 < MazeRenderer.cellSize r ->
  isWalk r start w ->
  last (start :: w) = Some goal ->
  exists p,
    Enemy.findPathAStar e start goal = Some (start :: p) /\
    isWalk r start p /\
    last (start :: p) = Some goal /\
    (length p <= length w)%nat /\
    (Enemy.heuristic start goal <= Z.of_nat (length p))%Z /\
    (Z.of_nat (length w) = Enemy.heuristic start goal ->
     Z.of_nat (length p) = Enemy.heuristic start goal).
Proof.
  intros He Hmaze Hcell Hw Hlast. unfold Enemy.findPathAStar. rewrite He.
  pose proof (isWalk_walkN r start w goal Hw Hlast) as Hwalk.
  destruct (findPathAStarOn_spec r grid Hmaze Hcell start goal)
    as (p & Hp & [[_ Hno]|(p' & -> & Hp' & Hl' & Hmin)]).
  { by destruct (Hno _ Hwalk). }
  exists p'. split; [exact Hp|]. split; [exact Hp'|]. split; [exact Hl'|].
  pose proof (Hmin _ Hwalk) as Hle.
  pose proof (heuristic_walk r goal start goal _ (isWalk_walkN r start p' goal Hp' Hl')) as Hh.
  rewrite heuristic_self in Hh.
  split; [exact Hle|]. split; lia.
Qed.

Lemma astar_returns_shortest_path_witness :
  Enemy.mazeRenderer detourEnemy = Some detourRenderer /\
  MazeRenderer.maze detourRenderer = Some detourMaze /\
  0 < MazeRenderer.cellSize detourRenderer /\
  isWalk detourRenderer (0, 0)%Z detourWalk /\
  last ((0, 0)%Z :: detourWalk) = Some (2, 0)%Z /\
  exists p,
    Enemy.findPathAStar detourEnemy (0, 0)%Z (2, 0)%Z = Some ((0, 0)%Z :: p) /\
    isWalk detourRenderer (0, 0)%Z p /\
    last ((0, 0)%Z :: p) = Some (2, 0)%Z /\
    (length p <= length detourWalk)%nat /\
    (Enemy.heuristic (0, 0)%Z (2, 0)%Z <= Z.of_nat (length p))%Z /\
    (Z.of_nat (length detourWalk) = Enemy.heuristic (0, 0)%Z (2, 0)%Z ->
     Z.of_nat (length p) = Enemy.heuristic (0, 0)%Z (2, 0)%Z).
Proof.
  assert (H1 : Enemy.mazeRenderer detourEnemy = Some detourRenderer) by reflexivity.
  assert (H2 : MazeRenderer.maze detourRenderer = Some detourMaze) by reflexivity.
  assert (H3 : 0 < MazeRenderer.cellSize detourRenderer) by reflexivity.
  assert (H4 : isWalk detourRenderer (0, 0)%Z detourWalk).
  { cbv [isWalk detourWalk].
    repeat split; apply list_elem_of_In; vm_compute;
      repeat (first [left; reflexivity | right]). }
  assert (H5 : last ((0, 0)%Z :: detourWalk) = Some (2, 0)%Z) by reflexivity.
  split; [exact H1|]. split; [exact H2|]. split; [exact H3|].
  split; [exact H4|]. split; [exact H5|].
  exact (astar_returns_shortest_path detourEnemy detourRenderer detourMaze
           (0, 0)%Z (2, 0)%Z detourWalk H1 H2 H3 H4 H5).
Defined.

(** Around the wall of [detourMaze] the search returns the six steps of
    the only way round; on the open grid it returns a path of Manhattan
    length; across the wall of [splitRenderer] it returns the empty
    array. *)
Example detour_path_found :
  Enemy.findPathAStar detourEnemy (0, 0)%Z (2, 0)%Z = Some ((0, 0)%Z :: detourWalk).
Proof. vm_compute. reflexivity. Qed.

Example open_path_is_manhattan :
  Enemy.findPathAStarOn openRenderer (0, 0)%Z (2, 1)%Z
  = Some [ (0, 0); (1, 0); (2, 0); (2, 1) ]%Z.
Proof. vm_compute. reflexivity. Qed.

Example split_grid_has_no_path :
  Enemy.findPathAStarOn splitRenderer (0, 0)%Z (2, 0)%Z = Some [].
Proof. vm_compute. reflexivity. Qed.

(** ** Further properties of the grid and of the generator *)

(** X1.  With a positive cell size, the grid cell of the centre that
    [gridToWorld] gives for a cell is that cell again; and the centre of
    the cell that [worldToGrid] gives for a point lies within half a cell
    of the point on each axis (the point is in the half-open square of
    that cell). *)
Theorem grid_world_round_trip (r : MazeRenderer.t) (gx gy : Z) (wx wy : Q) :
  0 < MazeRenderer.cellSize r ->
  MazeRenderer.worldToGrid r (fst (MazeRenderer.gridToWorld r gx gy))
                             (snd (MazeRenderer.gridToWorld r gx gy)) = (gx, gy) /\
  (let c := MazeRenderer.gridToWorld r (fst (MazeRenderer.worldToGrid r wx wy))
                                       (snd (MazeRenderer.worldToGrid r wx wy)) in
   fst c - MazeRenderer.cellSize r / 2 <= wx /\ wx < fst c + MazeRenderer.cellSize r / 2 /\
   snd c - MazeRenderer.cellSize r / 2 <= wy /\ wy < snd c + MazeRenderer.cellSize r / 2).
Proof.
  intros Hc. split.
  - unfold MazeRenderer.gridToWorld, MazeRenderer.worldToGrid. cbn [fst snd].
    f_equal; apply Qdiv_bounds; try exact Hc; rewrite ?inject_Z_succ; lraQ.
  - unfold MazeRenderer.gridToWorld, MazeRenderer.worldToGrid. cbn [fst snd].
    destruct (Qfloor_div_bounds wx (MazeRenderer.cellSize r) Hc) as [Hx1 Hx2].
    destruct (Qfloor_div_bounds wy (MazeRenderer.cellSize r) Hc) as [Hy1 Hy2].
    rewrite inject_Z_succ in Hx2, Hy2. repeat split; lraQ.
Qed.

Lemma grid_world_round_trip_witness :
  0 < MazeRenderer.cellSize MazeRenderer.new /\
  MazeRenderer.worldToGrid MazeRenderer.new
    (fst (MazeRenderer.gridToWorld MazeRenderer.new 3 (-2)))
    (snd (MazeRenderer.gridToWorld MazeRenderer.new 3 (-2))) = (3, -2)%Z /\
  (let c := MazeRenderer.gridToWorld MazeRenderer.new
              (fst (MazeRenderer.worldToGrid MazeRenderer.new (79 # 2) (-1)))
              (snd (MazeRenderer.worldToGrid MazeRenderer.new (79 # 2) (-1))) in
   fst c - MazeRenderer.cellSize MazeRenderer.new / 2 <= 79 # 2 /\
   79 # 2 < fst c + MazeRenderer.cellSize MazeRenderer.new / 2 /\
   snd c - MazeRenderer.cellSize MazeRenderer.new / 2 <= -1 /\
   -1 < snd c + MazeRenderer.cellSize MazeRenderer.new / 2).
Proof.
  assert (H : 0 < MazeRenderer.cellSize MazeRenderer.new) by reflexivity.
  split; [exact H|].
  exact (grid_world_round_trip MazeRenderer.new 3 (-2) (79 # 2) (-1) H).
Defined.



Lemma Qfloor_below (q : Q) (n : Z) : q < inject_Z n -> (Qfloor q < n)%Z.
Proof.
  intros H. pose proof (Qfloor_le q) as Hf. rewrite Zlt_Qlt. lra.
Qed.



(** *** Shuffling *)

Lemma insert_head_swap {A : Type} (l : list A) (j : nat) (x y : A) :
  l !! j = Some y -> y :: <[j := x]> l ≡ₚ x :: l.
Proof.
  revert j. induction l as [|a l IH]; intros [|j] H; try discriminate.
  - injection H as ->. simpl. apply perm_swap.
  - simpl in *. rewrite (perm_swap a y). rewrite (IH j H). apply perm_swap.
Qed.

Lemma swap_permutation {A : Type} (l : list A) (i j : nat) :
  MazeGenerator.swap l i j ≡ₚ l.
Proof.
  unfold MazeGenerator.swap. revert i j.
  induction l as [|a l IH]; intros i j; [by destruct i, j|].
  destruct i as [|i], j as [|j]; simpl.
  - reflexivity.
  - destruct (l !! j) as [aj|] eqn:Hj; [|reflexivity]. simpl.
    by apply insert_head_swap.
  - destruct (l !! i) as [ai|] eqn:Hi; [|reflexivity]. simpl.
    by apply insert_head_swap.
  - specialize (IH i j).
    destruct (l !! i) as [ai|]; [|reflexivity].
    destruct (l !! j) as [aj|]; [|reflexivity].
    simpl. by rewrite IH.
Qed.

Lemma shuffleArray_Permutation {A : Type} (l : list A) (g : MazeGenerator.Rng) :
  fst (MazeGenerator.shuffleArray l g) ≡ₚ l.
Proof.
  unfold MazeGenerator.shuffleArray. generalize (length l - 1)%nat. intros n.
  revert l g. induction n as [|n IH]; intros l g; [reflexivity|].
  cbn [MazeGenerator.shuffleFrom].
  destruct (MazeGenerator.randomBelow g (Z.of_nat (S n) + 1)) as [j g'].
  rewrite IH. apply swap_permutation.
Qed.

(** X3.  [shuffleArray] returns a rearrangement of its argument: every
    element is kept, with its multiplicity, whatever the random draws. *)
Theorem shuffleArray_is_permutation {A : Type} (l : list A) (g : MazeGenerator.Rng) :
  fst (MazeGenerator.shuffleArray l g) ≡ₚ l.
Proof. apply shuffleArray_Permutation. Qed.

Example shuffle_sample :
  fst (MazeGenerator.shuffleArray [1; 2; 3; 4]%Z steppingRng) = [3; 4; 1; 2]%Z.
Proof. vm_compute. reflexivity. Qed.

(** *** Validation and the border *)

(** X4.  [validateMaze] accepts a grid exactly when the grid has a path
    cell and every path cell can be reached from every other one through
    4-adjacent path cells. *)
Theorem validateMaze_accepts_iff (gen : MazeGenerator.t) (maze : MazeGenerator.Maze) :
  MazeGenerator.validateMaze gen maze = MazeGenerator.Ok tt <->
  MazeGenerator.getAccessiblePositions gen maze <> [] /\
  forall a b, isPathCell gen maze a = true -> isPathCell gen maze b = true ->
              rtc (pathStep gen maze) a b.
Proof.
  split.
  - intros Hok. split.
    + intros Hnil. unfold MazeGenerator.validateMaze in Hok. rewrite Hnil in Hok.
      discriminate.
    + intros a b Ha Hb. by apply (validateMaze_ok gen maze Hok a Ha).
  - intros [Hne Hconn].
    destruct (MazeGenerator.validateMaze gen maze) as [[]|msg] eqn:Hval; [reflexivity|].
    apply validateMaze_throws in Hval as [[Hnil _]|(_ & a & b & Ha & Hb & Hnot)].
    + by destruct Hne.
    + destruct Hnot. by apply Hconn.
Qed.

(** X5.  From width 5 and height 5 on, every grid that [generate] returns
    has a wall in each cell of row 0, of the last row, of column 0 and of
    the last column, whatever the random draws. *)
Theorem generated_border_is_wall (gen : MazeGenerator.t) (depth : nat)
    (g : MazeGenerator.Rng) (maze : MazeGenerator.Maze) :
  (5 <= MazeGenerator.width gen)%Z ->
  (5 <= MazeGenerator.height gen)%Z ->
  MazeGenerator.generate gen depth g = MazeGenerator.Ok maze ->
  forall x y : Z,
    (0 <= x < MazeGenerator.width gen)%Z -> (0 <= y < MazeGenerator.height gen)%Z ->
    (x = 0 \/ x = MazeGenerator.width gen - 1 \/
     y = 0 \/ y = MazeGenerator.height gen - 1)%Z ->
    maze !! (x, y) = Some MazeGenerator.WALL.
Proof.
  intros Hw Hh Hgen x y Hx Hy Hedge.
  apply (generate_border_from_five gen Hw Hh depth g maze Hgen).
  apply border_iff. tauto.
Qed.

Lemma generated_border_is_wall_witness :
  (5 <= MazeGenerator.width sampleGenerator)%Z /\
  (5 <= MazeGenerator.height sampleGenerator)%Z /\
  MazeGenerator.generate sampleGenerator 100 steppingRng = MazeGenerator.Ok sampleGenerated /\
  forall x y : Z,
    (0 <= x < MazeGenerator.width sampleGenerator)%Z ->
    (0 <= y < MazeGenerator.height sampleGenerator)%Z ->
    (x = 0 \/ x = MazeGenerator.width sampleGenerator - 1 \/
     y = 0 \/ y = MazeGenerator.height sampleGenerator - 1)%Z ->
    sampleGenerated !! (x, y) = Some MazeGenerator.WALL.
Proof.
  assert (H1 : (5 <= MazeGenerator.width sampleGenerator)%Z) by (vm_compute; discriminate).
  assert (H2 : (5 <= MazeGenerator.height sampleGenerator)%Z) by (vm_compute; discriminate).
  assert (H3 : MazeGenerator.generate sampleGenerator 100 steppingRng
               = MazeGenerator.Ok sampleGenerated) by (vm_compute; reflexivity).
  split; [exact H1|]. split; [exact H2|]. split; [exact H3|].
  exact (generated_border_is_wall sampleGenerator 100 steppingRng sampleGenerated H1 H2 H3).
Defined.

(** *** Path planning without a path *)

(** X6.  On a renderer that holds a maze the search always returns.  It
    returns the empty array exactly when no walk through non-wall
    neighbours leads from [start] to [goal]; and from a cell to itself it
    returns the one-cell path. *)
Theorem astar_empty_iff_unreachable (e : Enemy.t) (r : MazeRenderer.t)
    (grid : list (list Z)) (start goal : Cell) :
  Enemy.mazeRenderer e = Some r ->
  MazeRenderer.maze r = Some grid ->
  0 < MazeRenderer.cellSize r ->
  (exists p, Enemy.findPathAStar e start goal = Some p) /\
  (Enemy.findPathAStar e start goal = Some [] <-> forall k, ~ walkN r start k goal) /\
  Enemy.findPathAStar e start start = Some [start].
Proof.
  intros He Hmaze Hcell. unfold Enemy.findPathAStar. rewrite He.
  split; [|split].
  - by apply (astar_total r grid).
  - split.
    + intros Hnil k Hwalk.
      destruct (findPathAStarOn_spec r grid Hmaze Hcell start goal)
        as (p & Hp & [[_ Hno]|(w & -> & _)]).
      * by apply (Hno k).
      * rewrite Hp in Hnil. discriminate.
    + by apply (astar_unreachable r grid).
  - destruct (findPathAStarOn_spec r grid Hmaze Hcell start start)
      as (p & Hp & [[_ Hno]|(w & -> & _ & _ & Hmin)]).
    + destruct (Hno 0%nat). constructor.
    + specialize (Hmin 0%nat (walkN_here r start)).
      destruct w; [exact Hp|simpl in Hmin; lia].
Qed.

Lemma astar_empty_iff_unreachable_witness :
  Enemy.mazeRenderer splitEnemy = Some splitRenderer /\
  (exists grid, MazeRenderer.maze splitRenderer = Some grid) /\
  0 < MazeRenderer.cellSize splitRenderer /\
  (exists p, Enemy.findPathAStar splitEnemy (0, 0)%Z (2, 0)%Z = Some p) /\
  (Enemy.findPathAStar splitEnemy (0, 0)%Z (2, 0)%Z = Some [] <->
   forall k, ~ walkN splitRenderer (0, 0)%Z k (2, 0)%Z) /\
  Enemy.findPathAStar splitEnemy (0, 0)%Z (0, 0)%Z = Some [(0, 0)%Z].
Proof.
  assert (H1 : Enemy.mazeRenderer splitEnemy = Some splitRenderer) by reflexivity.
  assert (H2 : MazeRenderer.maze splitRenderer
               = Some [ [0; 1; 0]; [0; 1; 0]; [0; 1; 0] ]%Z) by reflexivity.
  assert (H3 : 0 < MazeRenderer.cellSize splitRenderer) by reflexivity.
  split; [exact H1|]. split; [eexists; exact H2|]. split; [exact H3|].
  exact (astar_empty_iff_unreachable splitEnemy splitRenderer _ (0, 0)%Z (2, 0)%Z H1 H2 H3).
Defined.

(** ** Further properties of the enemies *)

(** *** How long an enemy stays vulnerable *)

Lemma sameVulnerability_refl (a : Enemy.t) : sameVulnerability a a.
Proof. by repeat split. Qed.

Lemma sameVulnerability_trans (a b c : Enemy.t) :
  sameVulnerability a b -> sameVulnerability b c -> sameVulnerability a c.
Proof.
  intros (H1 & H2 & H3 & H4 & H5) (G1 & G2 & G3 & G4 & G5).
  repeat split; congruence.
Qed.

Lemma updateGridPosition_vulnerability (e : Enemy.t) :
  sameVulnerability (Enemy.updateGridPosition e) e.
Proof.
  unfold Enemy.updateGridPosition. destruct (Enemy.mazeRenderer e); [|by repeat split].
  destruct (MazeRenderer.worldToGrid _ _ _), (MazeRenderer.gridToWorld _ _ _).
  by repeat split.
Qed.

Lemma handleWallCollision_vulnerability (e : Enemy.t) :
  sameVulnerability (Enemy.handleWallCollision e) e.
Proof.
  unfold Enemy.handleWallCollision. by destruct (List.find _ _); repeat split.
Qed.

Lemma handleMovement_vulnerability (e : Enemy.t) :
  sameVulnerability (Enemy.handleMovement e) e.
Proof.
  unfold Enemy.handleMovement.
  set (e1 := Enemy.updateGridPosition e).
  set (e2 := Enemy.withDirection e1 _).
  assert (H2 : sameVulnerability e2 e).
  { apply (sameVulnerability_trans _ e1); [by repeat split|].
    apply updateGridPosition_vulnerability. }
  destruct (Enemy.canMoveToPosition e2 _ _).
  - apply (sameVulnerability_trans _ e2); [by repeat split | exact H2].
  - apply (sameVulnerability_trans _ e2); [apply handleWallCollision_vulnerability | exact H2].
Qed.

Lemma wrapHorizontal_vulnerability (e : Enemy.t) (w cs : Q) :
  sameVulnerability (Enemy.wrapHorizontal e w cs) e.
Proof.
  unfold Enemy.wrapHorizontal.
  repeat match goal with
         | |- context [if ?b then _ else _] => destruct b
         end; by repeat split.
Qed.

Lemma wrapVertical_vulnerability (e : Enemy.t) (h cs : Q) :
  sameVulnerability (Enemy.wrapVertical e h cs) e.
Proof.
  unfold Enemy.wrapVertical.
  repeat match goal with
         | |- context [if ?b then _ else _] => destruct b
         end; by repeat split.
Qed.

Lemma handleEdgeWrapping_vulnerability (e : Enemy.t) :
  sameVulnerability (Enemy.handleEdgeWrapping e) e.
Proof.
  unfold Enemy.handleEdgeWrapping.
  destruct (Enemy.mazeRenderer e); [|apply sameVulnerability_refl].
  destruct (MazeRenderer.getMazeDimensions _) as [w h].
  eapply sameVulnerability_trans;
    [apply wrapVertical_vulnerability | apply wrapHorizontal_vulnerability].
Qed.

Lemma update_vulnerability (e : Enemy.t) (dt : Q) (plan : Enemy.Plan) :
  sameVulnerability (Enemy.update e dt plan) (Enemy.updateVulnerabilityState e dt).
Proof.
  unfold Enemy.update.
  eapply sameVulnerability_trans; [apply handleEdgeWrapping_vulnerability|].
  eapply sameVulnerability_trans; [apply handleMovement_vulnerability|].
  by repeat split.
Qed.

Lemma elapsed_nonneg (steps : list EnemyStep) :
  Forall (fun s => 0 <= stepDelta s) steps -> 0 <= elapsed steps.
Proof.
  induction 1 as [|s steps Hs _ IH]; simpl; [apply Qle_refl|]. lra.
Qed.

(** An enemy that is not vulnerable keeps its vulnerability fields. *)
Lemma calm_stays_calm (steps : list EnemyStep) (e : Enemy.t) :
  Enemy.isVulnerable e = false ->
  sameVulnerability (foldl enemyStep e steps) e.
Proof.
  revert e. induction steps as [|[dt plan] steps IH]; intros e He; simpl.
  - apply sameVulnerability_refl.
  - assert (H1 : sameVulnerability (Enemy.update e dt plan) e).
    { eapply sameVulnerability_trans; [apply update_vulnerability|].
      unfold Enemy.updateVulnerabilityState. rewrite He. apply sameVulnerability_refl. }
    eapply sameVulnerability_trans; [apply IH|exact H1].
    destruct H1 as (-> & _). exact He.
Qed.

Lemma vulnerable_countdown (steps : list EnemyStep) (e : Enemy.t) :
  Forall (fun s => 0 <= stepDelta s) steps ->
  Enemy.isVulnerable e = true ->
  Enemy.state e = "vulnerable"%string ->
  let e' := foldl enemyStep e steps in
  (elapsed steps < Enemy.vulnerabilityTimer e ->
   Enemy.isVulnerable e' = true /\ Enemy.state e' = "vulnerable"%string /\
   Enemy.vulnerabilityTimer e' == Enemy.vulnerabilityTimer e - elapsed steps) /\
  (steps <> [] -> Enemy.vulnerabilityTimer e <= elapsed steps ->
   Enemy.isVulnerable e' = false /\ Enemy.state e' = "chase"%string /\
   Enemy.color e' = Enemy.originalColor e /\ Enemy.vulnerabilityTimer e' = 0).
Proof.
  intros Hpos. revert e. induction Hpos as [|[dt plan] steps Hdt Hpos IH]; intros e Hv Hs.
  - simpl. split; [intros _; repeat split; try done; ring | done].
  - cbn [foldl enemyStep]. simpl in Hdt.
    pose proof (elapsed_nonneg steps Hpos) as Hge.
    destruct (update_vulnerability e dt plan) as (U1 & U2 & U3 & U4 & U5).
    set (e1 := Enemy.update e dt plan) in *.
    unfold Enemy.updateVulnerabilityState in U1, U2, U3, U4, U5. rewrite Hv in *.
    cbn [Enemy.vulnerabilityTimer Enemy.withVulnerabilityTimer] in *.
    change (elapsed (EnemyUpdate dt plan :: steps)) with (dt + elapsed steps).
    destruct (Qle_bool (Enemy.vulnerabilityTimer e - dt) 0) eqn:Hexp.
    + apply Qle_bool_iff in Hexp. simpl in U1, U2, U3, U4, U5.
      split; [intros Hlt; lra|]. intros _ _.
      destruct (calm_stays_calm steps e1 U1) as (C1 & C2 & C3 & C4 & C5).
      repeat split; congruence.
    + assert (Hlive : 0 < Enemy.vulnerabilityTimer e - dt).
      { apply Qnot_le_lt. intros Hle. apply Qle_bool_iff in Hle. congruence. }
      assert (V1 : Enemy.isVulnerable e1 = true).
      { rewrite U1. by repeat match goal with
                       | |- context [if ?b then _ else _] => destruct b
                       end. }
      assert (V2 : Enemy.state e1 = "vulnerable"%string).
      { rewrite U2. by repeat match goal with
                       | |- context [if ?b then _ else _] => destruct b
                       end. }
      assert (V3 : Enemy.vulnerabilityTimer e1 = Enemy.vulnerabilityTimer e - dt).
      { rewrite U3. by repeat match goal with
                       | |- context [if ?b then _ else _] => destruct b
                       end. }
      assert (V5 : Enemy.originalColor e1 = Enemy.originalColor e).
      { rewrite U5. by repeat match goal with
                       | |- context [if ?b then _ else _] => destruct b
                       end. }
      destruct (IH e1 V1 V2) as [IH1 IH2]. rewrite V3, V5 in *.
      split.
      * intros Hlt. destruct IH1 as (A & B & C); [lra|].
        repeat split; try done. rewrite C. ring.
      * intros _ Hle. apply IH2; [|lra].
        intros ->. simpl in Hle. lra.
Qed.

(** X7.  For a duration [d] (the default is the enemy's
    [vulnerabilityDuration]) and time steps that are whole numbers of
    milliseconds, the steps not negative: an enemy made vulnerable for
    [d] and then updated stays vulnerable, in state "vulnerable" and with
    [d] minus the elapsed time on its timer, as long as the elapsed time
    is below [d]; from the update at which the elapsed time reaches [d]
    it is no longer vulnerable, its state is "chase", it has its original
    colour and its timer is 0.  The plans of the updates play no part.
    (On whole numbers the subtractions of the timer are exact in the
    code as well; with fractional steps the code's timer can differ from
    [d] minus the elapsed time by rounding.) *)
Theorem vulnerability_lasts_its_duration
    (e : Enemy.t) (duration : option Q) (steps : list EnemyStep) :
  wholeNumber (default (Enemy.vulnerabilityDuration e) duration) ->
  Forall (fun s => wholeNumber (stepDelta s)) steps ->
  Forall (fun s => 0 <= stepDelta s) steps ->
  let d := default (Enemy.vulnerabilityDuration e) duration in
  let e' := foldl enemyStep (Enemy.setVulnerable e true duration) steps in
  (elapsed steps < d ->
   Enemy.isVulnerable e' = true /\ Enemy.state e' = "vulnerable"%string /\
   Enemy.vulnerabilityTimer e' == d - elapsed steps) /\
  (steps <> [] -> d <= elapsed steps ->
   Enemy.isVulnerable e' = false /\ Enemy.state e' = "chase"%string /\
   Enemy.color e' = Enemy.originalColor e /\ Enemy.vulnerabilityTimer e' = 0).
Proof.
  intros _ _ Hpos d e'.
  exact (vulnerable_countdown steps (Enemy.setVulnerable e true duration) Hpos eq_refl eq_refl).
Qed.

Lemma vulnerability_lasts_its_duration_witness :
  wholeNumber (default (Enemy.vulnerabilityDuration sampleChaser) (Some 1000)) /\
  Forall (fun s => wholeNumber (stepDelta s))
         [EnemyUpdate 600 samplePlan; EnemyUpdate 600 samplePlan] /\
  Forall (fun s => 0 <= stepDelta s) [EnemyUpdate 600 samplePlan; EnemyUpdate 600 samplePlan] /\
  let d := default (Enemy.vulnerabilityDuration sampleChaser) (Some 1000) in
  let e' := foldl enemyStep (Enemy.setVulnerable sampleChaser true (Some 1000))
                  [EnemyUpdate 600 samplePlan; EnemyUpdate 600 samplePlan] in
  (elapsed [EnemyUpdate 600 samplePlan; EnemyUpdate 600 samplePlan] < d ->
   Enemy.isVulnerable e' = true /\ Enemy.state e' = "vulnerable"%string /\
   Enemy.vulnerabilityTimer e'
   == d - elapsed [EnemyUpdate 600 samplePlan; EnemyUpdate 600 samplePlan]) /\
  ([EnemyUpdate 600 samplePlan; EnemyUpdate 600 samplePlan] <> [] ->
   d <= elapsed [EnemyUpdate 600 samplePlan; EnemyUpdate 600 samplePlan] ->
   Enemy.isVulnerable e' = false /\ Enemy.state e' = "chase"%string /\
   Enemy.color e' = Enemy.originalColor sampleChaser /\ Enemy.vulnerabilityTimer e' = 0).
Proof.
  assert (Hd : wholeNumber (default (Enemy.vulnerabilityDuration sampleChaser) (Some 1000))).
  { exists 1000%Z. split; [vm_compute; discriminate|reflexivity]. }
  assert (Hw : Forall (fun s => wholeNumber (stepDelta s))
                      [EnemyUpdate 600 samplePlan; EnemyUpdate 600 samplePlan]).
  { repeat constructor; exists 600%Z; (split; [vm_compute; discriminate|reflexivity]). }
  assert (H : Forall (fun s => 0 <= stepDelta s)
                     [EnemyUpdate 600 samplePlan; EnemyUpdate 600 samplePlan]).
  { repeat constructor; simpl; discriminate. }
  split; [exact Hd|]. split; [exact Hw|]. split; [exact H|].
  exact (vulnerability_lasts_its_duration sampleChaser (Some 1000)
           [EnemyUpdate 600 samplePlan; EnemyUpdate 600 samplePlan] Hd Hw H).
Defined.

(** *** The roster across levels *)

Lemma spawnEnemy_roster (c : AIController.t) (random : Q) :
  let c' := AIController.spawnEnemy c random in
  (rosterSize c' <= rosterSize c + 1)%Z /\
  AIController.maxEnemies c' = AIController.maxEnemies c.
Proof.
  destruct (spawnEnemy_effect c random) as (M & [(E & _)|(E & _)]);
    unfold rosterSize; simpl; rewrite E; split; try exact M; lia.
Qed.

Lemma directorStep_six (c : AIController.t) (op : DirectorOp) :
  (rosterSize c <= 6)%Z -> (AIController.maxEnemies c <= 6)%Z ->
  (rosterSize (directorStep c op) <= 6)%Z /\
  (AIController.maxEnemies (directorStep c op) <= 6)%Z.
Proof.
  intros Hr Hm. destruct op as [[dt random plans|enemy|v d|a]| |level]; simpl.
  - unfold AIController.update.
    destruct (AIController.isActive c); simpl; [|by split].
    set (c1 := AIController.updateEnemySpawning c dt random).
    assert (H1 : (rosterSize c1 <= 6)%Z /\ (AIController.maxEnemies c1 <= 6)%Z).
    { unfold c1, AIController.updateEnemySpawning.
      set (c0 := AIController.withLastSpawnTime c _).
      destruct (_ && _) eqn:Hcond; [|by split].
      apply andb_true_iff in Hcond as [Hcond _].
      apply andb_true_iff in Hcond as [Hlt _]. apply Z.ltb_lt in Hlt.
      destruct (spawnEnemy_roster c0 random) as [Hs Hmax].
      unfold rosterSize in *. simpl in *. lia. }
    destruct H1 as [H1 H2]. split; [|exact H2].
    unfold rosterSize in *. simpl.
    pose proof (List.filter_length_le
                  (fun e => negb (AIController.isEnemyOutOfBounds c1 e))
                  (List.map (fun e => Enemy.update e dt (plans e)) (AIController.enemies c1))) as Hle.
    rewrite length_map in Hle. lia.
  - destruct (removeEnemy_effect c enemy) as (M & _ & _ & L). lia.
  - unfold rosterSize in *. simpl. rewrite length_map. lia.
  - unfold rosterSize in *. simpl. destruct a; rewrite ?length_map; lia.
  - unfold rosterSize. simpl. lia.
  - unfold rosterSize in *. simpl. lia.
Qed.

(** X8.  From a new controller, whatever is called on it and in whatever
    order (updates, removals, vulnerability broadcasts, activation,
    resets, and difficulty levels of any value), the roster never holds
    more than six enemies and [maxEnemies] never exceeds six. *)
Theorem roster_at_most_six (r : option MazeRenderer.t) (ops : list DirectorOp) :
  let c := foldl directorStep (AIController.new r) ops in
  (rosterSize c <= 6)%Z /\ (AIController.maxEnemies c <= 6)%Z.
Proof.
  assert (H : forall c, (rosterSize c <= 6)%Z -> (AIController.maxEnemies c <= 6)%Z ->
                        (rosterSize (foldl directorStep c ops) <= 6)%Z /\
                        (AIController.maxEnemies (foldl directorStep c ops) <= 6)%Z).
  { induction ops as [|op ops IH]; intros c Hr Hm; simpl; [by split|].
    destruct (directorStep_six c op Hr Hm) as [Hr' Hm']. by apply IH. }
  apply H; unfold rosterSize; simpl; lia.
Qed.

(** *** Removing an enemy *)

Lemma indexOf_Some (i : nat) (l : list Enemy.t) (k : nat) :
  AIController.indexOf i l = Some k -> i ∈ List.map Enemy.id l.
Proof.
  revert k. induction l as [|e l IH]; intros k; simpl; [discriminate|].
  destruct (Nat.eqb_spec (Enemy.id e) i) as [E|E].
  - intros _. rewrite E. left.
  - destruct (AIController.indexOf i l) as [j|]; [|discriminate].
    intros _. right. by apply (IH j).
Qed.

Lemma delete_indexOf (i : nat) (l : list Enemy.t) (k : nat) :
  NoDup (List.map Enemy.id l) ->
  AIController.indexOf i l = Some k ->
  delete k l = List.filter (fun e => negb (Nat.eqb (Enemy.id e) i)) l.
Proof.
  revert k. induction l as [|e l IH]; intros k Hnd; simpl; [discriminate|].
  simpl in Hnd. apply NoDup_cons in Hnd as [He Hnd].
  destruct (Nat.eqb_spec (Enemy.id e) i) as [E|E]; simpl.
  - intros [= <-]. simpl. subst i. clear IH.
    induction l as [|e' l IH]; [reflexivity|].
    simpl in He, Hnd. apply not_elem_of_cons in He as [Hne He].
    apply NoDup_cons in Hnd as [_ Hnd]. simpl.
    destruct (Nat.eqb_spec (Enemy.id e') (Enemy.id e)); [congruence|].
    simpl. f_equal. by apply IH.
  - destruct (AIController.indexOf i l) as [j|] eqn:Hj; [|discriminate].
    intros [= <-]. simpl. f_equal. by apply IH.
Qed.

Lemma filter_other_ids (i : nat) (l : list Enemy.t) :
  i ∉ List.map Enemy.id l ->
  List.filter (fun e => negb (Nat.eqb (Enemy.id e) i)) l = l.
Proof.
  induction l as [|e l IH]; intros H; [reflexivity|].
  simpl in H. apply not_elem_of_cons in H as [Hne H]. simpl.
  destruct (Nat.eqb_spec (Enemy.id e) i); [congruence|]. simpl. by rewrite IH.
Qed.

(** X9.  On a roster without repeated objects, [removeEnemy] returns
    whether the enemy is in the roster; it takes exactly that enemy out
    and keeps the others, unchanged and in order; for an enemy that is
    not in the roster the controller is left as it was. *)
Theorem removeEnemy_removes_exactly (c : AIController.t) (enemy : Enemy.t) :
  NoDup (rosterOf c) ->
  let c' := fst (AIController.removeEnemy c enemy) in
  let found := snd (AIController.removeEnemy c enemy) in
  found = bool_decide (Enemy.id enemy ∈ rosterOf c) /\
  AIController.enemies c'
  = List.filter (fun e => negb (Nat.eqb (Enemy.id e) (Enemy.id enemy))) (AIController.enemies c) /\
  (found = true -> length (AIController.enemies c') = pred (length (AIController.enemies c))) /\
  (found = false -> c' = c).
Proof.
  intros Hnd. unfold AIController.removeEnemy, rosterOf in *.
  destruct (AIController.indexOf _ _) as [k|] eqn:Hk; simpl.
  - pose proof (indexOf_Some _ _ _ Hk) as Hin. repeat split.
    + symmetry. by apply bool_decide_eq_true_2.
    + by apply delete_indexOf.
    + intros _. clear Hnd Hin. revert k Hk.
      generalize (AIController.enemies c) as l.
      induction l as [|e l IH]; intros k; simpl; [discriminate|].
      destruct (Nat.eqb (Enemy.id e) (Enemy.id enemy)); [by intros [= <-]|].
      destruct (AIController.indexOf _ l) as [j|] eqn:Hj; [|discriminate].
      intros [= <-]. simpl. rewrite (IH j eq_refl).
      destruct l; [discriminate | reflexivity].
    + discriminate.
  - pose proof (indexOf_None _ _ Hk) as Hout. repeat split.
    + symmetry. by apply bool_decide_eq_false_2.
    + symmetry. by apply filter_other_ids.
    + discriminate.
Qed.

Lemma removeEnemy_removes_exactly_witness :
  NoDup (rosterOf sampleRoster) /\
  let c' := fst (AIController.removeEnemy sampleRoster farPatrol) in
  let found := snd (AIController.removeEnemy sampleRoster farPatrol) in
  found = bool_decide (Enemy.id farPatrol ∈ rosterOf sampleRoster) /\
  AIController.enemies c'
  = List.filter (fun e => negb (Nat.eqb (Enemy.id e) (Enemy.id farPatrol)))
                (AIController.enemies sampleRoster) /\
  (found = true ->
   length (AIController.enemies c') = pred (length (AIController.enemies sampleRoster))) /\
  (found = false -> c' = sampleRoster).
Proof.
  assert (H : NoDup (rosterOf sampleRoster)).
  { apply (bool_decide_unpack _). vm_compute. exact I. }
  split; [exact H|].
  exact (removeEnemy_removes_exactly sampleRoster farPatrol H).
Defined.

(** *** The vulnerability broadcast *)

(** X10.  After [setAllEnemiesVulnerable (v, d)] every enemy of the
    roster has vulnerability [v]; the roster holds the same objects in
    the same order; the enemies that already had vulnerability [v] are
    untouched, so that their timers are not restarted; and a second
    broadcast of the same [v], with any duration, leaves every enemy of
    the roster as it is.  (The controller's [vulnerabilityEndTime], a
    wall-clock time for the display that is not part of the embedding,
    is written by every broadcast.) *)
Theorem broadcast_sets_every_enemy (c : AIController.t) (v : bool) (d d' : Q) :
  let c' := AIController.setAllEnemiesVulnerable c v d in
  Forall (fun e => Enemy.getIsVulnerable e = v) (AIController.enemies c') /\
  rosterOf c' = rosterOf c /\
  (forall k e, AIController.enemies c !! k = Some e -> Enemy.getIsVulnerable e = v ->
               AIController.enemies c' !! k = Some e) /\
  AIController.enemies (AIController.setAllEnemiesVulnerable c' v d') = AIController.enemies c'.
Proof.
  unfold AIController.setAllEnemiesVulnerable, rosterOf. simpl.
  assert (Hflag : forall e,
            Enemy.getIsVulnerable
              (if Bool.eqb (Enemy.getIsVulnerable e) v then e
               else Enemy.setVulnerable e v (Some d)) = v).
  { intros e. destruct (Bool.eqb (Enemy.getIsVulnerable e) v) eqn:E.
    - by apply Bool.eqb_prop.
    - unfold Enemy.setVulnerable. by destruct v. }
  repeat split.
  - apply Forall_forall. intros e' Hin. apply list_elem_of_In, in_map_iff in Hin.
    destruct Hin as (e & <- & _). apply Hflag.
  - rewrite List.map_map. apply List.map_ext. intros e.
    destruct (Bool.eqb _ _); [reflexivity|]. unfold Enemy.setVulnerable. by destruct v.
  - intros k e Hk Hv. rewrite list_lookup_fmap, Hk. simpl.
    unfold Enemy.getIsVulnerable in *. rewrite Hv, Bool.eqb_reflx. reflexivity.
  - rewrite List.map_map. apply List.map_ext. intros e.
    rewrite (Hflag e), Bool.eqb_reflx. reflexivity.
Qed.

(** *** Spawning *)

Lemma calculateSpawnPositions_free (c : AIController.t) :
  AIController.spawnPositions c = [] ->
  spawnPointsFree (AIController.calculateSpawnPositions c).
Proof.
  intros Hempty r pos. unfold AIController.calculateSpawnPositions.
  destruct (AIController.mazeRenderer c) as [r0|] eqn:Hr.
  - destruct (MazeRenderer.getMazeDimensions r0) as [w h].
    set (free := fun pos : Vec => negb (MazeRenderer.isWallAtPosition r0 (vx pos) (vy pos))).
    destruct (List.filter free _) as [|p0 ps] eqn:Hvalid;
      cbn [AIController.withSpawnPositions AIController.mazeRenderer
           AIController.spawnPositions]; rewrite Hr.
    + intros [= <-] Hin. apply list_elem_of_In, filter_In in Hin as [_ Hfree].
      by apply negb_true_iff.
    + intros [= <-] Hin. rewrite <- Hvalid in Hin.
      apply list_elem_of_In, filter_In in Hin as [_ Hfree].
      by apply negb_true_iff.
  - rewrite Hr. discriminate.
Qed.

Lemma enemy_new_fields (i : nat) (px py : Q) (r : option MazeRenderer.t) (ty : string) :
  let e := Enemy.new i px py r ty in
  Enemy.id e = i /\ Enemy.x e = px /\ Enemy.y e = py /\ Enemy.isVulnerable e = false /\
  Enemy.type e = ty.
Proof.
  unfold Enemy.new, Enemy.updateGridPosition. cbn [Enemy.mazeRenderer Enemy.x Enemy.y].
  destruct r as [r|]; [|by repeat split].
  destruct (MazeRenderer.worldToGrid r px py) as [gx gy].
  destruct (MazeRenderer.gridToWorld r gx gy).
  by repeat split.
Qed.

Lemma applyDifficultyScaling_fields (c : AIController.t) (e : Enemy.t) :
  let e' := AIController.applyDifficultyScaling c e in
  Enemy.id e' = Enemy.id e /\ Enemy.x e' = Enemy.x e /\ Enemy.y e' = Enemy.y e /\
  Enemy.isVulnerable e' = Enemy.isVulnerable e /\ Enemy.type e' = Enemy.type e /\
  Enemy.speed e'
  = Qmax 0 (AIController.baseEnemySpeed
            + inject_Z (AIController.difficultyLevel c - 1) * AIController.speedIncreasePerLevel).
Proof.
  unfold AIController.applyDifficultyScaling.
  destruct (Z.ltb 3 (AIController.difficultyLevel c)); by repeat split.
Qed.

(** X11.  When the spawn points recorded so far are not in walls,
    [spawnEnemy] either adds nothing or appends one enemy: a new object,
    of the type drawn, not vulnerable, with the speed of the difficulty
    level, whose centre is on one of the spawn points and not in a wall;
    and the spawn points are still not in walls afterwards. *)
Theorem spawned_enemy_is_on_free_cell (c : AIController.t) (r : MazeRenderer.t) (random : Q) :
  AIController.mazeRenderer c = Some r ->
  spawnPointsFree c ->
  let c' := AIController.spawnEnemy c random in
  spawnPointsFree c' /\
  (AIController.enemies c' = AIController.enemies c \/
   exists e, AIController.enemies c' = AIController.enemies c ++ [e] /\
             Enemy.id e = AIController.nextId c /\
             AIController.nextId c' = S (AIController.nextId c) /\
             Enemy.type e = AIController.selectEnemyType random /\
             Enemy.isVulnerable e = false /\
             Enemy.speed e
             = Qmax 0 (AIController.baseEnemySpeed
                       + inject_Z (AIController.difficultyLevel c - 1)
                         * AIController.speedIncreasePerLevel) /\
             mkVec (Enemy.x e) (Enemy.y e) ∈ AIController.spawnPositions c' /\
             MazeRenderer.isWallAtPosition r (Enemy.x e) (Enemy.y e) = false).
Proof.
  intros Hr Hfree. unfold AIController.spawnEnemy. rewrite Hr.
  set (c1 := match AIController.spawnPositions c with
             | [] => AIController.calculateSpawnPositions c
             | _ :: _ => c
             end).
  assert (H1 : spawnPointsFree c1 /\ AIController.mazeRenderer c1 = Some r /\
               AIController.enemies c1 = AIController.enemies c /\
               AIController.nextId c1 = AIController.nextId c /\
               AIController.difficultyLevel c1 = AIController.difficultyLevel c).
  { unfold c1. destruct (AIController.spawnPositions c) eqn:Hsp; [|done].
    split; [by apply calculateSpawnPositions_free|].
    unfold AIController.calculateSpawnPositions. rewrite Hr.
    destruct (MazeRenderer.getMazeDimensions r).
    by destruct (List.filter _ _). }
  destruct H1 as (F1 & R1 & E1 & N1 & D1).
  destruct (AIController.spawnPositions c1) as [|first rest] eqn:Hsp.
  { split; [exact F1 | by left]. }
  cbn zeta.
  set (index := Z.to_nat _).
  set (spawnPos := default first ((first :: rest) !! index)).
  assert (Hin : spawnPos ∈ first :: rest).
  { unfold spawnPos. destruct ((first :: rest) !! index) as [pos|] eqn:Hl; simpl.
    - by apply list_elem_of_lookup_2 in Hl.
    - left. }
  set (enemy := Enemy.new _ _ _ _ _).
  destruct (enemy_new_fields (AIController.nextId c1) (vx spawnPos) (vy spawnPos) (Some r)
              (AIController.selectEnemyType random)) as (I & X & Y & V & T).
  destruct (applyDifficultyScaling_fields c1 enemy) as (I' & X' & Y' & V' & T' & S').
  fold enemy in I, X, Y, V, T.
  split.
  - intros r' pos. simpl. rewrite R1. intros [= <-] Hpos.
    apply (F1 r pos R1). by rewrite Hsp.
  - right. eexists. split; [by rewrite E1|]. simpl.
    rewrite I', X', Y', V', T', S', I, X, Y, V, T, N1, D1.
    repeat split; try done.
    + by destruct spawnPos.
    + apply (F1 r spawnPos R1). by rewrite Hsp.
Qed.

Lemma spawned_enemy_is_on_free_cell_witness :
  AIController.mazeRenderer sampleController = Some openRenderer /\
  spawnPointsFree sampleController /\
  let c' := AIController.spawnEnemy sampleController (1 # 2) in
  spawnPointsFree c' /\
  (AIController.enemies c' = AIController.enemies sampleController \/
   exists e, AIController.enemies c' = AIController.enemies sampleController ++ [e] /\
             Enemy.id e = AIController.nextId sampleController /\
             AIController.nextId c' = S (AIController.nextId sampleController) /\
             Enemy.type e = AIController.selectEnemyType (1 # 2) /\
             Enemy.isVulnerable e = false /\
             Enemy.speed e
             = Qmax 0 (AIController.baseEnemySpeed
                       + inject_Z (AIController.difficultyLevel sampleController - 1)
                         * AIController.speedIncreasePerLevel) /\
             mkVec (Enemy.x e) (Enemy.y e) ∈ AIController.spawnPositions c' /\
             MazeRenderer.isWallAtPosition openRenderer (Enemy.x e) (Enemy.y e) = false).
Proof.
  assert (H1 : AIController.mazeRenderer sampleController = Some openRenderer) by reflexivity.
  assert (H2 : spawnPointsFree sampleController).
  { intros r pos _ Hin. simpl in Hin. by apply elem_of_nil in Hin. }
  split; [exact H1|]. split; [exact H2|].
  exact (spawned_enemy_is_on_free_cell sampleController openRenderer (1 # 2) H1 H2).
Defined.

Example spawn_sample :
  List.map (fun e => (Enemy.x e, Enemy.y e, Enemy.type e))
           (AIController.enemies (AIController.spawnEnemy sampleController (1 # 2)))
  = [ (20 * 2, 20 * 2, "ambusher"%string) ].
Proof. vm_compute. reflexivity. Qed.

(** ** Further properties of the pellets *)

Lemma remaining_after_pass (ps : list Pellet.t) (ox oy radius : Q) :
  Forall (fun p => (0 < Pellet.points p)%Z) ps ->
  let '(ps', got) := PelletManager.checkPellets ps ox oy radius in
  (length (List.filter (fun p => negb (Pellet.isCollected p)) ps') + length got
   = length (List.filter (fun p => negb (Pellet.isCollected p)) ps))%nat /\
  Forall (fun p => (0 < Pellet.points p)%Z) ps' /\
  length ps' = length ps /\
  Forall (fun q => Pellet.collected q = true) got.
Proof.
  induction 1 as [|p ps Hp Hps IH]; [by repeat split|].
  cbn [PelletManager.checkPellets].
  destruct (PelletManager.checkPellets ps ox oy radius) as [ps' got].
  destruct IH as (IH1 & IH2 & IH3 & IH4).
  unfold Pellet.checkCollision, Pellet.collect, Pellet.isCollected in *.
  destruct (Pellet.collected p) eqn:Hc.
  - simpl. rewrite Hc. simpl. repeat split; try done; [by constructor | by f_equal].
  - destruct (distLt _ _ _).
    + destruct (Z.ltb_spec 0 (Pellet.points p)) as [_|Hle]; [|lia].
      simpl. rewrite Hc. simpl. repeat split.
      * lia.
      * by constructor.
      * by f_equal.
      * by constructor.
    + simpl. rewrite Hc. simpl. repeat split; try done; [lia | by constructor | by f_equal].
Qed.

(** X12.  For pellets with positive point values (every pellet that
    [Pellet.new] makes has 10 or 50), over any sequence of
    [checkCollisions] calls each returned pellet is one pellet fewer
    remaining: the number of pellets returned is the decrease of
    [getRemainingPelletCount] and the increase of [collectedPellets];
    every returned pellet is marked collected; no pellet is ever added or
    dropped from the array; and all pellets are collected at the end
    exactly when the number returned is the number that remained at the
    start. *)
Theorem pellet_counts_are_conserved (m : PelletManager.t) (ticks : list PelletTick) :
  Forall (fun p => (0 < Pellet.points p)%Z) (PelletManager.pellets m) ->
  let m' := fst (runPelletTicks m ticks) in
  let returned := snd (runPelletTicks m ticks) in
  (PelletManager.getRemainingPelletCount m' + pelletCount returned
   = PelletManager.getRemainingPelletCount m)%nat /\
  PelletManager.collectedPellets m'
  = (PelletManager.collectedPellets m + pelletCount returned)%nat /\
  Forall (fun q => Pellet.collected q = true) (concat returned) /\
  length (PelletManager.pellets m') = length (PelletManager.pellets m) /\
  PelletManager.getTotalPelletCount m' = PelletManager.getTotalPelletCount m /\
  (PelletManager.areAllPelletsCollected m' = true <->
   pelletCount returned = PelletManager.getRemainingPelletCount m).
Proof.
  intros Hpts.
  assert (H : (PelletManager.getRemainingPelletCount (fst (runPelletTicks m ticks))
               + pelletCount (snd (runPelletTicks m ticks))
               = PelletManager.getRemainingPelletCount m)%nat /\
              PelletManager.collectedPellets (fst (runPelletTicks m ticks))
              = (PelletManager.collectedPellets m
                 + pelletCount (snd (runPelletTicks m ticks)))%nat /\
              Forall (fun q => Pellet.collected q = true)
                     (concat (snd (runPelletTicks m ticks))) /\
              length (PelletManager.pellets (fst (runPelletTicks m ticks)))
              = length (PelletManager.pellets m) /\
              PelletManager.getTotalPelletCount (fst (runPelletTicks m ticks))
              = PelletManager.getTotalPelletCount m).
  { revert m Hpts. induction ticks as [|[[ox oy] radius] ticks IH]; intros m Hpts.
    - unfold pelletCount. simpl. repeat split; try done; lia.
    - cbn [runPelletTicks]. unfold PelletManager.checkCollisions.
      pose proof (remaining_after_pass (PelletManager.pellets m) ox oy radius Hpts) as Hpass.
      destruct (PelletManager.checkPellets (PelletManager.pellets m) ox oy radius)
        as [ps got].
      destruct Hpass as (P1 & P2 & P3 & P4).
      match goal with
      | |- context [runPelletTicks ?m1 ticks] =>
          specialize (IH m1 P2); destruct (runPelletTicks m1 ticks) as [m2 gots]
      end.
      destruct IH as (I1 & I2 & I3 & I4 & I5).
      unfold pelletCount, PelletManager.getRemainingPelletCount,
        PelletManager.getTotalPelletCount in *.
      cbn [fst snd concat PelletManager.pellets PelletManager.collectedPellets
           PelletManager.totalPellets] in *.
      rewrite length_app. repeat split; try lia; try congruence.
      by apply Forall_app. }
  destruct H as (H1 & H2 & H3 & H4 & H5).
  repeat split; try done.
  - unfold PelletManager.areAllPelletsCollected. intros Hz. apply Nat.eqb_eq in Hz. lia.
  - unfold PelletManager.areAllPelletsCollected. intros Hz. apply Nat.eqb_eq. lia.
Qed.

Lemma pellet_counts_are_conserved_witness :
  Forall (fun p => (0 < Pellet.points p)%Z) (PelletManager.pellets samplePellets) /\
  let m' := fst (runPelletTicks samplePellets sampleTicks) in
  let returned := snd (runPelletTicks samplePellets sampleTicks) in
  (PelletManager.getRemainingPelletCount m' + pelletCount returned
   = PelletManager.getRemainingPelletCount samplePellets)%nat /\
  PelletManager.collectedPellets m'
  = (PelletManager.collectedPellets samplePellets + pelletCount returned)%nat /\
  Forall (fun q => Pellet.collected q = true) (concat returned) /\
  length (PelletManager.pellets m') = length (PelletManager.pellets samplePellets) /\
  PelletManager.getTotalPelletCount m' = PelletManager.getTotalPelletCount samplePellets /\
  (PelletManager.areAllPelletsCollected m' = true <->
   pelletCount returned = PelletManager.getRemainingPelletCount samplePellets).
Proof.
  assert (H : Forall (fun p => (0 < Pellet.points p)%Z) (PelletManager.pellets samplePellets)).
  { repeat constructor. }
  split; [exact H|].
  exact (pellet_counts_are_conserved samplePellets sampleTicks H).
Defined.

(** ** Further properties of the generator *)

(** *** What the carving passes write *)

Section Carving.

Variable gen : MazeGenerator.t.
Hypothesis Hwidth : (5 <= MazeGenerator.width gen)%Z.
Hypothesis Hheight : (5 <= MazeGenerator.height gen)%Z.
Variable base : MazeGenerator.Maze.

Lemma insert_path_inside (maze : MazeGenerator.Maze) (x y : Z) :
  MazeGenerator.isValidPosition gen x y = true ->
  carving gen base maze -> carving gen base (<[(x, y) := MazeGenerator.PATH]> maze).
Proof.
  intros Hv (Hb & Hc & Hk). split; [by apply insert_inside|]. split.
  - intros c. unfold MazeGenerator.Maze in *. destruct (decide (c = (x, y))) as [->|Hne].
    + right. split; [exact Hv|]. by rewrite lookup_insert_eq.
    + rewrite lookup_insert_ne by congruence. apply Hc.
  - intros c Hp. unfold MazeGenerator.Maze in *. destruct (decide (c = (x, y))) as [->|Hne].
    + by rewrite lookup_insert_eq.
    + rewrite lookup_insert_ne by congruence. by apply Hk.
Qed.

Lemma writeCell_carved (maze m' : MazeGenerator.Maze) (x y : Z) :
  MazeGenerator.isValidPosition gen x y = true ->
  carving gen base maze ->
  MazeGenerator.writeCell gen maze x y MazeGenerator.PATH = MazeGenerator.Ok m' ->
  carving gen base m'.
Proof.
  intros Hv Hb Hw. rewrite (writeCell_inside gen _ _ _ _ Hv) in Hw.
  injection Hw as <-. by apply insert_path_inside.
Qed.

Lemma path_cell_inside_carved (maze : MazeGenerator.Maze) (x y : Z) :
  carving gen base maze ->
  MazeGenerator.isInBounds gen x y = true ->
  MazeGenerator.cellIs maze x y MazeGenerator.PATH = true ->
  MazeGenerator.isValidPosition gen x y = true.
Proof. intros (Hb & _). by apply path_cell_inside. Qed.

Lemma recursiveBacktrack_carved (depth : nat) :
  forall (maze : MazeGenerator.Maze) (x y : Z) (g : MazeGenerator.Rng)
         (m' : MazeGenerator.Maze) (g' : MazeGenerator.Rng),
    MazeGenerator.isValidPosition gen x y = true ->
    carving gen base maze ->
    MazeGenerator.recursiveBacktrack depth gen maze x y g = MazeGenerator.Ok (m', g') ->
    carving gen base m'.
Proof.
  induction depth as [|depth IH]; intros maze x y g m' g' Hxy Hb Hrun; [discriminate|].
  cbn [MazeGenerator.recursiveBacktrack] in Hrun.
  destruct (MazeGenerator.shuffleArray MazeGenerator.directions g) as [dirs g1] eqn:Hsh.
  assert (Hdirs : forall d, d ∈ dirs -> d ∈ MazeGenerator.directions).
  { intros d Hd. apply (shuffleArray_elem_of _ g). by rewrite Hsh. }
  clear Hsh. revert maze g1 Hb Hrun.
  induction dirs as [|d dirs IHd]; intros maze g1 Hb Hrun.
  - by injection Hrun as <- <-.
  - lazy beta iota fix in Hrun.
    assert (Hrest : forall d0, d0 ∈ dirs -> d0 ∈ MazeGenerator.directions).
    { intros d0 Hd0. apply Hdirs. by right. }
    destruct (MazeGenerator.isValidPosition gen (x + d.1) (y + d.2) &&
              MazeGenerator.cellIs maze (x + d.1) (y + d.2) MazeGenerator.WALL) eqn:Hc;
      [|by apply (IHd Hrest maze g1)].
    apply andb_true_iff in Hc as [Hv _].
    assert (Hw : MazeGenerator.isValidPosition gen (x + d.1 / 2) (y + d.2 / 2) = true).
    { apply valid_iff. apply valid_iff in Hxy, Hv.
      destruct (direction_cases d) as [ -> | [ -> | [ -> | -> ] ] ];
        [apply Hdirs; by left|..]; cbn [fst snd] in *;
        change (0 / 2)%Z with 0%Z; change (2 / 2)%Z with 1%Z;
        change (-2 / 2)%Z with (-1)%Z; lia. }
    rewrite (writeCell_inside gen _ _ _ _ Hv) in Hrun.
    unfold mbind at 1, MazeGenerator.result_bind at 1, MazeGenerator.bind at 1 in Hrun.
    rewrite (writeCell_inside gen _ _ _ _ Hw) in Hrun.
    unfold mbind at 1, MazeGenerator.result_bind at 1, MazeGenerator.bind at 1 in Hrun.
    unfold mbind at 1, MazeGenerator.result_bind at 1, MazeGenerator.bind at 1 in Hrun.
    destruct (MazeGenerator.recursiveBacktrack depth gen _ (x + d.1) (y + d.2) g1)
      as [[m3 g3]|msg] eqn:Hrec; [|discriminate].
    apply (IHd Hrest m3 g3); [|exact Hrun].
    apply (IH _ _ _ _ _ _ Hv) in Hrec; [exact Hrec|].
    by apply insert_path_inside, insert_path_inside.
Qed.

Lemma addRandomLoops_carved (maze m' : MazeGenerator.Maze) (g g' : MazeGenerator.Rng) :
  carving gen base maze ->
  MazeGenerator.addRandomLoops gen maze g = MazeGenerator.Ok (m', g') ->
  carving gen base m'.
Proof.
  intros Hb Hrun. unfold MazeGenerator.addRandomLoops in Hrun.
  apply (foldM_inv (fun s => carving gen base s.1)) in Hrun; [exact Hrun| |exact Hb].
  clear maze m' g g' Hb Hrun. intros [maze g] _ [m' g'] Hb _ Hf. cbv beta iota in Hf. cbn [fst] in *.
  pose proof (randomBelow_range g (MazeGenerator.width gen - 4)) as [Hx _].
  destruct (MazeGenerator.randomBelow g (MazeGenerator.width gen - 4)) as [rx g1].
  pose proof (randomBelow_range g1 (MazeGenerator.height gen - 4)) as [Hy _].
  destruct (MazeGenerator.randomBelow g1 (MazeGenerator.height gen - 4)) as [ry g2].
  cbn [fst] in *.
  unfold mbind, MazeGenerator.result_bind, MazeGenerator.bind in Hf.
  destruct (MazeGenerator.readCell gen maze (2 + rx) (2 + ry)) as [v|]; [|discriminate].
  destruct (bool_decide (v = Some MazeGenerator.WALL));
    [|by injection Hf as <- <-].
  destruct (2 <=? length (MazeGenerator.getPathNeighbors gen maze (2 + rx) (2 + ry)))%nat;
    [|by injection Hf as <- <-].
  destruct (MazeGenerator.writeCell gen maze (2 + rx) (2 + ry) MazeGenerator.PATH)
    as [m1|] eqn:Hw; [|discriminate].
  injection Hf as <- <-.
  apply (writeCell_carved maze m1 (2 + rx) (2 + ry));
    [apply valid_iff; lia | exact Hb | exact Hw].
Qed.

Lemma createWiderCorridors_carved (maze m' : MazeGenerator.Maze) (g g' : MazeGenerator.Rng) :
  carving gen base maze ->
  MazeGenerator.createWiderCorridors gen maze g = MazeGenerator.Ok (m', g') ->
  carving gen base m'.
Proof.
  intros Hb Hrun. unfold MazeGenerator.createWiderCorridors in Hrun.
  apply (foldM_inv (fun s => carving gen base s.1)) in Hrun; [exact Hrun| |exact Hb].
  clear maze m' g g' Hb Hrun. intros [maze g] _ [m' g'] Hb _ Hf.
  cbv beta iota zeta in Hf. cbn [fst] in *.
  pose proof (randomBelow_range g (MazeGenerator.width gen - 6)) as [Hx Hx'].
  destruct (MazeGenerator.randomBelow g (MazeGenerator.width gen - 6)) as [rx g1].
  pose proof (randomBelow_range g1 (MazeGenerator.height gen - 6)) as [Hy Hy'].
  destruct (MazeGenerator.randomBelow g1 (MazeGenerator.height gen - 6)) as [ry g2].
  cbn [fst] in *.
  destruct (MazeGenerator.hasNearbyPaths gen maze (2 + rx) (2 + ry) 2);
    [|by injection Hf as <- <-].
  unfold mbind at 1, MazeGenerator.result_bind at 1, MazeGenerator.bind at 1 in Hf.
  match type of Hf with
  | match ?run with _ => _ end = _ => destruct run as [m1|] eqn:Hin; [|discriminate]
  end.
  injection Hf as <- <-.
  apply (foldM_inv (carving gen base)) in Hin; [exact Hin| |exact Hb].
  intros mz [dx dy] mz' Hmz Hd Hw.
  apply list_elem_of_bind in Hd as (dx' & Hd & Hdx).
  apply list_elem_of_bind in Hd as (dy' & Hd & Hdy).
  apply list_elem_of_singleton in Hd. injection Hd as <- <-.
  apply elem_of_seqZ in Hdx, Hdy.
  destruct (Z.ltb_spec (2 + rx + dx) (MazeGenerator.width gen - 1));
    [|by injection Hw as <-].
  destruct (Z.ltb_spec (2 + ry + dy) (MazeGenerator.height gen - 1));
    [|by injection Hw as <-].
  cbn [andb] in Hw.
  apply (writeCell_carved mz mz' (2 + rx + dx) (2 + ry + dy));
    [apply valid_iff; lia | exact Hmz | exact Hw].
Qed.

Lemma createOpenAreas_carved (maze m' : MazeGenerator.Maze) (g g' : MazeGenerator.Rng) :
  carving gen base maze ->
  MazeGenerator.createOpenAreas gen maze g = MazeGenerator.Ok (m', g') ->
  carving gen base m'.
Proof.
  intros Hb Hrun. unfold MazeGenerator.createOpenAreas in Hrun.
  apply (foldM_inv (fun s => carving gen base s.1)) in Hrun; [exact Hrun| |exact Hb].
  clear maze m' g g' Hb Hrun. intros [maze g] _ [m' g'] Hb _ Hf.
  cbv beta iota zeta in Hf. cbn [fst] in *.
  destruct (MazeGenerator.randomBelow g (MazeGenerator.width gen - 8)) as [rx g1].
  destruct (MazeGenerator.randomBelow g1 (MazeGenerator.height gen - 8)) as [ry g2].
  destruct (MazeGenerator.randomBelow g2 2) as [rs g3].
  destruct (MazeGenerator.hasNearbyPaths gen maze (3 + rx) (3 + ry) 3);
    [|by injection Hf as <- <-].
  unfold mbind at 1, MazeGenerator.result_bind at 1, MazeGenerator.bind at 1 in Hf.
  match type of Hf with
  | match ?run with _ => _ end = _ => destruct run as [m1|] eqn:Hin; [|discriminate]
  end.
  injection Hf as <- <-.
  apply (foldM_inv (carving gen base)) in Hin; [exact Hin| |exact Hb].
  intros mz [dx dy] mz' Hmz _ Hw. cbv beta iota zeta in Hw.
  destruct (MazeGenerator.isValidPosition gen (3 + rx + dx) (3 + ry + dy)) eqn:Hv;
    [|by injection Hw as <-].
  by apply (writeCell_carved mz mz' (3 + rx + dx) (3 + ry + dy)).
Qed.

Lemma createEdgeTunnels_carved (maze m' : MazeGenerator.Maze) :
  carving gen base maze ->
  MazeGenerator.createEdgeTunnels gen maze = MazeGenerator.Ok m' ->
  carving gen base m'.
Proof.
  intros Hb Hrun. unfold MazeGenerator.createEdgeTunnels in Hrun.
  cbv zeta in Hrun.
  destruct (Z.ltb_spec 1 (MazeGenerator.height gen / 2)) as [Hlo|];
    [|by injection Hrun as <-].
  destruct (Z.ltb_spec (MazeGenerator.height gen / 2) (MazeGenerator.height gen - 2)) as [Hhi|];
    [|by injection Hrun as <-].
  cbn [andb] in Hrun.
  assert (Hcol : forall x, (1 <= x <= MazeGenerator.width gen - 2)%Z ->
            MazeGenerator.isValidPosition gen x (MazeGenerator.height gen / 2) = true).
  { intros x Hx. apply valid_iff. lia. }
  rewrite !writeCell_inside in Hrun by (apply Hcol; lia).
  unfold mbind, MazeGenerator.result_bind, MazeGenerator.bind in Hrun.
  rewrite !writeCell_inside in Hrun by (apply Hcol; lia).
  injection Hrun as <-.
  repeat apply insert_path_inside; try (apply Hcol; lia). exact Hb.
Qed.

Lemma addPacManFeatures_carved (maze m' : MazeGenerator.Maze) (g g' : MazeGenerator.Rng) :
  carving gen base maze ->
  MazeGenerator.addPacManFeatures gen maze g = MazeGenerator.Ok (m', g') ->
  carving gen base m'.
Proof.
  intros Hb Hrun. unfold MazeGenerator.addPacManFeatures in Hrun.
  unfold mbind, MazeGenerator.result_bind, MazeGenerator.bind in Hrun.
  destruct (MazeGenerator.addRandomLoops gen maze g) as [[m1 g1]|] eqn:H1; [|discriminate].
  destruct (MazeGenerator.createWiderCorridors gen m1 g1) as [[m2 g2]|] eqn:H2; [|discriminate].
  destruct (MazeGenerator.createOpenAreas gen m2 g2) as [[m3 g3]|] eqn:H3; [|discriminate].
  destruct (MazeGenerator.createEdgeTunnels gen m3) as [m4|] eqn:H4; [|discriminate].
  injection Hrun as <- <-.
  apply addRandomLoops_carved in H1; [|exact Hb].
  apply createWiderCorridors_carved in H2; [|exact H1].
  apply createOpenAreas_carved in H3; [|exact H2].
  by apply createEdgeTunnels_carved in H4.
Qed.

(** A path cell of a grid with an intact border lies strictly inside. *)

Lemma tryConnectToExistingPaths_carved (maze m' : MazeGenerator.Maze) (x y : Z) :
  MazeGenerator.isValidPosition gen x y = true ->
  carving gen base maze ->
  MazeGenerator.tryConnectToExistingPaths gen maze x y = MazeGenerator.Ok m' ->
  carving gen base m'.
Proof.
  intros Hxy Hb Hrun. unfold MazeGenerator.tryConnectToExistingPaths in Hrun.
  cbv zeta in Hrun.
  match type of Hrun with
  | match ?found with _ => _ end = _ => destruct found as [o|] eqn:Hfind
  end; [|by injection Hrun as <-].
  apply List.find_some in Hfind as [_ Ho].
  apply andb_true_iff in Ho as [Ho _]. apply andb_true_iff in Ho as [_ Ho].
  apply andb_true_iff in Ho as [Hin Hp].
  pose proof (path_cell_inside_carved maze _ _ Hb Hin Hp) as Hc.
  apply (writeCell_carved maze m' (x + o.1 / 2) (y + o.2 / 2));
    [|exact Hb|exact Hrun].
  apply valid_iff. apply valid_iff in Hxy, Hc.
  pose proof (Z.div_mod o.1 2 ltac:(lia)). pose proof (Z.mod_pos_bound o.1 2 ltac:(lia)).
  pose proof (Z.div_mod o.2 2 ltac:(lia)). pose proof (Z.mod_pos_bound o.2 2 ltac:(lia)).
  lia.
Qed.

Lemma corridorFrom_carved (steps : nat) (startX startY : Z) (direction : Cell) (len : Z) :
  forall (maze m' : MazeGenerator.Maze) (i : Z),
    carving gen base maze ->
    MazeGenerator.corridorFrom steps gen maze startX startY direction i len
    = MazeGenerator.Ok m' ->
    carving gen base m'.
Proof.
  induction steps as [|steps IH]; intros maze m' i Hb Hrun.
  - by injection Hrun as <-.
  - cbn [MazeGenerator.corridorFrom] in Hrun. cbv zeta in Hrun.
    destruct (MazeGenerator.isValidPosition gen (startX + direction.1 * i)
                (startY + direction.2 * i)) eqn:Hv; [|by injection Hrun as <-].
    rewrite (writeCell_inside gen _ _ _ _ Hv) in Hrun.
    unfold mbind at 1, MazeGenerator.result_bind at 1, MazeGenerator.bind at 1 in Hrun.
    unfold mbind at 1, MazeGenerator.result_bind at 1, MazeGenerator.bind at 1 in Hrun.
    match type of Hrun with
    | match ?step with _ => _ end = _ => destruct step as [m2|] eqn:Hstep; [|discriminate]
    end.
    apply (IH m2 m' (i + 1)%Z); [|exact Hrun].
    assert (Hb1 : carving gen base
                    (<[(startX + direction.1 * i, startY + direction.2 * i)%Z
                       := MazeGenerator.PATH]> maze)) by (by apply insert_path_inside).
    destruct (i =? len)%Z.
    + by apply (tryConnectToExistingPaths_carved _ _ _ _ Hv Hb1).
    + by injection Hstep as <-.
Qed.

Lemma createCorridor_carved (maze m' : MazeGenerator.Maze) (startX startY : Z)
    (direction : Cell) (len : nat) :
  carving gen base maze ->
  MazeGenerator.createCorridor gen maze startX startY direction len = MazeGenerator.Ok m' ->
  carving gen base m'.
Proof. apply corridorFrom_carved. Qed.

Lemma createStartingPaths_carved (maze m' : MazeGenerator.Maze) (startX startY : Z)
    (g g' : MazeGenerator.Rng) :
  carving gen base maze ->
  MazeGenerator.createStartingPaths gen maze startX startY g = MazeGenerator.Ok (m', g') ->
  carving gen base m'.
Proof.
  intros Hb Hrun. unfold MazeGenerator.createStartingPaths in Hrun. cbv zeta in Hrun.
  destruct (MazeGenerator.shuffleArray MazeGenerator.unitDirections g) as [dirs g1].
  unfold mbind at 1, MazeGenerator.result_bind at 1, MazeGenerator.bind at 1 in Hrun.
  match type of Hrun with
  | match ?run with _ => _ end = _ => destruct run as [[m n]|] eqn:Hin; [|discriminate]
  end.
  injection Hrun as <- <-.
  apply (foldM_inv (fun s => carving gen base s.1)) in Hin; [exact Hin| |exact Hb].
  intros [mz k] d [mz' k'] Hmz _ Hstep. cbv beta iota zeta in Hstep. cbn [fst] in *.
  destruct (2 <=? k)%nat; [by injection Hstep as <- <-|].
  destruct (MazeGenerator.isInBounds gen (startX + d.1) (startY + d.2) &&
            MazeGenerator.cellIs mz (startX + d.1) (startY + d.2) MazeGenerator.WALL);
    [|by injection Hstep as <- <-].
  unfold mbind, MazeGenerator.result_bind, MazeGenerator.bind in Hstep.
  destruct (MazeGenerator.createCorridor gen mz startX startY d 3) as [m1|] eqn:Hc;
    [|discriminate].
  injection Hstep as <- <-. by apply createCorridor_carved in Hc.
Qed.

Lemma createStartingArea_carved (maze m' : MazeGenerator.Maze) (startX startY : Z) :
  MazeGenerator.isValidPosition gen startX startY = true ->
  carving gen base maze ->
  MazeGenerator.createStartingArea gen maze startX startY = MazeGenerator.Ok m' ->
  carving gen base m'.
Proof.
  intros Hs Hb Hrun. unfold MazeGenerator.createStartingArea in Hrun.
  unfold mbind at 1, MazeGenerator.result_bind at 1, MazeGenerator.bind at 1 in Hrun.
  match type of Hrun with
  | match ?run with _ => _ end = _ => destruct run as [m1|] eqn:Hin; [|discriminate]
  end.
  apply (foldM_inv (carving gen base)) in Hin; [| |exact Hb].
  - apply (foldM_inv (carving gen base)) in Hrun; [exact Hrun| |exact Hin].
    intros mz d mz' Hmz Hd Hstep. cbv beta iota zeta in Hstep.
    destruct (Z.ltb_spec 1 (startX + d.1)); [|by injection Hstep as <-].
    destruct (Z.ltb_spec (startX + d.1) (MazeGenerator.width gen - 2));
      [|by injection Hstep as <-].
    destruct (Z.ltb_spec 1 (startY + d.2)); [|by injection Hstep as <-].
    destruct (Z.ltb_spec (startY + d.2) (MazeGenerator.height gen - 2));
      [|by injection Hstep as <-].
    cbn [andb] in Hstep.
    assert (Hp : MazeGenerator.isValidPosition gen (startX + d.1) (startY + d.2) = true)
      by (apply valid_iff; lia).
    assert (Hm : MazeGenerator.isValidPosition gen (startX + d.1 / 2) (startY + d.2 / 2)
                 = true).
    { apply valid_iff. apply valid_iff in Hs.
      rewrite !elem_of_cons, elem_of_nil in Hd.
      destruct Hd as [ -> | [ -> | [ -> | [ -> | [] ] ] ] ]; cbn [fst snd] in *;
        change (0 / 2)%Z with 0%Z; change (2 / 2)%Z with 1%Z;
        change (-2 / 2)%Z with (-1)%Z; lia. }
    rewrite (writeCell_inside gen _ _ _ _ Hp) in Hstep.
    unfold mbind at 1, MazeGenerator.result_bind at 1, MazeGenerator.bind at 1 in Hstep.
    rewrite (writeCell_inside gen _ _ _ _ Hm) in Hstep.
    unfold mbind at 1, MazeGenerator.result_bind at 1, MazeGenerator.bind at 1 in Hstep.
    apply createCorridor_carved in Hstep; [exact Hstep|].
    by apply insert_path_inside, insert_path_inside.
  - intros mz [dx dy] mz' Hmz _ Hstep. cbv beta iota zeta in Hstep.
    destruct (Z.ltb_spec 1 (startX + dx)); [|by injection Hstep as <-].
    destruct (Z.ltb_spec (startX + dx) (MazeGenerator.width gen - 2));
      [|by injection Hstep as <-].
    destruct (Z.ltb_spec 1 (startY + dy)); [|by injection Hstep as <-].
    destruct (Z.ltb_spec (startY + dy) (MazeGenerator.height gen - 2));
      [|by injection Hstep as <-].
    cbn [andb] in Hstep.
    apply (writeCell_carved mz mz' (startX + dx) (startY + dy));
      [apply valid_iff; lia | exact Hmz | exact Hstep].
Qed.

Lemma ensureStartingChoices_carved (maze m' : MazeGenerator.Maze) (g g' : MazeGenerator.Rng) :
  carving gen base maze ->
  MazeGenerator.ensureStartingChoices gen maze g = MazeGenerator.Ok (m', g') ->
  carving gen base m'.
Proof.
  intros Hb Hrun. unfold MazeGenerator.ensureStartingChoices in Hrun.
  destruct (MazeGenerator.getAccessiblePositions gen maze) as [|startPos rest] eqn:Hcells;
    [by injection Hrun as <- <-|].
  cbv zeta in Hrun.
  assert (Hstart : isPathCell gen maze startPos = true).
  { apply elem_of_pathCellSet. unfold pathCellSet. rewrite Hcells.
    apply elem_of_list_to_set. left. }
  unfold isPathCell in Hstart. apply andb_true_iff in Hstart as [Hin Hp].
  unfold mbind at 1, MazeGenerator.result_bind at 1, MazeGenerator.bind at 1 in Hrun.
  match type of Hrun with
  | match ?run with _ => _ end = _ => destruct run as [[m1 g1]|] eqn:Hpaths; [|discriminate]
  end.
  unfold mbind, MazeGenerator.result_bind, MazeGenerator.bind in Hrun.
  destruct (MazeGenerator.createStartingArea gen m1 startPos.1 startPos.2) as [m2|] eqn:Harea;
    [|discriminate].
  injection Hrun as <- <-.
  apply createStartingArea_carved in Harea; [exact Harea| |].
  - by apply (path_cell_inside_carved maze).
  - destruct (length (MazeGenerator.getPathNeighbors gen maze startPos.1 startPos.2) <? 2)%nat.
    + by apply createStartingPaths_carved in Hpaths.
    + by injection Hpaths as <- <-.
Qed.

End Carving.

Lemma carve_carved (gen : MazeGenerator.t) (depth : nat) (g g' : MazeGenerator.Rng)
    (maze : MazeGenerator.Maze) :
  (5 <= MazeGenerator.width gen)%Z -> (5 <= MazeGenerator.height gen)%Z ->
  MazeGenerator.carve gen depth g = MazeGenerator.Ok (maze, g') ->
  carving gen (seedMaze gen) maze.
Proof.
  intros Hw Hh. unfold MazeGenerator.carve. cbv zeta.
  assert (Hone : MazeGenerator.isValidPosition gen 1 1 = true) by (apply valid_iff; lia).
  rewrite (writeCell_inside gen _ _ _ _ Hone).
  unfold mbind, MazeGenerator.result_bind, MazeGenerator.bind.
  destruct (MazeGenerator.recursiveBacktrack depth gen _ 1 1 g) as [[m1 g1]|] eqn:H1;
    [|discriminate].
  destruct (MazeGenerator.addPacManFeatures gen m1 g1) as [[m2 g2]|] eqn:H2; [|discriminate].
  intros H3.
  assert (Hseed : carving gen (seedMaze gen) (seedMaze gen)).
  { split; [|split].
    - apply insert_inside; [exact Hone|apply initializeMaze_border].
    - intros c. by left.
    - by intros c Hc. }
  apply recursiveBacktrack_carved with (base := seedMaze gen) in H1; try assumption.
  apply addPacManFeatures_carved with (base := seedMaze gen) in H2; try assumption.
  apply ensureStartingChoices_carved with (base := seedMaze gen) in H3; assumption.
Qed.

Lemma initializeMaze_outside (gen : MazeGenerator.t) (c : Cell) :
  MazeGenerator.isInBounds gen c.1 c.2 = false ->
  MazeGenerator.initializeMaze gen !! c = None.
Proof.
  intros Hout. unfold MazeGenerator.initializeMaze, MazeGenerator.Maze.
  apply not_elem_of_list_to_map. intros Hin.
  apply list_elem_of_fmap in Hin as ([c' v] & -> & Hin).
  apply list_elem_of_In, in_map_iff in Hin as (c0 & [= <- <-] & Hin).
  apply list_elem_of_In, elem_of_allCells in Hin. cbn [fst snd] in *. congruence.
Qed.

Lemma seedMaze_lookup (gen : MazeGenerator.t) (c : Cell) :
  c <> (1, 1)%Z ->
  seedMaze gen !! c = if MazeGenerator.isInBounds gen c.1 c.2
                      then Some MazeGenerator.WALL else None.
Proof.
  intros Hne. unfold seedMaze, MazeGenerator.Maze.
  rewrite lookup_insert_ne by congruence.
  destruct (MazeGenerator.isInBounds gen c.1 c.2) eqn:Hb.
  - apply initializeMaze_lookup, elem_of_allCells, Hb.
  - by apply initializeMaze_outside.
Qed.

Lemma filter_none {A : Type} (f : A -> bool) (l : list A) :
  (forall a, a ∈ l -> f a = false) -> List.filter f l = [].
Proof.
  induction l as [|a l IH]; intros H; [reflexivity|].
  simpl. rewrite (H a) by left. apply IH. intros b Hb. apply H. by right.
Qed.

(** The shape of a generated grid, for the properties below. *)
Lemma generate_grid_facts (gen : MazeGenerator.t) (depth : nat)
    (g : MazeGenerator.Rng) (maze : MazeGenerator.Maze) :
  (5 <= MazeGenerator.width gen)%Z ->
  (5 <= MazeGenerator.height gen)%Z ->
  MazeGenerator.generate gen depth g = MazeGenerator.Ok maze ->
  (forall x y : Z,
     if MazeGenerator.isInBounds gen x y
     then maze !! (x, y) = Some MazeGenerator.WALL \/ maze !! (x, y) = Some MazeGenerator.PATH
     else maze !! (x, y) = None) /\
  maze !! (1, 1)%Z = Some MazeGenerator.PATH /\
  head (MazeGenerator.getAccessiblePositions gen maze) = Some (1, 1)%Z.
Proof.
  intros Hw Hh Hgen.
  assert (Hcarved : carving gen (seedMaze gen) maze).
  { revert Hgen. unfold MazeGenerator.generate.
    unfold mbind, MazeGenerator.result_bind, MazeGenerator.bind.
    destruct (MazeGenerator.carve gen depth g) as [[m g']|] eqn:Hcarve; [|discriminate].
    destruct (MazeGenerator.validateMaze gen m) as [[]|]; [|discriminate].
    intros [= <-]. by apply carve_carved in Hcarve. }
  destruct Hcarved as (Hborder & Hfrom & Hkeep).
  assert (Hstart : maze !! (1, 1)%Z = Some MazeGenerator.PATH).
  { apply Hkeep. unfold seedMaze, MazeGenerator.Maze. by rewrite lookup_insert_eq. }
  assert (Hshape : forall x y : Z,
     if MazeGenerator.isInBounds gen x y
     then maze !! (x, y) = Some MazeGenerator.WALL \/ maze !! (x, y) = Some MazeGenerator.PATH
     else maze !! (x, y) = None).
  { intros x y. destruct (decide ((x, y) = (1, 1)%Z)) as [[= -> ->]|Hne].
    - replace (MazeGenerator.isInBounds gen 1 1) with true; [by right|].
      symmetry. apply in_bounds_iff. lia.
    - destruct (Hfrom (x, y)) as [Heq|[Hv Hp]].
      + pose proof (seedMaze_lookup gen (x, y) Hne) as Hs. cbn [fst snd] in Hs.
        pose proof (eq_trans Heq Hs) as Hm.
        destruct (MazeGenerator.isInBounds gen x y); [left|]; exact Hm.
      + simpl in Hv. replace (MazeGenerator.isInBounds gen x y) with true; [by right|].
        symmetry. apply in_bounds_iff. apply valid_iff in Hv. lia. }
  split; [exact Hshape|]. split; [exact Hstart|].
  unfold MazeGenerator.getAccessiblePositions, MazeGenerator.allCells.
  rewrite (seqZ_cons 0 (MazeGenerator.height gen)) by lia.
  rewrite (seqZ_cons (Z.succ 0) (Z.pred (MazeGenerator.height gen))) by lia.
  cbn [mbind list_bind]. rewrite !List.filter_app.
  rewrite (filter_none _ (_ ≫= _)).
  2:{ intros c Hc. apply list_elem_of_bind in Hc as (x & Hc & Hx).
      apply list_elem_of_singleton in Hc as ->. apply elem_of_seqZ in Hx.
      unfold MazeGenerator.cellIs. cbn [fst snd]. apply bool_decide_eq_false_2.
      intros Hp. assert (Hwall : maze !! (x, 0%Z) = Some MazeGenerator.WALL).
      { apply Hborder, border_iff. lia. }
      pose proof (eq_trans (eq_sym Hwall) Hp). discriminate. }
  rewrite (seqZ_cons 0 (MazeGenerator.width gen)) by lia.
  rewrite (seqZ_cons (Z.succ 0) (Z.pred (MazeGenerator.width gen))) by lia.
  cbn [mbind list_bind app List.filter fst snd].
  unfold MazeGenerator.cellIs at 1. cbn [fst snd].
  rewrite (bool_decide_eq_false_2 (maze !! (0%Z, Z.succ 0) = Some MazeGenerator.PATH)).
  2:{ intros Hp. assert (Hwall : maze !! (0%Z, Z.succ 0) = Some MazeGenerator.WALL).
      { apply Hborder, border_iff. lia. }
      pose proof (eq_trans (eq_sym Hwall) Hp). discriminate. }
  unfold MazeGenerator.cellIs at 1. cbn [fst snd].
  change (Z.succ 0) with 1%Z.
  rewrite (bool_decide_eq_true_2 _ Hstart). reflexivity.
Qed.

(** X19.  From width 5 and height 5 on, a grid that [generate] returns
    is a full rectangle of wall and path entries: every cell within the
    bounds holds [WALL] or [PATH] and nothing is stored outside the
    bounds.  The cell (1, 1) is a path cell, and it is the first entry of
    [getAccessiblePositions], which is where the engine puts the player. *)
Theorem generated_grid_shape (gen : MazeGenerator.t) (depth : nat)
    (g : MazeGenerator.Rng) (maze : MazeGenerator.Maze) :
  (5 <= MazeGenerator.width gen)%Z ->
  (5 <= MazeGenerator.height gen)%Z ->
  MazeGenerator.generate gen depth g = MazeGenerator.Ok maze ->
  (forall x y : Z,
     if MazeGenerator.isInBounds gen x y
     then maze !! (x, y) = Some MazeGenerator.WALL \/ maze !! (x, y) = Some MazeGenerator.PATH
     else maze !! (x, y) = None) /\
  maze !! (1, 1)%Z = Some MazeGenerator.PATH /\
  head (MazeGenerator.getAccessiblePositions gen maze) = Some (1, 1)%Z.
Proof. apply generate_grid_facts. Qed.

Lemma generated_grid_shape_witness :
  (5 <= MazeGenerator.width sampleGenerator)%Z /\
  (5 <= MazeGenerator.height sampleGenerator)%Z /\
  MazeGenerator.generate sampleGenerator 100 steppingRng = MazeGenerator.Ok sampleGenerated /\
  (forall x y : Z,
     if MazeGenerator.isInBounds sampleGenerator x y
     then sampleGenerated !! (x, y) = Some MazeGenerator.WALL \/
          sampleGenerated !! (x, y) = Some MazeGenerator.PATH
     else sampleGenerated !! (x, y) = None) /\
  sampleGenerated !! (1, 1)%Z = Some MazeGenerator.PATH /\
  head (MazeGenerator.getAccessiblePositions sampleGenerator sampleGenerated) = Some (1, 1)%Z.
Proof.
  assert (H1 : (5 <= MazeGenerator.width sampleGenerator)%Z) by (vm_compute; discriminate).
  assert (H2 : (5 <= MazeGenerator.height sampleGenerator)%Z) by (vm_compute; discriminate).
  assert (H3 : MazeGenerator.generate sampleGenerator 100 steppingRng
               = MazeGenerator.Ok sampleGenerated) by (vm_compute; reflexivity).
  split; [exact H1|]. split; [exact H2|]. split; [exact H3|].
  exact (generated_grid_shape sampleGenerator 100 steppingRng sampleGenerated H1 H2 H3).
Defined.

(** *** The start of a level *)

Lemma mazeRows_entry (gen : MazeGenerator.t) (maze : MazeGenerator.Maze) (x y : Z) :
  (0 <= x < MazeGenerator.width gen)%Z -> (0 <= y < MazeGenerator.height gen)%Z ->
  MazeRenderer.cellIsOne (GameLevel.mazeRows gen maze) x y
  = Z.eqb (default MazeGenerator.WALL (maze !! (x, y))) 1.
Proof.
  intros Hx Hy. unfold MazeRenderer.cellIsOne, GameLevel.mazeRows.
  change (@List.map) with (@fmap list _).
  rewrite list_lookup_fmap, (lookup_seqZ_lt 0 (MazeGenerator.height gen) (Z.to_nat y)) by lia.
  cbn [fmap option_fmap option_map].
  rewrite list_lookup_fmap, (lookup_seqZ_lt 0 (MazeGenerator.width gen) (Z.to_nat x)) by lia.
  cbn [fmap option_fmap option_map].
  rewrite !Z.add_0_l, !Z2Nat.id by lia. reflexivity.
Qed.

Lemma mazeRows_size (gen : MazeGenerator.t) (maze : MazeGenerator.Maze) (r : MazeRenderer.t) :
  (0 < MazeGenerator.width gen)%Z -> (0 < MazeGenerator.height gen)%Z ->
  MazeRenderer.maze r = Some (GameLevel.mazeRows gen maze) ->
  MazeRenderer.mazeWidth r = MazeGenerator.width gen /\
  MazeRenderer.mazeHeight r = MazeGenerator.height gen.
Proof.
  intros Hw Hh Hr. unfold MazeRenderer.mazeWidth, MazeRenderer.mazeHeight. rewrite Hr.
  unfold GameLevel.mazeRows. split.
  - rewrite (seqZ_cons 0 (MazeGenerator.height gen)) by lia. cbn [List.map].
    rewrite length_map, length_seqZ. lia.
  - rewrite length_map, length_seqZ. lia.
Qed.

(** The start position in a grid whose first path cell is (1, 1). *)
Lemma resetPlayerPosition_clear (gen : MazeGenerator.t) (maze : MazeGenerator.Maze)
    (r : MazeRenderer.t) (p : Player.t) :
  (5 <= MazeGenerator.width gen)%Z ->
  (5 <= MazeGenerator.height gen)%Z ->
  maze !! (1, 1)%Z = Some MazeGenerator.PATH ->
  head (MazeGenerator.getAccessiblePositions gen maze) = Some (1, 1)%Z ->
  MazeRenderer.maze r = Some (GameLevel.mazeRows gen maze) ->
  Player.size < MazeRenderer.cellSize r ->
  Player.mazeRenderer p = Some r ->
  let p' := GameLevel.resetPlayerPosition gen maze r p in
  (Player.x p', Player.y p') = MazeRenderer.gridToWorld r 1 1 /\
  MazeRenderer.worldToGrid r (Player.x p') (Player.y p') = (1, 1)%Z /\
  playerClear p' /\
  Player.mazeRenderer p' = Some r /\ Player.speed p' = Player.speed p.
Proof.
  intros Hw Hh Hstart Hhead Hr Hcs Hp.
  assert (Hc : 0 < MazeRenderer.cellSize r).
  { unfold Player.size in Hcs. lra. }
  unfold GameLevel.resetPlayerPosition.
  destruct (MazeGenerator.getAccessiblePositions gen maze) as [|c rest]; [discriminate|].
  injection Hhead as ->. cbn [fst snd].
  unfold MazeRenderer.gridToWorld, Player.setPosition.
  cbn [Player.x Player.y Player.withPosition Player.mazeRenderer Player.speed].
  split; [reflexivity|]. split; [|split; [|by split]].
  - unfold MazeRenderer.worldToGrid. f_equal; apply Qdiv_bounds; try exact Hc;
      rewrite ?inject_Z_succ; lraQ.
  - unfold playerClear, Player.canMoveToPosition.
    cbn [Player.x Player.y Player.withPosition Player.mazeRenderer]. rewrite Hp.
    apply cornersFree_spec.
    assert (Hfree : forall a b,
              MazeRenderer.worldToGrid r a b = (1, 1)%Z ->
              MazeRenderer.isWallAtPosition r a b = false).
    { intros a b Hab. unfold MazeRenderer.isWallAtPosition. rewrite Hr, Hab.
      destruct (mazeRows_size gen maze r ltac:(lia) ltac:(lia) Hr) as [-> ->].
      destruct (Z.ltb_spec 1 0); [lia|].
      destruct (Z.geb_spec 1 (MazeGenerator.width gen)); [lia|].
      destruct (Z.geb_spec 1 (MazeGenerator.height gen)); [lia|]. cbn [orb].
      rewrite (mazeRows_entry gen maze 1 1) by lia. by rewrite Hstart. }
    unfold Player.size in *.
    destruct (center_corner_cell (MazeRenderer.cellSize r) 1 Hc Hcs) as [Hlo Hhi].
    repeat split; apply Hfree; unfold MazeRenderer.worldToGrid; by rewrite ?Hlo, ?Hhi.
Qed.



(** ** Further properties of the input, the player and the camera *)

(** *** Keyboard input *)

Lemma sameDirection_eq (a b : Player.Input) :
  InputHandler.sameDirection a b = true <-> a = b.
Proof. destruct a, b; simpl; split; congruence. Qed.

(** What one pass of [updatePlayerDirection] does, given the keys. *)
Lemma updatePlayerDirection_spec (h : InputHandler.t) :
  let r := InputHandler.updatePlayerDirection h in
  InputHandler.keys (fst r) = InputHandler.keys h /\
  (forall d, snd r = Some d ->
     held h d = true /\ held h (opposite d) = false /\
     InputHandler.lastDirection h <> Some d /\
     InputHandler.lastDirection (fst r) = Some d) /\
  (snd r = None -> anyHeld h = true ->
     InputHandler.lastDirection (fst r) = InputHandler.lastDirection h) /\
  (forall d, anyHeld h = true -> InputHandler.lastDirection h = Some d -> snd r <> Some d).
Proof.
  unfold InputHandler.updatePlayerDirection, anyHeld, held, InputHandler.isLast. cbn zeta.
  set (up := InputHandler.pressed h "ArrowUp" || InputHandler.pressed h "KeyW").
  set (down := InputHandler.pressed h "ArrowDown" || InputHandler.pressed h "KeyS").
  set (left := InputHandler.pressed h "ArrowLeft" || InputHandler.pressed h "KeyA").
  set (right := InputHandler.pressed h "ArrowRight" || InputHandler.pressed h "KeyD").
  assert (Hlast : forall d,
            (match InputHandler.lastDirection h with
             | Some l => InputHandler.sameDirection d l
             | None => false
             end = true) <-> InputHandler.lastDirection h = Some d).
  { intros d. destruct (InputHandler.lastDirection h) as [l|]; [|split; discriminate].
    rewrite sameDirection_eq. split; congruence. }
  destruct up, down, left, right; cbn [andb negb orb];
    repeat match goal with
           | |- context [negb (match InputHandler.lastDirection h with _ => _ end)] =>
               let E := fresh "E" in
               destruct (match InputHandler.lastDirection h with
                         | Some l => InputHandler.sameDirection _ l
                         | None => false
                         end) eqn:E; cbn [negb]
           end;
    cbn [fst snd InputHandler.keys InputHandler.lastDirection];
    (split; [reflexivity|]; split; [|split];
     [ intros d Hd; try discriminate Hd; injection Hd as <-;
       repeat split; try done; intros Hl; apply Hlast in Hl; congruence
     | intros Hn Hh; try discriminate; reflexivity
     | intros d Hh Hl Hs; try discriminate; injection Hs as <-;
       apply Hlast in Hl; congruence ]).
Qed.

Lemma pressed_keys (h h' : InputHandler.t) (code : string) :
  InputHandler.keys h' = InputHandler.keys h ->
  InputHandler.pressed h' code = InputHandler.pressed h code.
Proof. unfold InputHandler.pressed. by intros ->. Qed.

Lemma held_keys (h h' : InputHandler.t) (d : Player.Input) :
  InputHandler.keys h' = InputHandler.keys h -> held h' d = held h d.
Proof. intros H. unfold held. by destruct d; rewrite !(pressed_keys h h' _ H). Qed.

Lemma anyHeld_keys (h h' : InputHandler.t) :
  InputHandler.keys h' = InputHandler.keys h -> anyHeld h' = anyHeld h.
Proof. intros H. unfold anyHeld. by rewrite !(held_keys h h' _ H). Qed.

Lemma keyStep_keyed (h : InputHandler.t) (ev : KeyEvent) :
  keyStep h ev = InputHandler.updatePlayerDirection (keyed h ev).
Proof. by destruct ev. Qed.

Lemma keyed_last (h : InputHandler.t) (ev : KeyEvent) :
  InputHandler.lastDirection (keyed h ev) = InputHandler.lastDirection h.
Proof. by destruct ev. Qed.

Lemma quiet_keeps_last (evs : list KeyEvent) (h : InputHandler.t) :
  Forall quiet (keyTrace h evs) ->
  InputHandler.lastDirection (afterKeys h evs) = InputHandler.lastDirection h.
Proof.
  revert h. induction evs as [|ev evs IH]; intros h Hq; [reflexivity|].
  cbn [keyTrace] in Hq. apply Forall_cons in Hq as [[Hnone Hheld] Hq].
  unfold afterKeys in *. cbn [foldl]. rewrite (IH _ Hq).
  rewrite keyStep_keyed in *.
  destruct (updatePlayerDirection_spec (keyed h ev)) as (Hk & _ & Hsame & _).
  rewrite Hsame; [apply keyed_last | exact Hnone |].
  by rewrite <- (anyHeld_keys _ _ Hk).
Qed.

(** X13.  A direction that the handler sends to the engine has one of its
    keys down and none of the opposite direction's; and once a direction
    has been sent, it is not sent again by a later key event as long as
    the events in between send nothing and leave some direction key down
    (so key repeats and other keys do not resend it). *)
Theorem direction_is_sent_once (h : InputHandler.t) (first : KeyEvent)
    (between : list KeyEvent) (next : KeyEvent) (d : Player.Input) :
  snd (keyStep h first) = Some d ->
  Forall quiet (keyTrace (fst (keyStep h first)) between) ->
  held (fst (keyStep h first)) d = true /\
  held (fst (keyStep h first)) (opposite d) = false /\
  snd (keyStep (afterKeys (fst (keyStep h first)) between) next) <> Some d.
Proof.
  intros Hsent Hquiet.
  pose proof (quiet_keeps_last between _ Hquiet) as Hlast.
  rewrite keyStep_keyed in *.
  destruct (updatePlayerDirection_spec (keyed h first)) as (Hk & Hs & _ & _).
  destruct (Hs d Hsent) as (Hheld & Hopp & _ & Hd).
  rewrite !(held_keys _ _ _ Hk). split; [exact Hheld|]. split; [exact Hopp|].
  set (h2 := afterKeys _ between) in *.
  intros Hagain. rewrite keyStep_keyed in Hagain.
  destruct (updatePlayerDirection_spec (keyed h2 next)) as (_ & Hs2 & _ & _).
  destruct (Hs2 d Hagain) as (_ & _ & Hne & _).
  rewrite keyed_last, Hlast, Hd in Hne. by apply Hne.
Qed.

Lemma direction_is_sent_once_witness :
  snd (keyStep InputHandler.new (KeyDown "ArrowUp")) = Some Player.Up /\
  Forall quiet (keyTrace (fst (keyStep InputHandler.new (KeyDown "ArrowUp")))
                         [KeyDown "ArrowUp"; KeyDown "KeyX"; KeyDown "ArrowLeft"]) /\
  held (fst (keyStep InputHandler.new (KeyDown "ArrowUp"))) Player.Up = true /\
  held (fst (keyStep InputHandler.new (KeyDown "ArrowUp"))) (opposite Player.Up) = false /\
  snd (keyStep (afterKeys (fst (keyStep InputHandler.new (KeyDown "ArrowUp")))
                          [KeyDown "ArrowUp"; KeyDown "KeyX"; KeyDown "ArrowLeft"])
               (KeyDown "KeyW")) <> Some Player.Up.
Proof.
  assert (H1 : snd (keyStep InputHandler.new (KeyDown "ArrowUp")) = Some Player.Up).
  { vm_compute. reflexivity. }
  assert (H2 : Forall quiet (keyTrace (fst (keyStep InputHandler.new (KeyDown "ArrowUp")))
                               [KeyDown "ArrowUp"; KeyDown "KeyX"; KeyDown "ArrowLeft"])).
  { repeat constructor; vm_compute; reflexivity. }
  split; [exact H1|]. split; [exact H2|].
  exact (direction_is_sent_once InputHandler.new (KeyDown "ArrowUp")
           [KeyDown "ArrowUp"; KeyDown "KeyX"; KeyDown "ArrowLeft"] (KeyDown "KeyW")
           Player.Up H1 H2).
Defined.

(** Releasing every direction key lets the same direction be sent again. *)
Example release_allows_resend :
  List.map snd (keyTrace InputHandler.new
                  [KeyDown "ArrowUp"; KeyDown "ArrowUp"; KeyUp "ArrowUp"; KeyDown "KeyW"])
  = [Some Player.Up; None; None; Some Player.Up].
Proof. vm_compute. reflexivity. Qed.

(** *** The player's turn queue *)

Lemma player_wrapHorizontal_directions (p : Player.t) (w cs : Q) :
  Player.direction (fst (Player.wrapHorizontal p w cs)) = Player.direction p /\
  Player.nextDirection (fst (Player.wrapHorizontal p w cs)) = Player.nextDirection p.
Proof.
  unfold Player.wrapHorizontal.
  repeat match goal with
         | |- context [if ?b then _ else _] => destruct b
         end; by split.
Qed.

Lemma player_wrapVertical_directions (p : Player.t) (h cs : Q) :
  Player.direction (fst (Player.wrapVertical p h cs)) = Player.direction p /\
  Player.nextDirection (fst (Player.wrapVertical p h cs)) = Player.nextDirection p.
Proof.
  unfold Player.wrapVertical.
  repeat match goal with
         | |- context [if ?b then _ else _] => destruct b
         end; by split.
Qed.

Lemma player_handleEdgeWrapping_directions (p : Player.t) :
  Player.direction (Player.handleEdgeWrapping p) = Player.direction p /\
  Player.nextDirection (Player.handleEdgeWrapping p) = Player.nextDirection p.
Proof.
  unfold Player.handleEdgeWrapping.
  destruct (Player.mazeRenderer p) as [r|]; [|by split].
  destruct (MazeRenderer.getMazeDimensions r) as [w h].
  pose proof (player_wrapHorizontal_directions p w (MazeRenderer.getCellSize r)) as [H1 H1'].
  destruct (Player.wrapHorizontal p w (MazeRenderer.getCellSize r)) as [p1 wrapped1].
  cbn [fst] in *.
  assert (H2 : forall q b,
            (if wrapped1 then (p1, true) else Player.wrapVertical p1 h (MazeRenderer.getCellSize r))
            = (q, b) ->
            Player.direction q = Player.direction p /\
            Player.nextDirection q = Player.nextDirection p).
  { intros q b E. destruct wrapped1.
    - injection E as <- <-. by split.
    - pose proof (player_wrapVertical_directions p1 h (MazeRenderer.getCellSize r)) as [V V'].
      rewrite E in V, V'. cbn [fst] in *. split; congruence. }
  destruct (if wrapped1 then _ else _) as [p2 wrapped2].
  destruct (H2 p2 wrapped2 eq_refl) as [D2 D2'].
  destruct wrapped2; [by split|].
  destruct (_ && _); [|by split].
  pose proof (player_wrapHorizontal_directions p2 w (MazeRenderer.getCellSize r)) as [H3 H3'].
  destruct (Player.wrapHorizontal p2 w (MazeRenderer.getCellSize r)) as [p3 wrapped3].
  cbn [fst] in *. destruct wrapped3; [split; congruence|].
  pose proof (player_wrapVertical_directions p3 h (MazeRenderer.getCellSize r)) as [V V'].
  split; congruence.
Qed.

Lemma player_updateGridPosition_directions (p : Player.t) :
  Player.direction (Player.updateGridPosition p) = Player.direction p /\
  Player.nextDirection (Player.updateGridPosition p) = Player.nextDirection p.
Proof.
  unfold Player.updateGridPosition. destruct (Player.mazeRenderer p) as [r|]; [|by split].
  destruct (MazeRenderer.worldToGrid r _ _) as [gx gy].
  destruct (MazeRenderer.gridToWorld r gx gy). by split.
Qed.

Lemma isZeroVec_axisUnit (v : Vec) : axisUnit v -> Player.isZeroVec v = true -> v = vzero.
Proof.
  intros [->|[i ->]] Hz; [reflexivity|]. by destruct i.
Qed.

Lemma player_update_directions (p : Player.t) (dt : Q) :
  axisUnit (Player.direction p) -> axisUnit (Player.nextDirection p) ->
  axisUnit (Player.direction (Player.update p dt)) /\
  Player.nextDirection (Player.update p dt) = vzero.
Proof.
  intros Hd Hn. unfold Player.update.
  destruct (player_handleEdgeWrapping_directions (Player.handleMovement p)) as [-> ->].
  unfold Player.handleMovement.
  destruct (player_updateGridPosition_directions p) as [G G'].
  set (p0 := Player.updateGridPosition p) in *.
  assert (H1 : axisUnit (Player.direction (Player.applyQueuedTurn p0)) /\
               Player.nextDirection (Player.applyQueuedTurn p0) = vzero).
  { unfold Player.applyQueuedTurn. rewrite G'.
    destruct (Player.isZeroVec (Player.nextDirection p)) eqn:Hz.
    - rewrite G, G'. split; [exact Hd | by apply isZeroVec_axisUnit].
    - destruct (Player.canMoveInDirection p0 (Player.nextDirection p)); simpl;
        rewrite ?G; by split. }
  destruct H1 as [A A']. set (p1 := Player.applyQueuedTurn p0) in *.
  unfold Player.moveForward.
  destruct (Player.isZeroVec (Player.direction p1)); [by split|].
  destruct (Player.canMoveToPosition p1 _ _); simpl; [by split|].
  split; [by left | exact A'].
Qed.

Lemma player_setDirection_directions (p : Player.t) (i : Player.Input) :
  axisUnit (Player.direction p) ->
  axisUnit (Player.direction (Player.setDirection p i)) /\
  axisUnit (Player.nextDirection (Player.setDirection p i)).
Proof.
  intros Hd. unfold Player.setDirection. cbn zeta.
  destruct (Player.canMoveInDirection _ _); simpl.
  - split; [right; by exists i | by left].
  - split; [exact Hd | right; by exists i].
Qed.

(** X14.  From a new player and through any sequence of inputs and
    updates, the direction and the queued direction are each the zero
    vector or one of the four unit vectors; and every update empties the
    queue: a queued turn is taken at the next update or dropped, it is
    not kept for a later one. *)
Theorem turn_queue_lasts_one_update (x0 y0 : Q) (r : option MazeRenderer.t)
    (steps : list PlayerStep) (dt : Q) :
  let p := foldl playerStep (Player.new x0 y0 r) steps in
  axisUnit (Player.direction p) /\ axisUnit (Player.nextDirection p) /\
  Player.nextDirection (Player.update p dt) = vzero.
Proof.
  assert (H : forall p, axisUnit (Player.direction p) -> axisUnit (Player.nextDirection p) ->
                        axisUnit (Player.direction (foldl playerStep p steps)) /\
                        axisUnit (Player.nextDirection (foldl playerStep p steps))).
  { induction steps as [|[i|dt'] steps IH]; intros p Hd Hn; [by split| |]; cbn [foldl playerStep].
    - destruct (player_setDirection_directions p i Hd) as [A B]. by apply IH.
    - destruct (player_update_directions p dt' Hd Hn) as [A B].
      apply IH; [exact A|]. rewrite B. by left. }
  cbn zeta.
  destruct (H (Player.new x0 y0 r)) as [A B].
  - destruct (player_updateGridPosition_directions
                {| Player.x := x0; Player.y := y0; Player.speed := 2;
                   Player.direction := vzero; Player.nextDirection := vzero;
                   Player.targetGridX := 0%Z; Player.targetGridY := 0%Z;
                   Player.isAtIntersection := true; Player.isMoving := false;
                   Player.mazeRenderer := r |}) as [E _].
    unfold Player.new. rewrite E. by left.
  - destruct (player_updateGridPosition_directions
                {| Player.x := x0; Player.y := y0; Player.speed := 2;
                   Player.direction := vzero; Player.nextDirection := vzero;
                   Player.targetGridX := 0%Z; Player.targetGridY := 0%Z;
                   Player.isAtIntersection := true; Player.isMoving := false;
                   Player.mazeRenderer := r |}) as [_ E].
    unfold Player.new. rewrite E. by left.
  - split; [exact A|]. split; [exact B|].
    by apply player_update_directions.
Qed.

(** *** The camera *)

Lemma floor_div_le (a c : Q) (n : Z) :
  0 < c -> (Qfloor (a / c) <= n)%Z <-> a < inject_Z (n + 1) * c.
Proof.
  intros Hc. split.
  - intros Hle. pose proof (Qlt_floor (a / c)) as Hlt.
    assert (Hq : a / c < inject_Z (n + 1)).
    { eapply Qlt_le_trans; [exact Hlt|]. rewrite <- Zle_Qle. lia. }
    apply Qnot_le_lt. intros Hge. apply (Qle_shift_div_l _ _ _ Hc) in Hge.
    apply (Qlt_not_le _ _ Hq Hge).
  - intros Hlt. apply (Qlt_shift_div_r _ _ _ Hc) in Hlt.
    apply Qfloor_below in Hlt. lia.
Qed.

Lemma lt_ceiling_div (a c : Q) (n : Z) :
  0 < c -> (n < Qceiling (a / c))%Z <-> inject_Z n * c < a.
Proof.
  intros Hc. split.
  - intros Hlt. pose proof (Qceiling_lt (a / c)) as Hq.
    assert (Hn : inject_Z n < a / c).
    { eapply Qle_lt_trans; [|exact Hq]. rewrite <- Zle_Qle. lia. }
    apply Qnot_le_lt. intros Hge. apply (Qle_shift_div_r _ _ _ Hc) in Hge.
    apply (Qlt_not_le _ _ Hn Hge).
  - intros Hlt. apply (Qlt_shift_div_l _ _ _ Hc) in Hlt.
    pose proof (Qle_ceiling (a / c)) as Hq. rewrite Zlt_Qlt.
    eapply Qlt_le_trans; [exact Hlt | exact Hq].
Qed.

(** X15.  With a positive cell size and a maze set, [renderMazeCells]
    over the area that [calculateVisibleArea] gives draws a cell exactly
    when the cell is in the grid, holds a wall, and has a point inside
    the rectangle of the camera: no wall in view is skipped and nothing
    out of view is drawn; and no cell is drawn twice. *)
Theorem visible_walls_are_drawn (r : MazeRenderer.t) (m : list (list Z))
    (camera : Camera.t) (gx gy : Z) :
  MazeRenderer.maze r = Some m ->
  0 < MazeRenderer.cellSize r ->
  ((gx, gy) ∈ Camera.renderMazeCells m (Camera.calculateVisibleArea r camera) <->
   (0 <= gx < MazeRenderer.mazeWidth r)%Z /\ (0 <= gy < MazeRenderer.mazeHeight r)%Z /\
   cellInView r camera gx gy /\ MazeRenderer.cellIsOne m gx gy = true) /\
  NoDup (Camera.renderMazeCells m (Camera.calculateVisibleArea r camera)).
Proof.
  intros Hm Hc. split.
  - unfold Camera.renderMazeCells, Camera.calculateVisibleArea, cellInView.
    cbn [Camera.startX Camera.startY Camera.endX Camera.endY].
    pose proof (floor_div_le (Camera.x camera) _ gx Hc) as Fx.
    pose proof (floor_div_le (Camera.y camera) _ gy Hc) as Fy.
    pose proof (lt_ceiling_div (Camera.x camera + Camera.width camera) _ gx Hc) as Cx.
    pose proof (lt_ceiling_div (Camera.y camera + Camera.height camera) _ gy Hc) as Cy.
    rewrite list_elem_of_bind. split.
    + intros (y & Hin & Hy). apply list_elem_of_bind in Hin as (x & Hin & Hx).
      destruct (MazeRenderer.cellIsOne m x y) eqn:Hone; [|by apply elem_of_nil in Hin].
      apply list_elem_of_singleton in Hin as [= -> ->].
      apply elem_of_seqZ in Hx, Hy.
      assert (Qfloor (Camera.x camera / MazeRenderer.cellSize r) <= x)%Z by lia.
      assert (Qfloor (Camera.y camera / MazeRenderer.cellSize r) <= y)%Z by lia.
      assert (x < Qceiling ((Camera.x camera + Camera.width camera)
                            / MazeRenderer.cellSize r))%Z by lia.
      assert (y < Qceiling ((Camera.y camera + Camera.height camera)
                            / MazeRenderer.cellSize r))%Z by lia.
      repeat split; try lia; try tauto.
    + intros (Hx & Hy & (V1 & V2 & V3 & V4) & Hone).
      apply Fx in V1. apply Fy in V3. apply Cx in V2. apply Cy in V4.
      exists gy. split.
      * apply list_elem_of_bind. exists gx. split.
        -- rewrite Hone. by apply list_elem_of_singleton.
        -- apply elem_of_seqZ. lia.
      * apply elem_of_seqZ. lia.
  - unfold Camera.renderMazeCells. apply NoDup_bind.
    + intros y1 y2 c _ _ H1 H2.
      apply list_elem_of_bind in H1 as (x1 & H1 & _).
      apply list_elem_of_bind in H2 as (x2 & H2 & _).
      destruct (MazeRenderer.cellIsOne m x1 y1); [|by apply elem_of_nil in H1].
      destruct (MazeRenderer.cellIsOne m x2 y2); [|by apply elem_of_nil in H2].
      apply list_elem_of_singleton in H1, H2. congruence.
    + intros y _. apply NoDup_bind.
      * intros x1 x2 c _ _ H1 H2.
        destruct (MazeRenderer.cellIsOne m x1 y); [|by apply elem_of_nil in H1].
        destruct (MazeRenderer.cellIsOne m x2 y); [|by apply elem_of_nil in H2].
        apply list_elem_of_singleton in H1, H2. congruence.
      * intros x _. destruct (MazeRenderer.cellIsOne m x y); [apply NoDup_singleton|apply NoDup_nil_2].
      * apply NoDup_seqZ.
    + apply NoDup_seqZ.
Qed.

Lemma visible_walls_are_drawn_witness :
  MazeRenderer.maze boxRenderer = Some boxMaze /\
  0 < MazeRenderer.cellSize boxRenderer /\
  ((0, 1)%Z ∈ Camera.renderMazeCells boxMaze
                (Camera.calculateVisibleArea boxRenderer sampleCamera) <->
   (0 <= 0 < MazeRenderer.mazeWidth boxRenderer)%Z /\
   (0 <= 1 < MazeRenderer.mazeHeight boxRenderer)%Z /\
   cellInView boxRenderer sampleCamera 0 1 /\ MazeRenderer.cellIsOne boxMaze 0 1 = true) /\
  NoDup (Camera.renderMazeCells boxMaze (Camera.calculateVisibleArea boxRenderer sampleCamera)).
Proof.
  assert (H1 : MazeRenderer.maze boxRenderer = Some boxMaze) by reflexivity.
  assert (H2 : 0 < MazeRenderer.cellSize boxRenderer) by reflexivity.
  split; [exact H1|]. split; [exact H2|].
  exact (visible_walls_are_drawn boxRenderer boxMaze sampleCamera 0 1 H1 H2).
Defined.

(** A camera coordinate clamped as [updateCamera] clamps it. *)
Lemma clamp_view (target m w : Q) :
  0 <= w -> 0 <= target <= m ->
  let c := if Qgtb m w then Qmax 0 (Qmin (target - w / 2) (m - w)) else 0 in
  0 <= c /\ c <= target <= c + w /\ (w < m -> c + w <= m).
Proof.
  intros Hw Ht. cbn zeta. unfold Qgtb.
  destruct (Qltb w m) eqn:Hlt.
  - apply Qltb_true in Hlt.
    pose proof (Q.max_spec 0 (Qmin (target - w / 2) (m - w))) as Hmax.
    pose proof (Q.min_spec (target - w / 2) (m - w)) as Hmin.
    unfold Qdiv in *. change (/ 2) with (1 # 2) in *.
    set (c1 := Qmin (target - w * (1 # 2)) (m - w)) in *.
    set (c2 := Qmax 0 c1) in *.
    destruct Hmax as [[? ?]|[? ?]], Hmin as [[? ?]|[? ?]];
      repeat split; intros; lra.
  - apply Qltb_false in Hlt. repeat split; intros; lra.
Qed.

(** X16.  With a maze set, [updateCamera] towards a target inside the
    pixel rectangle of the maze leaves the target inside the rectangle of
    the camera; the camera does not go left of or above the maze, and on
    an axis where the maze is larger than the canvas it does not show
    anything beyond the far edge of the maze. *)
Theorem camera_keeps_target_in_view (r : MazeRenderer.t) (camera : Camera.t)
    (targetX targetY : Q) :
  is_Some (MazeRenderer.maze r) ->
  (0 < MazeRenderer.mazeWidth r)%Z -> (0 < MazeRenderer.mazeHeight r)%Z ->
  0 <= Camera.width camera -> 0 <= Camera.height camera ->
  0 <= targetX <= fst (MazeRenderer.getMazeDimensions r) ->
  0 <= targetY <= snd (MazeRenderer.getMazeDimensions r) ->
  let camera' := Camera.updateCamera r camera targetX targetY in
  Camera.width camera' = Camera.width camera /\
  Camera.height camera' = Camera.height camera /\
  (0 <= Camera.x camera' /\
   Camera.x camera' <= targetX <= Camera.x camera' + Camera.width camera /\
   (Camera.width camera < fst (MazeRenderer.getMazeDimensions r) ->
    Camera.x camera' + Camera.width camera <= fst (MazeRenderer.getMazeDimensions r))) /\
  (0 <= Camera.y camera' /\
   Camera.y camera' <= targetY <= Camera.y camera' + Camera.height camera /\
   (Camera.height camera < snd (MazeRenderer.getMazeDimensions r) ->
    Camera.y camera' + Camera.height camera <= snd (MazeRenderer.getMazeDimensions r))).
Proof.
  intros Hmaze Hw Hh Hcw Hch Hx Hy.
  unfold Camera.updateCamera, MazeRenderer.getMazeDimensions in *. cbn [fst snd] in *.
  rewrite (bool_decide_eq_true_2 _ Hmaze).
  destruct (Z.ltb_spec 0 (MazeRenderer.mazeWidth r)); [|lia].
  destruct (Z.ltb_spec 0 (MazeRenderer.mazeHeight r)); [|lia].
  cbn [andb Camera.x Camera.y Camera.width Camera.height].
  set (mw := inject_Z (MazeRenderer.mazeWidth r) * MazeRenderer.cellSize r) in *.
  set (mh := inject_Z (MazeRenderer.mazeHeight r) * MazeRenderer.cellSize r) in *.
  split; [reflexivity|]. split; [reflexivity|].
  split; [apply (clamp_view targetX mw _ Hcw Hx) | apply (clamp_view targetY mh _ Hch Hy)].
Qed.

Lemma camera_keeps_target_in_view_witness :
  is_Some (MazeRenderer.maze boxRenderer) /\
  (0 < MazeRenderer.mazeWidth boxRenderer)%Z /\ (0 < MazeRenderer.mazeHeight boxRenderer)%Z /\
  0 <= Camera.width sampleCamera /\ 0 <= Camera.height sampleCamera /\
  0 <= 50 <= fst (MazeRenderer.getMazeDimensions boxRenderer) /\
  0 <= 30 <= snd (MazeRenderer.getMazeDimensions boxRenderer) /\
  let camera' := Camera.updateCamera boxRenderer sampleCamera 50 30 in
  Camera.width camera' = Camera.width sampleCamera /\
  Camera.height camera' = Camera.height sampleCamera /\
  (0 <= Camera.x camera' /\
   Camera.x camera' <= 50 <= Camera.x camera' + Camera.width sampleCamera /\
   (Camera.width sampleCamera < fst (MazeRenderer.getMazeDimensions boxRenderer) ->
    Camera.x camera' + Camera.width sampleCamera
    <= fst (MazeRenderer.getMazeDimensions boxRenderer))) /\
  (0 <= Camera.y camera' /\
   Camera.y camera' <= 30 <= Camera.y camera' + Camera.height sampleCamera /\
   (Camera.height sampleCamera < snd (MazeRenderer.getMazeDimensions boxRenderer) ->
    Camera.y camera' + Camera.height sampleCamera
    <= snd (MazeRenderer.getMazeDimensions boxRenderer))).
Proof.
  assert (H1 : is_Some (MazeRenderer.maze boxRenderer)) by (eexists; reflexivity).
  assert (H2 : (0 < MazeRenderer.mazeWidth boxRenderer)%Z) by reflexivity.
  assert (H3 : (0 < MazeRenderer.mazeHeight boxRenderer)%Z) by reflexivity.
  assert (H4 : 0 <= Camera.width sampleCamera) by discriminate.
  assert (H5 : 0 <= Camera.height sampleCamera) by discriminate.
  assert (H6 : 0 <= 50 <= fst (MazeRenderer.getMazeDimensions boxRenderer)).
  { split; vm_compute; discriminate. }
  assert (H7 : 0 <= 30 <= snd (MazeRenderer.getMazeDimensions boxRenderer)).
  { split; vm_compute; discriminate. }
  split; [exact H1|]. split; [exact H2|]. split; [exact H3|]. split; [exact H4|].
  split; [exact H5|]. split; [exact H6|]. split; [exact H7|].
  exact (camera_keeps_target_in_view boxRenderer sampleCamera 50 30 H1 H2 H3 H4 H5 H6 H7).
Defined.

Example camera_sample :
  Camera.x (Camera.updateCamera boxRenderer sampleCamera 50 30) == 15 /\
  Camera.y (Camera.updateCamera boxRenderer sampleCamera 50 30) == 15 /\
  Camera.renderMazeCells boxMaze
    (Camera.calculateVisibleArea boxRenderer
       (Camera.updateCamera boxRenderer sampleCamera 50 30))
  = [ (0, 0); (1, 0); (2, 0); (0, 1); (2, 1); (0, 2); (1, 2); (2, 2) ]%Z.
Proof. vm_compute. repeat split. Qed.

(** ** Further properties of the engine *)

Lemma powerDuration_range (level : Z) :
  (1 <= level)%Z ->
  7000 <= powerDuration level <= 10000 /\
  Qmax 5000 (10000 - Qmin 3000 (inject_Z (level - 1) * 200)) == powerDuration level /\
  ((level <= 16)%Z -> powerDuration level == 10000 - inject_Z (level - 1) * 200) /\
  ((16 <= level)%Z -> powerDuration level == 7000).
Proof.
  intros Hl. unfold powerDuration.
  assert (H0 : 0 <= inject_Z (level - 1)).
  { change 0 with (inject_Z 0). rewrite <- Zle_Qle. lia. }
  destruct (Q.min_spec 3000 (inject_Z (level - 1) * 200)) as [[H1 H2]|[H1 H2]];
    rewrite H2.
  - split; [split; lra|]. split.
    + destruct (Q.max_spec 5000 (10000 - 3000)) as [[_ ->]|[H3 _]]; [reflexivity | lra].
    + split.
      * intros Hle. assert (inject_Z (level - 1) <= inject_Z 15) by (rewrite <- Zle_Qle; lia).
        change (inject_Z 15) with 15 in *. lra.
      * intros _. reflexivity.
  - split; [split; lra|]. split.
    + destruct (Q.max_spec 5000 (10000 - inject_Z (level - 1) * 200)) as [[_ ->]|[H3 _]];
        [reflexivity | lra].
    + split.
      * intros _. reflexivity.
      * intros Hge. assert (inject_Z 15 <= inject_Z (level - 1)) by (rewrite <- Zle_Qle; lia).
        change (inject_Z 15) with 15 in *. lra.
Qed.

(** X17.  Eating a power pellet at a level from 1 on adds the bonus of
    50 to the score and leaves lives, level and player as they were.  The
    vulnerability time is 10000 ms less 200 ms per level above the first,
    and never less than 7000 ms (the floor of 5000 ms in the code is never
    reached).  Afterwards every enemy of the roster is vulnerable: one
    that was not is slowed to half its speed with this time on its timer,
    and one that already was is left as it was, its timer not extended. *)
Theorem power_pellet_effect (g : GameEngine.t) :
  (1 <= GameEngine.level g)%Z ->
  let g' := GameEngine.handlePowerPelletCollection g in
  let d := powerDuration (GameEngine.level g) in
  GameEngine.score g' = (GameEngine.score g + 50)%Z /\
  GameEngine.lives g' = GameEngine.lives g /\
  GameEngine.level g' = GameEngine.level g /\
  GameEngine.player g' = GameEngine.player g /\
  7000 <= d <= 10000 /\
  ((GameEngine.level g <= 16)%Z -> d == 10000 - inject_Z (GameEngine.level g - 1) * 200) /\
  ((16 <= GameEngine.level g)%Z -> d == 7000) /\
  Forall (fun e => Enemy.isVulnerable e = true)
         (AIController.enemies (GameEngine.aiController g')) /\
  (forall k e, AIController.enemies (GameEngine.aiController g) !! k = Some e ->
     exists e', AIController.enemies (GameEngine.aiController g') !! k = Some e' /\
       Enemy.id e' = Enemy.id e /\
       if Enemy.isVulnerable e then e' = e
       else Enemy.vulnerabilityTimer e' == d /\ Enemy.speed e' == Enemy.speed e / 2).
Proof.
  intros Hl. cbn zeta.
  destruct (powerDuration_range (GameEngine.level g) Hl) as (Hr & Hmax & Hlow & Hhigh).
  unfold GameEngine.handlePowerPelletCollection, GameEngine.updateScore.
  cbn [GameEngine.score GameEngine.lives GameEngine.level GameEngine.player
       GameEngine.aiController].
  repeat split; try done; try apply Hr.
  - unfold AIController.setAllEnemiesVulnerable. cbn [AIController.enemies AIController.withEnemies].
    apply Forall_forall. intros e' Hin. apply list_elem_of_In, in_map_iff in Hin.
    destruct Hin as (e & <- & _). unfold Enemy.getIsVulnerable.
    destruct (Enemy.isVulnerable e) eqn:Hv; simpl; [exact Hv | reflexivity].
  - intros k e Hk. unfold AIController.setAllEnemiesVulnerable.
    cbn [AIController.enemies AIController.withEnemies].
    change (@List.map) with (@fmap list _). rewrite list_lookup_fmap, Hk.
    cbn [fmap option_fmap option_map]. eexists. split; [reflexivity|].
    unfold Enemy.getIsVulnerable. destruct (Enemy.isVulnerable e) eqn:Hv; simpl.
    + by split.
    + split; [reflexivity|]. rewrite Hv. simpl. split; [exact Hmax | lraQ].
Qed.

Lemma power_pellet_effect_witness :
  (1 <= GameEngine.level busyEngine)%Z /\
  let g' := GameEngine.handlePowerPelletCollection busyEngine in
  let d := powerDuration (GameEngine.level busyEngine) in
  GameEngine.score g' = (GameEngine.score busyEngine + 50)%Z /\
  GameEngine.lives g' = GameEngine.lives busyEngine /\
  GameEngine.level g' = GameEngine.level busyEngine /\
  GameEngine.player g' = GameEngine.player busyEngine /\
  7000 <= d <= 10000 /\
  ((GameEngine.level busyEngine <= 16)%Z ->
   d == 10000 - inject_Z (GameEngine.level busyEngine - 1) * 200) /\
  ((16 <= GameEngine.level busyEngine)%Z -> d == 7000) /\
  Forall (fun e => Enemy.isVulnerable e = true)
         (AIController.enemies (GameEngine.aiController g')) /\
  (forall k e, AIController.enemies (GameEngine.aiController busyEngine) !! k = Some e ->
     exists e', AIController.enemies (GameEngine.aiController g') !! k = Some e' /\
       Enemy.id e' = Enemy.id e /\
       if Enemy.isVulnerable e then e' = e
       else Enemy.vulnerabilityTimer e' == d /\ Enemy.speed e' == Enemy.speed e / 2).
Proof.
  assert (H : (1 <= GameEngine.level busyEngine)%Z) by (vm_compute; discriminate).
  split; [exact H|].
  exact (power_pellet_effect busyEngine H).
Defined.

Lemma creditPellets_effect (collected : list Pellet.t) (g : GameEngine.t) :
  let g' := GameEngine.creditPellets g collected in
  GameEngine.score g' = (GameEngine.score g + totalCredit collected)%Z /\
  GameEngine.lives g' = GameEngine.lives g /\
  GameEngine.level g' = GameEngine.level g /\
  GameEngine.player g' = GameEngine.player g /\
  rosterIds g' = rosterIds g /\
  (hasPower collected = false -> GameEngine.aiController g' = GameEngine.aiController g) /\
  (hasPower collected = true \/
   Forall (fun e => Enemy.isVulnerable e = true)
          (AIController.enemies (GameEngine.aiController g)) ->
   Forall (fun e => Enemy.isVulnerable e = true)
          (AIController.enemies (GameEngine.aiController g'))).
Proof.
  revert g. induction collected as [|q collected IH]; intros g.
  - simpl. repeat split; try done; try lia. by intros [?|?].
  - cbn [GameEngine.creditPellets]. cbn zeta.
    set (g1 := GameEngine.updateScore g (Pellet.getPoints q)).
    set (g2 := if String.eqb (Pellet.getType q) "power"
               then GameEngine.handlePowerPelletCollection g1 else g1).
    destruct (IH g2) as (S & L & V & P & R & A & F).
    assert (H2 : GameEngine.score g2 = (GameEngine.score g + pelletCredit q)%Z /\
                 GameEngine.lives g2 = GameEngine.lives g /\
                 GameEngine.level g2 = GameEngine.level g /\
                 GameEngine.player g2 = GameEngine.player g /\
                 rosterIds g2 = rosterIds g /\
                 (String.eqb (Pellet.getType q) "power" = false ->
                  GameEngine.aiController g2 = GameEngine.aiController g) /\
                 (String.eqb (Pellet.getType q) "power" = true \/
                  Forall (fun e => Enemy.isVulnerable e = true)
                         (AIController.enemies (GameEngine.aiController g)) ->
                  Forall (fun e => Enemy.isVulnerable e = true)
                         (AIController.enemies (GameEngine.aiController g2)))).
    { unfold g2, pelletCredit. destruct (String.eqb (Pellet.getType q) "power").
      - unfold GameEngine.handlePowerPelletCollection, GameEngine.updateScore, g1, rosterIds.
        simpl. repeat split; try done; try lia.
        + rewrite List.map_map. apply List.map_ext. intros e.
          destruct (Bool.eqb _ _); [reflexivity|]. reflexivity.
        + intros _. apply Forall_forall. intros e' Hin.
          apply list_elem_of_In, in_map_iff in Hin. destruct Hin as (e & <- & _).
          unfold Enemy.getIsVulnerable.
          destruct (Enemy.isVulnerable e) eqn:Hv; simpl; [exact Hv | reflexivity].
      - unfold g1, GameEngine.updateScore, rosterIds. simpl.
        repeat split; try done; try lia. by intros [?|?]. }
    destruct H2 as (S2 & L2 & V2 & P2 & R2 & A2 & F2).
    cbn [totalCredit foldr hasPower List.existsb].
    fold (totalCredit collected). fold (hasPower collected).
    repeat split; try congruence; try lia.
    + intros Hno. apply orb_false_iff in Hno as [Hq Hrest].
      rewrite (A Hrest). by apply A2.
    + intros [Hp|Hall].
      * apply orb_true_iff in Hp as [Hq|Hrest]; [|by apply F; left].
        apply F. right. apply F2. by left.
      * apply F. right. apply F2. by right.
Qed.

(** X18.  One pass of [handlePelletCollection] credits, for every pellet
    that [checkCollisions] returns, the points of the pellet, and 50 more
    if it is a power pellet; lives, level and player are unchanged and
    the roster holds the same enemies.  If a power pellet is among them,
    every enemy is vulnerable afterwards; if none is, the controller is
    untouched.  The level counts as complete exactly when no pellet
    remains uncollected and the level had pellets at all. *)
Theorem pellet_collection_scoring (s : GameLevel.t) :
  let position := Player.getPosition (GameEngine.player (GameLevel.engine s)) in
  let pass := PelletManager.checkCollisions (GameLevel.pelletManager s)
                (vx position) (vy position)
                (Player.getSize (GameEngine.player (GameLevel.engine s)) / 2) in
  let s' := fst (GameLevel.handlePelletCollection s) in
  let complete := snd (GameLevel.handlePelletCollection s) in
  GameLevel.pelletManager s' = fst pass /\
  GameEngine.score (GameLevel.engine s')
  = (GameEngine.score (GameLevel.engine s) + totalCredit (snd pass))%Z /\
  GameEngine.lives (GameLevel.engine s') = GameEngine.lives (GameLevel.engine s) /\
  GameEngine.level (GameLevel.engine s') = GameEngine.level (GameLevel.engine s) /\
  GameEngine.player (GameLevel.engine s') = GameEngine.player (GameLevel.engine s) /\
  rosterIds (GameLevel.engine s') = rosterIds (GameLevel.engine s) /\
  (hasPower (snd pass) = true ->
   Forall (fun e => Enemy.isVulnerable e = true)
          (AIController.enemies (GameEngine.aiController (GameLevel.engine s')))) /\
  (hasPower (snd pass) = false ->
   GameEngine.aiController (GameLevel.engine s')
   = GameEngine.aiController (GameLevel.engine s)) /\
  (complete = true <->
   PelletManager.getRemainingPelletCount (GameLevel.pelletManager s') = 0%nat /\
   (0 < PelletManager.getTotalPelletCount (GameLevel.pelletManager s'))%nat).
Proof.
  cbn zeta. unfold GameLevel.handlePelletCollection. cbn zeta.
  destruct (PelletManager.checkCollisions _ _ _ _) as [pm collected].
  cbn [fst snd GameLevel.engine GameLevel.pelletManager].
  destruct (creditPellets_effect collected (GameLevel.engine s))
    as (S & L & V & P & R & A & F).
  split; [reflexivity|]. split; [exact S|]. split; [exact L|]. split; [exact V|].
  split; [exact P|]. split; [exact R|]. split; [intros Hp; apply F; by left|].
  split; [exact A|].
  unfold PelletManager.areAllPelletsCollected.
  rewrite andb_true_iff, Nat.eqb_eq, Nat.ltb_lt. reflexivity.
Qed.

(** A normal pellet and a power pellet in reach: 10 and 50 + 50. *)
Example pellet_collection_sample :
  let s' := fst (GameLevel.handlePelletCollection sampleLevel) in
  GameEngine.score (GameLevel.engine s') = 110%Z /\
  PelletManager.getRemainingPelletCount (GameLevel.pelletManager s') = 1%nat /\
  List.map Enemy.isVulnerable (AIController.enemies (GameEngine.aiController (GameLevel.engine s')))
  = [true; true] /\
  snd (GameLevel.handlePelletCollection sampleLevel) = false.
Proof. vm_compute. repeat split. Qed.

(** *** Enemy objects of the roster *)

Lemma enemy_update_id (e : Enemy.t) (dt : Q) (plan : Enemy.Plan) :
  Enemy.id (Enemy.update e dt plan) = Enemy.id e.
Proof.
  unfold Enemy.update.
  assert (Hwrap : forall a, Enemy.id (Enemy.handleEdgeWrapping a) = Enemy.id a).
  { intros a. unfold Enemy.handleEdgeWrapping.
    destruct (Enemy.mazeRenderer a); [|reflexivity].
    destruct (MazeRenderer.getMazeDimensions _) as [w h].
    unfold Enemy.wrapVertical, Enemy.wrapHorizontal.
    repeat match goal with
           | |- context [if ?b then _ else _] => destruct b
           end; reflexivity. }
  assert (Hgrid : forall a, Enemy.id (Enemy.updateGridPosition a) = Enemy.id a).
  { intros a. unfold Enemy.updateGridPosition.
    destruct (Enemy.mazeRenderer a); [|reflexivity].
    destruct (MazeRenderer.worldToGrid _ _ _) as [gx gy].
    by destruct (MazeRenderer.gridToWorld _ gx gy). }
  assert (Hmove : forall a, Enemy.id (Enemy.handleMovement a) = Enemy.id a).
  { intros a. unfold Enemy.handleMovement. cbn zeta.
    destruct (Enemy.canMoveToPosition _ _ _); [apply Hgrid|].
    unfold Enemy.handleWallCollision. destruct (List.find _ _); apply Hgrid. }
  rewrite Hwrap, Hmove. simpl.
  unfold Enemy.updateVulnerabilityState.
  repeat match goal with
         | |- context [if ?b then _ else _] => destruct b
         end; reflexivity.
Qed.

Lemma filter_map_ids (f : Enemy.t -> bool) (u : Enemy.t -> Enemy.t) (l : list Enemy.t) (n : nat) :
  (forall e, Enemy.id (u e) = Enemy.id e) ->
  NoDup (List.map Enemy.id l) ->
  Forall (fun i => (i < n)%nat) (List.map Enemy.id l) ->
  NoDup (List.map Enemy.id (List.filter f (List.map u l))) /\
  Forall (fun i => (i < n)%nat) (List.map Enemy.id (List.filter f (List.map u l))) /\
  (forall i, i ∈ List.map Enemy.id (List.filter f (List.map u l)) -> i ∈ List.map Enemy.id l).
Proof.
  intros Hu. induction l as [|e l IH]; intros Hnd Hlt; simpl.
  - split; [constructor|]. split; [constructor|]. by intros i Hi.
  - simpl in Hnd, Hlt. apply NoDup_cons in Hnd as [He Hnd].
    apply Forall_cons in Hlt as [Hn Hlt].
    destruct (IH Hnd Hlt) as (I1 & I2 & I3).
    destruct (f (u e)); simpl.
    + rewrite Hu. split; [|split].
      * apply NoDup_cons. split; [|exact I1]. intros Hin. apply He. by apply I3.
      * by apply Forall_cons.
      * intros i Hi. apply elem_of_cons in Hi as [->|Hi]; [left | right; by apply I3].
    + split; [exact I1|]. split; [exact I2|]. intros i Hi. right. by apply I3.
Qed.

Lemma spawnEnemy_ids (c : AIController.t) (random : Q) :
  let c' := AIController.spawnEnemy c random in
  (rosterOf c' = rosterOf c /\ AIController.nextId c' = AIController.nextId c) \/
  (rosterOf c' = rosterOf c ++ [AIController.nextId c] /\
   AIController.nextId c' = S (AIController.nextId c)).
Proof.
  unfold AIController.spawnEnemy, rosterOf.
  destruct (AIController.mazeRenderer c) as [r|] eqn:Hr; [|by left].
  set (c1 := match AIController.spawnPositions c with
             | [] => AIController.calculateSpawnPositions c
             | _ :: _ => c
             end).
  assert (H1 : AIController.enemies c1 = AIController.enemies c /\
               AIController.nextId c1 = AIController.nextId c).
  { unfold c1. destruct (AIController.spawnPositions c); [|done].
    unfold AIController.calculateSpawnPositions. rewrite Hr.
    destruct (MazeRenderer.getMazeDimensions r).
    by destruct (List.filter _ _). }
  destruct H1 as [E1 N1].
  destruct (AIController.spawnPositions c1) as [|first rest]; [left; by rewrite E1, N1|].
  right. cbn [AIController.enemies AIController.nextId].
  rewrite E1, N1, List.map_app. cbn [List.map]. split; [|reflexivity]. f_equal. f_equal.
  destruct (applyDifficultyScaling_fields c1
              (Enemy.new (AIController.nextId c)
                 (vx (default first ((first :: rest)
                      !! Z.to_nat (Z.rem (AIController.enemiesSpawned c1)
                                         (Z.of_nat (length (first :: rest)))))))
                 (vy (default first ((first :: rest)
                      !! Z.to_nat (Z.rem (AIController.enemiesSpawned c1)
                                         (Z.of_nat (length (first :: rest)))))))
                 (Some r) (AIController.selectEnemyType random))) as (I & _).
  rewrite I. apply enemy_new_fields.
Qed.

Lemma directorStep_distinct (c : AIController.t) (op : DirectorOp) :
  distinctRoster c -> distinctRoster (directorStep c op).
Proof.
  intros [Hnd Hlt]. destruct op as [[dt random plans|enemy|v d|a]| |level].
  - cbn [directorStep controllerStep]. unfold AIController.update.
    destruct (AIController.isActive c); cbn [negb]; [|by split].
    set (c1 := AIController.updateEnemySpawning c dt random).
    assert (H1 : distinctRoster c1).
    { unfold c1, AIController.updateEnemySpawning.
      set (c0 := AIController.withLastSpawnTime c _).
      destruct (_ && _); [|by split].
      destruct (spawnEnemy_ids c0 random) as [[E N]|[E N]];
        unfold distinctRoster, rosterOf in *; simpl in *; rewrite E, N.
      - by split.
      - split.
        + apply NoDup_app. split; [exact Hnd|]. split; [|apply NoDup_singleton].
          intros i Hi Hn. apply list_elem_of_singleton in Hn as ->.
          rewrite Forall_forall in Hlt. specialize (Hlt _ Hi). lia.
        + apply Forall_app. split.
          * eapply Forall_impl; [exact Hlt|]. simpl. lia.
          * apply Forall_singleton. lia. }
    destruct H1 as [Hnd1 Hlt1]. unfold distinctRoster, rosterOf in *.
    cbn [AIController.enemies AIController.withEnemies AIController.nextId].
    destruct (filter_map_ids (fun e => negb (AIController.isEnemyOutOfBounds c1 e))
                (fun e => Enemy.update e dt (plans e)) (AIController.enemies c1)
                (AIController.nextId c1)
                (fun e => enemy_update_id e dt (plans e)) Hnd1 Hlt1) as (A & B & _).
    by split.
  - cbn [directorStep controllerStep]. unfold distinctRoster, rosterOf in *.
    rewrite (removeEnemy_ids c enemy Hnd).
    destruct (removeEnemy_effect c enemy) as (_ & _ & -> & _).
    split; [by apply filter_NoDup|].
    apply Forall_forall. intros i Hi. apply list_elem_of_In, filter_In in Hi as [Hi _].
    rewrite Forall_forall in Hlt. apply Hlt. by apply list_elem_of_In.
  - cbn [directorStep controllerStep]. unfold distinctRoster, rosterOf in *.
    assert (E : List.map Enemy.id
                  (AIController.enemies (AIController.setAllEnemiesVulnerable c v d))
                = List.map Enemy.id (AIController.enemies c)).
    { simpl. rewrite List.map_map. apply List.map_ext. intros e.
      destruct (Bool.eqb _ _); [reflexivity|]. unfold Enemy.setVulnerable. by destruct v. }
    rewrite E. by split.
  - cbn [directorStep controllerStep]. unfold distinctRoster, rosterOf in *.
    assert (E : List.map Enemy.id (AIController.enemies (AIController.setActive c a))
                = List.map Enemy.id (AIController.enemies c)).
    { simpl. destruct a; [reflexivity|]. rewrite List.map_map. by apply List.map_ext. }
    rewrite E. by split.
  - unfold distinctRoster, rosterOf. simpl. split; constructor.
  - by split.
Qed.

(** X21.  From a new controller, whatever is called on it, the roster
    never holds the same enemy object twice, and [removeEnemy] of an
    enemy of the roster takes out that enemy only: the roster is one
    shorter and the other enemies stay, in order. *)
Theorem roster_objects_are_distinct (r : option MazeRenderer.t) (ops : list DirectorOp)
    (enemy : Enemy.t) :
  let c := foldl directorStep (AIController.new r) ops in
  NoDup (rosterOf c) /\
  (enemy ∈ AIController.enemies c ->
   snd (AIController.removeEnemy c enemy) = true /\
   AIController.enemies (fst (AIController.removeEnemy c enemy))
   = List.filter (fun e => negb (Nat.eqb (Enemy.id e) (Enemy.id enemy))) (AIController.enemies c) /\
   S (length (AIController.enemies (fst (AIController.removeEnemy c enemy))))
   = length (AIController.enemies c)).
Proof.
  assert (H : forall c, distinctRoster c -> distinctRoster (foldl directorStep c ops)).
  { induction ops as [|op ops IH]; intros c Hc; [exact Hc|].
    simpl. apply IH. by apply directorStep_distinct. }
  cbn zeta. destruct (H (AIController.new r)) as [Hnd _].
  { split; constructor. }
  split; [exact Hnd|]. intros Hin.
  set (c := foldl directorStep (AIController.new r) ops) in *.
  unfold AIController.removeEnemy.
  destruct (AIController.indexOf (Enemy.id enemy) (AIController.enemies c)) as [k|] eqn:Hk.
  - cbn [fst snd AIController.enemies AIController.withEnemies].
    split; [reflexivity|]. split; [by apply delete_indexOf|].
    clear Hnd Hin. revert k Hk. generalize (AIController.enemies c) as l.
    induction l as [|e l IH]; intros k; simpl; [discriminate|].
    destruct (Nat.eqb (Enemy.id e) (Enemy.id enemy)); [by intros [= <-]|].
    destruct (AIController.indexOf _ l) as [j|] eqn:Hj; [|discriminate].
    intros [= <-]. simpl. f_equal. by apply (IH j).
  - exfalso. apply indexOf_None in Hk. apply Hk.
    apply list_elem_of_In, in_map, list_elem_of_In. exact Hin.
Qed.

(** *** Losing a life *)

(** X22.  [loseLife] takes one life and leaves the score.  If a life
    remains, the player is stopped where it stands and is invulnerable
    for 2000 ms, the engine is respawning, and until that ends a further
    collision pass or an input changes nothing, so the same contact cannot
    cost a second life.  If no life remains, the game is no longer running
    and the controller is inactive with every enemy halted; the roster
    itself is kept. *)
Theorem life_lost_outcome (g : GameEngine.t) (i : Player.Input) :
  let g' := GameEngine.loseLife g in
  GameEngine.lives g' = (GameEngine.lives g - 1)%Z /\
  GameEngine.score g' = GameEngine.score g /\
  rosterIds g' = rosterIds g /\
  ((1 < GameEngine.lives g)%Z ->
   GameEngine.isRespawning g' = true /\
   GameEngine.isRunning g' = GameEngine.isRunning g /\
   GameEngine.invulnerabilityTime g' = 2000 /\
   Player.getPosition (GameEngine.player g') = Player.getPosition (GameEngine.player g) /\
   Player.direction (GameEngine.player g') = vzero /\
   Player.nextDirection (GameEngine.player g') = vzero /\
   Player.isMoving (GameEngine.player g') = false /\
   GameEngine.handleEnemyCollisions g' = g' /\
   GameEngine.handleInput g' i = g') /\
  ((GameEngine.lives g <= 1)%Z ->
   GameEngine.isRunning g' = false /\
   GameEngine.player g' = GameEngine.player g /\
   AIController.isActive (GameEngine.aiController g') = false /\
   Forall (fun e => Enemy.direction e = vzero /\ Enemy.targetDirection e = vzero)
          (AIController.enemies (GameEngine.aiController g')) /\
   GameEngine.handleInput g' i = g').
Proof.
  cbn zeta. destruct (loseLife_effect g) as (L & S & R).
  split; [exact L|]. split; [exact S|]. split; [exact R|].
  unfold GameEngine.loseLife. cbn [GameEngine.lives].
  destruct (Z.leb_spec (GameEngine.lives g - 1) 0) as [Hle|Hgt].
  - split; [intros; lia|]. intros _. unfold GameEngine.gameOver, GameEngine.handleInput. simpl.
    repeat split. apply Forall_forall. intros e' Hin.
    apply list_elem_of_In, in_map_iff in Hin. by destruct Hin as (e & <- & _).
  - split; [|intros; lia]. intros _.
    unfold GameEngine.respawnPlayer, GameEngine.handleEnemyCollisions, GameEngine.handleInput.
    simpl. rewrite orb_true_r. repeat split.
Qed.

(** ** Further properties of the pellets: placement *)

Lemma cell_of_centre (r : MazeRenderer.t) (c : Cell) :
  0 < MazeRenderer.cellSize r ->
  MazeRenderer.worldToGrid r (MazeRenderer.gridToWorld r c.1 c.2).1
                             (MazeRenderer.gridToWorld r c.1 c.2).2 = c.
Proof.
  intros Hc. destruct c as [gx gy].
  unfold MazeRenderer.gridToWorld, MazeRenderer.worldToGrid. cbn [fst snd].
  f_equal; apply Qdiv_bounds; try exact Hc; rewrite ?inject_Z_succ; lraQ.
Qed.

Lemma new_pellet_type (i : nat) (px py : Q) (ty : string) :
  Pellet.type (Pellet.new i px py ty) = ty.
Proof. unfold Pellet.new. by destruct (String.eqb ty "power"). Qed.

Lemma new_pellet_placed (r : MazeRenderer.t) (i : nat) (pos : Cell) (ty : string) :
  0 < MazeRenderer.cellSize r ->
  let p := Pellet.new i (MazeRenderer.gridToWorld r pos.1 pos.2).1
                        (MazeRenderer.gridToWorld r pos.1 pos.2).2 ty in
  Pellet.id p = i /\ Pellet.collected p = false /\
  Pellet.points p = (if isPower p then 50 else 10)%Z /\
  pelletCell r p = pos /\ onCentre r p /\ Pellet.type p = ty.
Proof.
  intros Hc p.
  destruct (new_pellet_fields i (MazeRenderer.gridToWorld r pos.1 pos.2).1
              (MazeRenderer.gridToWorld r pos.1 pos.2).2 ty) as (I & X & Y & C).
  fold p in I, X, Y, C.
  assert (Hcell : pelletCell r p = pos).
  { unfold pelletCell. rewrite X, Y. by apply cell_of_centre. }
  assert (Hty : Pellet.type p = ty) by apply new_pellet_type.
  repeat split; try done.
  - unfold isPower, Pellet.getType. rewrite Hty. apply new_pellet_points.
  - unfold onCentre. rewrite Hcell, X, Y. by destruct (MazeRenderer.gridToWorld r pos.1 pos.2).
Qed.

Lemma pushPellet_wellPlaced (r : MazeRenderer.t) (cells : list Cell)
    (s : PelletPlacement.t) (pos : Cell) (ty : string) :
  0 < MazeRenderer.cellSize r ->
  wellPlaced r cells s ->
  pos ∈ cells ->
  pos ∉ List.map (pelletCell r) (placedPellets s) ->
  wellPlaced r cells (PelletPlacement.pushPellet s pos ty) /\
  exists p, placedPellets (PelletPlacement.pushPellet s pos ty) = placedPellets s ++ [p] /\
            pelletCell r p = pos /\ Pellet.type p = ty /\
            PelletPlacement.powerPelletCount (PelletPlacement.pushPellet s pos ty)
            = PelletPlacement.powerPelletCount s.
Proof.
  intros Hc (Hr & Hall & Hids & Hcells) Hpos Hfree.
  unfold PelletPlacement.pushPellet. rewrite Hr.
  destruct (new_pellet_placed r (PelletPlacement.nextId s) pos ty Hc)
    as (I & C & P & Cell & Ctr & T).
  destruct (MazeRenderer.gridToWorld r pos.1 pos.2) as [worldX worldY] eqn:Hw.
  cbn [fst snd] in *.
  set (p := Pellet.new (PelletPlacement.nextId s) worldX worldY ty) in *.
  unfold wellPlaced, placedPellets in *.
  cbn [PelletPlacement.manager PelletPlacement.mazeRenderer PelletPlacement.nextId
       PelletPlacement.powerPelletCount PelletManager.pellets].
  split; [|by exists p].
  split; [reflexivity|]. split; [|split].
  - apply Forall_app. split.
    + eapply Forall_impl; [exact Hall|]. intros q (Q1 & Q2 & Q3 & Q4 & Q5).
      repeat split; try done. lia.
    + apply Forall_singleton. rewrite I, Cell. repeat split; try done. lia.
  - rewrite List.map_app. apply NoDup_app. split; [exact Hids|].
    split; [|apply NoDup_singleton]. intros i Hi Hn. cbn [List.map] in Hn.
    apply list_elem_of_singleton in Hn. rewrite I in Hn. subst i.
    apply list_elem_of_In, in_map_iff in Hi as (q & Hq & Hin).
    rewrite Forall_forall in Hall. apply list_elem_of_In in Hin.
    destruct (Hall q Hin) as (_ & Hlt & _). lia.
  - rewrite List.map_app. apply NoDup_app. split; [exact Hcells|].
    split; [|apply NoDup_singleton]. intros c Hi Hn. cbn [List.map] in Hn.
    apply list_elem_of_singleton in Hn. rewrite Cell in Hn. by subst c.
Qed.

Lemma filter_wellPlaced (r : MazeRenderer.t) (cells : list Cell)
    (s : PelletPlacement.t) (f : Pellet.t -> bool) :
  wellPlaced r cells s ->
  wellPlaced r cells (PelletPlacement.withPellets s (List.filter f (placedPellets s))).
Proof.
  intros (Hr & Hall & Hids & Hcells). unfold wellPlaced, placedPellets in *.
  cbn [PelletPlacement.manager PelletPlacement.withPellets PelletPlacement.mazeRenderer
       PelletPlacement.nextId PelletManager.pellets].
  split; [exact Hr|]. split; [|split].
  - apply Forall_forall. intros p Hp. apply list_elem_of_In, filter_In in Hp as [Hp _].
    rewrite Forall_forall in Hall. by apply Hall, list_elem_of_In.
  - assert (Hsub : List.filter f (PelletManager.pellets (PelletPlacement.manager s))
                   `sublist_of` PelletManager.pellets (PelletPlacement.manager s)).
    { generalize (PelletManager.pellets (PelletPlacement.manager s)). intros l.
      induction l as [|a l IH]; simpl; [constructor|]. destruct (f a); by constructor. }
    apply (fmap_sublist Pellet.id) in Hsub.
    change (@List.map) with (@fmap list _). eapply sublist_NoDup; eassumption.
  - assert (Hsub : List.filter f (PelletManager.pellets (PelletPlacement.manager s))
                   `sublist_of` PelletManager.pellets (PelletPlacement.manager s)).
    { generalize (PelletManager.pellets (PelletPlacement.manager s)). intros l.
      induction l as [|a l IH]; simpl; [constructor|]. destruct (f a); by constructor. }
    apply (fmap_sublist (pelletCell r)) in Hsub.
    change (@List.map) with (@fmap list _). eapply sublist_NoDup; eassumption.
Qed.

(** Two centres of different cells are more than 10 apart when the cells
    are wider than 10. *)
Lemma centres_apart (r : MazeRenderer.t) (c c' : Cell) :
  10 < MazeRenderer.cellSize r -> c <> c' ->
  let '(x, y) := MazeRenderer.gridToWorld r c.1 c.2 in
  let '(x', y') := MazeRenderer.gridToWorld r c'.1 c'.2 in
  10 * 10 < (x - x') * (x - x') + (y - y') * (y - y').
Proof.
  intros Hc Hne. destruct c as [a b], c' as [a' b'].
  unfold MazeRenderer.gridToWorld. cbn [fst snd].
  set (cs := MazeRenderer.cellSize r) in *.
  set (u := inject_Z (a - a')). set (v := inject_Z (b - b')).
  assert (Hu : inject_Z a == inject_Z a' + u).
  { unfold u. rewrite <- inject_Z_plus. f_equiv. lia. }
  assert (Hv : inject_Z b == inject_Z b' + v).
  { unfold v. rewrite <- inject_Z_plus. f_equiv. lia. }
  assert (Hone : 1 <= u * u + v * v).
  { unfold u, v. rewrite <- !inject_Z_mult, <- inject_Z_plus.
    change 1 with (inject_Z 1). rewrite <- Zle_Qle.
    assert (a - a' <> 0 \/ b - b' <> 0)%Z as [H|H].
    { destruct (decide (a = a')) as [->|]; [right|left; lia].
      intros Hb. apply Hne. f_equal. lia. }
    - pose proof (Z.square_nonneg (b - b')).
      assert (1 <= (a - a') * (a - a'))%Z
        by (destruct (Z.lt_trichotomy (a - a') 0) as [?|[?|?]]; nia).
      lia.
    - pose proof (Z.square_nonneg (a - a')).
      assert (1 <= (b - b') * (b - b'))%Z
        by (destruct (Z.lt_trichotomy (b - b') 0) as [?|[?|?]]; nia).
      lia. }
  match goal with
  | |- _ < ?big =>
      assert (E : big == (u * u + v * v) * (cs * cs))
        by (rewrite Hu, Hv; unfold Qdiv; ring);
      rewrite E
  end.
  assert (H100 : 10 * 10 < cs * cs) by nra.
  assert (0 <= (u * u + v * v - 1) * (cs * cs)) by (apply Qmult_le_0_compat; nra).
  nra.
Qed.

Lemma removePellet_wellPlaced (r : MazeRenderer.t) (cells : list Cell)
    (s : PelletPlacement.t) (pos : Cell) :
  0 < MazeRenderer.cellSize r ->
  wellPlaced r cells s ->
  let s' := PelletPlacement.removePelletAtPosition s
              (MazeRenderer.gridToWorld r pos.1 pos.2).1
              (MazeRenderer.gridToWorld r pos.1 pos.2).2 in
  wellPlaced r cells s' /\
  (pos ∉ List.map (pelletCell r) (placedPellets s')) /\
  PelletPlacement.powerPelletCount s' = PelletPlacement.powerPelletCount s /\
  PelletPlacement.nextId s' = PelletPlacement.nextId s /\
  (forall p, p ∈ placedPellets s' -> p ∈ placedPellets s) /\
  (10 < MazeRenderer.cellSize r ->
   List.filter isPower (placedPellets s')
   = List.filter (fun p => isPower p && negb (bool_decide (pelletCell r p = pos)))
                 (placedPellets s)).
Proof.
  intros Hc Hw. cbn zeta. unfold PelletPlacement.removePelletAtPosition.
  split; [by apply filter_wellPlaced|].
  destruct Hw as (Hr & Hall & _ & _). unfold placedPellets in *.
  cbn [PelletPlacement.manager PelletPlacement.withPellets PelletPlacement.powerPelletCount
       PelletPlacement.nextId PelletManager.pellets].
  rewrite Forall_forall in Hall.
  split; [|split; [reflexivity|split; [reflexivity|split]]].
  - intros Hin. apply list_elem_of_In, in_map_iff in Hin as (p & Hcell & Hin).
    apply filter_In in Hin as [Hin Hkeep]. apply list_elem_of_In in Hin.
    destruct (Hall p Hin) as (_ & _ & _ & _ & Hctr).
    unfold onCentre in Hctr. rewrite Hcell in Hctr. cbn zeta in Hkeep.
    revert Hkeep Hctr. destruct (MazeRenderer.gridToWorld r pos.1 pos.2) as [wx wy].
    cbn [fst snd]. intros Hkeep [= Hx Hy]. rewrite Hx, Hy in Hkeep.
    apply Qltb_true in Hkeep.
    assert (E : (wx - wx) * (wx - wx) + (wy - wy) * (wy - wy) == 0) by ring.
    lra.
  - intros p Hp. apply list_elem_of_In, filter_In in Hp as [Hp _]. by apply list_elem_of_In.
  - intros H10.
    induction (PelletManager.pellets (PelletPlacement.manager s)) as [|p l IH]; [reflexivity|].
    assert (Hl : forall q, q ∈ l -> Pellet.collected q = false /\
                   (Pellet.id q < PelletPlacement.nextId s)%nat /\
                   Pellet.points q = (if isPower q then 50 else 10)%Z /\
                   pelletCell r q ∈ cells /\ onCentre r q).
    { intros q Hq. apply Hall. by right. }
    specialize (IH Hl). destruct (Hall p ltac:(left)) as (_ & _ & _ & _ & Hctr).
    cbn [List.filter]. cbn zeta.
    destruct (decide (pelletCell r p = pos)) as [Heq|Hne].
    + rewrite (bool_decide_eq_true_2 _ Heq). cbn [negb]. rewrite andb_false_r.
      unfold onCentre in Hctr. rewrite Heq in Hctr.
      replace (Qgtb _ _) with false; [exact IH|].
      symmetry. apply Qltb_false. revert Hctr.
      destruct (MazeRenderer.gridToWorld r pos.1 pos.2) as [wx wy]. cbn [fst snd].
      intros [= -> ->].
      assert (E : (wx - wx) * (wx - wx) + (wy - wy) * (wy - wy) == 0) by ring.
      lra.
    + rewrite (bool_decide_eq_false_2 _ Hne). cbn [negb]. rewrite andb_true_r.
      replace (Qgtb _ _) with true.
      * cbn [List.filter]. destruct (isPower p); [by rewrite IH | exact IH].
      * symmetry. apply Qltb_true.
        pose proof (centres_apart r (pelletCell r p) pos H10 Hne) as Hfar.
        unfold onCentre in Hctr.
        destruct (MazeRenderer.gridToWorld r (pelletCell r p).1 (pelletCell r p).2)
          as [px py].
        injection Hctr as -> ->.
        destruct (MazeRenderer.gridToWorld r pos.1 pos.2) as [wx wy]. exact Hfar.
Qed.

Lemma take_NoDup {A : Type} (l : list A) (n : nat) : NoDup l -> NoDup (take n l).
Proof.
  intros Hnd. revert n. induction Hnd as [|a l Ha Hnd IH]; intros [|n]; simpl; try constructor.
  - intros Hin. apply Ha. apply elem_of_take in Hin as (i & Hi & _).
    by eapply list_elem_of_lookup_2.
  - apply IH.
Qed.

Lemma take_elem_of {A : Type} (l : list A) (n : nat) (a : A) : a ∈ take n l -> a ∈ l.
Proof.
  intros Hin. apply elem_of_take in Hin as (i & Hi & _). by eapply list_elem_of_lookup_2.
Qed.

Lemma placeNormal_fold (r : MazeRenderer.t) (cells : list Cell) (l : list Cell) :
  0 < MazeRenderer.cellSize r ->
  forall s : PelletPlacement.t,
    wellPlaced r cells s ->
    NoDup l -> (forall c, c ∈ l -> c ∈ cells) ->
    (forall c, c ∈ l -> c ∉ List.map (pelletCell r) (placedPellets s)) ->
    let s' := foldl (fun s pos => PelletPlacement.pushPellet s pos "normal") s l in
    wellPlaced r cells s' /\
    List.filter isPower (placedPellets s') = List.filter isPower (placedPellets s) /\
    PelletPlacement.powerPelletCount s' = PelletPlacement.powerPelletCount s.
Proof.
  intros Hc. induction l as [|pos l IH]; intros s Hw Hnd Hin Hfree; [done|].
  cbn [foldl]. apply NoDup_cons in Hnd as [Hpos Hnd].
  destruct (pushPellet_wellPlaced r cells s pos "normal" Hc Hw)
    as (Hw1 & p & Hps & Hcell & Hty & Hcount).
  { apply Hin. left. }
  { apply Hfree. left. }
  destruct (IH (PelletPlacement.pushPellet s pos "normal") Hw1 Hnd) as (A & B & C).
  - intros c Hc'. apply Hin. by right.
  - intros c Hc'. rewrite Hps, List.map_app. cbn [List.map]. rewrite Hcell.
    intros Hbad. apply elem_of_app in Hbad as [Hbad|Hbad].
    + revert Hbad. apply Hfree. by right.
    + apply list_elem_of_singleton in Hbad as ->. by apply Hpos.
  - split; [exact A|]. split; [|congruence].
    assert (Hp : List.filter isPower [p] = []).
    { cbn [List.filter]. unfold isPower, Pellet.getType. by rewrite Hty. }
    rewrite B, Hps, List.filter_app, Hp. apply app_nil_r.
Qed.

Lemma placePower_fold (r : MazeRenderer.t) (cells : list Cell) (l : list Cell) :
  0 < MazeRenderer.cellSize r ->
  forall s : PelletPlacement.t,
    wellPlaced r cells s ->
    (forall c, c ∈ l -> c ∈ cells) ->
    let s' := foldl (fun s pos =>
                       let '(worldX, worldY) :=
                         MazeRenderer.gridToWorld (PelletPlacement.mazeRenderer s) pos.1 pos.2 in
                       PelletPlacement.pushPellet
                         (PelletPlacement.removePelletAtPosition s worldX worldY) pos "power")
                    s l in
    wellPlaced r cells s' /\
    (10 < MazeRenderer.cellSize r -> NoDup l ->
     (forall c, c ∈ l ->
        c ∉ List.map (pelletCell r) (List.filter isPower (placedPellets s))) ->
     List.map (pelletCell r) (List.filter isPower (placedPellets s'))
     = List.map (pelletCell r) (List.filter isPower (placedPellets s)) ++ l).
Proof.
  intros Hc. induction l as [|pos l IH]; intros s Hw Hin.
  { cbn [foldl]. split; [exact Hw|]. intros _ _ _. by rewrite app_nil_r. }
  cbn [foldl].
  assert (Hr : PelletPlacement.mazeRenderer s = r) by apply Hw. rewrite Hr.
  destruct (removePellet_wellPlaced r cells s pos Hc Hw) as (Hw0 & Hgone & _ & _ & _ & Hkeep).
  destruct (MazeRenderer.gridToWorld r pos.1 pos.2) as [worldX worldY]. cbn [fst snd] in *.
  set (s0 := PelletPlacement.removePelletAtPosition s worldX worldY) in *.
  destruct (pushPellet_wellPlaced r cells s0 pos "power" Hc Hw0)
    as (Hw1 & p & Hps & Hcell & Hty & _); [apply Hin; left | exact Hgone |].
  set (s1 := PelletPlacement.pushPellet s0 pos "power") in *.
  destruct (IH s1 Hw1) as [A B]; [intros c Hc'; apply Hin; by right|].
  split; [exact A|]. intros H10 Hnd Hfree. apply NoDup_cons in Hnd as [Hpos Hnd].
  assert (Hpow1 : List.filter isPower (placedPellets s1)
                  = List.filter isPower (placedPellets s) ++ [p]).
  { assert (Hnew : List.filter isPower [p] = [p]).
    { cbn [List.filter]. unfold isPower, Pellet.getType. by rewrite Hty. }
    rewrite Hps, List.filter_app, Hnew. f_equal.
    rewrite (Hkeep H10).
    assert (Hnot : forall q, q ∈ placedPellets s -> isPower q = true -> pelletCell r q <> pos).
    { intros q Hq Hpw Heq. apply (Hfree pos); [left|].
      apply list_elem_of_In, in_map_iff. exists q. split; [exact Heq|].
      apply filter_In. split; [by apply list_elem_of_In | exact Hpw]. }
    clear -Hnot. induction (placedPellets s) as [|q ps IHps]; [reflexivity|].
    cbn [List.filter]. destruct (isPower q) eqn:Hq; cbn [andb].
    - assert (Hqne : pelletCell r q <> pos) by (apply Hnot; [left | exact Hq]).
      rewrite (bool_decide_eq_false_2 _ Hqne). cbn [negb].
      f_equal. apply IHps. intros q' Hq'. apply Hnot. by right.
    - apply IHps. intros q' Hq'. apply Hnot. by right. }
  rewrite (B H10 Hnd).
  - rewrite Hpow1, List.map_app. cbn [List.map]. rewrite Hcell, <- app_assoc. reflexivity.
  - intros c Hc'. rewrite Hpow1, List.map_app. cbn [List.map]. rewrite Hcell.
    intros Hbad. apply elem_of_app in Hbad as [Hbad|Hbad].
    + revert Hbad. apply Hfree. by right.
    + apply list_elem_of_singleton in Hbad as ->. by apply Hpos.
Qed.

Lemma placeNormal_collected (l : list Cell) (st : PelletPlacement.t) :
  PelletManager.collectedPellets
    (PelletPlacement.manager
       (foldl (fun s pos => PelletPlacement.pushPellet s pos "normal") st l))
  = PelletManager.collectedPellets (PelletPlacement.manager st).
Proof.
  revert st. induction l as [|c l IH]; intros st; [reflexivity|]. cbn [foldl]. rewrite IH.
  unfold PelletPlacement.pushPellet. by destruct (MazeRenderer.gridToWorld _ _ _).
Qed.

Lemma placePower_collected (l : list Cell) (st : PelletPlacement.t) :
  PelletManager.collectedPellets
    (PelletPlacement.manager
       (foldl (fun s pos =>
                 let '(worldX, worldY) :=
                   MazeRenderer.gridToWorld (PelletPlacement.mazeRenderer s) pos.1 pos.2 in
                 PelletPlacement.pushPellet
                   (PelletPlacement.removePelletAtPosition s worldX worldY) pos "power")
              st l))
  = PelletManager.collectedPellets (PelletPlacement.manager st).
Proof.
  revert st. induction l as [|c l IH]; intros st; [reflexivity|]. cbn [foldl]. rewrite IH.
  destruct (MazeRenderer.gridToWorld _ _ _) as [wx wy].
  unfold PelletPlacement.pushPellet. by destruct (MazeRenderer.gridToWorld _ _ _).
Qed.

(** The pellets that [generatePellets] leaves. *)
Lemma generatePellets_placed (s : PelletPlacement.t) (maze : MazeGenerator.Maze)
    (g : MazeGenerator.Rng) :
  0 < MazeRenderer.cellSize (PelletPlacement.mazeRenderer s) ->
  let r := PelletPlacement.mazeRenderer s in
  let gen := PelletPlacement.mazeGenerator s in
  let s' := fst (PelletPlacement.generatePellets s maze g) in
  Forall (fun p => Pellet.collected p = false /\
                   Pellet.points p = (if isPower p then 50 else 10)%Z /\
                   isPathCell gen maze (pelletCell r p) = true /\ onCentre r p)
         (placedPellets s') /\
  NoDup (List.map Pellet.id (placedPellets s')) /\
  NoDup (List.map (pelletCell r) (placedPellets s')) /\
  PelletManager.collectedPellets (PelletPlacement.manager s') = 0%nat /\
  (MazeGenerator.getAccessiblePositions gen maze <> [] ->
   PelletManager.getTotalPelletCount (PelletPlacement.manager s') = length (placedPellets s')) /\
  (10 < MazeRenderer.cellSize r ->
   (PelletPlacement.powerPelletCount s
    <= length (MazeGenerator.getAccessiblePositions gen maze))%nat ->
   length (List.filter isPower (placedPellets s')) = PelletPlacement.powerPelletCount s).
Proof.
  intros Hc r gen. cbn zeta.
  set (cells := MazeGenerator.getAccessiblePositions gen maze).
  assert (Hcells : forall c, c ∈ cells -> isPathCell gen maze c = true).
  { intros c Hin. apply elem_of_pathCellSet. unfold pathCellSet. by apply elem_of_list_to_set. }
  assert (Hgoal : forall s2 : PelletPlacement.t,
            wellPlaced r cells s2 ->
            Forall (fun p => Pellet.collected p = false /\
                             Pellet.points p = (if isPower p then 50 else 10)%Z /\
                             isPathCell gen maze (pelletCell r p) = true /\ onCentre r p)
                   (placedPellets s2) /\
            NoDup (List.map Pellet.id (placedPellets s2)) /\
            NoDup (List.map (pelletCell r) (placedPellets s2))).
  { intros s2 (_ & Hall & Hids & Hcs). split; [|by split].
    eapply Forall_impl; [exact Hall|]. intros p (P1 & _ & P3 & P4 & P5).
    repeat split; try done. by apply Hcells. }
  unfold PelletPlacement.generatePellets. cbn zeta. fold gen. fold cells.
  set (s0 := {| PelletPlacement.manager := _ |}).
  assert (Hw0 : wellPlaced r cells s0).
  { split; [reflexivity|]. unfold placedPellets. simpl. split; [constructor|]. split; constructor. }
  destruct cells as [|first rest] eqn:Hacc.
  { cbn [fst]. destruct (Hgoal s0 Hw0) as (A & B & C).
    split; [exact A|]. split; [exact B|]. split; [exact C|]. split; [reflexivity|].
    split; [done|]. intros _ Hle. simpl in Hle. unfold placedPellets. simpl. lia. }
  rewrite <- Hacc in *. clear first rest Hacc.
  unfold PelletPlacement.placeNormalPellets.
  pose proof (shuffleArray_Permutation cells g) as Hperm1.
  destruct (MazeGenerator.shuffleArray cells g) as [shuffled g1]. cbn [fst] in Hperm1.
  set (n := Z.to_nat _).
  assert (Hnd : NoDup cells) by apply NoDup_accessible.
  destruct (placeNormal_fold r cells (take n shuffled) Hc s0 Hw0) as (Hw1 & Hpow1 & Hcount1).
  { apply take_NoDup. by rewrite Hperm1. }
  { intros c Hin. rewrite <- Hperm1. by apply take_elem_of in Hin. }
  { intros c _. unfold placedPellets. simpl. apply not_elem_of_nil. }
  set (s1 := foldl _ s0 (take n shuffled)) in *.
  unfold PelletPlacement.placePowerPellets. rewrite Hcount1.
  change (PelletPlacement.powerPelletCount s0) with (PelletPlacement.powerPelletCount s).
  destruct (Nat.ltb_spec (length cells) (PelletPlacement.powerPelletCount s)) as [Hfew|Henough].
  { cbn [fst]. destruct (Hgoal s1 Hw1) as (A & B & C).
    split; [exact A|]. split; [exact B|]. split; [exact C|].
    split; [|split; [done|intros _ Hle; lia]].
    unfold s1. apply placeNormal_collected. }
  unfold PelletPlacement.findCornerPositions. cbn [length].
  set (powerPositions :=
         if Nat.leb (PelletPlacement.powerPelletCount s) 0
         then (take (PelletPlacement.powerPelletCount s) [], g1)
         else PelletPlacement.selectRandomPositions cells (PelletPlacement.powerPelletCount s) g1).
  assert (Hpos : NoDup (fst powerPositions) /\
                 (forall c, c ∈ fst powerPositions -> c ∈ cells) /\
                 length (fst powerPositions) = PelletPlacement.powerPelletCount s).
  { unfold powerPositions.
    destruct (Nat.leb_spec (PelletPlacement.powerPelletCount s) 0) as [Hzero|Hsome].
    - rewrite take_nil. cbn [fst]. split; [constructor|]. split; [|simpl; lia].
      intros c Hin. by apply elem_of_nil in Hin.
    - unfold PelletPlacement.selectRandomPositions.
      pose proof (shuffleArray_Permutation cells g1) as Hperm2.
      destruct (MazeGenerator.shuffleArray cells g1) as [shuffled2 g2]. cbn [fst] in *.
      split; [|split].
      + apply take_NoDup. by rewrite Hperm2.
      + intros c Hin. rewrite <- Hperm2. by apply take_elem_of in Hin.
      + rewrite length_take, Hperm2. lia. }
  destruct powerPositions as [positions g2]. cbn [fst] in Hpos.
  destruct Hpos as (Hnd2 & Hin2 & Hlen2).
  destruct (placePower_fold r cells positions Hc s1 Hw1 Hin2) as [Hw2 Hpow2].
  assert (Hr1 : PelletPlacement.mazeRenderer s1 = r) by apply Hw1.
  match type of Hw2 with wellPlaced _ _ ?x => set (s2 := x) in * end. cbn [fst].
  destruct (Hgoal s2 Hw2) as (A & B & C).
  unfold placedPellets in *.
  cbn [PelletPlacement.manager PelletManager.pellets PelletManager.collectedPellets
       PelletManager.getTotalPelletCount PelletManager.totalPellets].
  split; [exact A|]. split; [exact B|]. split; [exact C|]. split; [|split; [done|]].
  - unfold s2, s1. by rewrite placePower_collected, placeNormal_collected.
  - intros H10 _.
    assert (Hnone : List.filter isPower (PelletManager.pellets (PelletPlacement.manager s1)) = []).
    { rewrite Hpow1. reflexivity. }
    specialize (Hpow2 H10 Hnd2). rewrite Hnone in Hpow2. cbn [List.map app] in Hpow2.
    rewrite <- (length_map (pelletCell r)), Hpow2; [exact Hlen2|].
    intros c _. apply not_elem_of_nil.
Qed.



(** Fourteen path cells: nine normal pellets are placed, and the four
    power pellets then displace the normal pellets of their cells. *)
Example placement_sample :
  let s' := fst (PelletPlacement.generatePellets samplePlacement sampleGenerated steppingRng) in
  length (MazeGenerator.getAccessiblePositions sampleGenerator sampleGenerated) = 14%nat /\
  List.map (fun p => (pelletCell sampleLevelRenderer p, isPower p, Pellet.id p))
           (placedPellets s')
  = [ ((3, 1)%Z, false, 0%nat); ((3, 3)%Z, false, 1%nat); ((4, 1)%Z, false, 4%nat);
      ((1, 2)%Z, false, 5%nat); ((1, 3)%Z, false, 6%nat); ((2, 2)%Z, true, 9%nat);
      ((4, 2)%Z, true, 10%nat); ((2, 3)%Z, true, 11%nat); ((4, 3)%Z, true, 12%nat) ].
Proof. vm_compute. split; reflexivity. Qed.

(** ** The game as a whole *)

Lemma result_of_isOk {A : Type} (r : MazeGenerator.Result A) (dflt : A) :
  isOk r = true ->
  r = MazeGenerator.Ok (match r return A with
                        | MazeGenerator.Ok a => a
                        | MazeGenerator.Throw _ => dflt
                        end).
Proof. by destruct r. Qed.

(** *** The player's speed *)

Lemma player_wrapHorizontal_speed (p : Player.t) (w cs : Q) :
  Player.speed (fst (Player.wrapHorizontal p w cs)) = Player.speed p.
Proof.
  unfold Player.wrapHorizontal.
  repeat match goal with
         | |- context [if ?b then _ else _] => destruct b
         end; reflexivity.
Qed.

Lemma player_wrapVertical_speed (p : Player.t) (h cs : Q) :
  Player.speed (fst (Player.wrapVertical p h cs)) = Player.speed p.
Proof.
  unfold Player.wrapVertical.
  repeat match goal with
         | |- context [if ?b then _ else _] => destruct b
         end; reflexivity.
Qed.

Lemma player_handleEdgeWrapping_speed (p : Player.t) :
  Player.speed (Player.handleEdgeWrapping p) = Player.speed p.
Proof.
  unfold Player.handleEdgeWrapping.
  destruct (Player.mazeRenderer p) as [r|]; [|reflexivity].
  destruct (MazeRenderer.getMazeDimensions r) as [w h].
  set (cs := MazeRenderer.getCellSize r).
  pose proof (player_wrapHorizontal_speed p w cs) as H1.
  destruct (Player.wrapHorizontal p w cs) as [p1 wrapped1]. simpl in H1.
  assert (H2 : Player.speed
                 (fst (if wrapped1 then (p1, true) else Player.wrapVertical p1 h cs))
               = Player.speed p).
  { destruct wrapped1; [exact H1|]. by rewrite player_wrapVertical_speed. }
  destruct (if wrapped1 then (p1, true) else Player.wrapVertical p1 h cs) as [p2 wrapped2].
  simpl in H2. destruct wrapped2; [exact H2|].
  destruct (_ && _); [|exact H2].
  pose proof (player_wrapHorizontal_speed p2 w cs) as H3.
  destruct (Player.wrapHorizontal p2 w cs) as [p3 wrapped3]. simpl in H3.
  destruct wrapped3; [congruence|]. rewrite player_wrapVertical_speed. congruence.
Qed.

Lemma player_moveForward_speed (p : Player.t) :
  Player.speed (Player.moveForward p) = Player.speed p.
Proof.
  unfold Player.moveForward.
  destruct (Player.isZeroVec _); [reflexivity|].
  destruct (Player.canMoveToPosition _ _ _); [reflexivity|].
  unfold Player.snapToNearestGridCenter. by destruct (Player.mazeRenderer p).
Qed.

Lemma player_update_speed (p : Player.t) (dt : Q) :
  Player.speed (Player.update p dt) = Player.speed p.
Proof.
  unfold Player.update, Player.handleMovement.
  rewrite player_handleEdgeWrapping_speed, player_moveForward_speed.
  destruct (player_applyQueuedTurn_pos (Player.updateGridPosition p)) as (_ & _ & _ & ->).
  apply (player_updateGridPosition_pos p).
Qed.

Lemma player_setDirection_speed (p : Player.t) (i : Player.Input) :
  Player.speed (Player.setDirection p i) = Player.speed p.
Proof. unfold Player.setDirection. by destruct (Player.canMoveInDirection _ _). Qed.

(** *** Collisions with enemies leave the player in place *)

Lemma samePlayerPlace_refl (g : GameEngine.t) : samePlayerPlace g g.
Proof. unfold samePlayerPlace. repeat split; lia. Qed.

Lemma samePlayerPlace_trans (a b c : GameEngine.t) :
  samePlayerPlace a b -> samePlayerPlace b c -> samePlayerPlace a c.
Proof.
  unfold samePlayerPlace. intros (A1 & A2 & A3 & A4 & A5 & A6) (B1 & B2 & B3 & B4 & B5 & B6).
  repeat split; try congruence. lia.
Qed.

Lemma loseLife_place (g : GameEngine.t) : samePlayerPlace g (GameEngine.loseLife g).
Proof.
  unfold GameEngine.loseLife. cbn zeta.
  destruct (Z.leb _ _); unfold samePlayerPlace; simpl; repeat split; lia.
Qed.

Lemma processCollisions_place (l : list Enemy.t) (g : GameEngine.t) :
  samePlayerPlace g (GameEngine.processCollisions g l).
Proof.
  revert g. induction l as [|e l IH]; intros g; [apply samePlayerPlace_refl|].
  cbn [GameEngine.processCollisions].
  destruct (Enemy.getIsVulnerable e).
  - eapply samePlayerPlace_trans; [|apply IH].
    unfold samePlayerPlace. simpl. repeat split; lia.
  - apply loseLife_place.
Qed.

Lemma handleEnemyCollisions_place (g : GameEngine.t) :
  samePlayerPlace g (GameEngine.handleEnemyCollisions g).
Proof.
  unfold GameEngine.handleEnemyCollisions.
  destruct (Qgtb _ _); [apply samePlayerPlace_refl|apply processCollisions_place].
Qed.

(** *** The settings of the pellet manager *)

Lemma sameSettings_refl (a : PelletPlacement.t) : sameSettings a a.
Proof. by repeat split. Qed.

Lemma sameSettings_trans (a b c : PelletPlacement.t) :
  sameSettings a b -> sameSettings b c -> sameSettings a c.
Proof.
  unfold sameSettings. intros (A1 & A2 & A3 & A4) (B1 & B2 & B3 & B4).
  repeat split; congruence.
Qed.

Lemma pushPellet_settings (s : PelletPlacement.t) (pos : Cell) (ty : string) :
  sameSettings (PelletPlacement.pushPellet s pos ty) s.
Proof.
  unfold PelletPlacement.pushPellet. destruct (MazeRenderer.gridToWorld _ _ _).
  by repeat split.
Qed.

Lemma removePellet_settings (s : PelletPlacement.t) (wx wy : Q) :
  sameSettings (PelletPlacement.removePelletAtPosition s wx wy) s.
Proof. by repeat split. Qed.

Lemma placeNormal_settings (l : list Cell) (s : PelletPlacement.t) :
  sameSettings (foldl (fun s pos => PelletPlacement.pushPellet s pos "normal") s l) s.
Proof.
  revert s. induction l as [|c l IH]; intros s; [apply sameSettings_refl|].
  cbn [foldl]. eapply sameSettings_trans; [apply IH|apply pushPellet_settings].
Qed.

Lemma placePower_settings (l : list Cell) (s : PelletPlacement.t) :
  sameSettings
    (foldl (fun s pos =>
              let '(worldX, worldY) :=
                MazeRenderer.gridToWorld (PelletPlacement.mazeRenderer s) pos.1 pos.2 in
              PelletPlacement.pushPellet
                (PelletPlacement.removePelletAtPosition s worldX worldY) pos "power")
           s l) s.
Proof.
  revert s. induction l as [|c l IH]; intros s; [apply sameSettings_refl|].
  cbn [foldl]. eapply sameSettings_trans; [apply IH|].
  destruct (MazeRenderer.gridToWorld _ _ _) as [wx wy].
  eapply sameSettings_trans; [apply pushPellet_settings|apply removePellet_settings].
Qed.

Lemma generatePellets_settings (s : PelletPlacement.t) (maze : MazeGenerator.Maze)
    (g : MazeGenerator.Rng) :
  sameSettings (fst (PelletPlacement.generatePellets s maze g)) s.
Proof.
  unfold PelletPlacement.generatePellets. cbn zeta.
  set (s0 := {| PelletPlacement.manager := _ |}).
  assert (H0 : sameSettings s0 s) by by repeat split.
  destruct (MazeGenerator.getAccessiblePositions _ _) as [|first rest]; [exact H0|].
  generalize (first :: rest). intros cells.
  assert (H1 : sameSettings (fst (PelletPlacement.placeNormalPellets s0 cells g)) s).
  { unfold PelletPlacement.placeNormalPellets.
    destruct (MazeGenerator.shuffleArray cells g) as [shuffled g1]. cbn [fst].
    eapply sameSettings_trans; [apply placeNormal_settings|exact H0]. }
  destruct (PelletPlacement.placeNormalPellets s0 cells g) as [s1 g1]. cbn [fst] in H1.
  assert (H2 : sameSettings (fst (PelletPlacement.placePowerPellets s1 cells g1)) s).
  { unfold PelletPlacement.placePowerPellets.
    destruct (Nat.ltb _ _); [exact H1|].
    destruct (if Nat.leb _ _ then _ else _) as [positions g2]. cbn [fst].
    eapply sameSettings_trans; [apply placePower_settings|exact H1]. }
  destruct (PelletPlacement.placePowerPellets s1 cells g1) as [s2 g2]. cbn [fst] in *.
  destruct H2 as (A & B & C & D). by repeat split.
Qed.

(** *** Collected pellets keep their places *)

Lemma collect_place (p : Pellet.t) :
  Pellet.x (snd (Pellet.collect p)) = Pellet.x p /\
  Pellet.y (snd (Pellet.collect p)) = Pellet.y p /\
  Pellet.points (snd (Pellet.collect p)) = Pellet.points p.
Proof. unfold Pellet.collect. by destruct (Pellet.collected p). Qed.

Lemma checkPellets_places (r : MazeRenderer.t) (P : Pellet.t -> Prop)
    (ps : list Pellet.t) (ox oy radius : Q) :
  (forall p, P p -> P (snd (Pellet.collect p))) ->
  Forall P ps ->
  Forall P (fst (PelletManager.checkPellets ps ox oy radius)) /\
  List.map (pelletCell r) (fst (PelletManager.checkPellets ps ox oy radius))
  = List.map (pelletCell r) ps.
Proof.
  intros HP. induction 1 as [|p ps Hp Hps IH]; [by split|].
  cbn [PelletManager.checkPellets].
  destruct (PelletManager.checkPellets ps ox oy radius) as [ps' got].
  cbn [fst] in IH. destruct IH as [IH1 IH2].
  destruct (Pellet.checkCollision p ox oy radius).
  - pose proof (HP p Hp) as Hp'. destruct (collect_place p) as (X & Y & _).
    destruct (Pellet.collect p) as [pts p']. cbn [snd] in *.
    assert (Hcell : pelletCell r p' = pelletCell r p).
    { unfold pelletCell. by rewrite X, Y. }
    destruct (Z.ltb 0 pts); cbn [fst List.map]; (split; [by constructor|by rewrite Hcell, IH2]).
  - cbn [fst List.map]. split; [by constructor|by rewrite IH2].
Qed.

(** *** The invariant of the game *)

Lemma gameInv_player (s s' : Game.t) :
  Game.pelletManager s' = Game.pelletManager s ->
  Game.maze s' = Game.maze s ->
  Player.mazeRenderer (GameEngine.player (Game.engine s'))
  = Player.mazeRenderer (GameEngine.player (Game.engine s)) ->
  Player.speed (GameEngine.player (Game.engine s'))
  = Player.speed (GameEngine.player (Game.engine s)) ->
  GameEngine.level (Game.engine s') = GameEngine.level (Game.engine s) ->
  (GameEngine.lives (Game.engine s') <= GameEngine.lives (Game.engine s))%Z ->
  playerClear (GameEngine.player (Game.engine s')) ->
  gameInv s -> gameInv s'.
Proof.
  intros Hpm Hmz Hr Hsp Hlv Hli Hclear (Hready & _ & Hpel & Hlim).
  split; [|split; [exact Hclear|split]].
  - unfold levelReady, Game.mazeGenerator, Game.mazeRenderer in *. cbv zeta in *.
    rewrite Hpm, Hmz, Hr. exact Hready.
  - unfold pelletsInPlace, gamePellets, Game.mazeGenerator, Game.mazeRenderer in *.
    cbv zeta in *. rewrite Hpm, Hmz. exact Hpel.
  - unfold withinLimits in *. cbv zeta in *. rewrite Hpm, Hsp, Hlv.
    destruct Hlim as (A & B & C & D & E). repeat split; try tauto. lia.
Qed.

Lemma gameInv_place (s s' : Game.t) :
  Game.pelletManager s' = Game.pelletManager s ->
  Game.maze s' = Game.maze s ->
  samePlayerPlace (Game.engine s) (Game.engine s') ->
  gameInv s -> gameInv s'.
Proof.
  intros Hpm Hmz (X & Y & R & Sp & Lv & Li) Hinv.
  apply (gameInv_player s s'); try assumption.
  apply (playerClear_ext (GameEngine.player (Game.engine s))); try assumption.
  apply Hinv.
Qed.

Lemma gameInv_pending (s : Game.t) : gameInv s -> levelPending s.
Proof.
  intros ((Hcs & _ & Hw & Hh & _) & _ & _ & Hlim).
  split; [exact Hcs|split; [exact Hw|split; [exact Hh|exact Hlim]]].
Qed.

Lemma generateNewMaze_inv (s s' : Game.t) (d : Game.Draws) :
  levelPending s -> Game.generateNewMaze s d = MazeGenerator.Ok s' -> gameInv s'.
Proof.
  intros (Hcs & Hw & Hh & Hlim) Hgen.
  unfold Game.generateNewMaze in Hgen.
  destruct (MazeGenerator.generate _ _ _) as [newMaze|msg] eqn:Hmaze; [|discriminate].
  cbv zeta in Hgen. injection Hgen as <-.
  set (gen := Game.mazeGenerator s) in *.
  set (r := MazeRenderer.setMaze (GameLevel.mazeRows gen newMaze) (Game.mazeRenderer s)).
  match goal with
  | |- context [PelletPlacement.generatePellets ?pm0 _ _] => set (pm := pm0)
  end.
  pose proof (generatePellets_settings pm newMaze (Game.pelletRandom d)) as (S1 & S2 & S3 & S4).
  set (pm' := fst (PelletPlacement.generatePellets pm newMaze (Game.pelletRandom d))) in *.
  assert (G : PelletPlacement.mazeGenerator pm' = gen) by exact S1.
  assert (R : PelletPlacement.mazeRenderer pm' = r) by exact S2.
  assert (Dn : PelletPlacement.normalPelletDensity pm'
               = PelletPlacement.normalPelletDensity (Game.pelletManager s)) by exact S3.
  assert (Pc : PelletPlacement.powerPelletCount pm'
               = PelletPlacement.powerPelletCount (Game.pelletManager s)) by exact S4.
  clear S1 S2 S3 S4.
  destruct (generate_grid_facts gen _ _ newMaze ltac:(lia) ltac:(lia) Hmaze)
    as (_ & Hstart & Hhead).
  unfold gameInv, levelReady, pelletsInPlace, withinLimits, gamePellets,
    Game.mazeGenerator, Game.mazeRenderer, Game.resetPlayerPosition,
    Game.withEngine, Game.withController, Game.withPlayer.
  cbn [Game.engine Game.pelletManager Game.maze GameEngine.player GameEngine.level
       GameEngine.lives GameEngine.aiController].
  rewrite G, R.
  assert (Hr20 : MazeRenderer.cellSize r = 20) by exact Hcs.
  assert (Hrm : MazeRenderer.maze r = Some (GameLevel.mazeRows gen newMaze)) by reflexivity.
  destruct (resetPlayerPosition_clear gen newMaze r
              (Player.withMazeRenderer (GameEngine.player (Game.engine s)) (Some r)))
    as (_ & _ & Cl & Rn & Sp);
    [lia|lia|exact Hstart|exact Hhead|exact Hrm|by rewrite Hr20|reflexivity|].
  cbv zeta in Cl, Rn, Sp. cbn [Player.withMazeRenderer Player.speed] in Sp.
  assert (Hpos : 0 < MazeRenderer.cellSize (PelletPlacement.mazeRenderer pm)).
  { change (0 < MazeRenderer.cellSize r). by rewrite Hr20. }
  pose proof (generatePellets_placed pm newMaze (Game.pelletRandom d) Hpos) as Hpl.
  cbv zeta in Hpl. fold pm' in Hpl.
  change (PelletPlacement.mazeRenderer pm) with r in Hpl.
  change (PelletPlacement.mazeGenerator pm) with gen in Hpl.
  unfold placedPellets in Hpl.
  destruct Hpl as (F & _ & ND & C0 & Tot & _).
  assert (Hne : MazeGenerator.getAccessiblePositions gen newMaze <> []).
  { intros E. by rewrite E in Hhead. }
  specialize (Tot Hne).
  destruct Hlim as (L1 & L2 & L3 & L4 & L5).
  split; [repeat split; first [assumption|lia]|]. split; [exact Cl|]. split.
  - split; [|split; [exact ND|split; [exact Tot|]]].
    + eapply Forall_impl; [exact F|]. intros p (_ & Pp & Pc' & Pz).
      split; [exact Pc'|]. split; [exact Pz|]. rewrite Pp. by destruct (isPower p).
    + rewrite C0, Tot. cbn [Nat.add]. unfold PelletManager.getRemainingPelletCount. f_equal.
      revert F. generalize (PelletManager.pellets (PelletPlacement.manager pm')).
      intros l. induction 1 as [|p l (Hp & _) _ IH]; [reflexivity|].
      cbn [List.filter]. unfold Pellet.isCollected at 1. rewrite Hp. cbn [negb]. by rewrite IH.
  - rewrite Sp, Dn, Pc. repeat split; first [assumption|lia|tauto].
Qed.

Lemma odd_size_range (n lo hi : Z) :
  (lo <= n <= hi)%Z -> Z.rem hi 2 = 1%Z ->
  (lo <= (if Z.eqb (Z.rem n 2) 0 then n + 1 else n) <= hi)%Z.
Proof.
  intros Hn Hhi. destruct (Z.eqb_spec (Z.rem n 2) 0) as [E|_]; [|exact Hn].
  pose proof (Z.quot_rem' n 2) as Q1. pose proof (Z.quot_rem' hi 2) as Q2. lia.
Qed.

Lemma increaseDifficulty_pending (s : Game.t) :
  levelPending s -> levelPending (Game.increaseDifficulty s).
Proof.
  intros (Hcs & Hw & Hh & L1 & L2 & L3 & L4 & L5).
  unfold Game.increaseDifficulty. cbv zeta.
  set (resized := negb _ || negb _).
  set (pm1 := if Z.eqb (Z.rem (GameEngine.level (Game.engine s)) 3) 0
              then if resized then PelletPlacement.new _ (Game.mazeRenderer s)
                   else Game.pelletManager s
              else Game.pelletManager s).
  assert (H1 : PelletPlacement.mazeRenderer pm1 = Game.mazeRenderer s /\
               (41 <= MazeGenerator.width (PelletPlacement.mazeGenerator pm1) <= 61)%Z /\
               (31 <= MazeGenerator.height (PelletPlacement.mazeGenerator pm1) <= 41)%Z /\
               (4 # 10) <= PelletPlacement.normalPelletDensity pm1 <= (7 # 10) /\
               (4 <= PelletPlacement.powerPelletCount pm1 <= 6)%nat).
  { unfold pm1. destruct (Z.eqb _ 0); [|repeat split; first [assumption|lia|tauto]].
    destruct resized; [|repeat split; first [assumption|lia|tauto]].
    cbn [PelletPlacement.new PelletPlacement.mazeRenderer PelletPlacement.mazeGenerator
         PelletPlacement.normalPelletDensity PelletPlacement.powerPelletCount
         MazeGenerator.new MazeGenerator.width MazeGenerator.height].
    split; [reflexivity|]. split; [apply odd_size_range; [lia|reflexivity]|].
    split; [apply odd_size_range; [lia|reflexivity]|].
    split; [split; by vm_compute|lia]. }
  destruct H1 as (R1 & W1 & H1 & D1 & P1).
  unfold levelPending, withinLimits, Game.mazeGenerator, Game.mazeRenderer,
    Game.withController, Game.withPlayer.
  cbn [Game.engine Game.pelletManager GameEngine.player GameEngine.level GameEngine.lives
       PelletPlacement.mazeRenderer PelletPlacement.mazeGenerator
       PelletPlacement.normalPelletDensity PelletPlacement.powerPelletCount
       Player.setSpeed Player.speed].
  unfold Player.getSpeed.
  rewrite R1. split; [exact Hcs|]. split; [exact W1|]. split; [exact H1|].
  split; [exact L1|]. split; [exact L2|]. split; [|split].
  - pose proof (Q.max_spec 0 (Qmin 4 (Player.speed (GameEngine.player (Game.engine s)) + (1 # 10))))
      as Hmax.
    pose proof (Q.min_spec 4 (Player.speed (GameEngine.player (Game.engine s)) + (1 # 10)))
      as Hmin.
    revert Hmax Hmin.
    generalize (Qmax 0 (Qmin 4 (Player.speed (GameEngine.player (Game.engine s)) + (1 # 10)))).
    generalize (Qmin 4 (Player.speed (GameEngine.player (Game.engine s)) + (1 # 10))).
    intros n m Hmax Hmin. destruct Hmax as [[? ?]|[? ?]], Hmin as [[? ?]|[? ?]]; lra.
  - pose proof (Q.max_spec (4 # 10) (PelletPlacement.normalPelletDensity pm1 - (2 # 100)))
      as Hmax.
    revert Hmax.
    generalize (Qmax (4 # 10) (PelletPlacement.normalPelletDensity pm1 - (2 # 100))).
    intros m [[? ?]|[? ?]]; lra.
  - destruct (Z.eqb (Z.rem (GameEngine.level (Game.engine s)) 5) 0); lia.
Qed.

Lemma handleLevelComplete_inv (s s' : Game.t) (d : Game.Draws) :
  gameInv s -> Game.handleLevelComplete s d = MazeGenerator.Ok s' -> gameInv s'.
Proof.
  intros Hinv. unfold Game.handleLevelComplete. cbv zeta.
  apply generateNewMaze_inv.
  destruct (Nat.ltb _ _); [|by apply gameInv_pending].
  apply increaseDifficulty_pending.
  destruct (gameInv_pending s Hinv) as (Hcs & Hw & Hh & L1 & L2 & L3 & L4 & L5).
  split; [exact Hcs|]. split; [exact Hw|]. split; [exact Hh|].
  unfold withinLimits. cbn. repeat split; first [assumption|lia|tauto].
Qed.

Lemma collection_inv (s : Game.t) :
  gameInv s ->
  let lv := fst (GameLevel.handlePelletCollection
                   {| GameLevel.engine := Game.engine s;
                      GameLevel.pelletManager :=
                        PelletPlacement.manager (Game.pelletManager s) |}) in
  gameInv {| Game.engine := GameLevel.engine lv;
             Game.pelletManager :=
               Game.withManager (Game.pelletManager s) (GameLevel.pelletManager lv);
             Game.maze := Game.maze s; Game.camera := Game.camera s |}.
Proof.
  intros (Hready & Hclear & Hpel & Hlim). cbv zeta.
  unfold GameLevel.handlePelletCollection.
  cbn [GameLevel.engine GameLevel.pelletManager]. cbv zeta.
  unfold PelletManager.checkCollisions.
  set (ox := vx _). set (oy := vy _). set (radius := _ / 2).
  unfold pelletsInPlace, gamePellets in Hpel. cbv zeta in Hpel.
  destruct Hpel as (F & ND & Tot & Cnt).
  set (gen := Game.mazeGenerator s) in *. set (r := Game.mazeRenderer s) in *.
  set (P := fun p : Pellet.t =>
              isPathCell gen (Game.maze s) (pelletCell r p) = true /\ onCentre r p /\
              (0 < Pellet.points p)%Z) in *.
  assert (HP : forall p, P p -> P (snd (Pellet.collect p))).
  { intros p (P1 & P2 & P3). destruct (collect_place p) as (X & Y & Z0).
    unfold P, onCentre, pelletCell in *. by rewrite X, Y, Z0. }
  destruct (checkPellets_places r P _ ox oy radius HP F) as [F' Cells].
  assert (Hpts : Forall (fun p => (0 < Pellet.points p)%Z)
                        (PelletManager.pellets (PelletPlacement.manager (Game.pelletManager s)))).
  { eapply Forall_impl; [exact F|]. by intros p (_ & _ & ?). }
  pose proof (remaining_after_pass _ ox oy radius Hpts) as Hrem.
  destruct (PelletManager.checkPellets _ ox oy radius) as [ps got].
  cbn [fst] in *. destruct Hrem as (Rem & _ & Len & _).
  destruct (creditPellets_effect got (Game.engine s)) as (_ & Li & Lv & Pl & _).
  cbv zeta in Li, Lv, Pl.
  unfold gameInv, levelReady, pelletsInPlace, withinLimits, gamePellets,
    Game.mazeGenerator, Game.mazeRenderer, Game.withManager.
  cbn [Game.engine Game.pelletManager Game.maze GameLevel.engine GameLevel.pelletManager
       PelletPlacement.manager PelletPlacement.mazeGenerator PelletPlacement.mazeRenderer
       PelletPlacement.normalPelletDensity PelletPlacement.powerPelletCount
       PelletManager.pellets PelletManager.getTotalPelletCount PelletManager.totalPellets
       PelletManager.collectedPellets].
  rewrite Li, Lv, Pl.
  split; [exact Hready|]. split; [exact Hclear|]. split; [|exact Hlim].
  change (PelletPlacement.mazeRenderer (Game.pelletManager s)) with r.
  change (PelletPlacement.mazeGenerator (Game.pelletManager s)) with gen.
  split; [exact F'|]. split; [by rewrite Cells|].
  unfold PelletManager.getTotalPelletCount, PelletManager.getRemainingPelletCount in *.
  cbn [PelletManager.pellets] in *. split; lia.
Qed.

Lemma handlePelletCollection_inv (s s' : Game.t) (d : Game.Draws) :
  gameInv s -> Game.handlePelletCollection s d = MazeGenerator.Ok s' -> gameInv s'.
Proof.
  intros Hinv. pose proof (collection_inv s Hinv) as Hcol. cbv zeta in Hcol.
  unfold Game.handlePelletCollection.
  destruct (GameLevel.handlePelletCollection _) as [collected complete].
  cbn [fst] in Hcol. destruct complete.
  - by apply handleLevelComplete_inv.
  - by intros [= <-].
Qed.

Lemma update_inv (s s' : Game.t) (deltaTime : Q) (d : Game.Draws) :
  gameInv s -> Game.update s deltaTime d = MazeGenerator.Ok s' -> gameInv s'.
Proof.
  intros Hinv. unfold Game.update.
  destruct (negb _ || _); [by intros [= <-]|]. cbv zeta.
  set (g1 := {| GameEngine.score := _ |}).
  assert (H1 : gameInv (Game.withEngine s g1)).
  { destruct Hinv as (Hready & Hclear & Hrest).
    pose proof Hready as (Hcs & _ & _ & _ & _ & _ & Hr).
    destruct (player_update_clear (GameEngine.player (Game.engine s)) (Game.mazeRenderer s)
                deltaTime Hr) as [Cl Rn];
      [by rewrite Hcs|by rewrite Hcs|exact Hclear|].
    apply (gameInv_player s);
      [reflexivity|reflexivity|cbn; congruence|cbn; apply player_update_speed
      |reflexivity|cbn; lia|exact Cl|by split]. }
  destruct (Game.handlePelletCollection _ d) as [s2|msg] eqn:Hcol; [|discriminate].
  pose proof (handlePelletCollection_inv _ _ _ H1 Hcol) as H2.
  intros [= <-].
  apply (gameInv_place s2); try reflexivity; [|exact H2].
  cbn [Game.engine].
  eapply samePlayerPlace_trans; [|apply handleEnemyCollisions_place].
  unfold samePlayerPlace. cbn. repeat split; lia.
Qed.

Lemma resetPlayerPosition_inv (s : Game.t) :
  gameInv s -> gameInv (Game.resetPlayerPosition s).
Proof.
  intros Hinv. pose proof Hinv as (Hready & _).
  destruct Hready as (Hcs & Hrm & Hw & Hh & Hstart & Hhead & Hr).
  destruct (resetPlayerPosition_clear (Game.mazeGenerator s) (Game.maze s) (Game.mazeRenderer s)
              (GameEngine.player (Game.engine s)))
    as (_ & _ & Cl & Rn & Sp);
    [lia|lia|exact Hstart|exact Hhead|exact Hrm|by rewrite Hcs|exact Hr|].
  cbv zeta in Cl, Rn, Sp.
  apply (gameInv_player s);
    [reflexivity|reflexivity|cbn; congruence|exact Sp|reflexivity|cbn; lia|exact Cl|exact Hinv].
Qed.

Lemma resetGame_inv (s s' : Game.t) (d : Game.Draws) :
  gameInv s -> Game.resetGame s d = MazeGenerator.Ok s' -> gameInv s'.
Proof.
  intros ((Hcs & _) & _). unfold Game.resetGame. cbv zeta.
  apply generateNewMaze_inv.
  split; [exact Hcs|]. split; [by vm_compute|]. split; [by vm_compute|].
  unfold withinLimits. cbn. repeat split; first [lia|by vm_compute].
Qed.

Lemma gameStep_inv (s s' : Game.t) (ev : GameEvent) :
  gameInv s -> gameStep s ev = MazeGenerator.Ok s' -> gameInv s'.
Proof.
  intros Hinv. destruct ev as [deltaTime d|direction| |d| |]; cbn [gameStep].
  - by apply update_inv.
  - intros [= <-]. unfold Game.handleInput, GameEngine.handleInput.
    destruct (negb _ || _); [by destruct s|].
    destruct (player_setDirection_clear (GameEngine.player (Game.engine s)) direction)
      as [Cl Rn]; [apply Hinv|].
    apply (gameInv_player s);
      [reflexivity|reflexivity|exact Rn|cbn; apply player_setDirection_speed
      |reflexivity|cbn; lia|exact Cl|exact Hinv].
  - intros [= <-]. unfold Game.respawnTimer. cbv zeta.
    apply (gameInv_place (Game.resetPlayerPosition s)); try reflexivity.
    + unfold samePlayerPlace. cbn. repeat split; lia.
    + by apply resetPlayerPosition_inv.
  - unfold Game.restartTimer. destruct (Z.leb _ 0); [|by intros [= <-]].
    destruct (Game.resetGame s d) as [s1|msg] eqn:Hreset; [|discriminate].
    intros [= <-]. apply (gameInv_place s1); try reflexivity.
    + unfold samePlayerPlace. cbn. repeat split; lia.
    + by apply (resetGame_inv s s1 d).
  - intros [= <-]. apply (gameInv_place s); try reflexivity; [|exact Hinv].
    unfold samePlayerPlace. cbn. repeat split; lia.
  - intros [= <-]. apply (gameInv_place s); try reflexivity; [|exact Hinv].
    unfold samePlayerPlace. cbn. repeat split; lia.
Qed.

Lemma runGame_inv (evs : list GameEvent) (s s' : Game.t) :
  gameInv s -> runGame s evs = MazeGenerator.Ok s' -> gameInv s'.
Proof.
  revert s. induction evs as [|ev evs IH]; intros s Hinv; cbn [runGame].
  - by intros [= <-].
  - destruct (gameStep s ev) as [s1|msg] eqn:Hstep; [|discriminate].
    apply IH. by apply (gameStep_inv s s1 ev).
Qed.

Lemma new_inv (canvasWidth canvasHeight : Q) (d : Game.Draws) (s : Game.t) :
  Game.new canvasWidth canvasHeight d = MazeGenerator.Ok s -> gameInv s.
Proof.
  unfold Game.new. cbv zeta. apply generateNewMaze_inv.
  split; [reflexivity|]. split; [by vm_compute|]. split; [by vm_compute|].
  unfold withinLimits. cbn. repeat split; first [lia|by vm_compute].
Qed.

(** *** What a new level keeps and what it resets *)

Lemma calculateSpawnPositions_fields (c : AIController.t) :
  let c' := AIController.calculateSpawnPositions c in
  AIController.enemies c' = AIController.enemies c /\
  AIController.mazeRenderer c' = AIController.mazeRenderer c /\
  AIController.isActive c' = AIController.isActive c /\
  AIController.nextId c' = AIController.nextId c.
Proof.
  unfold AIController.calculateSpawnPositions.
  destruct (AIController.mazeRenderer c) as [r|] eqn:Hr; [|by rewrite Hr].
  destruct (MazeRenderer.getMazeDimensions r) as [w h]. cbv zeta.
  destruct (List.filter _ _); by rewrite <- Hr.
Qed.

Lemma generatePellets_collected (s : PelletPlacement.t) (maze : MazeGenerator.Maze)
    (g : MazeGenerator.Rng) :
  PelletManager.collectedPellets
    (PelletPlacement.manager (fst (PelletPlacement.generatePellets s maze g))) = 0%nat.
Proof.
  unfold PelletPlacement.generatePellets. cbv zeta.
  set (s0 := {| PelletPlacement.manager := _ |}).
  destruct (MazeGenerator.getAccessiblePositions _ _) as [|first rest]; [reflexivity|].
  generalize (first :: rest). intros cells.
  assert (H1 : PelletManager.collectedPellets
                 (PelletPlacement.manager (fst (PelletPlacement.placeNormalPellets s0 cells g)))
               = 0%nat).
  { unfold PelletPlacement.placeNormalPellets.
    destruct (MazeGenerator.shuffleArray cells g) as [shuffled g1]. cbn [fst].
    by rewrite placeNormal_collected. }
  destruct (PelletPlacement.placeNormalPellets s0 cells g) as [s1 g1]. cbn [fst] in H1.
  assert (H2 : PelletManager.collectedPellets
                 (PelletPlacement.manager (fst (PelletPlacement.placePowerPellets s1 cells g1)))
               = 0%nat).
  { unfold PelletPlacement.placePowerPellets.
    destruct (Nat.ltb _ _); [exact H1|].
    destruct (if Nat.leb _ _ then _ else _) as [positions g2]. cbn [fst].
    by rewrite placePower_collected. }
  by destruct (PelletPlacement.placePowerPellets s1 cells g1) as [s2 g2].
Qed.

Lemma generateNewMaze_fields (s s' : Game.t) (d : Game.Draws) :
  Game.generateNewMaze s d = MazeGenerator.Ok s' ->
  let g := Game.engine s in
  let g' := Game.engine s' in
  let c' := GameEngine.aiController g' in
  (GameEngine.score g' = GameEngine.score g /\
   GameEngine.lives g' = GameEngine.lives g /\
   GameEngine.level g' = GameEngine.level g /\
   GameEngine.isRunning g' = GameEngine.isRunning g /\
   GameEngine.isRespawning g' = GameEngine.isRespawning g /\
   GameEngine.invulnerabilityTime g' = GameEngine.invulnerabilityTime g /\
   Player.speed (GameEngine.player g') = Player.speed (GameEngine.player g)) /\
  (Game.mazeGenerator s' = Game.mazeGenerator s /\
   PelletPlacement.normalPelletDensity (Game.pelletManager s')
   = PelletPlacement.normalPelletDensity (Game.pelletManager s) /\
   PelletPlacement.powerPelletCount (Game.pelletManager s')
   = PelletPlacement.powerPelletCount (Game.pelletManager s) /\
   PelletManager.collectedPellets (PelletPlacement.manager (Game.pelletManager s')) = 0%nat) /\
  (MazeGenerator.generate (Game.mazeGenerator s) (Game.stackDepth d) (Game.mazeRandom d)
   = MazeGenerator.Ok (Game.maze s') /\
   Game.mazeRenderer s'
   = MazeRenderer.setMaze (GameLevel.mazeRows (Game.mazeGenerator s) (Game.maze s'))
                          (Game.mazeRenderer s)) /\
  (AIController.enemies c' = [] /\
   AIController.enemiesSpawned c' = 0%Z /\
   AIController.maxEnemies c' = Z.min 6 (4 + GameEngine.level g / 3) /\
   AIController.spawnDelay c' = Qmax 1000 (2000 - inject_Z (GameEngine.level g - 1) * 100) /\
   AIController.difficultyLevel c' = Z.max 1 (GameEngine.level g) /\
   AIController.isActive c' = AIController.isActive (GameEngine.aiController g)).
Proof.
  intros Hgen. unfold Game.generateNewMaze in Hgen.
  destruct (MazeGenerator.generate _ _ _) as [newMaze|msg] eqn:Hmaze; [|discriminate].
  cbv zeta in Hgen. injection Hgen as <-.
  match goal with
  | |- context [PelletPlacement.generatePellets ?pm0 _ _] => set (pm := pm0)
  end.
  pose proof (generatePellets_settings pm newMaze (Game.pelletRandom d)) as (S1 & S2 & S3 & S4).
  pose proof (generatePellets_collected pm newMaze (Game.pelletRandom d)) as S5.
  set (pm' := fst (PelletPlacement.generatePellets pm newMaze (Game.pelletRandom d))) in *.
  unfold Game.mazeGenerator, Game.mazeRenderer, Game.resetPlayerPosition,
    Game.withEngine, Game.withController, Game.withPlayer.
  cbn [Game.engine Game.pelletManager Game.maze GameEngine.player GameEngine.level
       GameEngine.lives GameEngine.score GameEngine.isRunning GameEngine.isRespawning
       GameEngine.invulnerabilityTime GameEngine.aiController
       AIController.setDifficultyLevel AIController.reset
       AIController.enemies AIController.enemiesSpawned AIController.maxEnemies
       AIController.spawnDelay AIController.difficultyLevel AIController.isActive].
  split; [|split; [|split]].
  - repeat split.
    unfold GameLevel.resetPlayerPosition.
    destruct (MazeGenerator.getAccessiblePositions _ _) as [|c rest]; [reflexivity|].
    by destruct (MazeRenderer.gridToWorld _ _ _).
  - split; [exact S1|]. split; [exact S3|]. split; [exact S4|exact S5].
  - split; [reflexivity|exact S2].
  - repeat split.
    unfold AIController.setMazeRenderer.
    by rewrite (proj1 (proj2 (proj2 (calculateSpawnPositions_fields _)))).
Qed.

(** *** A sample game *)

Lemma sampleGame_new : Game.new 800 600 sampleDraws = MazeGenerator.Ok sampleGame.
Proof. apply result_of_isOk. vm_compute. reflexivity. Qed.

Lemma sampleGame_run : runGame sampleGame sampleEvents = MazeGenerator.Ok sampleGameAfter.
Proof. apply result_of_isOk. vm_compute. reflexivity. Qed.

(** *** Whole games *)

(** X24.  In a game that the constructor set up and that went through any
    animation frames, direction inputs, timer callbacks and [start] and
    [stop] calls without an exception, the renderer shows the grid of the
    current level, the player holds that renderer, and no corner of the
    player's box is in a wall cell of it or outside it; cell (1, 1), to
    which the player is sent back, is a path cell. *)
Theorem player_clear_in_every_level (canvasWidth canvasHeight : Q) (d : Game.Draws)
    (evs : list GameEvent) (s0 s : Game.t) :
  Game.new canvasWidth canvasHeight d = MazeGenerator.Ok s0 ->
  runGame s0 evs = MazeGenerator.Ok s ->
  let r := Game.mazeRenderer s in
  let p := GameEngine.player (Game.engine s) in
  MazeRenderer.maze r = Some (GameLevel.mazeRows (Game.mazeGenerator s) (Game.maze s)) /\
  Player.mazeRenderer p = Some r /\
  cornersFree r Player.size (Player.x p) (Player.y p) = true /\
  Game.maze s !! (1, 1)%Z = Some MazeGenerator.PATH.
Proof.
  intros Hnew Hrun r p.
  destruct (runGame_inv evs s0 s (new_inv _ _ _ _ Hnew) Hrun) as (Hready & Hclear & _).
  destruct Hready as (_ & Hrm & _ & _ & Hstart & _ & Hr).
  split; [exact Hrm|]. split; [exact Hr|]. split; [|exact Hstart].
  unfold playerClear, Player.canMoveToPosition in Hclear. fold p in Hclear, Hr.
  by rewrite Hr in Hclear.
Qed.

Lemma player_clear_in_every_level_witness :
  Game.new 800 600 sampleDraws = MazeGenerator.Ok sampleGame /\
  runGame sampleGame sampleEvents = MazeGenerator.Ok sampleGameAfter /\
  let r := Game.mazeRenderer sampleGameAfter in
  let p := GameEngine.player (Game.engine sampleGameAfter) in
  MazeRenderer.maze r
  = Some (GameLevel.mazeRows (Game.mazeGenerator sampleGameAfter) (Game.maze sampleGameAfter)) /\
  Player.mazeRenderer p = Some r /\
  cornersFree r Player.size (Player.x p) (Player.y p) = true /\
  Game.maze sampleGameAfter !! (1, 1)%Z = Some MazeGenerator.PATH.
Proof.
  split; [exact sampleGame_new|]. split; [exact sampleGame_run|].
  exact (player_clear_in_every_level 800 600 sampleDraws sampleEvents sampleGame sampleGameAfter
           sampleGame_new sampleGame_run).
Defined.

(** X25.  Throughout such a game every pellet of the manager stands on
    the centre of a path cell of the current grid, no cell holds two
    pellets, the total count is the number of pellets, and the collected
    count and the number of pellets still to collect add up to it. *)
Theorem pellets_stay_on_paths (canvasWidth canvasHeight : Q) (d : Game.Draws)
    (evs : list GameEvent) (s0 s : Game.t) :
  Game.new canvasWidth canvasHeight d = MazeGenerator.Ok s0 ->
  runGame s0 evs = MazeGenerator.Ok s ->
  let gen := Game.mazeGenerator s in
  let r := Game.mazeRenderer s in
  let m := PelletPlacement.manager (Game.pelletManager s) in
  Forall (fun p => isPathCell gen (Game.maze s) (pelletCell r p) = true /\ onCentre r p)
         (PelletManager.pellets m) /\
  NoDup (List.map (pelletCell r) (PelletManager.pellets m)) /\
  PelletManager.getTotalPelletCount m = length (PelletManager.pellets m) /\
  (PelletManager.collectedPellets m + PelletManager.getRemainingPelletCount m
   = PelletManager.getTotalPelletCount m)%nat.
Proof.
  intros Hnew Hrun gen r m.
  destruct (runGame_inv evs s0 s (new_inv _ _ _ _ Hnew) Hrun) as (_ & _ & Hpel & _).
  destruct Hpel as (F & ND & Tot & Cnt).
  split; [|by split].
  eapply Forall_impl; [exact F|]. by intros p (? & ? & _).
Qed.

Lemma pellets_stay_on_paths_witness :
  Game.new 800 600 sampleDraws = MazeGenerator.Ok sampleGame /\
  runGame sampleGame sampleEvents = MazeGenerator.Ok sampleGameAfter /\
  let gen := Game.mazeGenerator sampleGameAfter in
  let r := Game.mazeRenderer sampleGameAfter in
  let m := PelletPlacement.manager (Game.pelletManager sampleGameAfter) in
  Forall (fun p => isPathCell gen (Game.maze sampleGameAfter) (pelletCell r p) = true /\
                   onCentre r p)
         (PelletManager.pellets m) /\
  NoDup (List.map (pelletCell r) (PelletManager.pellets m)) /\
  PelletManager.getTotalPelletCount m = length (PelletManager.pellets m) /\
  (PelletManager.collectedPellets m + PelletManager.getRemainingPelletCount m
   = PelletManager.getTotalPelletCount m)%nat.
Proof.
  split; [exact sampleGame_new|]. split; [exact sampleGame_run|].
  exact (pellets_stay_on_paths 800 600 sampleDraws sampleEvents sampleGame sampleGameAfter
           sampleGame_new sampleGame_run).
Defined.

(** X26.  Throughout such a game the settings that the levels change
    stay in their ranges: the grid is between 41 x 31 and 61 x 41 cells,
    of 20 pixels each; the level is at least 1 and the lives at most 3;
    the player's speed is between 2 and 4; the density of normal pellets
    is between 0.4 and 0.7 and the number of power pellets between 4 and
    6. *)
Theorem difficulty_stays_in_range (canvasWidth canvasHeight : Q) (d : Game.Draws)
    (evs : list GameEvent) (s0 s : Game.t) :
  Game.new canvasWidth canvasHeight d = MazeGenerator.Ok s0 ->
  runGame s0 evs = MazeGenerator.Ok s ->
  let gen := Game.mazeGenerator s in
  let g := Game.engine s in
  let pm := Game.pelletManager s in
  (41 <= MazeGenerator.width gen <= 61)%Z /\
  (31 <= MazeGenerator.height gen <= 41)%Z /\
  MazeRenderer.cellSize (Game.mazeRenderer s) = 20 /\
  (1 <= GameEngine.level g)%Z /\
  (GameEngine.lives g <= 3)%Z /\
  2 <= Player.speed (GameEngine.player g) <= 4 /\
  (4 # 10) <= PelletPlacement.normalPelletDensity pm <= (7 # 10) /\
  (4 <= PelletPlacement.powerPelletCount pm <= 6)%nat.
Proof.
  intros Hnew Hrun gen g pm.
  destruct (runGame_inv evs s0 s (new_inv _ _ _ _ Hnew) Hrun) as (Hready & _ & _ & Hlim).
  destruct Hready as (Hcs & _ & Hw & Hh & _).
  split; [exact Hw|]. split; [exact Hh|]. split; [exact Hcs|]. exact Hlim.
Qed.

Lemma difficulty_stays_in_range_witness :
  Game.new 800 600 sampleDraws = MazeGenerator.Ok sampleGame /\
  runGame sampleGame sampleEvents = MazeGenerator.Ok sampleGameAfter /\
  let gen := Game.mazeGenerator sampleGameAfter in
  let g := Game.engine sampleGameAfter in
  let pm := Game.pelletManager sampleGameAfter in
  (41 <= MazeGenerator.width gen <= 61)%Z /\
  (31 <= MazeGenerator.height gen <= 41)%Z /\
  MazeRenderer.cellSize (Game.mazeRenderer sampleGameAfter) = 20 /\
  (1 <= GameEngine.level g)%Z /\
  (GameEngine.lives g <= 3)%Z /\
  2 <= Player.speed (GameEngine.player g) <= 4 /\
  (4 # 10) <= PelletPlacement.normalPelletDensity pm <= (7 # 10) /\
  (4 <= PelletPlacement.powerPelletCount pm <= 6)%nat.
Proof.
  split; [exact sampleGame_new|]. split; [exact sampleGame_run|].
  exact (difficulty_stays_in_range 800 600 sampleDraws sampleEvents sampleGame sampleGameAfter
           sampleGame_new sampleGame_run).
Defined.

(** *** Completing a level, and restarting a lost game *)

Lemma sampleNextLevel_ok :
  Game.handleLevelComplete smallGame smallDraws = MazeGenerator.Ok sampleNextLevel.
Proof. apply result_of_isOk. vm_compute. reflexivity. Qed.

Lemma sampleRestarted_ok :
  Game.restartTimer sampleGameOver sampleDraws = MazeGenerator.Ok sampleRestarted.
Proof. apply result_of_isOk. vm_compute. reflexivity. Qed.

(** The fields of the game after [handleLevelComplete], as the functions
    above compute them; the two fractions are those of the exact
    arithmetic of [Game.increaseDifficulty]. *)
Lemma handleLevelComplete_fields (s s' : Game.t) (d : Game.Draws) :
  (0 < PelletManager.getTotalPelletCount (PelletPlacement.manager (Game.pelletManager s)))%nat ->
  Game.handleLevelComplete s d = MazeGenerator.Ok s' ->
  let g := Game.engine s in
  let g' := Game.engine s' in
  let pm := Game.pelletManager s in
  let pm' := Game.pelletManager s' in
  let c' := GameEngine.aiController g' in
  let level' := (GameEngine.level g + 1)%Z in
  let width := MazeGenerator.width (Game.mazeGenerator s) in
  let height := MazeGenerator.height (Game.mazeGenerator s) in
  let newWidth := Z.min 61 (width + 4) in
  let newHeight := Z.min 41 (height + 2) in
  let resized :=
    Z.eqb (Z.rem level' 3) 0 &&
    (negb (Z.eqb newWidth width) || negb (Z.eqb newHeight height)) in
  GameEngine.level g' = level' /\
  GameEngine.score g' = (GameEngine.score g + GameEngine.level g * 100)%Z /\
  GameEngine.lives g' = GameEngine.lives g /\
  Player.speed (GameEngine.player g')
  = Qmax 0 (Qmin 4 (Player.speed (GameEngine.player g) + (1 # 10))) /\
  Game.mazeGenerator s'
  = (if resized then MazeGenerator.new newWidth newHeight else Game.mazeGenerator s) /\
  PelletPlacement.normalPelletDensity pm'
  = Qmax (4 # 10)
         ((if resized then 7 # 10 else PelletPlacement.normalPelletDensity pm) - (2 # 100)) /\
  PelletPlacement.powerPelletCount pm'
  = (let count := if resized then 4%nat else PelletPlacement.powerPelletCount pm in
     if Z.eqb (Z.rem level' 5) 0 then Nat.min 6 (count + 1) else count) /\
  PelletManager.collectedPellets (PelletPlacement.manager pm') = 0%nat /\
  MazeGenerator.generate (Game.mazeGenerator s') (Game.stackDepth d) (Game.mazeRandom d)
  = MazeGenerator.Ok (Game.maze s') /\
  MazeRenderer.maze (Game.mazeRenderer s')
  = Some (GameLevel.mazeRows (Game.mazeGenerator s') (Game.maze s')) /\
  AIController.enemies c' = [] /\
  AIController.maxEnemies c' = Z.min 6 (4 + level' / 3) /\
  AIController.spawnDelay c' = Qmax 1000 (2000 - inject_Z (level' - 1) * 100).
Proof.
  intros Htotal Hdone. cbv zeta.
  unfold Game.handleLevelComplete in Hdone. cbv zeta in Hdone.
  apply Nat.ltb_lt in Htotal. rewrite Htotal in Hdone.
  destruct (generateNewMaze_fields _ _ _ Hdone)
    as ((Sc & Li & Lv & _ & _ & _ & Sp) & (Ge & Dn & Pc & Co) & (Mz & Rn) & (En & _ & Mx & Sd & _)).
  cbv zeta in *.
  rewrite Sc, Li, Lv, Sp, Ge, Dn, Pc, Co, En, Mx, Sd, Rn.
  unfold Game.increaseDifficulty, Game.mazeGenerator, Game.mazeRenderer,
    Game.withEngine, Game.withController, Game.withPlayer, GameEngine.updateScore,
    Player.getSpeed in *.
  cbv zeta in *.
  cbn [Game.engine Game.pelletManager Game.maze GameEngine.player GameEngine.level
       GameEngine.lives GameEngine.score GameEngine.aiController
       PelletPlacement.mazeGenerator PelletPlacement.mazeRenderer
       PelletPlacement.normalPelletDensity PelletPlacement.powerPelletCount
       Player.setSpeed Player.speed MazeRenderer.setMaze MazeRenderer.maze] in *.
  set (level' := (GameEngine.level (Game.engine s) + 1)%Z) in *.
  set (resize := negb _ || negb _) in *.
  split; [reflexivity|]. split; [reflexivity|]. split; [reflexivity|]. split; [reflexivity|].
  destruct (Z.eqb (Z.rem level' 3) 0), resize; cbn [andb] in *;
    cbn [PelletPlacement.new PelletPlacement.mazeGenerator PelletPlacement.mazeRenderer
         PelletPlacement.normalPelletDensity PelletPlacement.powerPelletCount] in *;
    repeat split; try reflexivity; exact Mz.
Qed.

(** X27.  When a level with pellets is completed and the next maze is
    generated, the level goes up by one and the old level times 100 is
    added to the score; the lives stay.  The player's speed ends between
    0 and 4: a speed below 4 grows, a speed of 4 or more becomes 4.  When
    the new level is a multiple of 3 and the grid is below 61 x 41, the
    generator is replaced by one that is 4 wider and 2 higher (up to that
    size) and the pellet manager by a new one, so that the density
    restarts from 0.7 and the number of power pellets from 4.  From there
    the density never ends below 0.4, does not grow when it was at least
    0.4 and drops when it was above 0.4; when the new level is a multiple
    of 5 one power pellet is added, up to 6.  The new grid is the
    generator's and the renderer shows it; no pellet counts as collected;
    the roster is empty, and the controller allows
    [min (6, 4 + floor (level / 3))] enemies with a spawn delay of
    [max (1000, 2000 - (level - 1) * 100)] for the new level.  The size
    of the two fractional steps (0.1 and 0.02) is left to
    [Game.increaseDifficulty]: what is stated of the speed and of the
    density does not depend on how their sums are rounded. *)
Theorem level_completion_effect (s s' : Game.t) (d : Game.Draws) :
  (0 < PelletManager.getTotalPelletCount (PelletPlacement.manager (Game.pelletManager s)))%nat ->
  Game.handleLevelComplete s d = MazeGenerator.Ok s' ->
  let g := Game.engine s in
  let g' := Game.engine s' in
  let pm := Game.pelletManager s in
  let pm' := Game.pelletManager s' in
  let c' := GameEngine.aiController g' in
  let level' := (GameEngine.level g + 1)%Z in
  let width := MazeGenerator.width (Game.mazeGenerator s) in
  let height := MazeGenerator.height (Game.mazeGenerator s) in
  let newWidth := Z.min 61 (width + 4) in
  let newHeight := Z.min 41 (height + 2) in
  let resized :=
    Z.eqb (Z.rem level' 3) 0 &&
    (negb (Z.eqb newWidth width) || negb (Z.eqb newHeight height)) in
  let speed := Player.speed (GameEngine.player g) in
  let speed' := Player.speed (GameEngine.player g') in
  let density := if resized then 7 # 10 else PelletPlacement.normalPelletDensity pm in
  let density' := PelletPlacement.normalPelletDensity pm' in
  GameEngine.level g' = level' /\
  GameEngine.score g' = (GameEngine.score g + GameEngine.level g * 100)%Z /\
  GameEngine.lives g' = GameEngine.lives g /\
  (0 <= speed' /\ speed' <= 4 /\
   (speed < 4 -> speed < speed') /\
   (4 <= speed -> speed' == 4)) /\
  Game.mazeGenerator s'
  = (if resized then MazeGenerator.new newWidth newHeight else Game.mazeGenerator s) /\
  (4 # 10 <= density' /\
   (4 # 10 <= density -> density' <= density) /\
   (4 # 10 < density -> density' < density)) /\
  PelletPlacement.powerPelletCount pm'
  = (let count := if resized then 4%nat else PelletPlacement.powerPelletCount pm in
     if Z.eqb (Z.rem level' 5) 0 then Nat.min 6 (count + 1) else count) /\
  PelletManager.collectedPellets (PelletPlacement.manager pm') = 0%nat /\
  MazeGenerator.generate (Game.mazeGenerator s') (Game.stackDepth d) (Game.mazeRandom d)
  = MazeGenerator.Ok (Game.maze s') /\
  MazeRenderer.maze (Game.mazeRenderer s')
  = Some (GameLevel.mazeRows (Game.mazeGenerator s') (Game.maze s')) /\
  AIController.enemies c' = [] /\
  AIController.maxEnemies c' = Z.min 6 (4 + level' / 3) /\
  AIController.spawnDelay c' = Qmax 1000 (2000 - inject_Z (level' - 1) * 100).
Proof.
  intros Htotal Hdone.
  destruct (handleLevelComplete_fields s s' d Htotal Hdone)
    as (Lv & Sc & Li & Sp & Ge & Dn & Pc & Co & Mz & Rn & En & Mx & Sd).
  cbv zeta in *.
  split; [exact Lv|]. split; [exact Sc|]. split; [exact Li|].
  split.
  { rewrite Sp. clear.
    set (v := Player.speed (GameEngine.player (Game.engine s))).
    pose proof (Q.min_spec 4 (v + (1 # 10))) as Hmin.
    pose proof (Q.max_spec 0 (Qmin 4 (v + (1 # 10)))) as Hmax.
    revert Hmin Hmax. generalize (Qmin 4 (v + (1 # 10))). intros m Hmin.
    generalize (Qmax 0 m). intros M Hmax.
    repeat split; intros; lra. }
  split; [exact Ge|].
  split.
  { rewrite Dn. clear.
    match goal with
    | |- context [Qmax (4 # 10) (?b - (2 # 100))] =>
        set (v := b);
        pose proof (Q.max_spec (4 # 10) (v - (2 # 100))) as Hmax;
        revert Hmax; generalize (Qmax (4 # 10) (v - (2 # 100)))
    end.
    intros M Hmax. repeat split; intros; lra. }
  split; [exact Pc|]. split; [exact Co|]. split; [exact Mz|]. split; [exact Rn|].
  split; [exact En|]. split; [exact Mx|]. exact Sd.
Qed.

Lemma level_completion_effect_witness :
  (0 < PelletManager.getTotalPelletCount
         (PelletPlacement.manager (Game.pelletManager smallGame)))%nat /\
  Game.handleLevelComplete smallGame smallDraws = MazeGenerator.Ok sampleNextLevel /\
  GameEngine.level (Game.engine sampleNextLevel) = 3%Z /\
  GameEngine.score (Game.engine sampleNextLevel) = 240%Z /\
  Game.mazeGenerator sampleNextLevel = MazeGenerator.new 11 7 /\
  4 # 10 <= PelletPlacement.normalPelletDensity (Game.pelletManager sampleNextLevel) /\
  PelletPlacement.normalPelletDensity (Game.pelletManager sampleNextLevel) < 7 # 10 /\
  AIController.enemies (GameEngine.aiController (Game.engine sampleNextLevel)) = [] /\
  AIController.maxEnemies (GameEngine.aiController (Game.engine sampleNextLevel)) = 5%Z.
Proof.
  assert (H : (0 < PelletManager.getTotalPelletCount
                     (PelletPlacement.manager (Game.pelletManager smallGame)))%nat).
  { vm_compute. constructor. }
  split; [exact H|]. split; [exact sampleNextLevel_ok|].
  destruct (level_completion_effect smallGame sampleNextLevel smallDraws H
              sampleNextLevel_ok)
    as (Lv & Sc & _ & _ & Ge & (Dlo & _ & Dhi) & _ & _ & _ & _ & En & Mx & _).
  split; [rewrite Lv; reflexivity|]. split; [rewrite Sc; reflexivity|].
  split; [rewrite Ge; reflexivity|]. split; [exact Dlo|].
  split; [apply Dhi; vm_compute; reflexivity|].
  split; [exact En|]. rewrite Mx. reflexivity.
Defined.

(** X28.  The restart timer of the game-over screen leaves a game that
    has lives alone.  A game without lives it resets and starts: score 0,
    three lives, level 1, no respawn or invulnerability pending, speed 2,
    a generator of 41 x 31 with a new pellet manager of density 0.7 and 4
    power pellets, a new grid that the renderer shows, and an active
    controller with an empty roster, 4 enemies allowed and a spawn delay
    of 2000. *)
Theorem restart_timer_effect (s s' : Game.t) (d : Game.Draws) :
  Game.restartTimer s d = MazeGenerator.Ok s' ->
  let g := Game.engine s in
  let g' := Game.engine s' in
  let pm' := Game.pelletManager s' in
  let c' := GameEngine.aiController g' in
  ((0 < GameEngine.lives g)%Z -> s' = s) /\
  ((GameEngine.lives g <= 0)%Z ->
   GameEngine.score g' = 0%Z /\ GameEngine.lives g' = 3%Z /\ GameEngine.level g' = 1%Z /\
   GameEngine.isRunning g' = true /\ GameEngine.isRespawning g' = false /\
   GameEngine.invulnerabilityTime g' = 0 /\
   Player.speed (GameEngine.player g') = 2 /\
   Game.mazeGenerator s' = MazeGenerator.new 41 31 /\
   PelletPlacement.normalPelletDensity pm' = 7 # 10 /\
   PelletPlacement.powerPelletCount pm' = 4%nat /\
   PelletManager.collectedPellets (PelletPlacement.manager pm') = 0%nat /\
   MazeGenerator.generate (Game.mazeGenerator s') (Game.stackDepth d) (Game.mazeRandom d)
   = MazeGenerator.Ok (Game.maze s') /\
   MazeRenderer.maze (Game.mazeRenderer s')
   = Some (GameLevel.mazeRows (Game.mazeGenerator s') (Game.maze s')) /\
   AIController.enemies c' = [] /\ AIController.isActive c' = true /\
   AIController.maxEnemies c' = 4%Z /\ AIController.spawnDelay c' = 2000).
Proof.
  intros Hrestart. cbv zeta. unfold Game.restartTimer in Hrestart.
  destruct (Z.leb_spec (GameEngine.lives (Game.engine s)) 0) as [Hle|Hgt].
  - split; [lia|]. intros _.
    destruct (Game.resetGame s d) as [s1|msg] eqn:Hreset; [|discriminate].
    injection Hrestart as <-.
    unfold Game.resetGame in Hreset. cbv zeta in Hreset.
    destruct (generateNewMaze_fields _ _ _ Hreset)
      as ((Sc & Li & Lv & _ & Rs & Iv & Sp) & (Ge & Dn & Pc & Co) & (Mz & Rn)
          & (En & _ & Mx & Sd & _ & Ac)).
    cbv zeta in *.
    unfold Game.start, Game.withEngine, Game.withRunning, Game.mazeGenerator,
      Game.mazeRenderer in *.
    cbn [Game.engine Game.pelletManager Game.maze GameEngine.player GameEngine.level
         GameEngine.lives GameEngine.score GameEngine.aiController GameEngine.isRunning
         GameEngine.isRespawning GameEngine.invulnerabilityTime
         PelletPlacement.new PelletPlacement.mazeGenerator PelletPlacement.mazeRenderer
         PelletPlacement.normalPelletDensity PelletPlacement.powerPelletCount] in *.
    rewrite Sc, Li, Lv, Rs, Iv, Sp, Ge, Dn, Pc, Co, En, Mx, Sd, Ac, Rn.
      repeat split; try reflexivity. exact Mz.
  - split; [|lia]. intros _. by injection Hrestart as <-.
Qed.

Lemma restart_timer_effect_witness :
  Game.restartTimer sampleGameOver sampleDraws = MazeGenerator.Ok sampleRestarted /\
  (GameEngine.lives (Game.engine sampleGameOver) <= 0)%Z /\
  GameEngine.lives (Game.engine sampleRestarted) = 3%Z /\
  GameEngine.isRunning (Game.engine sampleRestarted) = true.
Proof.
  assert (H : (GameEngine.lives (Game.engine sampleGameOver) <= 0)%Z).
  { vm_compute. discriminate. }
  split; [exact sampleRestarted_ok|]. split; [exact H|].
  destruct (restart_timer_effect sampleGameOver sampleRestarted sampleDraws sampleRestarted_ok)
    as (_ & Hreset).
  destruct (Hreset H) as (_ & Li & _ & Ru & _).
  split; [exact Li|exact Ru].
Defined.

(** *** The player on the screen *)

Lemma free_point_inside (r : MazeRenderer.t) (m : list (list Z)) (wx wy : Q) :
  MazeRenderer.maze r = Some m ->
  0 < MazeRenderer.cellSize r ->
  MazeRenderer.isWallAtPosition r wx wy = false ->
  0 <= wx < fst (MazeRenderer.getMazeDimensions r) /\
  0 <= wy < snd (MazeRenderer.getMazeDimensions r).
Proof.
  intros Hm Hc Hfree. unfold MazeRenderer.getMazeDimensions. cbn [fst snd].
  pose proof (outside_is_wall r m wx wy Hm) as Hout.
  unfold MazeRenderer.worldToGrid in Hout.
  set (cs := MazeRenderer.cellSize r) in *.
  destruct (Qfloor_div_bounds wx cs Hc) as [X1 X2].
  destruct (Qfloor_div_bounds wy cs Hc) as [Y1 Y2].
  assert (Hin : (0 <= Qfloor (wx / cs) < MazeRenderer.mazeWidth r)%Z /\
                (0 <= Qfloor (wy / cs) < MazeRenderer.mazeHeight r)%Z).
  { destruct (Z.lt_ge_cases (Qfloor (wx / cs)) 0);
      [rewrite Hout in Hfree; [discriminate|lia]|].
    destruct (Z.lt_ge_cases (Qfloor (wx / cs)) (MazeRenderer.mazeWidth r));
      [|rewrite Hout in Hfree; [discriminate|lia]].
    destruct (Z.lt_ge_cases (Qfloor (wy / cs)) 0);
      [rewrite Hout in Hfree; [discriminate|lia]|].
    destruct (Z.lt_ge_cases (Qfloor (wy / cs)) (MazeRenderer.mazeHeight r));
      [|rewrite Hout in Hfree; [discriminate|lia]].
    lia. }
  destruct Hin as [[A1 A2] [B1 B2]].
  assert (A1' : 0 <= inject_Z (Qfloor (wx / cs))) by (rewrite Zle_Qle in A1; exact A1).
  assert (B1' : 0 <= inject_Z (Qfloor (wy / cs))) by (rewrite Zle_Qle in B1; exact B1).
  assert (A2' : inject_Z (Qfloor (wx / cs) + 1) <= inject_Z (MazeRenderer.mazeWidth r)).
  { rewrite <- Zle_Qle. lia. }
  assert (B2' : inject_Z (Qfloor (wy / cs) + 1) <= inject_Z (MazeRenderer.mazeHeight r)).
  { rewrite <- Zle_Qle. lia. }
  repeat split; nra.
Qed.

Lemma generateNewMaze_camera (s s' : Game.t) (d : Game.Draws) :
  Game.generateNewMaze s d = MazeGenerator.Ok s' -> Game.camera s' = Game.camera s.
Proof.
  unfold Game.generateNewMaze.
  destruct (MazeGenerator.generate _ _ _); [|discriminate]. by intros [= <-].
Qed.

Lemma handlePelletCollection_camera (s s' : Game.t) (d : Game.Draws) :
  Game.handlePelletCollection s d = MazeGenerator.Ok s' -> Game.camera s' = Game.camera s.
Proof.
  unfold Game.handlePelletCollection.
  destruct (GameLevel.handlePelletCollection _) as [collected complete].
  destruct complete; [|by intros [= <-]].
  unfold Game.handleLevelComplete. cbv zeta. intros H.
  rewrite (generateNewMaze_camera _ _ _ H). by destruct (Nat.ltb _ _).
Qed.

Lemma gameStep_canvas (s s' : Game.t) (ev : GameEvent) :
  gameStep s ev = MazeGenerator.Ok s' ->
  Camera.width (Game.camera s') = Camera.width (Game.camera s) /\
  Camera.height (Game.camera s') = Camera.height (Game.camera s).
Proof.
  destruct ev as [deltaTime d|direction| |d| |]; cbn [gameStep];
    try (by intros [= <-]).
  - unfold Game.update. destruct (negb _ || _); [by intros [= <-]|]. cbv zeta.
    destruct (Game.handlePelletCollection _ d) as [s2|msg] eqn:Hcol; [|discriminate].
    intros [= <-]. apply handlePelletCollection_camera in Hcol.
    cbn [Game.camera]. unfold Camera.updateCamera. cbv zeta.
    destruct (_ && _); cbn [Camera.width Camera.height]; by rewrite Hcol.
  - unfold Game.restartTimer. destruct (Z.leb _ 0); [|by intros [= <-]].
    destruct (Game.resetGame s d) as [s1|msg] eqn:Hreset; [|discriminate].
    intros [= <-]. unfold Game.resetGame in Hreset. cbv zeta in Hreset.
    apply generateNewMaze_camera in Hreset. cbn in *. by rewrite Hreset.
Qed.

Lemma runGame_canvas (evs : list GameEvent) (s s' : Game.t) :
  runGame s evs = MazeGenerator.Ok s' ->
  Camera.width (Game.camera s') = Camera.width (Game.camera s) /\
  Camera.height (Game.camera s') = Camera.height (Game.camera s).
Proof.
  revert s. induction evs as [|ev evs IH]; intros s; cbn [runGame].
  - by intros [= <-].
  - destruct (gameStep s ev) as [s1|msg] eqn:Hstep; [|discriminate].
    intros Hrun. destruct (IH _ Hrun) as [W H]. destruct (gameStep_canvas _ _ _ Hstep) as [W1 H1].
    split; congruence.
Qed.

Lemma start_respawning (s : Game.t) :
  GameEngine.isRespawning (Game.engine (Game.start s)) = GameEngine.isRespawning (Game.engine s).
Proof. reflexivity. Qed.

Lemma new_respawning (canvasWidth canvasHeight : Q) (d : Game.Draws) (s : Game.t) :
  Game.new canvasWidth canvasHeight d = MazeGenerator.Ok s ->
  GameEngine.isRespawning (Game.engine s) = false.
Proof.
  unfold Game.new. cbv zeta. intros Hnew.
  destruct (generateNewMaze_fields _ _ _ Hnew) as ((_ & _ & _ & _ & Hresp & _) & _).
  exact Hresp.
Qed.

Lemma sampleFirstFrame_ok :
  Game.update (Game.start sampleGame) 16 sampleDraws = MazeGenerator.Ok sampleFirstFrame.
Proof. apply result_of_isOk. vm_compute. reflexivity. Qed.

(** X29.  In a game that the constructor set up for a canvas of
    non-negative size, after every frame that finds the game running and
    not respawning the player's position lies in the rectangle of the
    camera: [worldToScreen] of it is a point of the canvas.  The camera
    does not go left of or above the maze. *)
Theorem player_is_on_screen (canvasWidth canvasHeight : Q) (d d' : Game.Draws)
    (evs : list GameEvent) (deltaTime : Q) (s0 s s' : Game.t) :
  0 <= canvasWidth -> 0 <= canvasHeight ->
  Game.new canvasWidth canvasHeight d = MazeGenerator.Ok s0 ->
  runGame s0 evs = MazeGenerator.Ok s ->
  GameEngine.isRunning (Game.engine s) = true ->
  GameEngine.isRespawning (Game.engine s) = false ->
  Game.update s deltaTime d' = MazeGenerator.Ok s' ->
  let p := GameEngine.player (Game.engine s') in
  let screen := Camera.worldToScreen (Game.camera s') (Player.x p) (Player.y p) in
  0 <= fst screen <= canvasWidth /\ 0 <= snd screen <= canvasHeight /\
  0 <= Camera.x (Game.camera s') /\ 0 <= Camera.y (Game.camera s').
Proof.
  intros Hcw Hch Hnew Hrun Hrunning Hresp Hupd.
  pose proof (runGame_inv evs s0 s (new_inv _ _ _ _ Hnew) Hrun) as Hinv.
  pose proof (update_inv s s' deltaTime d' Hinv Hupd) as (Hready & Hclear & _).
  destruct Hready as (Hcs & Hrm & Hw & Hh & _ & _ & Hr).
  assert (Hcanvas : Camera.width (Game.camera s) = canvasWidth /\
                    Camera.height (Game.camera s) = canvasHeight).
  { destruct (runGame_canvas evs s0 s Hrun) as [-> ->].
    unfold Game.new in Hnew. cbv zeta in Hnew.
    by rewrite (generateNewMaze_camera _ _ _ Hnew). }
  destruct Hcanvas as [Wc Hc].
  set (r := Game.mazeRenderer s') in *.
  set (p := GameEngine.player (Game.engine s')) in *.
  assert (Hpos : 0 < MazeRenderer.cellSize r) by by rewrite Hcs.
  assert (Hw0 : (0 < MazeGenerator.width (Game.mazeGenerator s'))%Z) by lia.
  assert (Hh0 : (0 < MazeGenerator.height (Game.mazeGenerator s'))%Z) by lia.
  destruct (mazeRows_size _ _ r Hw0 Hh0 Hrm) as [Mw Mh].
  unfold playerClear, Player.canMoveToPosition in Hclear. fold p in Hclear.
  rewrite Hr in Hclear. apply cornersFree_spec in Hclear as (C1 & _ & _ & C4).
  destruct (free_point_inside r _ _ _ Hrm Hpos C1) as [[X1 _] [Y1 _]].
  destruct (free_point_inside r _ _ _ Hrm Hpos C4) as [[_ X2] [_ Y2]].
  unfold Player.size in *.
  assert (Hx : 0 <= Player.x p <= fst (MazeRenderer.getMazeDimensions r)) by lraQ.
  assert (Hy : 0 <= Player.y p <= snd (MazeRenderer.getMazeDimensions r)) by lraQ.
  unfold Game.update in Hupd. rewrite Hrunning, Hresp in Hupd. cbn [negb orb] in Hupd.
  cbv zeta in Hupd.
  destruct (Game.handlePelletCollection _ d') as [s2|msg] eqn:Hcol; [|discriminate].
  apply handlePelletCollection_camera in Hcol. cbn [Game.camera Game.withEngine] in Hcol.
  injection Hupd as Hs'.
  assert (Hcam : Game.camera s'
                 = Camera.updateCamera r (Game.camera s2) (Player.x p) (Player.y p)).
  { unfold r, p. by rewrite <- Hs'. }
  rewrite Hcam. unfold Camera.worldToScreen, Camera.updateCamera.
  unfold MazeRenderer.getMazeDimensions in Hx, Hy. cbn [fst snd] in Hx, Hy.
  rewrite Hrm. rewrite (bool_decide_eq_true_2 _ (mk_is_Some _ _ eq_refl)).
  destruct (Z.ltb_spec 0 (MazeRenderer.mazeWidth r)); [|lia].
  destruct (Z.ltb_spec 0 (MazeRenderer.mazeHeight r)); [|lia].
  cbn [andb]. cbv zeta. cbn [fst snd Camera.x Camera.y].
  rewrite Hcol, Wc, Hc.
  destruct (clamp_view (Player.x p) _ canvasWidth Hcw Hx) as (A1 & A2 & _).
  destruct (clamp_view (Player.y p) _ canvasHeight Hch Hy) as (B1 & B2 & _).
  cbv zeta in A1, A2, B1, B2.
  repeat split; lra.
Qed.

Lemma player_is_on_screen_witness :
  0 <= 800 /\ 0 <= 600 /\
  Game.new 800 600 sampleDraws = MazeGenerator.Ok sampleGame /\
  runGame sampleGame [Start] = MazeGenerator.Ok (Game.start sampleGame) /\
  GameEngine.isRunning (Game.engine (Game.start sampleGame)) = true /\
  GameEngine.isRespawning (Game.engine (Game.start sampleGame)) = false /\
  Game.update (Game.start sampleGame) 16 sampleDraws = MazeGenerator.Ok sampleFirstFrame /\
  let p := GameEngine.player (Game.engine sampleFirstFrame) in
  let screen := Camera.worldToScreen (Game.camera sampleFirstFrame) (Player.x p) (Player.y p) in
  0 <= fst screen <= 800 /\ 0 <= snd screen <= 600 /\
  0 <= Camera.x (Game.camera sampleFirstFrame) /\ 0 <= Camera.y (Game.camera sampleFirstFrame).
Proof.
  assert (H1 : 0 <= 800) by (vm_compute; discriminate).
  assert (H2 : 0 <= 600) by (vm_compute; discriminate).
  assert (H3 : runGame sampleGame [Start] = MazeGenerator.Ok (Game.start sampleGame))
    by reflexivity.
  assert (H4 : GameEngine.isRunning (Game.engine (Game.start sampleGame)) = true)
    by reflexivity.
  assert (H5 : GameEngine.isRespawning (Game.engine (Game.start sampleGame)) = false).
  { rewrite start_respawning. exact (new_respawning _ _ _ _ sampleGame_new). }
  split; [exact H1|]. split; [exact H2|]. split; [exact sampleGame_new|].
  split; [exact H3|]. split; [exact H4|]. split; [exact H5|].
  split; [exact sampleFirstFrame_ok|].
  exact (player_is_on_screen 800 600 sampleDraws sampleDraws [Start] 16
           sampleGame (Game.start sampleGame) sampleFirstFrame
           H1 H2 sampleGame_new H3 H4 H5 sampleFirstFrame_ok).
Defined.

